(* ===== verification/_CoqProject ===== *)
-Q . S2P
Prelude.v
Go.v
Events.v
Diode.v
Diodes.v
TruncatingBuffer.v
Sinks.v
SyslogWriter.v
StreamingSinks.v
GroupedSinks.v
Blacklist.v
SinkManager.v
AppServices.v
Router.v
Averager.v
Conversion.v
ConversionRoundTrip.v
MetronV1.v
NetworkReader.v
BatchWriter.v
MetronV2.v
ClientPool.v
GrpcConnector.v
DopplerStreams.v
Http.v
DrainBinder.v
BinderElection.v
Auth.v
Proxy.v
ProxySession.v
KeepAlive.v
MetricEmitter.v
MetronEgress.v
GrpcServer.v
Tls.v
Rlp.v
Finder.v
WebsocketServer.v
Config.v
Doppler.v
EndToEnd.v
FullPath.v
Process.v
Processes.v
RlpApp.v
Probe.v
Lifecycle.v
Linter.v
Reliability.v
Latency.v
Benchmark.v
BenchCommands.v
Tools.v
