(* ===== verification/Prelude.v ===== *)
(** * Loggregator: a verification development

    Loggregator moves logs and metrics of Cloud Foundry applications.  Applications and
    components send dropsonde (v1) datagrams or v2 gRPC streams to [metron] on their
    machine; metron aggregates counters, tags and batches envelopes and sends them to a
    [doppler]; doppler routes each envelope to the sinks registered for its application
    (recent-logs and container-metric caches, syslog drains, websockets), to the firehoses
    and to gRPC subscriptions; the traffic controller and the reverse log proxy connect to
    all dopplers and serve users; the syslog drain binder writes the drains of all
    applications into etcd, from which doppler's watcher reads them.  The sources are under
    src/code.cloudfoundry.org/loggregator, the tools under src/tools; file names below are
    relative to the former, those of the tools to src.

    ** Conventions

    Each component is a file or a module.  Its state is a record with the source's fields,
    its operations are executable functions named as in the source.  Machine integers are
    integers with the wrap-around written out ([Words]).  A function that can panic
    returns an [outcome], a fallible one a [result] or an [option].  Channels, timers and
    the unspecified iteration order of Go maps are modelled in [Go]: an operation that
    ranges over a map takes the order as an argument, so theorems hold for every order.
    Goroutines are modelled by the atomic steps they take (atomic loads, stores and swaps,
    channel operations, critical sections), and executions are arbitrary sequences of
    steps.  What lies outside the repository (protobuf, DNS, SHA-1, URL parsing, gRPC
    connections, random numbers, clocks) enters through arguments of the definitions.

    ** Files

    - [Prelude]: scope, hint databases, tactics, machine words, list lemmas.
    - [Go]: outcomes, results, channels, timers, map order, strings, decimal numbers.
    - [Events]: v1 ([V1]) and v2 ([V2]) envelopes.
    - [TruncatingBuffer]: doppler/internal/truncatingbuffer.  The buffer in front of every
      slow sink.  Every envelope is delivered, still buffered or counted as dropped; the
      buffer's goroutine never blocks on its output; an overflow leaves the notice at the
      front; the exact size of the error when the consumer drains concurrently.
    - [Sinks]: sinks/dump, sinks/containermetric, sinks/retrystrategy.  The recent-logs sink
      returns the last logs in order; the container-metric sink returns the latest metric
      per instance; bounds of the retry delays.
    - [SyslogWriter]: sinks/syslogwriter.  The octet-counted stream decodes to the messages
      written; the watcher of a replaced connection closes its successor.
    - [StreamingSinks]: sinks/syslog, sinks/websocket.  The syslog sink delivers in order
      and once, and recovers after failures.
    - [GroupedSinks]: groupedsinks.  The registry of sinks and their input channels: no
      send on or close of a closed channel in any execution, the exact effect of a
      broadcast, deletion of everything.
    - [Blacklist]: iprange and sinkserver/blacklist.  The check of drain URLs.
    - [SinkManager]: sinkserver/sinkmanager, sinkserver/metrics.  Gauges and goroutines match
      the registry; caches exist from the first envelope on; when a drain's removal works;
      the stale goroutine that removes a newer sink.
    - [AppServices]: internal/store.  The additions and removals announced by the drain
      watcher are exactly the changes of its cache.
    - [Router]: grpcmanager/v1 router and ingestor.  Delivery to subscription groups, inverse
      registration.
    - [GrpcServer]: grpcmanager/v1/doppler_server.go.  Concurrent subscription calls over an
      interface of diodes: count, gauge and routing table match the calls, and every value
      set on a call is sent in order, unread, failed or counted as missed.
    - [WebsocketServer]: sinkserver/websocketserver.  Dispatch of requests, and no stream
      left in the registry after its connection has ended.
    - [Doppler]: message_router.go and doppler/main.go.  The composition of the sink manager
      and the gRPC server behind an interface of senders with laws: an envelope reaches every
      sink and subscription it is meant for after any history of all components, or is
      counted as shed by the ingress diode.
    - [Averager]: plumbing/envelope_averager.go.  No update is lost under concurrency.
    - [Conversion], [ConversionRoundTrip]: plumbing/conversion, over a heap of tag maps.
      What survives the conversion to v2 and back, with deprecated and preferred tags.
    - [Diode]: the lossy rings between goroutines, as an interface with laws, and the account
      of the values through one.
    - [Diodes]: diodes.  The typed wrappers of the rings, over a memory of typed cells: no cast
      meets a value of another type, and each wrapper is a diode.
    - [MetronV1]: the stages of metron/internal/ingress/v1 and egress/v1.
    - [NetworkReader]: network_reader.go and eventwriter.go, and the pipeline app_v1.go builds.
      Datagrams and metron's own metrics, interleaved, are accounted for and forwarded once,
      in order, tagged and with counter totals.
    - [BatchWriter]: egress/v1/writer.go.  Framing, and no message lost silently.
    - [MetronV2]: metron/internal/ingress/v2 and egress/v2, and doppler's v2 ingress.  The
      pipeline refines a specification of batches and counter totals.
    - [ClientPool]: metron/internal/clientpool.  Rotation over the connections; with one
      writer connections are closed once and gauges are right; with two one can leak.
    - [MetronEgress]: metron/internal/clientpool/v2 behind the transponder.  With all
      connection managers over one registrar, what goes out is exactly the accepted batches,
      and a batch is refused only after every manager was tried.
    - [GrpcConnector], [DopplerStreams]: plumbing/grpc_connector.go and pool.go.  The
      connector's clients follow the finder's announcements; the pool's connections are
      closed once, and none is leaked when dials end first; streams deliver in order per doppler; reconnection delays.
    - [Http]: HTTP requests, responses and headers shared by the web components.
    - [DrainBinder], [BinderElection]: syslog_drain_binder.  Paging terminates; the drains
      written are those doppler's watcher reads; of several binders at most one is a leader
      confirmed since the leader key last expired, also when requests and answers are lost.
    - [Auth], [Proxy], [ProxySession]: trafficcontroller.  Who may read which logs, the
      handlers and middlewares, the answers to recent-logs and container-metric requests, the
      access log, and the order of a websocket session.
    - [KeepAlive]: the websocket keep-alives of proxy and doppler, over explicit time.
    - [MetricEmitter]: metricemitter, healthendpoint.  No increment is lost or sent twice.
    - [Tls]: plumbing/tls.go.  Which configurations are built, and with which options.
    - [Rlp]: rlp.  Requests and envelopes are converted, and a subscription accounts for
      every envelope.
    - [Finder]: dopplerservice.  The finder's announcements mirror the store; an announced
      doppler is found.
    - [Config]: the configurations of the processes, their checks and defaults.
    - [EndToEnd]: the path from any number of dopplers through the connector to a client of
      the reverse log proxy.  What the client receives of a doppler is what it asked for, in
      the order in which that doppler ingested it and once, and all of it when nothing is lost.
    - [FullPath]: the whole v2 path, from the applications through any number of metrons, their
      connections and the dopplers to a client of the reverse log proxy.  Every envelope the
      client receives was read by some metron, per connection in order, and a log keeps its
      content, source, instance and time.
    - [Process], [Processes]: the main functions of doppler, metron, traffic controller,
      reverse log proxy and drain binder, healthendpoint/server.go, profiler and
      grpc_listener.go, as computations that record what they bind, register and start.
      When doppler comes up, and with which goroutines; which options go unchecked.
    - [RlpApp]: rlp/app.  The life of the reverse log proxy from start to stop: it stops
      cleanly and leaves no client behind; no process panics on an unknown health gauge.
    - [Lifecycle]: listeners/udp_listener.go, monitor, and the timed handlers of the proxy.
      Loops that a call of [Stop] ends, with calls in any order.
    - [Linter]: tools/linter.  The walk of the syntax tree equals a reference definition; the
      listing of a problem.
    - [Reliability], [Latency], [Benchmark]: tools/reliability, tools/latency and the
      experiment of tools/benchmark.  What the tests report against what they received, in
      every interleaving of their goroutines.
    - [BenchCommands]: the messages, readers and commands of tools/benchmark.  The readers
      decode what the generators encode; each cycle of a command reports what arrived in it;
      how many envelopes the stand-in for a doppler sends.
    - [Probe]: tools/rlpwriter and tools/rlpreader with the subscription of the reverse log
      proxy between them.  The indices the reader sees are among those written, in order and
      once, and it reports the last of them.
    - [Tools]: the small servers, generators and readers under tools.  What they answer, how
      they read their parameters, and the inputs on which they panic or spin.

    ** Interfaces

    Components that call others through a Go interface are verified against a class with
    laws, which the implementation discharges: the store adapter ([DrainBinder],
    [BinderElection]), the sender of envelopes and the dumper ([Doppler], [GrpcServer]), the
    converter of the reverse log proxy ([Rlp]), the diode ([Diode], discharged by the wrappers
    of [Diodes] from the laws of the ring behind them), and the operating system
    and packages the processes start with ([Process]).

    ** Bounds and fuel

    Loops over lists and maps are folds; loops that wait for events are one definition per
    turn, and theorems quantify over all sequences of turns.  [unframe] in [BatchWriter]
    takes the length of its input as fuel, and each frame consumes at least four bytes, so
    the fuel suffices ([unframe_frame]).  The paging loop of [DrainBinder] has fuel, and
    [poll_terminates] shows how much is enough and that more changes nothing.  Splitting a
    string takes its length as fuel; each cut consumes a character.  Capacities and limits
    are those of the source.

    ** Not modelled

    Sockets, TLS handshakes, HTTP and gRPC transport; command line flags; generated protobuf
    code; the third-party diodes, etcd adapter, signature verifier, unmarshaller pool and
    metric batcher; log output; the times at which tickers fire; test servers, fakes and
    acceptance tests, which are not part of a running system.  Of the benchmarks: the averages
    in floating point, the wait for a first message during warm-up, and the text around the
    numbers of a report. *)

From stdpp Require Export base tactics gmap strings list sorting.
From Stdlib Require Export ZArith Lia.

(** ** Scope, tactics and hint databases of the development *)

#[global] Arguments Z.pow : simpl never.
#[global] Arguments Z.of_nat : simpl never.
#[global] Arguments Z.add : simpl never.
#[global] Arguments Z.sub : simpl never.

Declare Scope go_scope.
Delimit Scope go_scope with go.

Create HintDb loggregator.
Create Rewrite HintDb words.
#[export] Hint Constants Opaque : loggregator.

Module Words.

Local Open Scope Z_scope.

(** An unsigned machine word of width [w], as the residue in [0, 2^w). *)
Definition wrap (w x : Z) : Z := x mod 2 ^ w.

(** A signed machine word of width [w] (two's complement). *)
Definition swrap (w x : Z) : Z :=
  let u := x mod 2 ^ w in
  if decide (u < 2 ^ (w - 1)) then u else u - 2 ^ w.

Abbreviation uint16 := (wrap 16).
Abbreviation uint32 := (wrap 32).
Abbreviation uint64 := (wrap 64).
Abbreviation int32 := (swrap 32).
Abbreviation int64 := (swrap 64).

Definition add (w x y : Z) : Z := wrap w (x + y).
Definition sub (w x y : Z) : Z := wrap w (x - y).

Lemma wrap_bounds w x : 0 <= w -> 0 <= wrap w x < 2 ^ w.
Proof. intros; apply Z.mod_pos_bound, Z.pow_pos_nonneg; lia. Qed.

Lemma wrap_small w x : 0 <= x < 2 ^ w -> wrap w x = x.
Proof. intros; by apply Z.mod_small. Qed.

Lemma wrap_wrap w x : 0 <= w -> wrap w (wrap w x) = wrap w x.
Proof. intros; by apply wrap_small, wrap_bounds. Qed.

Lemma wrap_add_l w x y : 0 <= w -> wrap w (wrap w x + y) = wrap w (x + y).
Proof.
  intros; unfold wrap. rewrite Zplus_mod_idemp_l. done.
Qed.

Lemma wrap_add_r w x y : 0 <= w -> wrap w (x + wrap w y) = wrap w (x + y).
Proof. intros; unfold wrap. rewrite Zplus_mod_idemp_r. done. Qed.

Lemma wrap_sub_wrap w x y : 0 <= w -> wrap w (wrap w x - wrap w y) = wrap w (x - y).
Proof. intros; unfold wrap. by rewrite <- Zminus_mod. Qed.

Lemma add_small w x y : 0 <= x + y < 2 ^ w -> add w x y = x + y.
Proof. apply wrap_small. Qed.

Lemma sub_small w x y : 0 <= x - y < 2 ^ w -> sub w x y = x - y.
Proof. apply wrap_small. Qed.

Lemma add_bounds w x y : 0 <= w -> 0 <= add w x y < 2 ^ w.
Proof. apply wrap_bounds. Qed.

Lemma sub_bounds w x y : 0 <= w -> 0 <= sub w x y < 2 ^ w.
Proof. apply wrap_bounds. Qed.

Lemma swrap_small w x :
  0 < w -> - 2 ^ (w - 1) <= x < 2 ^ (w - 1) -> swrap w x = x.
Proof.
  intros Hw Hx. unfold swrap.
  assert (2 ^ w = 2 * 2 ^ (w - 1)) as Hpow.
  { rewrite <- Z.pow_succ_r by lia. f_equal. lia. }
  destruct (decide (0 <= x)) as [Hpos|Hneg].
  - rewrite Z.mod_small by lia. by rewrite decide_True by lia.
  - assert (x mod 2 ^ w = x + 2 ^ w) as ->.
    { rewrite <- (Z.mod_small (x + 2 ^ w) (2 ^ w)) by lia.
      rewrite <- (Z_mod_plus_full x 1). f_equal. lia. }
    rewrite decide_False by lia. lia.
Qed.

Lemma swrap_mod w x : 0 <= w -> swrap w x mod 2 ^ w = x mod 2 ^ w.
Proof.
  intros Hw. unfold swrap. assert (2 ^ w <> 0) by (apply Z.pow_nonzero; lia).
  destruct (decide _); [by apply Zmod_mod|].
  replace (x mod 2 ^ w - 2 ^ w) with (x mod 2 ^ w + (-1) * 2 ^ w) by lia.
  by rewrite Z_mod_plus_full, Zmod_mod.
Qed.

(** Signed arithmetic wraps only once. *)
Lemma swrap_add w x y : 0 <= w -> swrap w (swrap w x + y) = swrap w (x + y).
Proof.
  intros Hw. unfold swrap at 1 3. assert ((swrap w x + y) mod 2 ^ w = (x + y) mod 2 ^ w) as ->; [|done].
  by rewrite <- Zplus_mod_idemp_l, swrap_mod, Zplus_mod_idemp_l.
Qed.

End Words.

#[export] Hint Rewrite Words.wrap_small Words.add_small Words.sub_small using lia : words.

(** [break] splits every [match]/[if] scrutinee of the goal, then simplifies. *)
Ltac break := repeat case_match; simplify_eq/=; try done.

(** [word_lia] removes the wrap-arounds that cannot happen and calls [lia]. *)
Ltac word_lia :=
  repeat first
    [ rewrite Words.add_small by lia
    | rewrite Words.sub_small by lia
    | rewrite Words.wrap_small by lia ];
  try lia.

(** ** Generic lemmas on lists *)

Module ListFacts.

Lemma drop_app_suffix {A} (l k : list A) n :
  exists m, drop n (l ++ k) = drop m l ++ drop (n - length l) k.
Proof. exists n. by rewrite drop_app. Qed.

Lemma suffix_drop {A} (l : list A) n : drop n l `suffix_of` l.
Proof. exists (take n l). by rewrite take_drop. Qed.

Lemma suffix_is_drop {A} (l k : list A) :
  l `suffix_of` k -> l = drop (length k - length l) k.
Proof.
  intros [p ->]. rewrite length_app, Nat.add_sub, drop_app_length. done.
Qed.

Lemma suffix_drop_trans {A} (l k : list A) n :
  l `suffix_of` k -> drop n l `suffix_of` k.
Proof. intros H. etrans; [apply suffix_drop|done]. Qed.

(** The last [n] elements of a list. *)
Definition lastn {A} (n : nat) (l : list A) : list A := drop (length l - n) l.

Lemma lastn_length {A} n (l : list A) : length (lastn n l) = Nat.min n (length l).
Proof. unfold lastn. rewrite length_drop. lia. Qed.

Lemma lastn_snoc {A} n (l : list A) x :
  0 < n -> n <= length l -> lastn n (l ++ [x]) = tail (lastn n l) ++ [x].
Proof.
  intros Hn Hl. unfold lastn. rewrite length_app. simpl.
  rewrite drop_app_le by lia. f_equal.
  replace (length l + 1 - n) with (S (length l - n)) by lia.
  rewrite <- Nat.add_1_r, <- drop_drop. by destruct (drop (length l - n) l).
Qed.

Lemma lastn_app_pad {A} n (p l : list A) :
  length p = n -> lastn n (p ++ l) = drop (length l) p ++ lastn n l.
Proof.
  intros <-. unfold lastn. rewrite length_app.
  replace (length p + length l - length p) with (length l) by lia.
  by rewrite drop_app.
Qed.

Lemma lastn_fmap {A B} (f : A -> B) n (l : list A) : lastn n (f <$> l) = f <$> lastn n l.
Proof. unfold lastn. by rewrite length_fmap, fmap_drop. Qed.

Lemma filter_ext_bool {A} (f g : A -> bool) (l : list A) :
  (forall x, x ∈ l -> f x = g x) -> filter f l = filter g l.
Proof.
  induction l as [|x l IH]; intros H; [done|]. rewrite !filter_cons.
  rewrite (IH (fun y Hy => H y (list_elem_of_further _ _ _ Hy))).
  apply decide_ext. by rewrite (H x (list_elem_of_here _ _)).
Qed.

Lemma elem_of_delete_ne {A} (l : list A) i x y :
  l !! i = Some y -> x ∈ l -> x <> y -> x ∈ delete i l.
Proof.
  intros Hi Hx Hne. rewrite <- (take_drop_middle l i y Hi) in Hx.
  rewrite delete_take_drop. set_solver.
Qed.

End ListFacts.
