(* ===== verification/Go.v ===== *)
(** * The fragment of Go the modelled code uses

    Buffered channels, the unspecified iteration order of maps, [strings],
    [strconv] and [encoding/binary] helpers.  Everything is executable. *)

From Stdlib Require Import Ascii DecimalString DecimalPos DecimalZ.
From S2P Require Import Prelude.

(** ** Outcomes of code that may panic *)

Inductive outcome (A : Type) : Type :=
| Returns (a : A)
| Panics (why : string).
Arguments Returns {A} _.
Arguments Panics {A} _.

Definition obind {A B} (o : outcome A) (f : A -> outcome B) : outcome B :=
  match o with Returns a => f a | Panics w => Panics w end.

Notation "'let!' x := o 'in' k" := (obind o (fun x => k))
  (at level 10, x pattern, o at level 100, k at level 200) : go_scope.

(** [for _, x := range l { body }] over a state, stopping at a panic. *)
Fixpoint ofold {A S} (f : S -> A -> outcome S) (l : list A) (s : S) : outcome S :=
  match l with
  | [] => Returns s
  | x :: l => obind (f s x) (ofold f l)
  end.

(** A loop whose body returns and keeps [P] returns and keeps [P]. *)
Lemma ofold_returns {A S} (P : S -> Prop) (f : S -> A -> outcome S) l s :
  (forall s x, P s -> x ∈ l -> exists s', f s x = Returns s' /\ P s') ->
  P s -> exists s', ofold f l s = Returns s' /\ P s'.
Proof.
  revert s. induction l as [|x l IH]; intros s Hf Hs; simpl; [eauto|].
  destruct (Hf s x Hs) as (s1 & -> & H1); [set_solver|]. simpl.
  apply IH; [|done]. intros s2 y H2 Hy. apply Hf; [done|set_solver].
Qed.

Lemma ofold_app {A S} (f : S -> A -> outcome S) l k s :
  ofold f (l ++ k) s = obind (ofold f l s) (ofold f k).
Proof. revert s. induction l as [|x l IH]; intros s; simpl; [done|]. destruct (f s x); simpl; auto. Qed.

(** ** Errors as values: [(T, error)] results *)

Inductive result (A : Type) : Type :=
| Ok (a : A)
| Err (msg : string).
Arguments Ok {A} _.
Arguments Err {A} _.

Definition is_ok {A} (r : result A) : bool :=
  match r with Ok _ => true | Err _ => false end.

(** ** Buffered channels *)

Module Chan.

Record t (A : Type) : Type := mk { cap : nat; buf : list A; closed : bool }.
Arguments mk {A} _ _ _.
Arguments cap {A} _.
Arguments buf {A} _.
Arguments closed {A} _.

(** [make(chan A, n)] *)
Definition make (A : Type) (n : nat) : t A := mk n [] false.

Inductive send_status (A : Type) : Type :=
| Sent (c : t A)
| Full
| SendOnClosed.
Arguments Sent {A} _.
Arguments Full {A}.
Arguments SendOnClosed {A}.

(** One attempt at [c <- x]: a closed channel panics, a full one is not ready. *)
Definition try_send {A} (c : t A) (x : A) : send_status A :=
  if closed c then SendOnClosed
  else if decide (length (buf c) < cap c) then Sent (mk (cap c) (buf c ++ [x]) false)
  else Full.

Inductive recv_status (A : Type) : Type :=
| Received (x : A) (c : t A)
| Drained
| Empty.
Arguments Received {A} _ _.
Arguments Drained {A}.
Arguments Empty {A}.

(** One attempt at [x, ok := <-c]: [Drained] is the zero value with [ok = false]. *)
Definition try_recv {A} (c : t A) : recv_status A :=
  match buf c with
  | x :: r => Received x (mk (cap c) r (closed c))
  | [] => if closed c then Drained else Empty
  end.

(** [close(c)]; [None] is the panic on a channel that is already closed. *)
Definition close {A} (c : t A) : option (t A) :=
  if closed c then None else Some (mk (cap c) (buf c) true).

(** The other end of the channel takes up to [n] elements. *)
Definition consume {A} (n : nat) (c : t A) : t A :=
  mk (cap c) (drop n (buf c)) (closed c).

Definition wf {A} (c : t A) : Prop := length (buf c) <= cap c.

Lemma make_wf A n : wf (make A n).
Proof. unfold wf; simpl; lia. Qed.

Lemma try_send_wf {A} (c c' : t A) x : try_send c x = Sent c' -> wf c'.
Proof.
  unfold try_send, wf. intros H. break. rewrite length_app. simpl. lia.
Qed.

Lemma try_send_open {A} (c : t A) x :
  closed c = false -> length (buf c) < cap c ->
  try_send c x = Sent (mk (cap c) (buf c ++ [x]) false).
Proof. unfold try_send. intros -> H. by rewrite decide_True. Qed.

Lemma try_send_full {A} (c : t A) x :
  closed c = false -> cap c <= length (buf c) -> try_send c x = Full.
Proof. unfold try_send. intros -> H. by rewrite decide_False by lia. Qed.

Lemma consume_wf {A} n (c : t A) : wf c -> wf (consume n c).
Proof. unfold wf, consume; simpl. rewrite length_drop. lia. Qed.

End Chan.

(** ** Timers

    A [time.Timer] and its channel [C] of capacity one.  The runtime sends without
    blocking when the timer expires; [Stop] and [Reset] do not touch the channel. *)

Module Timer.

Record t : Type := mk { active : bool; fired : bool }.

Definition NewTimer : t := mk true false.

(** The runtime: the duration has elapsed. *)
Definition expire (x : t) : t := if active x then mk false true else x.

(** [Stop] returns whether the timer was active. *)
Definition Stop (x : t) : t * bool := (mk false (fired x), active x).

Definition Reset (x : t) : t := mk true (fired x).

(** [<-timer.C]; [None] blocks. *)
Definition recv (x : t) : option t := if fired x then Some (mk (active x) false) else None.

(** What holds of a timer nobody else drains: it is running or its value is in [C]. *)
Definition live (x : t) : Prop := active x = negb (fired x).

End Timer.

(** ** Map iteration

    Go leaves the iteration order of a map unspecified.  An order is any function
    listing a map's entries; operations that [range] over a map take one, so each
    theorem holds whatever order the runtime picks. *)

Record RangeOrder (K : Type) `{Countable K} : Type := {
  range_map : forall {V : Type}, gmap K V -> list (K * V);
  range_perm : forall {V : Type} (m : gmap K V), range_map m ≡ₚ map_to_list m
}.
Arguments range_map {K _ _} _ {V} _.
Arguments range_perm {K _ _} _ {V} _.

(** One legal order, for evaluation. *)
Program Definition default_order {K} `{Countable K} : RangeOrder K :=
  {| range_map := fun V m => map_to_list m |}.
Next Obligation. done. Qed.

(** Another one, which visits the entries backwards. *)
Program Definition reverse_order {K} `{Countable K} : RangeOrder K :=
  {| range_map := fun V m => reverse (map_to_list m) |}.
Next Obligation. intros. simpl. apply reverse_Permutation. Qed.

Section RangeLemmas.
Context {K : Type} `{Countable K} (ord : RangeOrder K).

Lemma range_elem {V} (m : gmap K V) k v : (k, v) ∈ range_map ord m <-> m !! k = Some v.
Proof. rewrite (range_perm ord m). apply elem_of_map_to_list. Qed.

Lemma range_length {V} (m : gmap K V) : length (range_map ord m) = size m.
Proof. rewrite (range_perm ord m). apply length_map_to_list. Qed.

Lemma range_keys_NoDup {V} (m : gmap K V) : NoDup (range_map ord m).*1.
Proof. rewrite (range_perm ord m). apply NoDup_fst_map_to_list. Qed.

Lemma range_NoDup {V} (m : gmap K V) : NoDup (range_map ord m).
Proof. rewrite (range_perm ord m). apply NoDup_map_to_list. Qed.

End RangeLemmas.

(** ** Strings *)

Module Str.

Fixpoint drop_n (n : nat) (s : string) : string :=
  match n, s with
  | S n, String _ s => drop_n n s
  | _, _ => s
  end.

(** [strings.HasPrefix] *)
Fixpoint HasPrefix (s p : string) : bool :=
  match p, s with
  | EmptyString, _ => true
  | String a p, String b s => if ascii_dec a b then HasPrefix s p else false
  | String _ _, EmptyString => false
  end.

(** [strings.TrimPrefix] *)
Definition TrimPrefix (s p : string) : string :=
  if HasPrefix s p then drop_n (String.length p) s else s.

(** [strings.Split] on a one-byte separator. *)
Fixpoint Split (s : string) (sep : ascii) : list string :=
  match s with
  | EmptyString => [EmptyString]
  | String a s' =>
      if ascii_dec a sep then EmptyString :: Split s' sep
      else match Split s' sep with
           | [] => [String a EmptyString]
           | w :: ws => String a w :: ws
           end
  end.

(** [strings.Join] with a one-byte separator. *)
Fixpoint Join (l : list string) (sep : ascii) : string :=
  match l with
  | [] => EmptyString
  | [w] => w
  | w :: ws => (w +:+ String sep (Join ws sep))
  end.

(** [strings.IndexByte]-style search. *)
Fixpoint IndexOf (s : string) (c : ascii) : option nat :=
  match s with
  | EmptyString => None
  | String a s' => if ascii_dec a c then Some 0 else S <$> IndexOf s' c
  end.

Fixpoint take_n (n : nat) (s : string) : string :=
  match n, s with
  | S n, String a s => String a (take_n n s)
  | _, _ => EmptyString
  end.

Definition empty (s : string) : bool :=
  match s with EmptyString => true | _ => false end.

Lemma HasPrefix_app p s : HasPrefix (p +:+ s) p = true.
Proof. induction p as [|a p IH]; simpl; [by destruct s|]. by destruct (ascii_dec a a). Qed.

Lemma drop_n_app p s : drop_n (String.length p) (p +:+ s) = s.
Proof. induction p as [|a p IH]; simpl; [by destruct s|]. done. Qed.

Lemma TrimPrefix_app p s : TrimPrefix (p +:+ s) p = s.
Proof. unfold TrimPrefix. by rewrite HasPrefix_app, drop_n_app. Qed.

Lemma HasPrefix_spec s p : HasPrefix s p = true <-> exists r, s = p +:+ r.
Proof.
  split; [|intros [r ->]; apply HasPrefix_app].
  revert s. induction p as [|a p IH]; intros s; simpl; [intros; by exists s|].
  destruct s as [|b s]; simpl; [done|]. destruct (ascii_dec a b) as [->|]; simpl; [|done].
  intros [r ->]%IH. by exists r.
Qed.

Lemma Split_nonempty s c : Split s c <> [].
Proof. destruct s as [|a s]; simpl; [done|]. break. Qed.

Lemma Split_no_sep s c : IndexOf s c = None -> Split s c = [s].
Proof.
  induction s as [|a s IH]; simpl; [done|].
  destruct (ascii_dec a c); [done|]. intros H.
  destruct (IndexOf s c); [done|]. by rewrite IH.
Qed.

Lemma Split_cons w s c :
  IndexOf w c = None -> Split (w +:+ String c s) c = w :: Split s c.
Proof.
  induction w as [|a w IH]; simpl; [by destruct (ascii_dec c c)|].
  destruct (ascii_dec a c) as [|n]; [done|]. intros H.
  destruct (IndexOf w c); [done|].
  change (String.append w (String c s)) with (w +:+ String c s).
  by rewrite IH.
Qed.

(** [strings.Split(strings.Join(l, sep), sep) = l] when no word holds the separator. *)
Lemma Split_Join l c :
  l <> [] -> Forall (fun w => IndexOf w c = None) l -> Split (Join l c) c = l.
Proof.
  induction l as [|w l IH]; [done|]. intros _ Hall. inversion Hall as [|? ? Hw Hl]; subst.
  destruct l as [|w' l]; [by apply Split_no_sep|].
  change (Join (w :: w' :: l) c) with (w +:+ String c (Join (w' :: l) c)).
  rewrite Split_cons by done. by rewrite IH.
Qed.

Lemma length_append s r : String.length (s +:+ r) = String.length s + String.length r.
Proof. induction s as [|a s IH]; simpl; [done|]. by f_equal. Qed.

Lemma append_assoc s r u : (s +:+ r) +:+ u = s +:+ (r +:+ u).
Proof. induction s as [|a s IH]; simpl; [done|]. unfold String.app in *. simpl. by f_equal. Qed.

Lemma append_nil_r s : s +:+ EmptyString = s.
Proof. induction s as [|a s IH]; simpl; [done|]. unfold String.app in *. simpl. by f_equal. Qed.

Lemma IndexOf_app_None s r c :
  IndexOf s c = None -> IndexOf r c = None -> IndexOf (s +:+ r) c = None.
Proof.
  induction s as [|a s IH]; simpl; [done|]. destruct (ascii_dec a c); [done|].
  destruct (IndexOf s c); [done|]. intros _ Hr.
  change (String.append s r) with (s +:+ r). by rewrite IH.
Qed.

(** The first separator after a prefix without separators. *)
Lemma IndexOf_app_hit s r c :
  IndexOf s c = None -> IndexOf (s +:+ String c r) c = Some (String.length s).
Proof.
  induction s as [|a s IH]; simpl; [by destruct (ascii_dec c c)|].
  destruct (ascii_dec a c); [done|]. destruct (IndexOf s c); [done|]. intros _.
  change (String.append s (String c r)) with (s +:+ String c r). by rewrite IH.
Qed.

Lemma take_n_app p s : take_n (String.length p) (p +:+ s) = p.
Proof.
  induction p as [|a p IH]; simpl; [done|].
  change (String.append p s) with (p +:+ s). by rewrite IH.
Qed.

End Str.

(** ** Numbers in decimal *)

Module Strconv.
Local Open Scope Z_scope.

(** [strconv.Itoa] and the verb [%d]. *)
Definition Itoa (z : Z) : string := NilZero.string_of_int (Z.to_int z).

Definition all_digits (s : string) : option Z :=
  Z.of_uint <$> NilEmpty.uint_of_string s.

(** [strconv.ParseInt(s, 10, w)]: an optional sign, at least one digit, and a value that
    fits [w] bits; [None] stands for the error. *)
Definition ParseInt (s : string) (w : Z) : option Z :=
  let '(neg, digits) :=
    match s with
    | String "-" r => (true, r)
    | String "+" r => (false, r)
    | _ => (false, s)
    end in
  if Str.empty digits then None
  else match all_digits digits with
       | None => None
       | Some n =>
           let v := if neg then - n else n in
           if decide (- 2 ^ (w - 1) <= v < 2 ^ (w - 1)) then Some v else None
       end.

Fixpoint digits_only (s : string) : bool :=
  match s with
  | EmptyString => true
  | String c s => bool_decide (48 <= Z.of_nat (nat_of_ascii c) <= 57) && digits_only s
  end.

Lemma string_of_uint_digits d : digits_only (NilEmpty.string_of_uint d) = true.
Proof. induction d; simpl; by rewrite ?IHd. Qed.

Lemma Itoa_nonneg z : 0 <= z ->
  exists d, Itoa z = NilEmpty.string_of_uint d /\ Z.of_uint d = z /\ Itoa z <> EmptyString.
Proof.
  intros Hz. unfold Itoa.
  destruct z as [|p|p]; [by exists (Decimal.D0 Decimal.Nil)| |lia].
  simpl Z.to_int. exists (Pos.to_uint p).
  assert (Pos.to_uint p <> Decimal.Nil) as Hnil by apply DecimalPos.Unsigned.to_uint_nonnil.
  unfold NilZero.string_of_int, NilZero.string_of_uint.
  split_and!; [by destruct (Pos.to_uint p)| |by destruct (Pos.to_uint p)].
  unfold Z.of_uint. by rewrite DecimalPos.Unsigned.of_to.
Qed.

Lemma Itoa_all_digits z : 0 <= z -> all_digits (Itoa z) = Some z.
Proof.
  intros (d & -> & <- & _)%Itoa_nonneg. unfold all_digits. by rewrite NilEmpty.usu.
Qed.

Lemma digits_only_no_char s c :
  digits_only s = true -> ~ (48 <= Z.of_nat (nat_of_ascii c) <= 57) -> Str.IndexOf s c = None.
Proof.
  intros Hs Hc. induction s as [|a s IH]; simpl in *; [done|].
  apply andb_true_iff in Hs as [Ha%bool_decide_eq_true Hs].
  destruct (ascii_dec a c) as [->|]; [done|]. by rewrite IH.
Qed.

Lemma Itoa_no_char z c :
  0 <= z -> ~ (48 <= Z.of_nat (nat_of_ascii c) <= 57) -> Str.IndexOf (Itoa z) c = None.
Proof.
  intros (d & -> & _ & _)%Itoa_nonneg. apply digits_only_no_char, string_of_uint_digits.
Qed.

(** [ParseInt(Itoa(z), 10, w) = z] *)
Lemma ParseInt_Itoa z w : 0 <= z < 2 ^ (w - 1) -> ParseInt (Itoa z) w = Some z.
Proof.
  intros Hz. pose proof (Itoa_all_digits z ltac:(lia)) as Hd.
  destruct (Itoa_nonneg z) as (d & E & _ & Hne); [lia|].
  pose proof (string_of_uint_digits d) as Hdig. rewrite <- E in Hdig.
  unfold ParseInt. destruct (Itoa z) as [|c s]; [done|]. simpl in Hdig.
  apply andb_true_iff in Hdig as [Hc%bool_decide_eq_true _].
  assert ((match String c s with
    | String "-" r => (true, r) | String "+" r => (false, r) | _ => (false, String c s)
    end) = (false, String c s)) as ->.
  { destruct c as [[] [] [] [] [] [] [] []]; try done;
      destruct Hc as [Hc _]; vm_compute in Hc; by destruct Hc. }
  simpl Str.empty. cbv iota. rewrite Hd. by rewrite decide_True by lia.
Qed.

Lemma ParseInt_Itoa_signed z w : - 2 ^ (w - 1) <= z < 2 ^ (w - 1) -> ParseInt (Itoa z) w = Some z.
Proof.
  intros Hz. destruct (decide (0 <= z)) as [Hpos|Hneg]; [apply ParseInt_Itoa; lia|].
  destruct z as [|p|p]; [lia..|].
  change (Itoa (Z.neg p)) with (String "-" (Itoa (Z.pos p))). unfold ParseInt.
  destruct (Itoa_nonneg (Z.pos p)) as (_ & _ & _ & Hne); [lia|].
  assert (Str.empty (Itoa (Z.pos p)) = false) as -> by (by destruct (Itoa (Z.pos p))).
  rewrite Itoa_all_digits by lia. by rewrite decide_True by lia.
Qed.

End Strconv.
