(* ===== verification/Events.v ===== *)
(** * The envelopes that travel through the system

    [V1] is the dropsonde envelope ([events.Envelope], a type of the sonde-go package the
    sources import): the fields and getters the modelled code uses.  [V2] is the
    loggregator v2 envelope of plumbing/v2/envelope.pb.go.  Optional protobuf fields are
    [option]s, byte slices are byte strings, a [float64] is an IEEE binary64 value.

    The type of the [Tags] field is a parameter: the components that only read tags use
    the finite map itself, the conversions between v1 and v2 use a reference to a map in
    a store, since there Go's maps are aliased and mutated. *)

From Stdlib Require Import SpecFloat.
From S2P Require Import Prelude Go.

Definition float64 : Type := spec_float.

#[global] Instance float64_eq_dec : EqDecision spec_float.
Proof. solve_decision. Defined.

Module V1.

Inductive EventType : Type :=
| Envelope_HttpStartStop
| Envelope_LogMessage
| Envelope_ValueMetric
| Envelope_CounterEvent
| Envelope_Error
| Envelope_ContainerMetric
| Envelope_Unknown (n : Z).

#[global] Instance EventType_eq_dec : EqDecision EventType.
Proof. solve_decision. Defined.

Inductive MessageType : Type := LogMessage_OUT | LogMessage_ERR | LogMessage_Other (n : Z).

#[global] Instance MessageType_eq_dec : EqDecision MessageType.
Proof. solve_decision. Defined.

Record UUID : Type := mkUUID { Low : option Z; High : option Z }.

Record HttpStartStop : Type := mkHttpStartStop {
  StartTimestamp : option Z;
  StopTimestamp : option Z;
  RequestId : option UUID;
  ApplicationId : option UUID;
  PeerType : option Z;
  Method : option Z;
  Uri : option string;
  RemoteAddress : option string;
  UserAgent : option string;
  StatusCode : option Z;
  ContentLength : option Z;
  InstanceIndex : option Z;
  InstanceId : option string;
  Forwarded : list string
}.

Record LogMessage : Type := mkLogMessage {
  lm_Message : string;
  lm_MessageType : option MessageType;
  lm_Timestamp : option Z;
  lm_AppId : option string;
  lm_SourceType : option string;
  lm_SourceInstance : option string
}.

Record ValueMetric : Type := mkValueMetric {
  vm_Name : option string; vm_Value : option float64; vm_Unit : option string }.

Record CounterEvent : Type := mkCounterEvent {
  ce_Name : option string; ce_Delta : option Z; ce_Total : option Z }.

Record Error : Type := mkError {
  er_Source : option string; er_Code : option Z; er_Message : option string }.

Record ContainerMetric : Type := mkContainerMetric {
  cm_ApplicationId : option string;
  cm_InstanceIndex : option Z;
  cm_CpuPercentage : option float64;
  cm_MemoryBytes : option Z;
  cm_DiskBytes : option Z;
  cm_MemoryBytesQuota : option Z;
  cm_DiskBytesQuota : option Z
}.

Record EnvelopeOf (T : Type) : Type := mkEnvelope {
  Origin : option string;
  EventTypeF : option EventType;
  Timestamp : option Z;
  Deployment : option string;
  Job : option string;
  Index : option string;
  Ip : option string;
  Tags : T;
  HttpStartStopF : option HttpStartStop;
  LogMessageF : option LogMessage;
  ValueMetricF : option ValueMetric;
  CounterEventF : option CounterEvent;
  ErrorF : option Error;
  ContainerMetricF : option ContainerMetric
}.
Arguments mkEnvelope {T} _ _ _ _ _ _ _ _ _ _ _ _ _ _.
Arguments Origin {T} _.
Arguments EventTypeF {T} _.
Arguments Timestamp {T} _.
Arguments Deployment {T} _.
Arguments Job {T} _.
Arguments Index {T} _.
Arguments Ip {T} _.
Arguments Tags {T} _.
Arguments HttpStartStopF {T} _.
Arguments LogMessageF {T} _.
Arguments ValueMetricF {T} _.
Arguments CounterEventF {T} _.
Arguments ErrorF {T} _.
Arguments ContainerMetricF {T} _.

Abbreviation Envelope := (EnvelopeOf (gmap string string)).

#[global] Instance UUID_eq_dec : EqDecision UUID.
Proof. solve_decision. Defined.
#[global] Instance HttpStartStop_eq_dec : EqDecision HttpStartStop.
Proof. solve_decision. Defined.
#[global] Instance LogMessage_eq_dec : EqDecision LogMessage.
Proof. solve_decision. Defined.
#[global] Instance ValueMetric_eq_dec : EqDecision ValueMetric.
Proof. solve_decision. Defined.
#[global] Instance CounterEvent_eq_dec : EqDecision CounterEvent.
Proof. solve_decision. Defined.
#[global] Instance Error_eq_dec : EqDecision Error.
Proof. solve_decision. Defined.
#[global] Instance ContainerMetric_eq_dec : EqDecision ContainerMetric.
Proof. solve_decision. Defined.
#[global] Instance EnvelopeOf_eq_dec `{EqDecision T} : EqDecision (EnvelopeOf T).
Proof. solve_decision. Defined.

(** The generated getters: the zero value of an absent field. *)
Definition GetEventType {T} (e : EnvelopeOf T) : EventType :=
  default Envelope_HttpStartStop (EventTypeF e).
Definition GetTimestamp {T} (e : EnvelopeOf T) : Z := default 0%Z (Timestamp e).
Definition GetLogMessage {T} (e : EnvelopeOf T) : option LogMessage := LogMessageF e.
Definition GetInstanceIndex (m : option ContainerMetric) : Z :=
  default 0%Z (m ≫= cm_InstanceIndex).
Definition GetMessageType (m : LogMessage) : MessageType :=
  default LogMessage_OUT (lm_MessageType m).
Definition GetOrigin {T} (e : EnvelopeOf T) : string := default EmptyString (Origin e).

(** An envelope with nothing set, the Go literal [&events.Envelope{}]. *)
Definition empty_envelope {T} (tags : T) : EnvelopeOf T :=
  mkEnvelope None None None None None None None tags None None None None None None.

End V1.

(** ** The v2 envelope *)

Module V2.

(** The [oneof data] of a tag value; [Value_Nil] is a value with no data set. *)
Inductive Value : Type :=
| Value_Text (text : string)
| Value_Integer (i : Z)
| Value_Decimal (d : float64)
| Value_Nil.

Inductive LogType : Type := Log_OUT | Log_ERR | Log_Other (n : Z).

Record Log : Type := mkLog { Payload : string; Type_ : LogType }.

Inductive CounterValue : Type := Counter_Delta (d : Z) | Counter_Total (t : Z) | Counter_Nil.

Record Counter : Type := mkCounter { c_Name : string; c_Value : CounterValue }.

Record GaugeValue : Type := mkGaugeValue { Unit_ : string; g_Value : float64 }.

(** A nil pointer in the map is [None]. *)
Record Gauge : Type := mkGauge { Metrics : gmap string (option GaugeValue) }.

Record Timer : Type := mkTimer { t_Name : string; Start : Z; Stop : Z }.

Inductive Message : Type :=
| Envelope_Log (l : Log)
| Envelope_Counter (c : Counter)
| Envelope_Gauge (g : Gauge)
| Envelope_Timer (t : Timer).

(** [T] is the type of the preferred tags, as for the v1 envelope. *)
Record EnvelopeOf (T : Type) : Type := mkEnvelope {
  Timestamp : Z;
  SourceId : string;
  InstanceId : string;
  DeprecatedTags : gmap string (option Value);
  Tags : T;
  Message_ : option Message
}.
Arguments mkEnvelope {T} _ _ _ _ _ _.
Arguments Timestamp {T} _.
Arguments SourceId {T} _.
Arguments InstanceId {T} _.
Arguments DeprecatedTags {T} _.
Arguments Tags {T} _.
Arguments Message_ {T} _.

#[global] Instance Value_eq_dec : EqDecision Value.
Proof. solve_decision. Defined.
#[global] Instance LogType_eq_dec : EqDecision LogType.
Proof. solve_decision. Defined.
#[global] Instance Log_eq_dec : EqDecision Log.
Proof. solve_decision. Defined.
#[global] Instance CounterValue_eq_dec : EqDecision CounterValue.
Proof. solve_decision. Defined.
#[global] Instance Counter_eq_dec : EqDecision Counter.
Proof. solve_decision. Defined.
#[global] Instance GaugeValue_eq_dec : EqDecision GaugeValue.
Proof. solve_decision. Defined.
#[global] Instance Gauge_eq_dec : EqDecision Gauge.
Proof. solve_decision. Defined.
#[global] Instance Timer_eq_dec : EqDecision Timer.
Proof. solve_decision. Defined.
#[global] Instance Message_eq_dec : EqDecision Message.
Proof. solve_decision. Defined.
#[global] Instance v2_EnvelopeOf_eq_dec `{EqDecision T} : EqDecision (EnvelopeOf T).
Proof. solve_decision. Defined.

Definition GetTotal (c : Counter) : Z := match c_Value c with Counter_Total t => t | _ => 0%Z end.
Definition GetDelta (c : Counter) : Z := match c_Value c with Counter_Delta d => d | _ => 0%Z end.

End V2.
