(* ===== verification/Diode.v ===== *)
(** * The diodes between goroutines

    The package diodes wraps a third-party ring without locks: writers never wait, a reader
    that falls behind misses the oldest values and is told how many.  The ring is an interface
    with laws; [Tally] follows the values through one diode. *)

From S2P Require Import Prelude.

(** [TryNext] answers with the number of values the reader missed, which the diode hands to
    its alerter, and a value if there is one. *)
Class Diode (A D : Type) : Type := {
  NewDiode : D;
  Set_data : A -> D -> D;
  TryNext : D -> D * nat * option A
}.

(** Values are read in the order they were set; the missed ones are those skipped. *)
Class DiodeLaws (A D : Type) `{Diode A D} : Type := {
  unread : D -> list A;
  unread_new : unread NewDiode = [];
  unread_set x d : unread (Set_data x d) = unread d ++ [x];
  unread_none d d' k : TryNext d = (d', k, None) -> unread d' = unread d /\ k = 0;
  unread_some d d' k x : TryNext d = (d', k, Some x) ->
    exists lost, unread d = lost ++ x :: unread d' /\ length lost = k
}.

(** ** A diode that keeps the last [n] values *)

Definition last_values {A} (n : nat) : Diode A (list A) := {|
  NewDiode := [];
  Set_data x d := d ++ [x];
  TryNext d :=
    let k := length d - n in
    match drop k d with
    | [] => (d, 0, None)
    | x :: d' => (d', k, Some x)
    end
|}.

Definition last_values_laws {A} (n : nat) : @DiodeLaws A (list A) (last_values n).
Proof.
  refine (@Build_DiodeLaws A (list A) (last_values n) (fun d => d) _ _ _ _); [done|done|..].
  - intros d d' k. simpl. destruct (drop (length d - n) d); naive_solver.
  - intros d d' k x. simpl. destruct (drop (length d - n) d) as [|y l] eqn:E; [done|]. intros [= <- <- <-].
    exists (take (length d - n) d). rewrite <- E, take_drop, length_take. split; [done|lia].
Defined.

(** ** Values through a diode *)

Section Tally.

Context {A D : Type} `{DiodeLaws A D}.

(** What was set and read, and how many values were missed. *)
Record Tally : Type := mkTally { diode : D; offered : list A; taken : list A; missed : nat }.

Definition empty_tally : Tally := mkTally NewDiode [] [] 0.

Definition put (x : A) (t : Tally) : Tally :=
  mkTally (Set_data x (diode t)) (offered t ++ [x]) (taken t) (missed t).

(** The number of values missed by this read, and the value. *)
Definition take_next (t : Tally) : Tally * nat * option A :=
  let '(d, k, x) := TryNext (diode t) in
  (mkTally d (offered t) (taken t ++ option_list x) (missed t + k), k, x).

Record tally_ok (t : Tally) : Prop := {
  tally_order : (taken t ++ unread (diode t)) `sublist_of` offered t;
  tally_missed : length (offered t) = length (taken t) + length (unread (diode t)) + missed t
}.

Lemma empty_tally_ok : tally_ok empty_tally.
Proof. split; simpl; by rewrite unread_new. Qed.

Lemma put_ok x t : tally_ok t -> tally_ok (put x t).
Proof.
  intros [Ho Hm]. split; simpl; rewrite unread_set.
  - rewrite app_assoc. by apply sublist_app.
  - rewrite !length_app. simpl. lia.
Qed.

Lemma take_next_ok t t' k x : tally_ok t -> take_next t = (t', k, x) -> tally_ok t'.
Proof.
  intros [Ho Hm]. unfold take_next. destruct (TryNext (diode t)) as [[d n] o] eqn:E. intros [= <- <- <-].
  destruct o as [y|]; split; simpl.
  - destruct (unread_some _ _ _ _ E) as (lost & Hu & Hk). rewrite Hu in Ho. rewrite <- app_assoc. etrans; [|exact Ho].
    apply sublist_app; [done|]. by apply sublist_inserts_l.
  - destruct (unread_some _ _ _ _ E) as (lost & Hu & Hk). rewrite Hm, Hu, !length_app. simpl. lia.
  - destruct (unread_none _ _ _ E) as [Hu ->]. by rewrite Hu, app_nil_r.
  - destruct (unread_none _ _ _ E) as [Hu ->]. rewrite Hu, app_nil_r. lia.
Qed.

End Tally.

Arguments Tally : clear implicits.
