(* ===== verification/Diodes.v ===== *)
(** * diodes: typed wrappers of the lossy rings

    Each file of the package wraps a third-party ring that carries untyped pointers
    (gendiodes.GenericDataType is an unsafe pointer) and casts what it reads.  Memory is a list
    of typed cells, a pointer is an index into it.  The wrappers of byte slices store the
    address of their own copy of the slice header; those of envelopes store the envelope's
    address.  [diodes_type_safe] shows that no cast meets a cell of another type, for any
    number of diodes of all kinds over one memory, and [wrapped] that each is a [Diode]. *)

From S2P Require Import Prelude Go Events Diode.

#[local] Open Scope go_scope.

Abbreviation v2_envelope := (V2.EnvelopeOf (gmap string string)).

(** ** Memory *)

Inductive cell : Type := Bytes (data : string) | Env (e : V1.Envelope) | EnvV2 (e : v2_envelope).

Abbreviation Memory := (list cell).

(** A composite literal or a parameter whose address is taken: a cell of its own. *)
Definition new (c : cell) (m : Memory) : Memory * nat := (m ++ [c], length m).

(** The dereference of a pointer cast to a pointer to a byte slice. *)
Definition load_bytes (m : Memory) (p : nat) : outcome string :=
  match m !! p with
  | Some (Bytes s) => Returns s
  | _ => Panics "invalid memory address or nil pointer dereference"
  end.

(** ** The third-party ring *)

(** [gendiodes.NewManyToOne] or [NewOneToOne] behind a [Poller] with its options; [TryNext] is
    as in [Diode], the values missed being what the alerter is told. *)
Inductive writers : Type := ManyWriters | OneWriter.

Class Gendiodes (P : Type) : Type := {
  PollerConfigOption : Type;
  NewPoller : writers -> nat -> list PollerConfigOption -> P;
  PollerSet : nat -> P -> P;
  PollerTryNext : P -> P * nat * option nat
}.

Class GendiodesLaws (P : Type) `{Gendiodes P} : Type := {
  pending : P -> list nat;
  pending_new w n opts : pending (NewPoller w n opts) = [];
  pending_set x d : pending (PollerSet x d) = pending d ++ [x];
  pending_none d d' k : PollerTryNext d = (d', k, None) -> pending d' = pending d /\ k = 0;
  pending_some d d' k x : PollerTryNext d = (d', k, Some x) ->
    exists lost, pending d = lost ++ x :: pending d' /\ length lost = k
}.

(** [Poller.Next] polls [TryNext]; without a value it goes on polling, or answers nil if the
    options gave it a context and that has ended. *)
Definition PollerNext {P} `{Gendiodes P} (d : P) : P * nat * option nat := PollerTryNext d.

Section Cast.

Context {P : Type} `{Gendiodes P}.

(** The slice behind the pointer that a read answers with, if it answers. *)
Definition cast_bytes (m : Memory) (r : P * nat * option nat) : outcome (P * nat * option string) :=
  let '(d, missed, data) := r in
  match data with
  | None => Returns (d, missed, None)
  | Some p => let! s := load_bytes m p in Returns (d, missed, Some s)
  end.

End Cast.

(** ** many_to_one.go *)

Module ManyToOne.
Section Wrapper.
Context {P : Type} `{Gendiodes P}.

Definition NewManyToOne (size : nat) : P := NewPoller ManyWriters size [].

Definition Set_ (data : string) (m : Memory) (d : P) : Memory * P :=
  let '(m, p) := new (Bytes data) m in (m, PollerSet p d).

Definition TryNext (m : Memory) (d : P) : outcome (P * nat * option string) := cast_bytes m (PollerTryNext d).

Definition Next (m : Memory) (d : P) : outcome (P * nat * option string) := cast_bytes m (PollerNext d).
End Wrapper.
End ManyToOne.

(** ** one_to_one.go *)

Module OneToOne.
Section Wrapper.
Context {P : Type} `{Gendiodes P}.

Definition NewOneToOne (size : nat) : P := NewPoller OneWriter size [].

Definition Set_ (data : string) (m : Memory) (d : P) : Memory * P :=
  let '(m, p) := new (Bytes data) m in (m, PollerSet p d).

Definition TryNext (m : Memory) (d : P) : outcome (P * nat * option string) := cast_bytes m (PollerTryNext d).

Definition Next (m : Memory) (d : P) : outcome (P * nat * option string) := cast_bytes m (PollerNext d).
End Wrapper.
End OneToOne.

(** ** The diodes of envelopes: pointers in, pointers out *)

(** many_to_one_envelope.go *)
Module ManyToOneEnvelope.
Section Wrapper.
Context {P : Type} `{Gendiodes P}.

Definition NewManyToOneEnvelope (size : nat) : P := NewPoller ManyWriters size [].
Definition Set_ (data : nat) (d : P) : P := PollerSet data d.
Definition TryNext (d : P) : P * nat * option nat := PollerTryNext d.
Definition Next (d : P) : P * nat * option nat := PollerNext d.
End Wrapper.
End ManyToOneEnvelope.

(** many_to_one_envelope_v2.go *)
Module ManyToOneEnvelopeV2.
Section Wrapper.
Context {P : Type} `{Gendiodes P}.

Definition NewManyToOneEnvelopeV2 (size : nat) : P := NewPoller ManyWriters size [].
Definition Set_ (data : nat) (d : P) : P := PollerSet data d.
Definition TryNext (d : P) : P * nat * option nat := PollerTryNext d.
Definition Next (d : P) : P * nat * option nat := PollerNext d.
End Wrapper.
End ManyToOneEnvelopeV2.

(** one_to_one_envelope_v2.go *)
Module OneToOneEnvelopeV2.
Section Wrapper.
Context {P : Type} `{Gendiodes P}.

Definition NewOneToOneEnvelopeV2 (size : nat) (opts : list PollerConfigOption) : P := NewPoller OneWriter size opts.
Definition Set_ (data : nat) (d : P) : P := PollerSet data d.
Definition TryNext (d : P) : P * nat * option nat := PollerTryNext d.
Definition Next (d : P) : P * nat * option nat := PollerNext d.
End Wrapper.
End OneToOneEnvelopeV2.

(** ** Diodes of all kinds over one memory *)

Inductive kind : Type := KManyToOne | KOneToOne | KManyToOneEnvelope | KManyToOneEnvelopeV2 | KOneToOneEnvelopeV2.

Inductive pointee : Type := TBytes | TEnv | TEnvV2.

Definition carries (k : kind) : pointee :=
  match k with
  | KManyToOne | KOneToOne => TBytes
  | KManyToOneEnvelope => TEnv
  | KManyToOneEnvelopeV2 | KOneToOneEnvelopeV2 => TEnvV2
  end.

Definition type_of (c : cell) : pointee := match c with Bytes _ => TBytes | Env _ => TEnv | EnvV2 _ => TEnvV2 end.

#[export] Instance pointee_eq_dec : EqDecision pointee.
Proof. solve_decision. Defined.

(** The pointer leads to a cell of the type. *)
Definition points_to (t : pointee) (m : Memory) (p : nat) : Prop := type_of <$> m !! p = Some t.

#[export] Instance points_to_dec t m p : Decision (points_to t m p).
Proof. unfold points_to. apply _. Defined.

Section System.

Context {P : Type} `{Gendiodes P} {laws : GendiodesLaws P}.

(** A diode with the pointers set and read, the slices set and read, and the values missed. *)
Record Wrapped : Type := mkWrapped {
  w_kind : kind; w_poller : P; w_set : list nat; w_read : list nat; w_missed : nat;
  w_data : list string; w_got : list string }.

Definition open_diode (k : kind) (size : nat) : Wrapped :=
  mkWrapped k
    (match k with
     | KManyToOne => ManyToOne.NewManyToOne size
     | KOneToOne => OneToOne.NewOneToOne size
     | KManyToOneEnvelope => ManyToOneEnvelope.NewManyToOneEnvelope size
     | KManyToOneEnvelopeV2 => ManyToOneEnvelopeV2.NewManyToOneEnvelopeV2 size
     | KOneToOneEnvelopeV2 => OneToOneEnvelopeV2.NewOneToOneEnvelopeV2 size []
     end) [] [] 0 [] [].

Record Program : Type := mkProgram { memory : Memory; diodes : list Wrapped }.

(** The program makes envelopes and writes to them, and calls the wrappers; [block] is whether
    the reader calls [Next] or [TryNext]. *)
Inductive diode_event : Type :=
| Make (c : cell)
| Assign (p : nat) (c : cell)
| SetBytes (i : nat) (data : string)
| SetPointer (i : nat) (p : nat)
| Read (i : nat) (block : bool).

Definition set_bytes (data : string) (m : Memory) (w : Wrapped) : Memory * Wrapped :=
  let '(m', d) := match w_kind w with
                  | KManyToOne => ManyToOne.Set_ data m (w_poller w)
                  | _ => OneToOne.Set_ data m (w_poller w)
                  end in
  (m', mkWrapped (w_kind w) d (w_set w ++ [length m]) (w_read w) (w_missed w) (w_data w ++ [data]) (w_got w)).

Definition set_pointer (p : nat) (w : Wrapped) : Wrapped :=
  let d := match w_kind w with
           | KManyToOneEnvelope => ManyToOneEnvelope.Set_ p (w_poller w)
           | KManyToOneEnvelopeV2 => ManyToOneEnvelopeV2.Set_ p (w_poller w)
           | _ => OneToOneEnvelopeV2.Set_ p (w_poller w)
           end in
  mkWrapped (w_kind w) d (w_set w ++ [p]) (w_read w) (w_missed w) (w_data w) (w_got w).

(** The pointer read is that of the ring. *)
Definition read_bytes (block : bool) (m : Memory) (w : Wrapped) : outcome Wrapped :=
  let! (d, k, data) := match w_kind w, block with
                       | KManyToOne, false => ManyToOne.TryNext m (w_poller w)
                       | KManyToOne, true => ManyToOne.Next m (w_poller w)
                       | _, false => OneToOne.TryNext m (w_poller w)
                       | _, true => OneToOne.Next m (w_poller w)
                       end in
  Returns (mkWrapped (w_kind w) d (w_set w) (w_read w ++ option_list (PollerTryNext (w_poller w)).2) (w_missed w + k)
    (w_data w) (w_got w ++ option_list data)).

Definition read_pointer (block : bool) (w : Wrapped) : Wrapped :=
  let '(d, k, p) := match w_kind w, block with
                    | KManyToOneEnvelope, false => ManyToOneEnvelope.TryNext (w_poller w)
                    | KManyToOneEnvelope, true => ManyToOneEnvelope.Next (w_poller w)
                    | KManyToOneEnvelopeV2, false => ManyToOneEnvelopeV2.TryNext (w_poller w)
                    | KManyToOneEnvelopeV2, true => ManyToOneEnvelopeV2.Next (w_poller w)
                    | _, false => OneToOneEnvelopeV2.TryNext (w_poller w)
                    | _, true => OneToOneEnvelopeV2.Next (w_poller w)
                    end in
  mkWrapped (w_kind w) d (w_set w) (w_read w ++ option_list p) (w_missed w + k) (w_data w) (w_got w).

Definition program_step (s : Program) (e : diode_event) : outcome Program :=
  match e with
  | Make c => Returns (mkProgram (new c (memory s)).1 (diodes s))
  | Assign p c => Returns (mkProgram (<[p := c]> (memory s)) (diodes s))
  | SetBytes i data =>
      match diodes s !! i with
      | None => Returns s
      | Some w => let '(m, w) := set_bytes data (memory s) w in Returns (mkProgram m (<[i := w]> (diodes s)))
      end
  | SetPointer i p =>
      match diodes s !! i with
      | None => Returns s
      | Some w => Returns (mkProgram (memory s) (<[i := set_pointer p w]> (diodes s)))
      end
  | Read i block =>
      match diodes s !! i with
      | None => Returns s
      | Some w =>
          let! w := (if decide (carries (w_kind w) = TBytes) then read_bytes block (memory s) w
                     else Returns (read_pointer block w)) in
          Returns (mkProgram (memory s) (<[i := w]> (diodes s)))
      end
  end.

(** What Go's types allow: an assignment keeps the type of its cell, slice headers are private
    to the wrapper, and a wrapper is called with what its signature says. *)
Definition well_typed (s : Program) (e : diode_event) : Prop :=
  match e with
  | Make c => type_of c <> TBytes
  | Assign p c => type_of c <> TBytes /\ points_to (type_of c) (memory s) p
  | SetBytes i _ => forall w, diodes s !! i = Some w -> carries (w_kind w) = TBytes
  | SetPointer i p => forall w, diodes s !! i = Some w ->
      carries (w_kind w) <> TBytes /\ points_to (carries (w_kind w)) (memory s) p
  | Read _ _ => True
  end.

(** The executions of a program that type checks. *)
Inductive runs : Program -> list diode_event -> outcome Program -> Prop :=
| run_nil s : runs s [] (Returns s)
| run_panic s e l why : well_typed s e -> program_step s e = Panics why -> runs s (e :: l) (Panics why)
| run_cons s e l s' r : well_typed s e -> program_step s e = Returns s' -> runs s' l r -> runs s (e :: l) r.

(** *** Invariant *)

(** What a pointer to a slice header leads to. *)
Definition holds (m : Memory) (p : nat) (s : string) : Prop := m !! p = Some (Bytes s).

Record wrapped_ok (m : Memory) (w : Wrapped) : Prop := {
  ok_typed : Forall (points_to (carries (w_kind w)) m) (w_set w);
  ok_order : (w_read w ++ pending (w_poller w)) `sublist_of` w_set w;
  ok_count : length (w_set w) = length (w_read w) + length (pending (w_poller w)) + w_missed w;
  ok_bytes : carries (w_kind w) = TBytes -> Forall2 (holds m) (w_set w) (w_data w) /\ Forall2 (holds m) (w_read w) (w_got w)
}.

Definition program_ok (s : Program) : Prop := Forall (wrapped_ok (memory s)) (diodes s).

(** Memory keeps its types, and the slice headers their values. *)
Definition extends (m m' : Memory) : Prop :=
  (forall t p, points_to t m p -> points_to t m' p) /\ (forall p s, holds m p s -> holds m' p s).

Lemma extends_refl m : extends m m.
Proof. done. Qed.

Lemma new_extends c m : extends m (new c m).1.
Proof.
  split; cbn; unfold points_to, holds.
  - intros t p Hp. destruct (m !! p) as [x|] eqn:E; [|done]. by rewrite (lookup_app_l_Some _ _ _ _ E).
  - intros p s E. by apply lookup_app_l_Some.
Qed.

Lemma assign_extends p c m : type_of c <> TBytes -> points_to (type_of c) m p -> extends m (<[p := c]> m).
Proof.
  intros Hc Hp. unfold points_to in Hp. destruct (m !! p) as [x|] eqn:E; [|done]. injection Hp as Hx.
  assert (p < length m) as Hlt by (by eapply lookup_lt_Some). split; unfold points_to, holds.
  - intros t q. destruct (decide (q = p)) as [->|Hne]; [|by rewrite list_lookup_insert_ne].
    rewrite list_lookup_insert_eq by done. rewrite E. cbn. by rewrite Hx.
  - intros q s. destruct (decide (q = p)) as [->|Hne]; [|by rewrite list_lookup_insert_ne].
    rewrite E. intros [= ->]. by destruct Hc.
Qed.

Lemma wrapped_extends m m' w : extends m m' -> wrapped_ok m w -> wrapped_ok m' w.
Proof.
  intros [Ht Hh] [Hty Ho Hc Hb]. split; try done.
  - eapply Forall_impl; [exact Hty|]. auto.
  - intros E. destruct (Hb E) as [H1 H2]. split; [eapply Forall2_impl; [exact H1|]|eapply Forall2_impl; [exact H2|]]; auto.
Qed.

Lemma program_extends s m' : extends (memory s) m' -> program_ok s -> Forall (wrapped_ok m') (diodes s).
Proof. intros Hm Hs. eapply Forall_impl; [exact Hs|]. intros w. by apply wrapped_extends. Qed.

Lemma open_diode_ok m k size : wrapped_ok m (open_diode k size).
Proof.
  assert (pending (w_poller (open_diode k size)) = []) as E by (destruct k; apply pending_new).
  split; rewrite ?E; by destruct k.
Qed.

(** A value set is pending; a read takes a pending value and may skip some before it. *)
Lemma ring_set d p (read set : list nat) missed :
  (read ++ pending d) `sublist_of` set -> length set = length read + length (pending d) + missed ->
  (read ++ pending (PollerSet p d)) `sublist_of` (set ++ [p]) /\
  length (set ++ [p]) = length read + length (pending (PollerSet p d)) + missed.
Proof.
  intros Ho Hc. rewrite pending_set. split; [rewrite app_assoc; by apply sublist_app|].
  rewrite !length_app. cbn. lia.
Qed.

Lemma ring_read d d' k o (read set : list nat) missed :
  PollerTryNext d = (d', k, o) -> (read ++ pending d) `sublist_of` set ->
  length set = length read + length (pending d) + missed ->
  ((read ++ option_list o) ++ pending d') `sublist_of` set /\
  length set = length (read ++ option_list o) + length (pending d') + (missed + k).
Proof.
  intros E Ho Hc. destruct o as [x|]; cbn [option_list].
  - destruct (pending_some _ _ _ _ E) as (lost & Hl & <-). rewrite Hl in Ho, Hc. split.
    + etrans; [|exact Ho]. rewrite <- app_assoc. apply sublist_app; [done|]. by apply sublist_inserts_l.
    + rewrite !length_app in *. cbn in *. lia.
  - destruct (pending_none _ _ _ E) as [-> ->]. rewrite app_nil_r. split; [done|lia].
Qed.

Lemma set_bytes_ok data m w m' w' :
  carries (w_kind w) = TBytes -> wrapped_ok m w -> set_bytes data m w = (m', w') -> extends m m' /\ wrapped_ok m' w'.
Proof.
  intros Hk Hw E.
  assert (m' = (new (Bytes data) m).1 /\ w' = mkWrapped (w_kind w) (PollerSet (length m) (w_poller w)) (w_set w ++ [length m])
    (w_read w) (w_missed w) (w_data w ++ [data]) (w_got w)) as [-> ->].
  { unfold set_bytes in E. destruct (w_kind w); cbn in E; by simplify_eq/=. }
  pose proof (new_extends (Bytes data) m) as Hm. split; [done|]. apply (wrapped_extends _ _ _ Hm) in Hw as [Hty Ho Hc Hb].
  destruct (ring_set (w_poller w) (length m) _ _ _ Ho Hc) as [Ho' Hc'].
  assert (holds (new (Bytes data) m).1 (length m) data) as Hn by (unfold holds; cbn; by apply list_lookup_middle).
  split; cbn [w_kind w_set w_read w_poller w_missed w_data w_got]; try done.
  - apply Forall_app. split; [done|]. constructor; [|constructor]. unfold points_to. rewrite Hn, Hk. done.
  - intros _. destruct (Hb Hk) as [H1 H2]. split; [|done]. by apply Forall2_app; [|constructor].
Qed.

Lemma set_pointer_ok p m w :
  carries (w_kind w) <> TBytes -> points_to (carries (w_kind w)) m p -> wrapped_ok m w -> wrapped_ok m (set_pointer p w).
Proof.
  intros Hk Hp [Hty Ho Hc Hb]. destruct (ring_set (w_poller w) p _ _ _ Ho Hc) as [Ho' Hc'].
  assert (w_poller (set_pointer p w) = PollerSet p (w_poller w)) as E by (unfold set_pointer; by destruct (w_kind w)).
  split; rewrite ?E; cbn [set_pointer w_kind w_set w_read w_missed]; try done.
  apply Forall_app. by repeat constructor.
Qed.

(** The slice a reader of bytes gets. *)
Lemma read_bytes_ok block m w :
  carries (w_kind w) = TBytes -> wrapped_ok m w -> exists w', read_bytes block m w = Returns w' /\ wrapped_ok m w'.
Proof.
  intros Hk [Hty Ho Hc Hb]. destruct (Hb Hk) as [Hset Hgot].
  destruct (PollerTryNext (w_poller w)) as [[d k] o] eqn:E.
  destruct (ring_read _ _ _ _ _ _ _ E Ho Hc) as [Ho' Hc'].
  assert (read_bytes block m w = let! (d, k, data) := cast_bytes m (d, k, o) in
    Returns (mkWrapped (w_kind w) d (w_set w) (w_read w ++ option_list o) (w_missed w + k)
      (w_data w) (w_got w ++ option_list data))) as ->.
  { unfold read_bytes, ManyToOne.TryNext, ManyToOne.Next, OneToOne.TryNext, OneToOne.Next, PollerNext. rewrite E.
    by destruct (w_kind w), block. }
  destruct o as [p|]; cbn [cast_bytes obind].
  - assert (p ∈ w_set w) as Hp.
    { eapply elem_of_submseteq; [|by apply sublist_submseteq]. cbn. set_solver. }
    apply list_elem_of_lookup in Hp as [j Hj]. destruct (Forall2_lookup_l _ _ _ _ _ Hset Hj) as (s & _ & Hs).
    unfold load_bytes. rewrite Hs. cbn [obind]. eexists. split; [done|]. split; try done. intros _. split; [done|].
    by apply Forall2_app; [|constructor].
  - eexists. split; [done|]. split; try done. intros _. cbn. by rewrite !app_nil_r.
Qed.

Lemma read_pointer_ok block m w : carries (w_kind w) <> TBytes -> wrapped_ok m w -> wrapped_ok m (read_pointer block w).
Proof.
  intros Hk [Hty Ho Hc Hb]. destruct (PollerTryNext (w_poller w)) as [[d k] o] eqn:E.
  destruct (ring_read _ _ _ _ _ _ _ E Ho Hc) as [Ho' Hc'].
  assert (read_pointer block w =
    mkWrapped (w_kind w) d (w_set w) (w_read w ++ option_list o) (w_missed w + k) (w_data w) (w_got w)) as ->; [|by split].
  unfold read_pointer, ManyToOneEnvelope.TryNext, ManyToOneEnvelope.Next, ManyToOneEnvelopeV2.TryNext, ManyToOneEnvelopeV2.Next,
    OneToOneEnvelopeV2.TryNext, OneToOneEnvelopeV2.Next, PollerNext. rewrite E. by destruct (w_kind w), block.
Qed.

Lemma program_step_ok s e : program_ok s -> well_typed s e -> exists s', program_step s e = Returns s' /\ program_ok s'.
Proof.
  intros Hs He. assert (forall i w, diodes s !! i = Some w -> wrapped_ok (memory s) w) as Hw
    by (intros i w; by apply Forall_lookup_1).
  destruct e as [c|p c|i data|i p|i block]; cbn [program_step well_typed] in *.
  - eexists. split; [done|]. apply (program_extends s); [apply new_extends|done].
  - eexists. split; [done|]. apply (program_extends s); [by apply assign_extends; apply He|done].
  - destruct (diodes s !! i) as [w|] eqn:Ei; [|eauto]. destruct (set_bytes data (memory s) w) as [m' w'] eqn:E.
    destruct (set_bytes_ok data (memory s) w m' w') as [Hm Hok]; [by apply He|by eapply Hw|done|].
    eexists. split; [done|]. apply Forall_insert; [by apply (program_extends s)|done].
  - destruct (diodes s !! i) as [w|] eqn:Ei; [|eauto]. eexists. split; [done|]. apply Forall_insert; [done|].
    apply set_pointer_ok; [by apply He|by apply He|by eapply Hw].
  - destruct (diodes s !! i) as [w|] eqn:Ei; [|eauto]. case_decide as Hk.
    + destruct (read_bytes_ok block (memory s) w Hk (Hw i w Ei)) as (w' & -> & Hok). eexists. split; [done|].
      by apply Forall_insert.
    + eexists. split; [done|]. apply Forall_insert; [done|]. apply read_pointer_ok; [done|by eapply Hw].
Qed.

Lemma runs_ok s l r : runs s l r -> program_ok s -> exists s', r = Returns s' /\ program_ok s'.
Proof.
  induction 1 as [s|s e l why He Hstep|s e l s' r He Hstep Hr IH]; intros Hs; [eauto|..];
    destruct (program_step_ok s e Hs He) as (s2 & E & Hs2); rewrite Hstep in E; simplify_eq; auto.
Qed.

(** The slices behind a sublist of the pointers. *)
Lemma holds_sublist m (read set : list nat) got data :
  read `sublist_of` set -> Forall2 (holds m) set data -> Forall2 (holds m) read got -> got `sublist_of` data.
Proof.
  intros Hs. revert got data. induction Hs as [|p read set Hs IH|p read set Hs IH]; intros got data Hd Hg.
  - apply Forall2_nil_inv_l in Hg as ->. apply sublist_nil_l.
  - apply Forall2_cons_inv_l in Hd as (s & data' & Hp & Hd & ->). apply Forall2_cons_inv_l in Hg as (s' & got' & Hp' & Hg & ->).
    unfold holds in *. assert (s' = s) as -> by congruence. constructor. by apply IH.
  - apply Forall2_cons_inv_l in Hd as (s & data' & _ & Hd & ->). constructor. by apply IH.
Qed.

(** C34: The casts of the diodes are safe.  For any number of diodes of all kinds that share one
    memory, in every execution of a program that type checks (it makes envelopes, writes to
    them, sets slices and envelopes on diodes of their kind and reads them), no dereference
    panics.  What a diode of envelopes answers always points to an envelope of its version; the
    pointers read and those still pending are, in order, pointers set on that diode, and the
    ones missing are counted.  A diode of byte slices answers with the slices set on it, in
    order, whatever is written elsewhere in the meantime. *)
Theorem diodes_type_safe (kinds : list (kind * nat)) l r :
  runs (mkProgram [] ((fun k => open_diode k.1 k.2) <$> kinds)) l r ->
  exists s, r = Returns s /\ forall i w, diodes s !! i = Some w ->
    Forall (points_to (carries (w_kind w)) (memory s)) (w_read w) /\
    (w_read w ++ pending (w_poller w)) `sublist_of` w_set w /\
    length (w_set w) = length (w_read w) + length (pending (w_poller w)) + w_missed w /\
    (carries (w_kind w) = TBytes -> w_got w `sublist_of` w_data w /\ length (w_got w) = length (w_read w)).
Proof.
  intros Hr. destruct (runs_ok _ _ _ Hr) as (s & -> & Hs).
  { apply Forall_fmap, Forall_true. intros k. apply open_diode_ok. }
  exists s. split; [done|]. intros i w Hi. destruct (Forall_lookup_1 _ _ _ _ Hs Hi) as [Hty Ho Hc Hb].
  assert (w_read w `sublist_of` w_set w) as Hsub by (etrans; [|exact Ho]; by apply sublist_inserts_r).
  split_and!; try done.
  - eapply Forall_forall. intros p Hp. eapply Forall_forall in Hty; [exact Hty|].
    by eapply elem_of_submseteq, sublist_submseteq.
  - intros Hk. destruct (Hb Hk) as [H1 H2]. split; [by eapply holds_sublist|]. symmetry. by eapply Forall2_length.
Qed.

End System.

(** ** The wrappers as diodes *)

(** The Go types behind the pointers. *)
Class Pointee (A : Type) : Type := { to_cell : A -> cell; of_cell : cell -> option A; of_to a : of_cell (to_cell a) = Some a }.

#[export] Instance bytes_pointee : Pointee string :=
  {| to_cell := Bytes; of_cell c := match c with Bytes s => Some s | _ => None end; of_to _ := eq_refl |}.
#[export] Instance env_pointee : Pointee V1.Envelope :=
  {| to_cell := Env; of_cell c := match c with Env e => Some e | _ => None end; of_to _ := eq_refl |}.
#[export] Instance env_v2_pointee : Pointee v2_envelope :=
  {| to_cell := EnvV2; of_cell c := match c with EnvV2 e => Some e | _ => None end; of_to _ := eq_refl |}.

Section Instance_.

Context {P : Type} `{Gendiodes P} {laws : GendiodesLaws P} {A : Type} `{Pointee A}.
Context (w : writers) (size : nat).

Definition value_at (m : Memory) (p : nat) : option A := m !! p ≫= of_cell.

(** A ring whose pending pointers lead to values of the type. *)
Definition pending_typed (x : Memory * P) : Prop := Forall (fun p => is_Some (value_at x.1 p)) (pending x.2).

Definition ring : Type := { x : Memory * P | pending_typed x }.

Definition values (x : Memory * P) : list A := omap (value_at x.1) (pending x.2).

Lemma value_at_new m p c : is_Some (value_at m p) -> value_at (m ++ [c]) p = value_at m p.
Proof.
  intros [a Ha]. unfold value_at in *. destruct (m !! p) as [y|] eqn:E; [|done]. by rewrite (lookup_app_l_Some _ _ _ _ E).
Qed.

Lemma value_at_last m a : value_at (m ++ [to_cell a]) (length m) = Some a.
Proof. unfold value_at. rewrite list_lookup_middle by done. apply of_to. Qed.

Lemma set_typed (a : A) (x : Memory * P) :
  pending_typed x -> pending_typed (x.1 ++ [to_cell a], PollerSet (length x.1) x.2).
Proof.
  intros Hx. unfold pending_typed. cbn [fst snd]. rewrite pending_set. apply Forall_app. split.
  - eapply Forall_impl; [exact Hx|]. intros p Hp. by rewrite value_at_new.
  - constructor; [|constructor]. by rewrite value_at_last.
Qed.

Lemma read_typed (x : Memory * P) d' k o :
  pending_typed x -> PollerTryNext x.2 = (d', k, o) -> pending_typed (x.1, d').
Proof.
  intros Hx E. unfold pending_typed in *. cbn [fst snd]. destruct o as [p|].
  - destruct (pending_some _ _ _ _ E) as (lost & El & _). rewrite El in Hx. apply Forall_app in Hx as [_ Hx].
    by apply Forall_cons in Hx as [_ Hx].
  - by destruct (pending_none _ _ _ E) as [-> _].
Qed.

Definition ring_next (x : ring) : ring * nat * option A :=
  match PollerTryNext (proj1_sig x).2 as r return PollerTryNext (proj1_sig x).2 = r -> ring * nat * option A with
  | (d', k, o) => fun E =>
      (((proj1_sig x).1, d') ↾ read_typed (proj1_sig x) d' k o (proj2_sig x) E, k, o ≫= value_at (proj1_sig x).1)
  end eq_refl.

(** The value's cell is made, then its address set on the ring. *)
Definition wrapped : Diode A ring := {|
  NewDiode := ([], NewPoller w size []) ↾ (eq_ind_r (Forall _) (Forall_nil_2 _) (pending_new w size []));
  Set_data a x := ((proj1_sig x).1 ++ [to_cell a], PollerSet (length (proj1_sig x).1) (proj1_sig x).2) ↾
    set_typed a (proj1_sig x) (proj2_sig x);
  TryNext := ring_next
|}.

Lemma values_set (a : A) (x : Memory * P) : pending_typed x ->
  values (x.1 ++ [to_cell a], PollerSet (length x.1) x.2) = values x ++ [a].
Proof.
  intros Hx. unfold values. cbn [fst snd]. rewrite pending_set, omap_app. cbn. rewrite value_at_last. f_equal.
  unfold pending_typed in Hx. induction Hx as [|p l Hp Hl IH]; [done|]. cbn. rewrite value_at_new by done. by rewrite IH.
Qed.

Lemma ring_next_spec (x : ring) y k o : ring_next x = (y, k, o) ->
  exists d' q, PollerTryNext (proj1_sig x).2 = (d', k, q) /\ proj1_sig y = ((proj1_sig x).1, d') /\ o = q ≫= value_at (proj1_sig x).1.
Proof.
  unfold ring_next. generalize (eq_refl (PollerTryNext (proj1_sig x).2)).
  generalize (PollerTryNext (proj1_sig x).2) at 2 3 as r. intros [[d' k'] q] E. intros [= <- <- <-]. by exists d', q.
Qed.

Lemma ring_typed (x : ring) : Forall (fun p => is_Some (value_at (proj1_sig x).1 p)) (pending (proj1_sig x).2).
Proof. exact (proj2_sig x). Qed.

(** The laws of the third-party ring give those of the wrapper. *)
Definition wrapped_laws : @DiodeLaws A ring wrapped.
Proof.
  refine (@Build_DiodeLaws A ring wrapped (fun x => values (proj1_sig x)) _ _ _ _); cbn.
  - unfold values. cbn. by rewrite pending_new.
  - intros a x. apply values_set, (proj2_sig x).
  - intros x y k (d' & q & E & Hy & Ho)%ring_next_spec. rewrite Hy. unfold values. cbn [fst snd].
    destruct q as [p|]; [|by destruct (pending_none _ _ _ E) as [-> ->]].
    exfalso. destruct (pending_some _ _ _ _ E) as (lost & El & _). pose proof (ring_typed x) as Hx.
    rewrite El in Hx. apply Forall_app in Hx as [_ [[a Ha] _]%Forall_cons]. cbn in Ho. congruence.
  - intros x y k a (d' & q & E & Hy & Ho)%ring_next_spec. rewrite Hy. unfold values. cbn [fst snd].
    destruct q as [p|]; [|done]. destruct (pending_some _ _ _ _ E) as (lost & El & Hk).
    pose proof (ring_typed x) as Hx. rewrite El in Hx |- *. apply Forall_app in Hx as [Hl _].
    exists (omap (value_at (proj1_sig x).1) lost). rewrite omap_app. cbn in Ho |- *. rewrite <- Ho. split; [done|].
    rewrite <- Hk. clear -Hl. induction Hl as [|p l [a Ha] Hl IH]; [done|]. cbn. rewrite Ha. cbn. by rewrite IH.
Defined.

End Instance_.

(** A ring of byte slices is what one_to_one.go computes, and never panics. *)
Lemma bytes_ring {P} `{Gendiodes P} {laws : GendiodesLaws P} (x : ring (A := string)) :
  OneToOne.TryNext (proj1_sig x).1 (proj1_sig x).2 =
    let '(y, k, o) := ring_next x in Returns ((proj1_sig y).2, k, o).
Proof.
  destruct (ring_next x) as [[y k] o] eqn:E. destruct (ring_next_spec x y k o E) as (d' & q & Eq & Hy & ->).
  unfold OneToOne.TryNext, cast_bytes. rewrite Eq, Hy. destruct q as [p|]; [|done]. cbn [mbind option_bind snd].
  destruct (pending_some _ _ _ _ Eq) as (lost & El & _). pose proof (ring_typed x) as Hx. rewrite El in Hx.
  apply Forall_app in Hx as [_ [[a Ha] _]%Forall_cons]. rewrite Ha. unfold value_at in Ha. unfold load_bytes.
  destruct ((proj1_sig x).1 !! p) as [[]|]; cbn in *; by simplify_eq.
Qed.

(** ** Example: a ring that keeps the last values *)

Module DiodesExample.

#[global] Instance kept : Gendiodes (nat * list nat) := {|
  PollerConfigOption := Empty_set;
  NewPoller _ n _ := (n, []);
  PollerSet x d := (d.1, d.2 ++ [x]);
  PollerTryNext d := let '(l, k, o) := @TryNext _ _ (last_values d.1) d.2 in ((d.1, l), k, o)
|}.

#[global] Instance kept_laws : GendiodesLaws (nat * list nat).
Proof.
  refine (@Build_GendiodesLaws _ kept snd _ _ _ _); [done|done|..].
  - intros [n d] d' k. cbn. destruct (drop (length d - n) d); naive_solver.
  - intros [n d] d' k x. cbn. destruct (drop (length d - n) d) as [|y l] eqn:E; [done|]. intros [= <- <- <-].
    exists (take (length d - n) d). cbn. rewrite <- E, take_drop, length_take. split; [done|lia].
Defined.

Definition env (t : Z) : V1.Envelope := V1.mkEnvelope None None (Some t) None None None None ∅ None None None None None None.

Definition kinds : list (kind * nat) := [(KOneToOne, 1); (KManyToOneEnvelope, 2)].

(** The first slice is overwritten by the second; the envelope is written to before it is read. *)
Definition events : list diode_event :=
  [SetBytes 0 "a"; SetBytes 0 "b"; Make (Env (env 1)); SetPointer 1 2; Assign 2 (Env (env 5)); Read 0 false; Read 1 true].

Definition begin : Program := mkProgram [] ((fun k => open_diode k.1 k.2) <$> kinds).

End DiodesExample.

Lemma diodes_type_safe_witness :
  exists s, ofold program_step DiodesExample.events DiodesExample.begin = Returns s /\
    forall i w, diodes s !! i = Some w -> Forall (points_to (carries (w_kind w)) (memory s)) (w_read w).
Proof.
  destruct (diodes_type_safe DiodesExample.kinds DiodesExample.events
    (ofold program_step DiodesExample.events DiodesExample.begin)) as (s & E & Hs).
  - unfold DiodesExample.events. cbn [ofold].
    do 7 (eapply run_cons; [first [discriminate|split; [discriminate|reflexivity]|exact I|
      intros w Hw; vm_compute in Hw; injection Hw as <-; first [reflexivity|split; [discriminate|reflexivity]]]|reflexivity|]).
    constructor.
  - exists s. split; [exact E|]. intros i w Hi. destruct (Hs i w Hi) as [Ht _]. exact Ht.
Defined.
