(* ===== verification/TruncatingBuffer.v ===== *)
(** * doppler/internal/truncatingbuffer

    The bounded buffer in front of every syslog and websocket sink.  When the reader is
    too slow the buffer is emptied, the loss is announced to the reader and counted.

    Two goroutines touch the output channel: [Run] (the only sender, which also drains the
    channel on overflow) and the sink that reads it.  The reader's steps are explicit: a
    [schedule] says how many messages it takes just before each channel operation of
    [forwardMessage], and [Consume] events are its steps between messages. *)

From S2P Require Import Prelude Go Events.
Local Open Scope Z_scope.

(** ** buffer_context.go *)

Record BufferContext : Type := mkContext {
  EventAllowed : V1.EventType -> bool;
  Destination : string;
  Origin : string;
  AppID : V1.Envelope -> string
}.

Section Contexts.

(** [envelope_extensions.GetAppId] and [envelope_extensions.SystemAppId] of dropsonde. *)
Context (GetAppId : V1.Envelope -> string) (SystemAppId : string).

Definition NewDefaultContext (origin destination : string) : BufferContext :=
  {| EventAllowed := fun _ => true;
     Destination := destination;
     Origin := origin;
     AppID := GetAppId |}.

Definition NewLogAllowedContext (origin destination : string) : BufferContext :=
  {| EventAllowed := fun event => bool_decide (event = V1.Envelope_LogMessage);
     Destination := destination;
     Origin := origin;
     AppID := GetAppId |}.

Definition NewSystemContext (origin destination : string) : BufferContext :=
  {| EventAllowed := fun _ => true;
     Destination := destination;
     Origin := origin;
     AppID := fun _ => SystemAppId |}.

End Contexts.

(** ** truncating_buffer.go *)

(** The events [notifyMessagesDropped] builds. *)
Inductive Event : Type :=
| LogMessageEvent (m : V1.LogMessage)
| CounterEventEvent (c : V1.CounterEvent).

(** Where a message of the output channel comes from.  No operation reads this tag: it
    lets the theorems tell the buffer's own notices from the messages of the input. *)
Inductive provenance : Type := Client | Notice.

#[export] Instance provenance_eq_dec : EqDecision provenance.
Proof. solve_decision. Defined.

Abbreviation item := (provenance * V1.Envelope)%type.

Record TruncatingBuffer : Type := mkBuffer {
  context : BufferContext;
  outputChannel : Chan.t item;
  bufferSize : Z;
  sentMessageCount : Z;
  queuedInternalMessageCount : Z;
  droppedMessageCount : Z
}.

Definition NewTruncatingBuffer (size : Z) (context : option BufferContext)
  : outcome TruncatingBuffer :=
  if decide (size < 3) then Panics "bufferSize must be larger than 3 for overflow"
  else match context with
  | None => Panics "context should not be nil"
  | Some ctx => Returns
      {| context := ctx;
         outputChannel := Chan.make item (Z.to_nat size);
         bufferSize := Words.uint64 size;
         sentMessageCount := 0;
         queuedInternalMessageCount := 0;
         droppedMessageCount := 0 |}
  end.

Definition eventAllowed (r : TruncatingBuffer) (ty : V1.EventType) : bool :=
  EventAllowed (context r) ty.

Definition set_output (r : TruncatingBuffer) (c : Chan.t item) : TruncatingBuffer :=
  {| context := context r; outputChannel := c; bufferSize := bufferSize r;
     sentMessageCount := sentMessageCount r;
     queuedInternalMessageCount := queuedInternalMessageCount r;
     droppedMessageCount := droppedMessageCount r |}.

Definition set_counts (r : TruncatingBuffer) (sent queued dropped : Z) : TruncatingBuffer :=
  {| context := context r; outputChannel := outputChannel r; bufferSize := bufferSize r;
     sentMessageCount := sent; queuedInternalMessageCount := queued;
     droppedMessageCount := dropped |}.

Definition closeOutputChannel (r : TruncatingBuffer) : outcome TruncatingBuffer :=
  match Chan.close (outputChannel r) with
  | Some c => Returns (set_output r c)
  | None => Panics "close of closed channel"
  end.

Definition generateLogMessage (now deltaDropped totalDropped : Z) (appId source destination : string)
  : V1.LogMessage :=
  {| V1.lm_Message :=
       "Log message output is too high. " +:+ Strconv.Itoa deltaDropped +:+
       " messages dropped (Total " +:+ Strconv.Itoa totalDropped +:+
       " messages dropped) from " +:+ source +:+ " to " +:+ destination +:+ ".";
     V1.lm_MessageType := Some V1.LogMessage_ERR;
     V1.lm_Timestamp := Some now;
     V1.lm_AppId := Some appId;
     V1.lm_SourceType := Some "LGR"%string;
     V1.lm_SourceInstance := None |}.

Definition generateCounterEvent (delta total : Z) : V1.CounterEvent :=
  {| V1.ce_Name := Some "TruncatingBuffer.DroppedMessages"%string;
     V1.ce_Delta := Some delta;
     V1.ce_Total := Some total |}.

(** The reader's steps during one [forwardMessage]: how many messages it takes before each
    receive of the drain loop, before the two notices and before the final write. *)
Record schedule : Type := mkSchedule {
  during_drain : list nat;
  before_log_notice : nat;
  before_counter_notice : nat;
  before_write : nat
}.

Definition idle_reader : schedule := mkSchedule [] 0 0 0.

(** What an observer sees: the messages the reader received, in order, and the calls
    [metrics.BatchAddCounter(name, delta)]. *)
Record trace : Type := mkTrace {
  received : list item;
  counters : list (string * Z)
}.

Section Buffer.

(** [emitter.Wrap] of dropsonde: builds the envelope or fails. *)
Context (Wrap : Event -> string -> result V1.Envelope).

(** The reader takes [n] messages. *)
Definition reader_takes (n : nat) (r : TruncatingBuffer) (t : trace) : TruncatingBuffer * trace :=
  (set_output r (Chan.consume n (outputChannel r)),
   mkTrace (received t ++ take n (Chan.buf (outputChannel r))) (counters t)).

(** [dropMessages]: receive until the channel is not ready, counting.  [fuel] bounds the
    loop; every iteration that continues removes a message. *)
Fixpoint dropMessages_loop (fuel : nat) (sched : list nat) (r : TruncatingBuffer) (t : trace)
  (dropped : Z) : option (Z * TruncatingBuffer * trace) :=
  match fuel with
  | O => None
  | S fuel =>
      let '(r, t) := reader_takes (hd 0%nat sched) r t in
      match Chan.try_recv (outputChannel r) with
      | Chan.Received _ c =>
          dropMessages_loop fuel (tl sched) (set_output r c) t (Words.add 64 dropped 1)
      | Chan.Drained => Some (dropped, r, t)
      | Chan.Empty => Some (dropped, r, t)
      end
  end.

Definition dropMessages (sched : list nat) (r : TruncatingBuffer) (t : trace)
  : option (Z * TruncatingBuffer * trace) :=
  dropMessages_loop (S (length (Chan.buf (outputChannel r)))) sched r t 0.

(** [emitMessage]: a blocking send; [None] is the sender blocked on a full channel. *)
Definition emitMessage (event : Event) (r : TruncatingBuffer) : option TruncatingBuffer :=
  match Wrap event (Origin (context r)) with
  | Err _ => Some r
  | Ok env =>
      match Chan.try_send (outputChannel r) (Notice, env) with
      | Chan.Sent c =>
          let r := set_output r c in
          Some (set_counts r (sentMessageCount r)
                  (Words.add 64 (queuedInternalMessageCount r) 1) (droppedMessageCount r))
      | _ => None
      end
  end.

Definition notifyMessagesDropped (now : Z) (sched : schedule) (deltaDropped totalDropped : Z)
  (appId : string) (r : TruncatingBuffer) (t : trace) : option (TruncatingBuffer * trace) :=
  let t := mkTrace (received t)
             (counters t ++ [("TruncatingBuffer.totalDroppedMessages"%string, deltaDropped)]) in
  let '(r, t) := reader_takes (before_log_notice sched) r t in
  let o :=
    if eventAllowed r V1.Envelope_LogMessage
    then emitMessage (LogMessageEvent (generateLogMessage now deltaDropped totalDropped appId
                        (Origin (context r)) (Destination (context r)))) r
    else Some r in
  match o with
  | None => None
  | Some r =>
      let '(r, t) := reader_takes (before_counter_notice sched) r t in
      let o :=
        if eventAllowed r V1.Envelope_CounterEvent
        then emitMessage (CounterEventEvent (generateCounterEvent deltaDropped totalDropped)) r
        else Some r in
      match o with
      | None => None
      | Some r => Some (r, t)
      end
  end.

Definition writeToOutput (msg : V1.Envelope) (r : TruncatingBuffer) : TruncatingBuffer :=
  match Chan.try_send (outputChannel r) (Client, msg) with
  | Chan.Sent c => set_output r c
  | _ => set_counts r (sentMessageCount r) (queuedInternalMessageCount r)
           (Words.add 64 (droppedMessageCount r) 1)
  end.

(** [forwardMessage]; [None] is a goroutine that blocks for ever or panics. *)
Definition forwardMessage (now : Z) (sched : schedule) (msg : V1.Envelope)
  (r : TruncatingBuffer) (t : trace) : option (TruncatingBuffer * trace) :=
  match Chan.try_send (outputChannel r) (Client, msg) with
  | Chan.Sent c =>
      let r := set_output r c in
      let sent := Words.add 64 (sentMessageCount r) 1 in
      let queuedInternalMessageWasSent :=
        bool_decide (bufferSize r < Words.add 64 sent (queuedInternalMessageCount r)) in
      let queued :=
        if bool_decide (0 < queuedInternalMessageCount r) && queuedInternalMessageWasSent
        then Words.sub 64 (queuedInternalMessageCount r) 1
        else queuedInternalMessageCount r in
      Some (set_counts r sent queued (droppedMessageCount r), t)
  | Chan.SendOnClosed => None
  | Chan.Full =>
      match dropMessages (during_drain sched) r t with
      | None => None
      | Some (n, r, t) =>
          let deltaDropped := Words.sub 64 n (queuedInternalMessageCount r) in
          let dropped := Words.add 64 (droppedMessageCount r) deltaDropped in
          let r := set_counts r (sentMessageCount r) 0 dropped in
          let appId := AppID (context r) msg in
          match notifyMessagesDropped now sched deltaDropped dropped appId r t with
          | None => None
          | Some (r, t) =>
              let '(r, t) := reader_takes (before_write sched) r t in
              let r := writeToOutput msg r in
              Some (set_counts r 1 (queuedInternalMessageCount r) (droppedMessageCount r), t)
          end
      end
  end.

(** [Run], one iteration per input: a message arrives, the reader runs, or the input
    channel is closed or [stopChannel] signalled, which closes the output and returns. *)
Inductive input : Type :=
| Message (now : Z) (sched : schedule) (msg : V1.Envelope)
| Consume (n : nat)
| StopOrClosed.

Record system : Type := mkSystem {
  buffer : TruncatingBuffer;
  observed : trace;
  accepted : list V1.Envelope;
  running : bool
}.

Definition Run_step (s : system) (i : input) : option system :=
  match i with
  | Consume n =>
      let '(r, t) := reader_takes n (buffer s) (observed s) in
      Some (mkSystem r t (accepted s) (running s))
  | Message now sched msg =>
      if running s then
        if eventAllowed (buffer s) (V1.GetEventType msg) then
          match forwardMessage now sched msg (buffer s) (observed s) with
          | Some (r, t) => Some (mkSystem r t (accepted s ++ [msg]) true)
          | None => None
          end
        else Some s
      else Some s
  | StopOrClosed =>
      if running s then
        match closeOutputChannel (buffer s) with
        | Returns r => Some (mkSystem r (observed s) (accepted s) false)
        | Panics _ => None
        end
      else Some s
  end.

Fixpoint Run (s : system) (inputs : list input) : option system :=
  match inputs with
  | [] => Some s
  | i :: inputs => match Run_step s i with Some s => Run s inputs | None => None end
  end.

End Buffer.

Definition start (r : TruncatingBuffer) : system :=
  mkSystem r (mkTrace [] []) [] true.

(** ** Invariant of the running buffer *)

Fixpoint clients (l : list item) : Z :=
  match l with
  | [] => 0
  | (Client, _) :: l => 1 + clients l
  | (Notice, _) :: l => clients l
  end.

(** The channel content is what is left of the notices of the last overflow followed by
    every message sent since; the two counters are functions of those. *)
Definition Inv (s : system) : Prop :=
  let r := buffer s in
  3 <= bufferSize r < 2 ^ 63 /\
  Chan.cap (outputChannel r) = Z.to_nat (bufferSize r) /\
  Chan.wf (outputChannel r) /\
  Chan.closed (outputChannel r) = negb (running s) /\
  sentMessageCount r <= Z.of_nat (length (accepted s)) /\
  exists ints exts : list item,
    Chan.buf (outputChannel r) `suffix_of` ints ++ exts /\
    Forall (fun i => i.1 = Notice) ints /\
    Forall (fun i => i.1 = Client) exts /\
    (length ints <= 2)%nat /\
    sentMessageCount r = Z.of_nat (length exts) /\
    queuedInternalMessageCount r =
      Z.max 0 (Z.min (Z.of_nat (length ints)) (bufferSize r - sentMessageCount r)).

(** A schedule in which the reader does not run while the buffer is drained. *)
Definition quiet_drain (i : input) : bool :=
  match i with
  | Message _ sched _ => bool_decide (during_drain sched = [])
  | _ => true
  end.

(** Every client message accepted so far was delivered, is queued, or is counted. *)
Definition Accounted (s : system) : Prop :=
  droppedMessageCount (buffer s) =
    Z.of_nat (length (accepted s)) - clients (received (observed s))
    - clients (Chan.buf (outputChannel (buffer s))).

(** The client messages of a list of items, in order. *)
Fixpoint client_msgs (l : list item) : list V1.Envelope :=
  match l with
  | [] => []
  | (Client, m) :: l => m :: client_msgs l
  | (Notice, _) :: l => client_msgs l
  end.

(** What the reader got and what is queued are accepted messages, in order, once each. *)
Definition Ordered (s : system) : Prop :=
  client_msgs (received (observed s) ++ Chan.buf (outputChannel (buffer s)))
    `sublist_of` accepted s.

(** The metric [TruncatingBuffer.totalDroppedMessages] adds up to the counter. *)
Definition reported (l : list (string * Z)) : Z := foldr (fun c n => c.2 + n) 0 l.

Definition Reported (s : system) : Prop :=
  reported (counters (observed s)) = droppedMessageCount (buffer s).

Section Facts.
Context (Wrap : Event -> string -> result V1.Envelope).

Definition frame (r r' : TruncatingBuffer) : Prop :=
  context r' = context r /\ bufferSize r' = bufferSize r /\
  Chan.cap (outputChannel r') = Chan.cap (outputChannel r) /\
  Chan.closed (outputChannel r') = Chan.closed (outputChannel r).

(** From [(r, t)] to [(r', t')] exactly [xs] entered the channel. *)
Definition flow (r : TruncatingBuffer) (t : trace) (r' : TruncatingBuffer) (t' : trace)
  (xs : list item) : Prop :=
  exists taken, received t' = received t ++ taken /\
    taken ++ Chan.buf (outputChannel r') = Chan.buf (outputChannel r) ++ xs.

Lemma clients_app l k : clients (l ++ k) = clients l + clients k.
Proof. induction l as [|[[] e] l IH]; simpl; lia. Qed.

Lemma clients_nonneg l : 0 <= clients l <= Z.of_nat (length l).
Proof. induction l as [|[[] e] l IH]; simpl; lia. Qed.

Lemma clients_all l : Forall (fun i => i.1 = Client) l -> clients l = Z.of_nat (length l).
Proof. induction 1 as [|[[] e] l H _ IH]; simpl in *; [done|lia|done]. Qed.

Lemma clients_none l : Forall (fun i => i.1 = Notice) l -> clients l = 0.
Proof. induction 1 as [|[[] e] l H _ IH]; simpl in *; done. Qed.

Lemma frame_refl r : frame r r.
Proof. done. Qed.

Lemma frame_trans r1 r2 r3 : frame r1 r2 -> frame r2 r3 -> frame r1 r3.
Proof. unfold frame. intuition congruence. Qed.

Lemma flow_refl r t : flow r t r t [].
Proof. exists []. by rewrite !app_nil_r. Qed.

Lemma flow_trans r t r1 t1 r2 t2 xs ys :
  flow r t r1 t1 xs -> flow r1 t1 r2 t2 ys -> flow r t r2 t2 (xs ++ ys).
Proof.
  intros (k1 & E1 & F1) (k2 & E2 & F2). exists (k1 ++ k2). split.
  - by rewrite E2, E1, app_assoc.
  - by rewrite <- app_assoc, F2, !app_assoc, F1.
Qed.

Lemma flow_length r t r' t' xs :
  flow r t r' t' xs ->
  (length (Chan.buf (outputChannel r')) <= length (Chan.buf (outputChannel r)) + length xs)%nat.
Proof. intros (k & _ & F). apply (f_equal length) in F. rewrite !length_app in F. lia. Qed.

Lemma flow_suffix r t r' t' xs :
  flow r t r' t' xs -> Chan.buf (outputChannel r') `suffix_of` Chan.buf (outputChannel r) ++ xs.
Proof. intros (k & _ & F). by exists k. Qed.

Lemma flow_clients r t r' t' xs :
  flow r t r' t' xs ->
  clients (received t') + clients (Chan.buf (outputChannel r')) =
  clients (received t) + clients (Chan.buf (outputChannel r)) + clients xs.
Proof.
  intros (k & E & F). apply (f_equal clients) in F. rewrite !clients_app in F.
  rewrite E, clients_app. lia.
Qed.

Lemma reader_takes_flow n r t r' t' :
  reader_takes n r t = (r', t') ->
  flow r t r' t' [] /\ frame r r' /\
  sentMessageCount r' = sentMessageCount r /\
  queuedInternalMessageCount r' = queuedInternalMessageCount r /\
  droppedMessageCount r' = droppedMessageCount r.
Proof.
  intros [= <- <-]. split; [|done]. exists (take n (Chan.buf (outputChannel r))).
  simpl. by rewrite take_drop, app_nil_r.
Qed.

(** The drain loop always terminates with an empty channel; with an idle reader it
    returns the number of messages the channel held. *)
Lemma dropMessages_loop_spec fuel sched r t n :
  (length (Chan.buf (outputChannel r)) < fuel)%nat ->
  exists n' t' taken, dropMessages_loop fuel sched r t n =
    Some (n', set_output r (Chan.mk (Chan.cap (outputChannel r)) [] (Chan.closed (outputChannel r))), t') /\
    received t' = received t ++ taken /\ taken `sublist_of` Chan.buf (outputChannel r) /\
    counters t' = counters t.
Proof.
  revert sched r t n. induction fuel as [|fuel IH]; intros sched r t n Hlen; [lia|].
  simpl. unfold Chan.try_recv. simpl.
  destruct (drop (hd 0%nat sched) (Chan.buf (outputChannel r))) as [|x rest] eqn:E.
  - exists n, (mkTrace (received t ++ take (hd 0%nat sched) (Chan.buf (outputChannel r))) (counters t)),
      (take (hd 0%nat sched) (Chan.buf (outputChannel r))).
    split; [|split_and!; auto using sublist_take].
    destruct (Chan.closed (outputChannel r)) eqn:C;
      unfold set_output, Chan.consume; simpl; by rewrite ?E, ?C.
  - pose proof (f_equal length E) as El. rewrite length_drop in El. simpl in El.
    match goal with
    | |- context [dropMessages_loop _ _ ?r1 ?t1 ?n1] =>
        destruct (IH (tl sched) r1 t1 n1) as (n' & t' & tk & H & R & Sub & Cn); [simpl; lia|]
    end.
    simpl in *. exists n', t', (take (hd 0%nat sched) (Chan.buf (outputChannel r)) ++ tk).
    split_and!; [exact H|by rewrite R, app_assoc| |done].
    rewrite <- (take_drop (hd 0%nat sched) (Chan.buf (outputChannel r))) at 2.
    rewrite E. apply sublist_app; [done|]. by apply sublist_cons.
Qed.

Lemma dropMessages_loop_idle fuel r t n :
  (length (Chan.buf (outputChannel r)) < fuel)%nat ->
  0 <= n -> n + Z.of_nat (length (Chan.buf (outputChannel r))) < 2 ^ 64 ->
  dropMessages_loop fuel [] r t n =
    Some (n + Z.of_nat (length (Chan.buf (outputChannel r))),
          set_output r (Chan.mk (Chan.cap (outputChannel r)) [] (Chan.closed (outputChannel r))), t).
Proof.
  revert r t n. induction fuel as [|fuel IH]; intros r t n Hlen Hn Hb; [lia|].
  destruct r as [ctx [cap b cl] B s q d]; destruct t as [rv cs]; simpl in *.
  destruct b as [|x b]; unfold Chan.try_recv; simpl.
  - rewrite Z.add_0_r, app_nil_r. unfold set_output, Chan.consume. simpl. by destruct cl.
  - simpl in *. rewrite Words.add_small by lia.
    rewrite IH; simpl in *; [|lia..]. rewrite app_nil_r. unfold set_output; simpl.
    by replace (n + 1 + Z.of_nat (length b)) with (n + Z.of_nat (S (length b))) by lia.
Qed.

Lemma emitMessage_spec ev r :
  Chan.closed (outputChannel r) = false ->
  (length (Chan.buf (outputChannel r)) < Chan.cap (outputChannel r))%nat ->
  0 <= queuedInternalMessageCount r <= 2 ->
  exists r' xs, emitMessage Wrap ev r = Some r' /\ frame r r' /\
    Chan.buf (outputChannel r') = Chan.buf (outputChannel r) ++ xs /\
    Forall (fun i => i.1 = Notice) xs /\ (length xs <= 1)%nat /\
    queuedInternalMessageCount r' = queuedInternalMessageCount r + Z.of_nat (length xs) /\
    sentMessageCount r' = sentMessageCount r /\ droppedMessageCount r' = droppedMessageCount r.
Proof.
  intros Hc Hl Hq. unfold emitMessage. destruct (Wrap ev _) as [env|msg].
  - rewrite Chan.try_send_open by done.
    eexists _, [(Notice, env)]. split; [done|]. split; [by unfold frame; simpl|].
    simpl. split_and!; auto. unfold Words.add. rewrite Words.wrap_small; lia.
  - exists r, []. simpl. rewrite app_nil_r. split_and!; auto using frame_refl; lia.
Qed.

(** One optional notice, preceded by a step of the reader. *)
Lemma notice_spec n (allowed : bool) ev r t r1 t1 :
  reader_takes n r t = (r1, t1) ->
  Chan.closed (outputChannel r) = false ->
  (length (Chan.buf (outputChannel r)) < Chan.cap (outputChannel r))%nat ->
  0 <= queuedInternalMessageCount r <= 2 ->
  exists r' xs, (if allowed then emitMessage Wrap ev r1 else Some r1) = Some r' /\
    frame r r' /\ flow r t r' t1 xs /\
    Forall (fun i => i.1 = Notice) xs /\ (length xs <= 1)%nat /\
    queuedInternalMessageCount r' = queuedInternalMessageCount r + Z.of_nat (length xs) /\
    sentMessageCount r' = sentMessageCount r /\ droppedMessageCount r' = droppedMessageCount r.
Proof.
  intros H Hc Hl Hq.
  destruct (reader_takes_flow _ _ _ _ _ H) as (Hf & Hfr & Hs & Hqq & Hd).
  pose proof (flow_length _ _ _ _ _ Hf) as Hlen. simpl in Hlen.
  destruct Hfr as (Fc & Fb & Fcap & Fcl).
  destruct allowed.
  - destruct (emitMessage_spec ev r1) as (r' & xs & E & Fr & Eb & Hn & Hx & Q & S & D);
      [congruence|lia|lia|].
    exists r', xs. split; [exact E|].
    split; [eapply frame_trans; [|exact Fr]; done|].
    split; [|split_and!; auto; congruence].
    destruct Hf as (k & E1 & E2). exists k. split; [done|].
    rewrite Eb, app_assoc, E2, app_nil_r. done.
  - exists r1, []. simpl. split_and!; auto; try done; lia.
Qed.

Lemma notifyMessagesDropped_spec now sched delta total appId r t :
  Chan.closed (outputChannel r) = false -> Chan.buf (outputChannel r) = [] ->
  (3 <= Chan.cap (outputChannel r))%nat -> queuedInternalMessageCount r = 0 ->
  exists r' t' ints, notifyMessagesDropped Wrap now sched delta total appId r t = Some (r', t') /\
    frame r r' /\ flow r t r' t' ints /\
    Forall (fun i => i.1 = Notice) ints /\ (length ints <= 2)%nat /\
    queuedInternalMessageCount r' = Z.of_nat (length ints) /\
    sentMessageCount r' = sentMessageCount r /\ droppedMessageCount r' = droppedMessageCount r /\
    counters t' = counters t ++ [("TruncatingBuffer.totalDroppedMessages"%string, delta)].
Proof.
  intros Hc Hb Hcap Hq. unfold notifyMessagesDropped.
  set (t0 := mkTrace _ _).
  destruct (reader_takes (before_log_notice sched) r t0) as [r1 t1] eqn:E1.
  destruct (notice_spec _ (eventAllowed r1 V1.Envelope_LogMessage)
    (LogMessageEvent (generateLogMessage now delta total appId (Origin (context r1))
      (Destination (context r1)))) _ _ _ _ E1)
    as (r2 & xs & -> & Fr1 & Fl1 & N1 & L1 & Q1 & S1 & D1);
    [done|rewrite Hb; simpl; lia|lia|].
  cbv beta iota zeta.
  destruct (reader_takes (before_counter_notice sched) r2 t1) as [r3 t2] eqn:E2.
  pose proof (flow_length _ _ _ _ _ Fl1) as Hlen. rewrite Hb in Hlen; simpl in Hlen.
  destruct Fr1 as (? & ? & Hcap1 & Hcl1).
  destruct (notice_spec _ (eventAllowed r3 V1.Envelope_CounterEvent)
    (CounterEventEvent (generateCounterEvent delta total)) _ _ _ _ E2)
    as (r4 & ys & -> & Fr2 & Fl2 & N2 & L2 & Q2 & S2 & D2); [congruence|lia|lia|].
  exists r4, t2, (xs ++ ys). split; [done|].
  split; [eapply frame_trans; [|exact Fr2]; done|].
  split; [|split_and!].
  - change (flow r t r4 t2 (xs ++ ys)) with (flow r t0 r4 t2 (xs ++ ys)).
    eapply flow_trans; eassumption.
  - by apply Forall_app.
  - rewrite length_app. lia.
  - rewrite length_app. lia.
  - congruence.
  - congruence.
  - injection E2 as _ <-. injection E1 as _ <-. done.
Qed.

(** The overflow branch, whatever the reader does: it never blocks, the notices and the
    message end up in the channel, in that order, and the counters are reset. *)
Lemma forwardMessage_full now sched msg r t n t0 :
  Chan.closed (outputChannel r) = false ->
  (Chan.cap (outputChannel r) <= length (Chan.buf (outputChannel r)))%nat ->
  (3 <= Chan.cap (outputChannel r))%nat ->
  let r0 := set_output r (Chan.mk (Chan.cap (outputChannel r)) [] (Chan.closed (outputChannel r))) in
  dropMessages (during_drain sched) r t = Some (n, r0, t0) ->
  let delta := Words.sub 64 n (queuedInternalMessageCount r) in
  exists r' t' ints, forwardMessage Wrap now sched msg r t = Some (r', t') /\
    frame r r' /\ flow r0 t0 r' t' (ints ++ [(Client, msg)]) /\
    Forall (fun i => i.1 = Notice) ints /\ (length ints <= 2)%nat /\
    sentMessageCount r' = 1 /\ queuedInternalMessageCount r' = Z.of_nat (length ints) /\
    droppedMessageCount r' = Words.add 64 (droppedMessageCount r) delta /\
    counters t' = counters t0 ++ [("TruncatingBuffer.totalDroppedMessages"%string, delta)].
Proof.
  intros Hc Hfull Hcap r0 Hdrop delta. unfold forwardMessage.
  rewrite Chan.try_send_full by done. rewrite Hdrop.
  set (r1 := set_counts r0 _ 0 _).
  destruct (notifyMessagesDropped_spec now sched delta
    (Words.add 64 (droppedMessageCount r) delta) (AppID (context r1) msg) r1 t0)
    as (r2 & t2 & ints & E & Fr & Fl & N & L & Q & S & D & C); [done..|].
  cbv zeta. unfold r0 at 1 2 3. simpl queuedInternalMessageCount. simpl droppedMessageCount.
  fold delta. fold r1. rewrite E.
  destruct (reader_takes (before_write sched) r2 t2) as [r3 t3] eqn:E3.
  destruct (reader_takes_flow _ _ _ _ _ E3) as (Fl3 & Fr3 & S3 & Q3 & D3).
  pose proof (flow_length _ _ _ _ _ Fl) as L1. pose proof (flow_length _ _ _ _ _ Fl3) as L3.
  simpl in L1, L3.
  pose proof (frame_trans _ _ _ Fr Fr3) as (Fc & Fb & Fcap & Fcl). simpl in Fc, Fb, Fcap, Fcl.
  unfold writeToOutput. rewrite Chan.try_send_open by (congruence || lia).
  eexists _, _, ints. split; [done|]. split; [split_and!; simpl; congruence|].
  split.
  { eapply flow_trans; [exact Fl|]. destruct Fl3 as (k & K1 & K2).
    exists k. simpl. split; [done|]. rewrite app_assoc, K2, app_nil_r. done. }
  injection E3 as _ <-. simpl. rewrite Q3, D3, D. by split_and!.
Qed.

(** In a full channel the internal-message counter is exactly the number of notices. *)
Lemma full_clients s :
  Inv s -> length (Chan.buf (outputChannel (buffer s))) = Z.to_nat (bufferSize (buffer s)) ->
  clients (Chan.buf (outputChannel (buffer s))) =
    bufferSize (buffer s) - queuedInternalMessageCount (buffer s) /\
  0 <= queuedInternalMessageCount (buffer s) <= 2.
Proof.
  intros (HB & Hcap & Hwf & Hcl & Hacc & ints & exts & Hsuf & Hn & He & Hi & Hs & Hq) Hfull.
  destruct Hsuf as [pre Hpre].
  assert (Hlen := f_equal length Hpre). rewrite !length_app in Hlen.
  assert (Hbuf : Chan.buf (outputChannel (buffer s)) = drop (length pre) (ints ++ exts)).
  { by rewrite Hpre, drop_app_length. }
  rewrite Hbuf, drop_app, clients_app.
  rewrite (clients_none (drop _ ints)) by by apply Forall_drop.
  rewrite (clients_all (drop _ exts)) by by apply Forall_drop.
  rewrite length_drop. lia.
Qed.

Lemma Inv_overflow s now sched msg :
  Inv s -> running s = true ->
  length (Chan.buf (outputChannel (buffer s))) = Z.to_nat (bufferSize (buffer s)) ->
  exists n t0 taken r' t' ints,
    dropMessages (during_drain sched) (buffer s) (observed s) = Some
      (n, set_output (buffer s) (Chan.mk (Chan.cap (outputChannel (buffer s))) []
            (Chan.closed (outputChannel (buffer s)))), t0) /\
    received t0 = received (observed s) ++ taken /\
    taken `sublist_of` Chan.buf (outputChannel (buffer s)) /\
    counters t0 = counters (observed s) /\
    forwardMessage Wrap now sched msg (buffer s) (observed s) = Some (r', t') /\
    flow (set_output (buffer s) (Chan.mk (Chan.cap (outputChannel (buffer s))) []
            (Chan.closed (outputChannel (buffer s))))) t0 r' t' (ints ++ [(Client, msg)]) /\
    Forall (fun i => i.1 = Notice) ints /\
    Inv (mkSystem r' t' (accepted s ++ [msg]) true) /\
    droppedMessageCount r' = Words.add 64 (droppedMessageCount (buffer s))
      (Words.sub 64 n (queuedInternalMessageCount (buffer s))) /\
    counters t' = counters t0 ++ [("TruncatingBuffer.totalDroppedMessages"%string,
      Words.sub 64 n (queuedInternalMessageCount (buffer s)))].
Proof.
  intros Hinv Hrun Hfull. pose proof Hinv as (HB & Hcap & Hwf & Hcl & Hacc & _).
  rewrite Hrun in Hcl. simpl in Hcl.
  destruct (dropMessages_loop_spec (S (length (Chan.buf (outputChannel (buffer s)))))
    (during_drain sched) (buffer s) (observed s) 0) as (n & t0 & taken & Hdrop & Hrv & Hsub & Hcn); [lia|].
  destruct (forwardMessage_full now sched msg (buffer s) (observed s) n t0)
    as (r' & t' & ints & E & (Fc & Fb & Fcap & Fcl) & Fl & N & L & S & Q & D & C);
    [done|lia|lia|done|].
  exists n, t0, taken, r', t', ints. split_and!; try done.
  pose proof (flow_length _ _ _ _ _ Fl) as Hl. pose proof (flow_suffix _ _ _ _ _ Fl) as Hsuf.
  rewrite length_app in Hl. simpl in *.
  unfold Inv, Chan.wf; simpl. rewrite Fb, Fcap, Fcl, S, length_app.
  split_and!; try done; simpl; try lia.
  exists ints, [(Client, msg)]. split_and!; try done; simpl; try lia. by repeat constructor.
Qed.

Lemma Inv_sent s now sched msg :
  Inv s -> running s = true -> Z.of_nat (length (accepted s)) < 2 ^ 63 ->
  (length (Chan.buf (outputChannel (buffer s))) < Z.to_nat (bufferSize (buffer s)))%nat ->
  exists r', forwardMessage Wrap now sched msg (buffer s) (observed s) = Some (r', observed s) /\
    Chan.buf (outputChannel r') = Chan.buf (outputChannel (buffer s)) ++ [(Client, msg)] /\
    droppedMessageCount r' = droppedMessageCount (buffer s) /\
    Inv (mkSystem r' (observed s) (accepted s ++ [msg]) true).
Proof.
  intros (HB & Hcap & Hwf & Hcl & Hacc & ints & exts & Hsuf & Hn & He & Hi & Hs & Hq) Hrun Hmax Hroom.
  rewrite Hrun in Hcl. simpl in Hcl. unfold forwardMessage.
  rewrite Chan.try_send_open by (done || lia).
  eexists. split; [done|]. split; [done|]. split; [done|].
  unfold Inv; simpl. rewrite length_app. simpl.
  rewrite (Words.add_small 64 (sentMessageCount _)) by lia.
  split_and!; try done; try lia.
  - unfold Chan.wf. simpl. rewrite length_app. simpl. lia.
  - exists ints, (exts ++ [(Client, msg)]). rewrite length_app. simpl.
    split_and!; try done; try lia.
    + destruct Hsuf as [p Hp]. exists p. by rewrite !app_assoc, Hp, <- app_assoc.
    + apply Forall_app; split; [done|]. by repeat constructor.
    + rewrite (Words.add_small 64 (sentMessageCount _ + 1)) by lia.
      destruct (bool_decide_reflect (0 < queuedInternalMessageCount (buffer s)));
      destruct (bool_decide_reflect (bufferSize (buffer s) <
        sentMessageCount (buffer s) + 1 + queuedInternalMessageCount (buffer s)));
      simpl; rewrite ?Words.sub_small; lia.
Qed.

Lemma Inv_forward s now sched msg :
  Inv s -> running s = true -> Z.of_nat (length (accepted s)) < 2 ^ 63 ->
  exists r' t', forwardMessage Wrap now sched msg (buffer s) (observed s) = Some (r', t') /\
    Inv (mkSystem r' t' (accepted s ++ [msg]) true).
Proof.
  intros Hinv Hrun Hmax. pose proof Hinv as (HB & Hcap & Hwf & _).
  unfold Chan.wf in Hwf.
  destruct (decide (length (Chan.buf (outputChannel (buffer s))) < Z.to_nat (bufferSize (buffer s)))%nat)
    as [Hlt|Hge].
  - destruct (Inv_sent s now sched msg) as (r' & E & _ & _ & I); [done..|]. eauto.
  - destruct (Inv_overflow s now sched msg) as (n & t0 & tk & r' & t' & ints & _ & _ & _ & _ & E & _ & _ & I & _);
      [done|done|lia|]. eauto.
Qed.

Lemma client_msgs_app l k : client_msgs (l ++ k) = client_msgs l ++ client_msgs k.
Proof. induction l as [|[[] m] l IH]; simpl; congruence. Qed.

Lemma client_msgs_length l : Z.of_nat (length (client_msgs l)) = clients l.
Proof. induction l as [|[[] m] l IH]; simpl; lia. Qed.

Lemma client_msgs_notices l : Forall (fun i => i.1 = Notice) l -> client_msgs l = [].
Proof. induction 1 as [|[[] m] l H _ IH]; simpl in *; done. Qed.

Lemma client_msgs_sublist l k : l `sublist_of` k -> client_msgs l `sublist_of` client_msgs k.
Proof.
  induction 1 as [|[[] m] l k _ IH|[[] m] l k _ IH]; simpl; auto using sublist.
Qed.

Lemma reported_app l k : reported (l ++ k) = reported l + reported k.
Proof. induction l as [|c l IH]; simpl; lia. Qed.

Lemma Ordered_bound s : Ordered s ->
  clients (received (observed s)) + clients (Chan.buf (outputChannel (buffer s)))
    <= Z.of_nat (length (accepted s)).
Proof.
  intros H%sublist_length. rewrite client_msgs_app, length_app in H.
  rewrite <- !client_msgs_length. lia.
Qed.

(** The reader's own steps change nothing but who holds the messages. *)
Lemma consume_keeps s n :
  Inv s -> let s' := mkSystem (reader_takes n (buffer s) (observed s)).1
    (reader_takes n (buffer s) (observed s)).2 (accepted s) (running s) in
  Inv s' /\ (Ordered s -> Ordered s') /\ (Accounted s -> Accounted s') /\
  (Reported s -> Reported s').
Proof.
  intros (HB & Hcap & Hwf & Hcl & Hacc & ints & exts & Hsuf & Hrest).
  destruct (reader_takes n (buffer s) (observed s)) as [r t] eqn:E.
  destruct (reader_takes_flow _ _ _ _ _ E) as (Hf & (Fc & Fb & Fcap & Fcl) & Hs & Hq & Hd).
  pose proof (flow_clients _ _ _ _ _ Hf) as Hcli. simpl in Hcli.
  pose proof (flow_length _ _ _ _ _ Hf) as Hlen. simpl in Hlen.
  pose proof (flow_suffix _ _ _ _ _ Hf) as Hsx. rewrite app_nil_r in Hsx.
  split; [|split; [|split]].
  - unfold Inv, Chan.wf in *. simpl. rewrite Fb, Fcap, Fcl, Hs, Hq.
    split_and!; try done; try lia. exists ints, exts. split; [by etrans|done].
  - unfold Ordered. simpl. destruct Hf as (k & -> & F). by rewrite <- app_assoc, F, app_nil_r.
  - unfold Accounted. simpl. lia.
  - unfold Reported. simpl. injection E as _ <-. simpl. congruence.
Qed.

Lemma forward_keeps s now sched msg :
  Inv s -> Ordered s -> running s = true -> Z.of_nat (length (accepted s)) < 2 ^ 63 ->
  exists r' t', forwardMessage Wrap now sched msg (buffer s) (observed s) = Some (r', t') /\ let s' := mkSystem r' t' (accepted s ++ [msg]) true in
    Inv s' /\ Ordered s' /\
    (during_drain sched = [] -> Accounted s -> Reported s -> Accounted s' /\ Reported s').
Proof.
  intros Hinv Hord Hrun Hmax. pose proof Hinv as (HB & Hcap & Hwf & _). unfold Chan.wf in Hwf.
  destruct (decide (length (Chan.buf (outputChannel (buffer s))) < Z.to_nat (bufferSize (buffer s)))%nat)
    as [Hlt|Hge].
  - destruct (Inv_sent s now sched msg) as (r' & E & B & D & I); [done..|].
    exists r', (observed s). split; [done|]. split; [done|].
    unfold Ordered, Accounted, Reported. simpl. rewrite B, D, app_assoc, client_msgs_app.
    split; [by apply sublist_app|]. intros _ A R. split; [|done].
    rewrite A, length_app, clients_app. simpl. lia.
  - destruct (Inv_overflow s now sched msg)
      as (n & t0 & tk & r' & t' & ints & Hdrop & Rv & Sub & Cn & E & Fl & N & I & D & C);
      [done|done|lia|].
    exists r', t'. split; [done|]. split; [done|].
    pose proof (flow_clients _ _ _ _ _ Fl) as Hcli.
    rewrite clients_app, (clients_none ints N) in Hcli. simpl in Hcli.
    split.
    + unfold Ordered. simpl. destruct Fl as (k & -> & F).
      rewrite <- app_assoc, F, Rv, client_msgs_app, client_msgs_app. simpl.
      rewrite client_msgs_app, (client_msgs_notices ints N). simpl.
      apply sublist_app; [|done]. unfold Ordered in Hord. etrans; [|exact Hord].
      rewrite client_msgs_app. apply sublist_app; [done|]. by apply client_msgs_sublist.
    + intros Hq A R. rewrite Hq in Hdrop. unfold dropMessages in Hdrop.
      rewrite dropMessages_loop_idle in Hdrop by lia. injection Hdrop as Hn Ht.
      destruct (full_clients s Hinv ltac:(lia)) as [Hcl Hqb].
      pose proof (Ordered_bound s Hord) as Hob. unfold Accounted, Reported in *. simpl.
      pose proof (clients_nonneg (received (observed s))).
      pose proof (clients_nonneg (Chan.buf (outputChannel (buffer s)))).
      rewrite D, C, reported_app, <- Ht. simpl. rewrite <- Hn.
      rewrite (Words.sub_small 64) by lia. rewrite (Words.add_small 64) by lia.
      rewrite length_app. simpl. rewrite <- Ht in Hcli. lia.
Qed.

Lemma Run_step_keeps s i :
  Inv s -> Ordered s -> Z.of_nat (length (accepted s)) < 2 ^ 63 ->
  exists s', Run_step Wrap s i = Some s' /\ Inv s' /\ Ordered s' /\
    (length (accepted s') <= S (length (accepted s)))%nat /\
    (quiet_drain i = true -> Accounted s -> Reported s -> Accounted s' /\ Reported s').
Proof.
  intros Hinv Hord Hmax. destruct i as [now sched msg|n|]; simpl.
  - destruct (running s) eqn:Hrun; [|exists s; eauto 10].
    destruct (eventAllowed _ _); [|exists s; eauto 10].
    destruct (forward_keeps s now sched msg) as (r' & t' & -> & I & O & AR); [done..|].
    eexists. split; [done|]. split; [done|]. split; [done|]. simpl. rewrite length_app.
    split; [simpl; lia|]. intros Hq%bool_decide_eq_true. auto.
  - pose proof (consume_keeps s n Hinv) as (I & O & A & R).
    eexists. split; [done|]. split_and!; eauto.
  - destruct (running s) eqn:Hrun; [|exists s; eauto 10].
    destruct Hinv as (HB & Hcap & Hwf & Hcl & Hrest). rewrite Hrun in Hcl.
    unfold closeOutputChannel, Chan.close. rewrite Hcl.
    eexists. split; [done|]. unfold Inv, Ordered, Accounted, Reported in *. simpl in *. eauto 10.
Qed.

Lemma Run_keeps inputs s :
  Inv s -> Ordered s -> Z.of_nat (length (accepted s)) + Z.of_nat (length inputs) < 2 ^ 63 ->
  exists s', Run Wrap s inputs = Some s' /\ Inv s' /\ Ordered s' /\
    (forallb quiet_drain inputs = true -> Accounted s -> Reported s -> Accounted s' /\ Reported s').
Proof.
  revert s. induction inputs as [|i inputs IH]; intros s Hinv Hord Hmax; simpl in *; [eauto 10|].
  destruct (Run_step_keeps s i) as (s1 & -> & I & O & L & AR); [done|done|lia|].
  destruct (IH s1) as (s' & -> & I' & O' & AR'); [done|done|lia|].
  exists s'. split_and!; try done. intros [Hq Hqs]%andb_true_iff A R.
  destruct (AR Hq A R). auto.
Qed.

Lemma New_Inv size ctx r :
  NewTruncatingBuffer size (Some ctx) = Returns r -> size < 2 ^ 63 ->
  Inv (start r) /\ Ordered (start r) /\ Accounted (start r) /\ Reported (start r).
Proof.
  unfold NewTruncatingBuffer. intros H Hs. case_decide; [done|]. injection H as <-.
  split; [|split_and!; [constructor|done|done]]. unfold Inv. simpl.
  rewrite Words.wrap_small by lia. split_and!; try done; try lia.
  - apply Chan.make_wf.
  - exists [], []. simpl. split_and!; try done; lia.
Qed.

End Facts.

(** ** Properties *)

(** C1: exact loss accounting.  In every execution in which the reader does not take
    messages while the buffer is being drained, [Run] never blocks or panics, and the
    number of dropped messages it maintains (and the sum of the deltas it reports as
    metrics) is exactly the number of accepted client messages that were neither
    delivered nor are still queued: the notices it injects are never counted. *)
Theorem truncating_buffer_accounting Wrap size ctx r inputs :
  NewTruncatingBuffer size (Some ctx) = Returns r -> size < 2 ^ 63 ->
  Z.of_nat (length inputs) < 2 ^ 63 -> forallb quiet_drain inputs = true ->
  exists s, Run Wrap (start r) inputs = Some s /\
    droppedMessageCount (buffer s) =
      Z.of_nat (length (accepted s)) - clients (received (observed s))
      - clients (Chan.buf (outputChannel (buffer s))) /\
    reported (counters (observed s)) = droppedMessageCount (buffer s).
Proof.
  intros Hnew Hs Hlen Hq. destruct (New_Inv _ _ _ Hnew Hs) as (I & O & A & R).
  destruct (Run_keeps Wrap inputs (start r)) as (s & E & _ & _ & AR); [done|done|simpl; lia|].
  destruct (AR Hq A R). eauto.
Qed.

(** Under every interleaving with the reader, [Run] never blocks on its output channel
    and never sends on a closed one, the channel never holds more than [bufferSize]
    messages, and the client messages delivered or queued are a subsequence of the
    accepted ones: no reordering, no duplication. *)
Theorem truncating_buffer_never_blocks Wrap size ctx r inputs :
  NewTruncatingBuffer size (Some ctx) = Returns r -> size < 2 ^ 63 ->
  Z.of_nat (length inputs) < 2 ^ 63 ->
  exists s, Run Wrap (start r) inputs = Some s /\
    (length (Chan.buf (outputChannel (buffer s))) <= Z.to_nat (bufferSize (buffer s)))%nat /\
    client_msgs (received (observed s) ++ Chan.buf (outputChannel (buffer s)))
      `sublist_of` accepted s.
Proof.
  intros Hnew Hs Hlen. destruct (New_Inv _ _ _ Hnew Hs) as (I & O & _).
  destruct (Run_keeps Wrap inputs (start r)) as (s & E & (_ & Hcap & Hwf & _) & O' & _);
    [done|done|simpl; lia|].
  exists s. split_and!; try done. unfold Chan.wf in Hwf. lia.
Qed.

(** What an overflow puts in the emptied channel, for a context and a [Wrap] that works. *)
Definition overflow_notices (w : Event -> string -> V1.Envelope) (ctx : BufferContext)
  (now delta total : Z) (appId : string) : list item :=
  (if EventAllowed ctx V1.Envelope_LogMessage
   then [(Notice, w (LogMessageEvent (generateLogMessage now delta total appId
            (Origin ctx) (Destination ctx))) (Origin ctx))] else []) ++
  (if EventAllowed ctx V1.Envelope_CounterEvent
   then [(Notice, w (CounterEventEvent (generateCounterEvent delta total)) (Origin ctx))] else []).

Lemma reader_takes_0 r t : reader_takes 0 r t = (r, t).
Proof.
  destruct r as [c [cap b cl] B s q d], t as [rv cs]. unfold reader_takes, set_output, Chan.consume.
  simpl. by rewrite drop_0, take_0, app_nil_r.
Qed.

Lemma emit_idle w e r :
  Chan.closed (outputChannel r) = false ->
  (length (Chan.buf (outputChannel r)) < Chan.cap (outputChannel r))%nat ->
  exists q, emitMessage (fun e o => Ok (w e o)) e r =
    Some (set_counts (set_output r (Chan.mk (Chan.cap (outputChannel r))
      (Chan.buf (outputChannel r) ++ [(Notice, w e (Origin (context r)))]) false))
      (sentMessageCount r) q (droppedMessageCount r)).
Proof. intros Hc Hl. unfold emitMessage. rewrite Chan.try_send_open by done. by eexists. Qed.

Lemma notify_idle w now delta total appId r t :
  Chan.closed (outputChannel r) = false -> Chan.buf (outputChannel r) = [] ->
  (3 <= Chan.cap (outputChannel r))%nat ->
  exists r', notifyMessagesDropped (fun e o => Ok (w e o)) now idle_reader delta total appId r t =
    Some (r', mkTrace (received t)
      (counters t ++ [("TruncatingBuffer.totalDroppedMessages"%string, delta)])) /\
    Chan.buf (outputChannel r') = overflow_notices w (context r) now delta total appId /\
    droppedMessageCount r' = droppedMessageCount r /\
    Chan.closed (outputChannel r') = false /\
    Chan.cap (outputChannel r') = Chan.cap (outputChannel r).
Proof.
  intros Hc Hb Hcap. unfold notifyMessagesDropped, overflow_notices. simpl before_log_notice.
  simpl before_counter_notice. rewrite reader_takes_0. unfold eventAllowed.
  destruct (EventAllowed (context r) V1.Envelope_LogMessage).
  - edestruct emit_idle as [q ->]; [done|rewrite Hb; simpl; lia|].
    rewrite reader_takes_0. simpl context.
    destruct (EventAllowed (context r) V1.Envelope_CounterEvent).
    + edestruct emit_idle as [q' ->]; [done|simpl; rewrite Hb; simpl; lia|].
      eexists. split; [done|]. simpl. by rewrite Hb.
    + eexists. split; [done|]. simpl. by rewrite Hb.
  - rewrite reader_takes_0. destruct (EventAllowed (context r) V1.Envelope_CounterEvent).
    + edestruct emit_idle as [q' ->]; [done|rewrite Hb; simpl; lia|].
      eexists. split; [done|]. simpl. by rewrite Hb.
    + eexists. split; [done|]. simpl. by rewrite Hb.
Qed.

Lemma Run_accepted Wrap l s0 s : Run Wrap s0 l = Some s ->
  (length (accepted s) <= length (accepted s0) + length l)%nat.
Proof.
  revert s0. induction l as [|i l IH]; intros s0 H; simpl in H; [injection H as ->; lia|].
  destruct (Run_step Wrap s0 i) as [s1|] eqn:E; [|done]. apply IH in H.
  assert (length (accepted s1) <= S (length (accepted s0)))%nat; [|simpl; lia].
  destruct i; simpl in E; break; rewrite ?length_app; simpl; lia.
Qed.

(** The overflow notice is truthful.  From any state reachable with quiet drains whose
    channel is full, the next message with an idle reader leaves exactly: the log notice
    and the counter notice the context allows, carrying the number of client messages just
    discarded and the running total, followed by the new message. *)
Theorem truncating_buffer_overflow_notice w size ctx r inputs s now msg :
  let Wrap := fun e o => Ok (w e o) in
  NewTruncatingBuffer size (Some ctx) = Returns r -> size < 2 ^ 63 ->
  Z.of_nat (length inputs) < 2 ^ 63 -> forallb quiet_drain inputs = true ->
  Run Wrap (start r) inputs = Some s -> running s = true ->
  length (Chan.buf (outputChannel (buffer s))) = Z.to_nat (bufferSize (buffer s)) ->
  let c := context (buffer s) in
  let delta := clients (Chan.buf (outputChannel (buffer s))) in
  let total := droppedMessageCount (buffer s) + delta in
  exists r' t', forwardMessage Wrap now idle_reader msg (buffer s) (observed s) = Some (r', t') /\
    Chan.buf (outputChannel r') = overflow_notices w c now delta total (AppID c msg) ++ [(Client, msg)] /\
    droppedMessageCount r' = total /\
    received t' = received (observed s).
Proof.
  intros Wrap Hnew Hs Hlen Hq HR Hrun Hfull c delta total.
  destruct (New_Inv _ _ _ Hnew Hs) as (I0 & O0 & A0 & R0).
  destruct (Run_keeps Wrap inputs (start r)) as (s1 & E & I & O & AR); [done|done|simpl; lia|].
  rewrite HR in E. injection E as <-. destruct (AR Hq A0 R0) as [A R].
  destruct (full_clients s I Hfull) as [Hcl Hqb].
  pose proof (Ordered_bound s O) as Hob.
  pose proof I as (HB & Hcap & Hwf & Hclosed & _). rewrite Hrun in Hclosed. simpl in Hclosed.
  unfold Accounted in A.
  assert (Hacc : 0 <= total < 2 ^ 64).
  { unfold total, delta. rewrite A. pose proof (clients_nonneg (received (observed s))).
    apply Run_accepted in HR. simpl in HR. lia. }
  unfold forwardMessage. rewrite Chan.try_send_full by (done || lia).
  unfold dropMessages. simpl during_drain. rewrite dropMessages_loop_idle by lia.
  rewrite Hfull. simpl queuedInternalMessageCount. simpl droppedMessageCount.
  replace (0 + Z.of_nat (Z.to_nat (bufferSize (buffer s)))) with (bufferSize (buffer s)) by lia.
  rewrite (Words.sub_small 64) by lia. rewrite <- Hcl. fold delta.
  rewrite (Words.add_small 64) by (fold total; lia). fold total.
  match goal with |- context [notifyMessagesDropped _ _ _ _ _ _ ?x ?y] =>
    destruct (notify_idle w now delta total (AppID (context x) msg) x y)
      as (r1 & Hn & Hb & Hd & Hc1 & Hc2); [done|done|simpl; lia|] end.
  fold Wrap in Hn. rewrite Hn. simpl before_write. rewrite reader_takes_0.
  unfold writeToOutput. rewrite Chan.try_send_open; [|done|].
  - eexists _, _. split; [done|]. simpl. by rewrite Hb, Hd.
  - rewrite Hb, Hc2. unfold overflow_notices. rewrite length_app. simpl. do 2 case_match; simpl; lia.
Qed.

(** ** Concrete executions *)

Module Run_example.

Definition msg (ts : Z) : V1.Envelope :=
  {| V1.Origin := Some "origin"%string; V1.EventTypeF := Some V1.Envelope_LogMessage;
     V1.Timestamp := Some ts; V1.Deployment := None; V1.Job := None; V1.Index := None;
     V1.Ip := None; V1.Tags := ∅; V1.HttpStartStopF := None; V1.LogMessageF := None;
     V1.ValueMetricF := None; V1.CounterEventF := None; V1.ErrorF := None;
     V1.ContainerMetricF := None |}.

Definition wrap_event (e : Event) (origin : string) : V1.Envelope :=
  match e with
  | LogMessageEvent m => msg (default 0 (V1.lm_Timestamp m))
  | CounterEventEvent c => msg (default 0 (V1.ce_Delta c))
  end.

Definition ctx : BufferContext :=
  NewDefaultContext (fun _ => "app"%string) "doppler" "sink".

Definition r0 : TruncatingBuffer :=
  match NewTruncatingBuffer 3 (Some ctx) with
  | Returns r => r
  | Panics _ => mkBuffer ctx (Chan.make item 0) 0 0 0 0
  end.

Definition send (ts : Z) (during : list nat) : input :=
  Message ts (mkSchedule during 0 0 0) (msg ts).

(** Two overflows, with the reader running between them. *)
Definition inputs : list input :=
  [send 1 []; send 2 []; send 3 []; send 4 []; Consume 1; send 5 []; send 6 []; Consume 2;
   send 7 []; StopOrClosed].

Definition full_inputs : list input := [send 1 []; send 2 []; send 3 []; send 4 []].

End Run_example.

Lemma truncating_buffer_accounting_witness :
  exists s, Run (fun e o => Ok (Run_example.wrap_event e o)) (start Run_example.r0) Run_example.inputs = Some s /\
    droppedMessageCount (buffer s) =
      Z.of_nat (length (accepted s)) - clients (received (observed s))
      - clients (Chan.buf (outputChannel (buffer s))) /\
    reported (counters (observed s)) = droppedMessageCount (buffer s).
Proof.
  apply (truncating_buffer_accounting _ 3 Run_example.ctx); vm_compute; reflexivity.
Defined.

Lemma truncating_buffer_never_blocks_witness :
  exists s, Run (fun e o => Ok (Run_example.wrap_event e o)) (start Run_example.r0) Run_example.inputs = Some s /\
    (length (Chan.buf (outputChannel (buffer s))) <= Z.to_nat (bufferSize (buffer s)))%nat /\
    client_msgs (received (observed s) ++ Chan.buf (outputChannel (buffer s)))
      `sublist_of` accepted s.
Proof.
  apply (truncating_buffer_never_blocks _ 3 Run_example.ctx); vm_compute; reflexivity.
Defined.

Lemma truncating_buffer_overflow_notice_witness :
  exists s, Run (fun e o => Ok (Run_example.wrap_event e o)) (start Run_example.r0)
    Run_example.full_inputs = Some s /\
  exists r' t', forwardMessage (fun e o => Ok (Run_example.wrap_event e o)) 5 idle_reader
      (Run_example.msg 5) (buffer s) (observed s) = Some (r', t') /\
    Chan.buf (outputChannel r') =
      overflow_notices Run_example.wrap_event (context (buffer s)) 5
        (clients (Chan.buf (outputChannel (buffer s))))
        (droppedMessageCount (buffer s) + clients (Chan.buf (outputChannel (buffer s))))
        (AppID (context (buffer s)) (Run_example.msg 5)) ++ [(Client, Run_example.msg 5)] /\
    droppedMessageCount r' =
      droppedMessageCount (buffer s) + clients (Chan.buf (outputChannel (buffer s))) /\
    received t' = received (observed s).
Proof.
  eexists. split; [vm_compute; reflexivity|].
  apply (truncating_buffer_overflow_notice Run_example.wrap_event 3 Run_example.ctx
    Run_example.r0 Run_example.full_inputs); vm_compute; reflexivity.
Defined.

(** The accounting of C1 needs its hypothesis.  When the reader empties the channel
    between the failed send and the drain loop, [dropMessages] returns less than
    [queuedInternalMessageCount], the unsigned subtraction wraps, a loss of 2^64 - 2
    messages is reported to the metric, and the running total goes down from 3 to 1. *)
Theorem truncating_buffer_drain_race :
  exists (size : Z) (ctx : BufferContext) (r : TruncatingBuffer) (msg : V1.Envelope) (s1 s2 : system),
    NewTruncatingBuffer size (Some ctx) = Returns r /\
    Run (fun e o => Ok (Run_example.wrap_event e o)) (start r)
      (replicate 4 (Message 0 idle_reader msg)) = Some s1 /\
    droppedMessageCount (buffer s1) = 3 /\
    Run_step (fun e o => Ok (Run_example.wrap_event e o)) s1
      (Message 0 (mkSchedule [3%nat] 0 0 0) msg) = Some s2 /\
    droppedMessageCount (buffer s2) = 1 /\
    counters (observed s2) =
      [("TruncatingBuffer.totalDroppedMessages"%string, 3);
       ("TruncatingBuffer.totalDroppedMessages"%string, 2 ^ 64 - 2)].
Proof.
  exists 3, Run_example.ctx, Run_example.r0, (Run_example.msg 0).
  eexists _, _. split; [vm_compute; reflexivity|]. split; [vm_compute; reflexivity|].
  split; [vm_compute; reflexivity|]. split; [vm_compute; reflexivity|].
  split; vm_compute; reflexivity.
Qed.
