(* ===== verification/Sinks.v ===== *)
(** * doppler/internal/sinks: the caching sinks and the retry strategies

    [Dump] is the ring buffer behind /recentlogs, [ContainerMetric] the cache behind
    /containermetrics, [Retry] the back-off of the syslog sink.  The two sinks run in a
    goroutine that selects between its input channel and an inactivity timer; an input of
    their [Run] is one thing the environment does or one choice of [select]. *)

From S2P Require Import Prelude Go Events.

(** The health registrar's [Inc(name)] (+1) and [Dec(name)] (-1), in order. *)
Definition health_calls : Type := list (string * Z).

(** One event of a sink goroutine: the input channel delivers or is closed, the runtime
    fires the timer, or [select] takes the timer case (which waits while it is not ready). *)
Inductive sink_input : Type :=
| Arrives (msg : V1.Envelope)
| InputClosed
| TimerExpires
| TimerCase.

(** ** container/ring *)

Module Ring.
Section Ring.
Context {A : Type}.

(** The elements from the current one on, in [Next] order; [[]] is the nil ring. *)
Definition t : Type := list (option A).

Definition New (n : nat) : t := replicate n None.

Definition Next (r : t) : outcome t :=
  match r with
  | [] => Panics "nil pointer dereference"
  | x :: l => Returns (l ++ [x])
  end.

Definition SetValue (r : t) (v : A) : outcome t :=
  match r with
  | [] => Panics "nil pointer dereference"
  | _ :: l => Returns (Some v :: l)
  end.

Definition Len (r : t) : nat := length r.

(** [Do(f)] visits the values in forward order. *)
Definition Do {S} (r : t) (f : S -> option A -> S) (s : S) : S := foldl f s r.

End Ring.
Arguments t : clear implicits.
End Ring.

(** ** dump/dump_sink.go *)

Module Dump.

Record DumpSink : Type := mkDumpSink {
  appId : string;
  messageRing : Ring.t V1.Envelope;
  inactivityDuration : Z
}.

Definition NewDumpSink (appId : string) (bufferSize : nat) (inactivityDuration : Z) : DumpSink :=
  {| appId := appId; messageRing := Ring.New bufferSize;
     inactivityDuration := inactivityDuration |}.

Definition addMsg (d : DumpSink) (msg : V1.Envelope) : outcome DumpSink :=
  (let! r := Ring.Next (messageRing d) in
   let! r := Ring.SetValue r msg in
   Returns {| appId := appId d; messageRing := r; inactivityDuration := inactivityDuration d |})%go.

Definition Dump (d : DumpSink) : outcome (list V1.Envelope) :=
  (let! r := Ring.Next (messageRing d) in
   Returns (Ring.Do r
     (fun data value => match value with None => data | Some msg => data ++ [msg] end) []))%go.

Definition AppID (d : DumpSink) : string := appId d.
Definition Identifier (d : DumpSink) : string := appId d.
Definition ShouldReceiveErrors (d : DumpSink) : bool := true.

(** The goroutine: [seen] records the messages it has received. *)
Record state : Type := mkState {
  sink : DumpSink;
  timer : Timer.t;
  health : health_calls;
  seen : list V1.Envelope;
  running : bool
}.

Definition Run_start (d : DumpSink) : state :=
  mkState d Timer.NewTimer [("recentLogCacheCount"%string, 1%Z)] [] true.

(** The two deferred calls. *)
Definition Run_return (s : state) : state :=
  mkState (sink s) (fst (Timer.Stop (timer s)))
    (health s ++ [("recentLogCacheCount"%string, (-1)%Z)]) (seen s) false.

(** One event; [None] is a goroutine blocked for ever or a panic. *)
Definition Run_step (s : state) (i : sink_input) : option state :=
  if negb (running s) then Some s else
  match i with
  | InputClosed => Some (Run_return s)
  | TimerExpires => Some (mkState (sink s) (Timer.expire (timer s)) (health s) (seen s) true)
  | TimerCase =>
      match Timer.recv (timer s) with
      | Some t => Some (Run_return (mkState (sink s) t (health s) (seen s) true))
      | None => Some s
      end
  | Arrives msg =>
      let seen := seen s ++ [msg] in
      if bool_decide (V1.GetEventType msg <> V1.Envelope_LogMessage)
      then Some (mkState (sink s) (timer s) (health s) seen true)
      else match addMsg (sink s) msg with
           | Panics _ => None
           | Returns d =>
               let '(t, wasActive) := Timer.Stop (timer s) in
               let o := if wasActive then Some t else Timer.recv t in
               match o with
               | None => None
               | Some t => Some (mkState d (Timer.Reset t) (health s) seen true)
               end
           end
  end.

Fixpoint Run (s : state) (l : list sink_input) : option state :=
  match l with
  | [] => Some s
  | i :: l => match Run_step s i with Some s => Run s l | None => None end
  end.

Definition is_log (msg : V1.Envelope) : bool :=
  bool_decide (V1.GetEventType msg = V1.Envelope_LogMessage).

(** The ring read from its oldest slot is the last [n] entries of the empty slots
    followed by the logs received. *)
Definition ring_inv (n : nat) (d : DumpSink) (logs : list V1.Envelope) : Prop :=
  Ring.Next (messageRing d) =
    Returns (ListFacts.lastn n (replicate n None ++ (Some <$> logs))).

Lemma ring_tail (r r' : Ring.t V1.Envelope) :
  Ring.Next r = Returns r' -> forall v, exists r1 r2,
  Ring.SetValue r' v = Returns r1 /\ Ring.Next r1 = Returns r2 /\ r2 = tail r' ++ [Some v].
Proof.
  destruct r as [|x l]; [done|]. simpl. intros [= <-] v. destruct l as [|y l]; simpl; eauto 6.
Qed.

Lemma addMsg_inv n d logs msg :
  0 < n -> ring_inv n d logs ->
  exists d', addMsg d msg = Returns d' /\ ring_inv n d' (logs ++ [msg]).
Proof.
  unfold ring_inv, addMsg. intros Hn E. rewrite E. simpl.
  destruct (ring_tail _ _ E msg) as (r1 & r2 & -> & En & ->). simpl. eexists. split; [done|].
  simpl. rewrite En, fmap_app, app_assoc. simpl. f_equal.
  rewrite ListFacts.lastn_snoc; [done|done|]. rewrite length_app, length_replicate. lia.
Qed.

Lemma New_inv n app dur : 0 < n -> ring_inv n (NewDumpSink app n dur) [].
Proof.
  intros Hn. unfold ring_inv, NewDumpSink, Ring.New. simpl. rewrite app_nil_r.
  unfold ListFacts.lastn. rewrite length_replicate, Nat.sub_diag, drop_0.
  destruct n as [|n]; [lia|]. simpl. by rewrite <- replicate_S_end.
Qed.

Lemma collect_None n (data : list V1.Envelope) :
  foldl (fun data value => match value with None => data | Some msg => data ++ [msg] end)
    data (replicate n None) = data.
Proof. induction n as [|n IH]; simpl; done. Qed.

Lemma collect_Some l (data : list V1.Envelope) :
  foldl (fun data value => match value with None => data | Some msg => data ++ [msg] end)
    data (Some <$> l) = data ++ l.
Proof.
  revert data. induction l as [|x l IH]; intros data; simpl; [by rewrite app_nil_r|].
  rewrite IH, <- app_assoc. done.
Qed.

Lemma Dump_inv n d logs : ring_inv n d logs -> Dump d = Returns (ListFacts.lastn n logs).
Proof.
  unfold ring_inv, Dump, Ring.Do. intros ->. simpl. f_equal.
  rewrite ListFacts.lastn_app_pad by apply length_replicate.
  rewrite ListFacts.lastn_fmap, foldl_app, collect_Some, drop_replicate, collect_None. done.
Qed.

Definition inv (n : nat) (s : state) : Prop :=
  ring_inv n (sink s) (filter is_log (seen s)) /\
  (running s = true -> Timer.live (timer s)) /\
  (foldr (fun c n => c.2 + n) 0 (health s) = if running s then 1 else 0)%Z.

Lemma health_return h : (foldr (fun (c : string * Z) n => c.2 + n) 0 h = 1 ->
  foldr (fun (c : string * Z) n => c.2 + n) 0 (h ++ [("recentLogCacheCount"%string, -1)]) = 0)%Z.
Proof.
  enough (forall k, foldr (fun (c : string * Z) n => c.2 + n) 0 (h ++ k) =
    foldr (fun (c : string * Z) n => c.2 + n) 0 h + foldr (fun (c : string * Z) n => c.2 + n) 0 k)%Z as H.
  { intros E. rewrite H, E. done. }
  intros k. induction h as [|c h IH]; simpl; lia.
Qed.

Lemma Run_step_inv n s i : 0 < n -> inv n s -> exists s', Run_step s i = Some s' /\ inv n s'.
Proof.
  intros Hn (Hr & Ht & Hh). unfold Run_step. destruct (running s) eqn:Erun; simpl; [|exists s; unfold inv; rewrite Erun; by split_and!].
  specialize (Ht eq_refl). unfold inv, Timer.live in *.
  destruct i as [msg| | |]; simpl.
  - case_bool_decide as Hty.
    + eexists. split; [done|]. simpl. rewrite filter_app, filter_cons_False, filter_nil, app_nil_r;
        [done|]. unfold is_log. by rewrite bool_decide_spec.
    + destruct (addMsg_inv n (sink s) _ msg Hn Hr) as (d & -> & Hr').
      unfold Timer.recv. simpl. rewrite Ht.
      destruct (Timer.fired (timer s)); simpl; (eexists; split; [done|]); simpl;
        (rewrite filter_app, filter_cons_True, filter_nil;
          [done|unfold is_log; by rewrite bool_decide_spec]).
  - eexists. split; [done|]. simpl. split_and!; [done|done|by apply health_return].
  - eexists. split; [done|]. simpl. split_and!; [done| |done]. intros _. unfold Timer.expire.
    destruct (Timer.active (timer s)) eqn:E; simpl; congruence.
  - destruct (Timer.recv (timer s)) eqn:E; [|exists s; rewrite Erun; eauto].
    eexists. split; [done|]. simpl. split_and!; [done|done|by apply health_return].
Qed.

Lemma Run_inv n l s : 0 < n -> inv n s -> exists s', Run s l = Some s' /\ inv n s'.
Proof.
  intros Hn. revert s. induction l as [|i l IH]; intros s Hs; simpl; [eauto|].
  destruct (Run_step_inv n s i Hn Hs) as (s1 & -> & H1). by apply IH.
Qed.

(** C39: the recent-logs cache.  Whatever the order of messages, timer expiries and choices
    of [select], the sink goroutine never blocks or panics, [Dump] then returns exactly the
    last [n] log messages it received, oldest first and without gaps, and the health gauge
    is 1 while the goroutine runs and 0 once it has returned. *)
Theorem dump_sink_recent_logs app n dur l :
  0 < n ->
  exists s, Run (Run_start (NewDumpSink app n dur)) l = Some s /\
    Dump (sink s) = Returns (ListFacts.lastn n (filter is_log (seen s))) /\
    (foldr (fun c n => c.2 + n) 0 (health s) = if running s then 1 else 0)%Z.
Proof.
  intros Hn. destruct (Run_inv n l (Run_start (NewDumpSink app n dur)) Hn) as (s & E & R & _ & H).
  - split_and!; [by apply New_inv|done|done].
  - eauto using Dump_inv.
Qed.

Definition log_at (ts : Z) : V1.Envelope :=
  V1.mkEnvelope None (Some V1.Envelope_LogMessage) (Some ts) None None None None ∅
    None None None None None None.

Lemma dump_sink_recent_logs_witness :
  exists s, Run (Run_start (NewDumpSink "app" 2 10))
      [Arrives (log_at 1); TimerExpires; Arrives (log_at 2); Arrives (V1.empty_envelope ∅);
       Arrives (log_at 3); TimerExpires; TimerCase] = Some s /\
    Dump (sink s) = Returns (ListFacts.lastn 2 (filter is_log (seen s))) /\
    (foldr (fun c n => c.2 + n) 0 (health s) = if running s then 1 else 0)%Z.
Proof. apply dump_sink_recent_logs. lia. Defined.

End Dump.

(** ** containermetric/container_metric_sink.go *)

Module ContainerMetric.
Local Open Scope Z_scope.

Record ContainerMetricSink : Type := mkSink {
  appID : string;
  ttl : Z;
  metrics : gmap Z V1.Envelope;
  inactivityDuration : Z
}.

Definition NewContainerMetricSink (appID : string) (ttl inactivityDuration : Z) : ContainerMetricSink :=
  {| appID := appID; ttl := ttl; metrics := ∅; inactivityDuration := inactivityDuration |}.

Definition set_metrics (sink : ContainerMetricSink) (m : gmap Z V1.Envelope) : ContainerMetricSink :=
  {| appID := appID sink; ttl := ttl sink; metrics := m;
     inactivityDuration := inactivityDuration sink |}.

Definition updateMetric (sink : ContainerMetricSink) (event : V1.Envelope) : ContainerMetricSink :=
  let instance := V1.GetInstanceIndex (V1.ContainerMetricF event) in
  let store := set_metrics sink (<[instance := event]> (metrics sink)) in
  match metrics sink !! instance with
  | None => store
  | Some oldMetric =>
      if bool_decide (V1.GetTimestamp oldMetric < V1.GetTimestamp event) then store else sink
  end.

(** The loop of [GetLatest]: expired entries are deleted from the map it ranges over. *)
Definition GetLatest_step (earliestLiveTimestamp : Z)
  (acc : gmap Z V1.Envelope * list V1.Envelope) (kv : Z * V1.Envelope)
  : gmap Z V1.Envelope * list V1.Envelope :=
  let '(m, envelopes) := acc in
  let '(instanceIndex, env) := kv in
  if bool_decide (V1.GetTimestamp env < earliestLiveTimestamp)
  then (delete instanceIndex m, envelopes)
  else (m, envelopes ++ [env]).

Definition GetLatest (ord : RangeOrder Z) (now : Z) (sink : ContainerMetricSink)
  : ContainerMetricSink * list V1.Envelope :=
  let '(m, envelopes) :=
    foldl (GetLatest_step (now - ttl sink)) (metrics sink, []) (range_map ord (metrics sink)) in
  (set_metrics sink m, envelopes).

Definition AppID (sink : ContainerMetricSink) : string := appID sink.
Definition Identifier (sink : ContainerMetricSink) : string :=
  "container-metrics-" +:+ appID sink.
Definition ShouldReceiveErrors (sink : ContainerMetricSink) : bool := false.

Record state : Type := mkState {
  sink : ContainerMetricSink;
  timer : Timer.t;
  health : health_calls;
  running : bool
}.

(** [Run] up to its first [select]. *)
Definition Run_start (s : ContainerMetricSink) : state :=
  mkState s (Timer.Reset Timer.NewTimer) [("containerMetricCacheCount"%string, 1)] true.

Definition Run_return (s : state) (t : Timer.t) : state :=
  mkState (sink s) t (health s ++ [("containerMetricCacheCount"%string, -1)]) false.

(** One event; after a message the loop resets the timer before selecting again. *)
Definition Run_step (s : state) (i : sink_input) : state :=
  if negb (running s) then s else
  match i with
  | InputClosed => Run_return s (timer s)
  | TimerExpires => mkState (sink s) (Timer.expire (timer s)) (health s) true
  | TimerCase =>
      match Timer.recv (timer s) with
      | Some t => Run_return s (fst (Timer.Stop t))
      | None => s
      end
  | Arrives event =>
      let d := if bool_decide (V1.GetEventType event <> V1.Envelope_ContainerMetric)
               then sink s else updateMetric (sink s) event in
      mkState d (Timer.Reset (timer s)) (health s) true
  end.

(** What the cache is asked: an event is processed, or a client calls [GetLatest]. *)
Inductive cache_op : Type :=
| Update (event : V1.Envelope)
| Query (now : Z).

Fixpoint run_ops (ord : RangeOrder Z) (s : ContainerMetricSink) (l : list cache_op)
  : ContainerMetricSink :=
  match l with
  | [] => s
  | Update e :: l => run_ops ord (updateMetric s e) l
  | Query now :: l => run_ops ord (fst (GetLatest ord now s)) l
  end.

(** The reference: the newest event of every instance, never purged. *)
Definition newest (m : gmap Z V1.Envelope) (e : V1.Envelope) : gmap Z V1.Envelope :=
  let i := V1.GetInstanceIndex (V1.ContainerMetricF e) in
  match m !! i with
  | Some o => if bool_decide (V1.GetTimestamp o < V1.GetTimestamp e) then <[i := e]> m else m
  | None => <[i := e]> m
  end.

Fixpoint newest_of (m : gmap Z V1.Envelope) (l : list cache_op) : gmap Z V1.Envelope :=
  match l with
  | [] => m
  | Update e :: l => newest_of (newest m e) l
  | Query _ :: l => newest_of m l
  end.

(** The clock does not go back between queries. *)
Fixpoint monotone (from : Z) (l : list cache_op) : bool :=
  match l with
  | [] => true
  | Update _ :: l => monotone from l
  | Query now :: l => bool_decide (from <= now) && monotone now l
  end.

Fixpoint last_query (from : Z) (l : list cache_op) : Z :=
  match l with
  | [] => from
  | Update _ :: l => last_query from l
  | Query now :: l => last_query now l
  end.

Definition live (T : Z) (e : V1.Envelope) : bool := bool_decide (T <= V1.GetTimestamp e).

Lemma GetLatest_loop T m acc l :
  (foldl (GetLatest_step T) (m, acc) l).2 = acc ++ (filter (fun kv => live T kv.2) l).*2 /\
  forall k v, (foldl (GetLatest_step T) (m, acc) l).1 !! k = Some v <->
    m !! k = Some v /\ forall v', (k, v') ∈ l -> live T v'.
Proof.
  revert m acc. induction l as [|[i e] l IH]; intros m acc; simpl.
  - split; [by rewrite app_nil_r|]. set_solver.
  - unfold live in *. rewrite filter_cons. simpl.
    case_bool_decide as Hdead.
    + destruct (IH (delete i m) acc) as [-> H2]. rewrite decide_False by (rewrite bool_decide_spec; lia).
      split; [done|]. intros k v. rewrite H2, lookup_delete_Some. split.
      * intros [[Hne Hk] Hl]. split; [done|]. intros v' [[= -> ->]|?]%elem_of_cons; auto. done.
      * intros [Hk Hl]. split; [split; [|done]|set_solver].
        intros ->. specialize (Hl e ltac:(set_solver)). apply bool_decide_unpack in Hl. lia.
    + destruct (IH m (acc ++ [e])) as [-> H2].
      rewrite decide_True by (rewrite bool_decide_spec; lia). simpl. rewrite <- app_assoc.
      split; [done|]. intros k v. rewrite H2. split; intros [Hk Hl]; (split; [done|]).
      * intros v' [[= -> ->]|?]%elem_of_cons; [rewrite bool_decide_spec; lia|auto].
      * set_solver.
Qed.

Lemma GetLatest_metrics ord now s i :
  metrics (fst (GetLatest ord now s)) !! i =
    (metrics s !! i ≫= fun e => if live (now - ttl s) e then Some e else None).
Proof.
  unfold GetLatest.
  destruct (GetLatest_loop (now - ttl s) (metrics s) [] (range_map ord (metrics s))) as [_ H].
  destruct (foldl _ _ _) as [m l]. simpl in *. apply option_eq. intros v. rewrite H.
  destruct (metrics s !! i) as [e|] eqn:E; simpl; [|naive_solver]. split.
  - intros [[= <-] Hl]. specialize (Hl e (proj2 (range_elem ord _ _ _) E)). by case_match.
  - case_match eqn:L; [|done]. intros [= <-]. split; [done|].
    intros v' Hv%range_elem. rewrite E in Hv. injection Hv as <-. by rewrite L.
Qed.

Lemma GetLatest_result ord now s e :
  e ∈ snd (GetLatest ord now s) <->
  exists i, metrics s !! i = Some e /\ now - ttl s <= V1.GetTimestamp e.
Proof.
  unfold GetLatest.
  destruct (GetLatest_loop (now - ttl s) (metrics s) [] (range_map ord (metrics s))) as [H _].
  destruct (foldl _ _ _) as [m l]. simpl in *. rewrite H, list_elem_of_fmap. split.
  - intros ([i e'] & -> & [Hl Hin]%list_elem_of_filter). exists i. apply range_elem in Hin.
    by apply bool_decide_unpack in Hl.
  - intros (i & Hi & Hl). exists (i, e). split; [done|]. apply list_elem_of_filter.
    split; [by apply bool_decide_pack|by apply range_elem].
Qed.

(** The cache and the reference agree on everything that is not expired at [T]. *)
Definition agree (T : Z) (m ref : gmap Z V1.Envelope) : Prop :=
  forall i, (m !! i ≫= fun e => if live T e then Some e else None) =
            (ref !! i ≫= fun e => if live T e then Some e else None).

Lemma agree_weaken T T' m ref : T <= T' -> agree T m ref -> agree T' m ref.
Proof.
  unfold agree, live. intros HT H i. specialize (H i).
  destruct (m !! i) as [a|], (ref !! i) as [b|]; simpl in *; repeat case_bool_decide;
    simplify_eq/=; try lia; done.
Qed.

Lemma update_is_newest s e : metrics (updateMetric s e) = newest (metrics s) e.
Proof. unfold updateMetric, newest. by repeat case_match. Qed.

Lemma newest_lookup m e i :
  newest m e !! i =
    if bool_decide (i = V1.GetInstanceIndex (V1.ContainerMetricF e)) then
      match m !! i with
      | Some o => if bool_decide (V1.GetTimestamp o < V1.GetTimestamp e) then Some e else Some o
      | None => Some e
      end
    else m !! i.
Proof.
  unfold newest. case_bool_decide as Hi.
  - subst i. destruct (m !! _) eqn:E; [case_bool_decide|]; by rewrite ?lookup_insert_eq.
  - repeat case_match; by rewrite ?lookup_insert_ne.
Qed.

Lemma agree_update T m ref e : agree T m ref -> agree T (newest m e) (newest ref e).
Proof.
  unfold agree, live. intros H i. specialize (H i). rewrite !newest_lookup.
  case_bool_decide; [|done].
  destruct (m !! i) as [a|], (ref !! i) as [b|]; simpl in *;
    repeat (case_bool_decide; simplify_eq/=); try lia; done.
Qed.

Lemma ttl_GetLatest ord now s : ttl (fst (GetLatest ord now s)) = ttl s.
Proof. unfold GetLatest. by destruct (foldl _ _ _). Qed.

Lemma ttl_update s e : ttl (updateMetric s e) = ttl s.
Proof. unfold updateMetric. by repeat case_match. Qed.

Lemma run_ops_agree ord l s from ref :
  monotone from l = true -> agree (from - ttl s) (metrics s) ref ->
  ttl (run_ops ord s l) = ttl s /\
  agree (last_query from l - ttl s) (metrics (run_ops ord s l)) (newest_of ref l).
Proof.
  revert s from ref. induction l as [|[e|now] l IH]; intros s from ref Hm Ha; simpl in *; [done|..].
  - rewrite <- (ttl_update s e). apply IH; [done|]. rewrite ttl_update, update_is_newest.
    by apply agree_update.
  - apply andb_true_iff in Hm as [Hle%bool_decide_eq_true Hm].
    rewrite <- (ttl_GetLatest ord now s). apply IH; [done|]. rewrite ttl_GetLatest.
    intros i. rewrite GetLatest_metrics.
    rewrite <- (agree_weaken (from - ttl s) (now - ttl s) _ _ ltac:(lia) Ha i).
    destruct (metrics s !! i) as [e|]; simpl; [|done]. destruct (live _ e) eqn:E; simpl; by rewrite ?E.
Qed.

(** The container-metric cache.  Purging while queries run is invisible: as long as the
    clock does not go back, [GetLatest] returns an envelope exactly when it is the newest
    received for its instance (the first received, among equal timestamps) and is not older
    than the time to live, whatever order the runtime iterates the map in. *)
Theorem container_metric_latest ord app t dur l now e :
  monotone 0 l = true -> last_query 0 l <= now ->
  e ∈ snd (GetLatest ord now (run_ops ord (NewContainerMetricSink app t dur) l)) <->
  exists i, newest_of ∅ l !! i = Some e /\ now - t <= V1.GetTimestamp e.
Proof.
  intros Hm Hq. rewrite GetLatest_result.
  destruct (run_ops_agree ord l (NewContainerMetricSink app t dur) 0 ∅ Hm) as [-> Ha]; [done|].
  apply (agree_weaken _ (now - t)) in Ha; [|simpl; lia]. unfold agree, live in Ha.
  split; intros (i & Hi & Hl); exists i; specialize (Ha i); rewrite Hi in Ha; simpl in *;
    rewrite bool_decide_true in Ha by done.
  - destruct (newest_of _ _ !! i) as [b|]; simpl in *; [case_bool_decide; naive_solver|done].
  - destruct (metrics _ !! i) as [b|]; simpl in *; [case_bool_decide; naive_solver|done].
Qed.

Definition metric_at (i ts : Z) : V1.Envelope :=
  V1.mkEnvelope None (Some V1.Envelope_ContainerMetric) (Some ts) None None None None ∅
    None None None None None
    (Some (V1.mkContainerMetric (Some "app"%string) (Some i) None None None None None)).

Lemma container_metric_latest_witness :
  metric_at 0 7 ∈ snd (GetLatest reverse_order 12 (run_ops reverse_order
    (NewContainerMetricSink "app" 10 5)
    [Update (metric_at 0 5); Update (metric_at 1 1); Query 12; Update (metric_at 0 7);
     Update (metric_at 0 6)])).
Proof.
  apply container_metric_latest; [vm_compute; reflexivity|vm_compute; discriminate|].
  exists 0. split; [vm_compute; reflexivity|vm_compute; discriminate].
Defined.

(** The inactivity timer of the container-metric sink is reset without draining its
    channel.  When it expires while a message is already waiting, the sink takes the
    message, resets the timer, and the stale value still ends it at once. *)
Theorem container_metric_stale_timer s e :
  running s = true -> timer s = Timer.Reset Timer.NewTimer ->
  running (foldl Run_step s [TimerExpires; Arrives e; TimerCase]) = false.
Proof.
  intros Hr Ht. destruct s as [d t h []]; simpl in *; [|done]. subst t. done.
Qed.

Lemma container_metric_stale_timer_witness :
  running (foldl Run_step (Run_start (NewContainerMetricSink "app" 10 5))
    [TimerExpires; Arrives (metric_at 0 1); TimerCase]) = false.
Proof. apply container_metric_stale_timer; reflexivity. Defined.

End ContainerMetric.

(** ** retrystrategy/retry_strategy.go *)

Module Retry.
Local Open Scope Z_scope.

Definition Millisecond : Z := 1000000.
Definition Microsecond : Z := 1000.

(** [int(math.Pow(2, float64(k)) * 100)]: exact for the [k] below, truncated for a negative one. *)
Definition hundred_times_pow2 (k : Z) : Z :=
  if bool_decide (0 <= k) then 100 * 2 ^ k else 100 / 2 ^ (- k).

Section Retry.

(** [rand.Intn(n)], called with a positive [n]; a smaller one panics. *)
Context (Intn : Z -> Z).

Definition Exponential (counter : Z) : outcome Z :=
  if bool_decide (counter = 0) then Returns Millisecond
  else
    let counter := if bool_decide (23 < counter) then 23 else counter in
    let tenthDuration := hundred_times_pow2 (counter - 1) in
    let duration := tenthDuration * 10 in
    if bool_decide (tenthDuration * 2 <= 0) then Panics "invalid argument to Intn"
    else
      let randomOffset := Intn (tenthDuration * 2) - tenthDuration in
      Returns (Words.int64 (Words.int64 (duration * Microsecond)
                            + Words.int64 (randomOffset * Microsecond))).

End Retry.

(** [time.Duration(math.Pow(2, float64(counter)))]; out of range, the amd64 conversion
    yields the smallest integer. *)
Definition duration_of_pow2 (counter : Z) : Z :=
  if bool_decide (0 <= counter < 63) then 2 ^ counter
  else if bool_decide (counter < 0) then 0 else - 2 ^ 63.

Definition CappedDouble (start cap counter : Z) : Z :=
  let delay := Words.int64 (start * duration_of_pow2 counter) in
  if bool_decide (cap < delay) then cap else delay.

Lemma hundred_times_pow2_bounds k : 0 <= k -> 
  hundred_times_pow2 k = 100 * 2 ^ k /\ 0 < 2 ^ k.
Proof.
  intros Hk. unfold hundred_times_pow2. rewrite bool_decide_eq_true_2 by lia.
  split; [done|]. apply Z.pow_pos_nonneg; lia.
Qed.

Lemma Exponential_returns Intn counter :
  0 <= counter -> exists d, Exponential Intn counter = Returns d.
Proof.
  intros Hc. unfold Exponential. case_bool_decide as H0; [eauto|]. cbv zeta.
  rewrite (bool_decide_eq_false_2 (_ <= 0)); [eauto|].
  destruct (hundred_times_pow2_bounds ((if bool_decide (23 < counter) then 23 else counter) - 1));
    [case_bool_decide|]; lia.
Qed.

(** C36: The back-off grows exponentially and is bounded.  For a counter of at least one the
    delay is within ten percent of [2^(counter-1)] milliseconds, the exponent being capped
    at 22; for every counter from zero on it is positive and below 77 minutes. *)
Theorem exponential_backoff_bounds Intn counter :
  (forall n, 0 < n -> 0 <= Intn n < n) -> 0 <= counter ->
  exists d, Exponential Intn counter = Returns d /\
    0 < d < 77 * 60 * 1000 * Millisecond /\
    (1 <= counter ->
     let base := 2 ^ (Z.min counter 23 - 1) * Millisecond in
     9 * base <= 10 * d < 11 * base).
Proof.
  intros HI Hc. unfold Exponential. case_bool_decide as H0.
  { eexists. split; [done|]. unfold Millisecond. lia. }
  replace (if bool_decide (23 < counter) then 23 else counter) with (Z.min counter 23)
    by (case_bool_decide; lia).
  set (k := Z.min counter 23 - 1). destruct (hundred_times_pow2_bounds k) as [-> Hk0]; [lia|].
  assert (2 ^ k <= 2 ^ 22) as Hk by (apply Z.pow_le_mono_r; lia).
  set (p := 2 ^ k) in *. change (2 ^ 22) with 4194304 in Hk.
  rewrite bool_decide_eq_false_2 by lia.
  specialize (HI (100 * p * 2) ltac:(lia)). set (r := Intn (100 * p * 2)) in *.
  unfold Microsecond, Millisecond. change (2 ^ 63) with 9223372036854775808.
  rewrite !(Words.swrap_small 64) by
    (rewrite ?Words.swrap_small by (change (2 ^ (64 - 1)) with 9223372036854775808; lia);
     change (2 ^ (64 - 1)) with 9223372036854775808; lia).
  eexists. split; [done|]. lia.
Qed.

Lemma exponential_backoff_bounds_witness :
  exists d, Exponential (fun n => n - 1) 30 = Returns d /\
    0 < d < 77 * 60 * 1000 * Millisecond /\
    (1 <= 30 ->
     let base := 2 ^ (Z.min 30 23 - 1) * Millisecond in
     9 * base <= 10 * d < 11 * base).
Proof. apply exponential_backoff_bounds; intros; lia. Defined.

(** [CappedDouble] doubles up to the cap as long as the product fits 64 bits; from then on
    the wrap-around goes unnoticed by the cap. *)
Lemma capped_double_exact start cap counter :
  0 <= start -> 0 <= counter < 63 -> start * 2 ^ counter < 2 ^ 63 ->
  CappedDouble start cap counter = Z.min cap (start * 2 ^ counter).
Proof.
  intros Hs Hc Hf. unfold CappedDouble, duration_of_pow2.
  rewrite (bool_decide_eq_true_2 (0 <= counter < 63)) by lia.
  pose proof (Z.pow_pos_nonneg 2 counter).
  rewrite Words.swrap_small by (change (2 ^ (64 - 1)) with (2 ^ 63); nia).
  case_bool_decide; lia.
Qed.

Lemma capped_double_overflow :
  CappedDouble 1000000000 60000000000 55 = 0.
Proof. reflexivity. Qed.

End Retry.
