(* ===== verification/SyslogWriter.v ===== *)
(** * doppler/internal/sinks/syslogwriter

    The three writers a syslog drain can use and the RFC 5424 message they build.  A
    writer's calls into the network take the environment's answer as an argument and append
    what they do to the [wire] of the writer. *)

From Stdlib Require Import Ascii.
From S2P Require Import Prelude Go Events.
Local Open Scope Z_scope.

(** ** writer.go *)

Definition newline : ascii := Ascii.ascii_of_nat 10.
Definition NUL : ascii := Ascii.ascii_of_nat 0.

Fixpoint HasSuffixChar (s : string) (c : ascii) : bool :=
  match s with
  | EmptyString => false
  | String a EmptyString => if ascii_dec a c then true else false
  | String _ s => HasSuffixChar s c
  end.

(** [bytes.Replace(in, badBytes, emptyBytes, -1)] *)
Fixpoint clean (s : string) : string :=
  match s with
  | EmptyString => EmptyString
  | String a s => if ascii_dec a NUL then clean s else String a (clean s)
  end.

(** [strings.Replace(s, old, new, 1)] for a one-byte [old]. *)
Fixpoint replace_first (s : string) (old : ascii) (new : string) : string :=
  match s with
  | EmptyString => EmptyString
  | String a s => if ascii_dec a old then new +:+ s else String a (replace_first s old new)
  end.

(** [time.Time.Format] for the layout [rfc5424]. *)
Module TimeFormat.

Fixpoint zeros (n : nat) : string :=
  match n with O => EmptyString | S n => String "0" (zeros n) end.

Definition pad (width : nat) (z : Z) : string :=
  let s := Strconv.Itoa z in zeros (width - String.length s) +:+ s.

(** Proleptic Gregorian date of a day number counted from 1970-01-01. *)
Definition civil_from_days (days : Z) : Z * Z * Z :=
  let z := days + 719468 in
  let era := z / 146097 in
  let doe := z - era * 146097 in
  let yoe := (doe - doe / 1460 + doe / 36524 - doe / 146096) / 365 in
  let doy := doe - (365 * yoe + yoe / 4 - yoe / 100) in
  let mp := (5 * doy + 2) / 153 in
  let d := doy - (153 * mp + 2) / 5 + 1 in
  let m := if bool_decide (mp < 10) then mp + 3 else mp - 9 in
  let y := yoe + era * 400 in
  (if bool_decide (m <= 2) then y + 1 else y, m, d).

Fixpoint trim_zeros (s : string) : string :=
  match s with
  | EmptyString => EmptyString
  | String a s =>
      match trim_zeros s with
      | EmptyString => if ascii_dec a "0" then EmptyString else String a EmptyString
      | r => String a r
      end
  end.

(** [.999999]: microseconds without trailing zeros. *)
Definition fraction (nanos : Z) : string :=
  match trim_zeros (pad 6 (nanos / 1000)) with
  | EmptyString => EmptyString
  | s => String "." s
  end.

(** [Z07:00] *)
Definition zone (offset : Z) : string :=
  if bool_decide (offset = 0) then "Z"%string
  else let minutes := Z.quot offset 60 in
       (if bool_decide (minutes < 0) then "-" else "+") +:+
       pad 2 (Z.abs minutes / 60) +:+ ":" +:+ pad 2 (Z.abs minutes mod 60).

Definition rfc5424 (offset timestamp : Z) : string :=
  let seconds := timestamp / 1000000000 + offset in
  let nanos := timestamp mod 1000000000 in
  let '(y, m, d) := civil_from_days (seconds / 86400) in
  let s := seconds mod 86400 in
  pad 4 y +:+ "-" +:+ pad 2 m +:+ "-" +:+ pad 2 d +:+ "T" +:+
  pad 2 (s / 3600) +:+ ":" +:+ pad 2 (s mod 3600 / 60) +:+ ":" +:+ pad 2 (s mod 60) +:+
  fraction nanos +:+ zone offset.

Example rfc5424_utc : rfc5424 0 1257894000123456789 = "2009-11-10T23:00:00.123456Z"%string.
Proof. reflexivity. Qed.
Example rfc5424_leap : rfc5424 (-25200) 951868800500000000 = "2000-02-29T17:00:00.5-07:00"%string.
Proof. reflexivity. Qed.

End TimeFormat.

(** The host: [strings.ToUpper] (beyond ASCII a table of the Unicode standard) and the local
    time zone's offset in seconds at an instant. *)
Record Host : Type := mkHost {
  ToUpper : string -> string;
  zone_offset : Z -> Z
}.

Definition createMessage (h : Host) (priority : Z) (appId hostname source sourceId msg : string)
  (timestamp : Z) : string :=
  let nl := if HasSuffixChar msg newline then EmptyString else String newline EmptyString in
  let msg := clean msg in
  let timeString := TimeFormat.rfc5424 (zone_offset h timestamp) timestamp in
  let timeString := replace_first timeString "Z" "+00:00" in
  let source := ToUpper h source in
  let formattedSource :=
    if Str.HasPrefix source "APP"
    then "[" +:+ source +:+ "/" +:+ sourceId +:+ "]"
    else "[" +:+ source +:+ "]" in
  "<" +:+ Strconv.Itoa priority +:+ ">1 " +:+ timeString +:+ " " +:+ hostname +:+ " " +:+
  appId +:+ " " +:+ formattedSource +:+ " - - " +:+ msg +:+ nl.

(** Octet counting: [fmt.Sprintf("%d %s", len(syslogMsg), syslogMsg)]. *)
Definition frame (syslogMsg : string) : string :=
  Strconv.Itoa (Z.of_nat (String.length syslogMsg)) +:+ String " " syslogMsg.

(** The fields of [url.URL] the code reads. *)
Record URL : Type := mkURL { Scheme : string; url_Host : string; Path : string; RawQuery : string }.

(** What a writer does to the network, in order. *)
Inductive netop : Type :=
| Dial (host : string)
| CloseConn (conn : nat)
| SetDeadline (conn : nat)
| WriteConn (conn : nat) (data : string)
| Post (url : URL) (body : string).

(** ** What the syslog sink asks of a writer *)

Class Writer (W : Type) : Type := {
  dial_answer : Type;
  write_answer : Type;
  Connect : W -> dial_answer -> W * option string;
  Write : W -> write_answer -> Z -> string -> string -> string -> Z -> W * (Z * option string);
  Close : W -> W * option string
}.

Section Writers.
Context (h : Host).

(** ** syslog_writer.go *)

Record syslogWriter : Type := mkSyslogWriter {
  appId : string; host : string; hostname : string;
  conn : option nat; writeTimeout : Z; wire : list netop
}.

Definition set_conn (w : syslogWriter) (c : option nat) (ops : list netop) : syslogWriter :=
  {| appId := appId w; host := host w; hostname := hostname w; conn := c;
     writeTimeout := writeTimeout w; wire := wire w ++ ops |}.

Definition NewSyslogWriter (outputUrl : URL) (appId hostname : string) (dialer : bool)
  (writeTimeout : Z) : result syslogWriter :=
  if negb dialer then Err "cannot construct a writer with a nil dialer"
  else if bool_decide (Scheme outputUrl <> "syslog"%string)
  then Err ("Invalid scheme " +:+ Scheme outputUrl +:+ ", syslogWriter only supports syslog")
  else Ok {| appId := appId; hostname := hostname; host := url_Host outputUrl; conn := None;
             writeTimeout := writeTimeout; wire := [] |}.

(** [conn.Close(); conn = nil] when there is a connection. *)
Definition drop_conn (w : syslogWriter) : syslogWriter :=
  match conn w with Some c => set_conn w None [CloseConn c] | None => w end.

(** The answer of [Dial]: a connection and whether it is a [*net.TCPConn]. *)
Definition Syslog_Connect (w : syslogWriter) (dial : result (nat * bool))
  : syslogWriter * option string :=
  let w := drop_conn w in
  let w := set_conn w (conn w) [Dial (host w)] in
  match dial with
  | Err e => (w, Some e)
  | Ok (c, is_tcp) =>
      if negb is_tcp then (w, Some "Not a TCP connection"%string)
      else (set_conn w (Some c) [], None)
  end.

Definition Syslog_Write (w : syslogWriter) (answer : Z * option string) (p : Z)
  (b source sourceId : string) (timestamp : Z) : syslogWriter * (Z * option string) :=
  let syslogMsg := createMessage h p (appId w) (hostname w) source sourceId b timestamp in
  let finalMsg := frame syslogMsg in
  match conn w with
  | None => (w, (0, Some "Connection to syslog sink lost"%string))
  | Some c =>
      let w := if bool_decide (writeTimeout w <> 0) then set_conn w (Some c) [SetDeadline c] else w in
      (set_conn w (Some c) [WriteConn c finalMsg], answer)
  end.

(** [Close]; the error of closing the connection is an answer the callers ignore. *)
Definition Syslog_Close (w : syslogWriter) : syslogWriter * option string :=
  match conn w with
  | Some c => (set_conn w None [CloseConn c], None)
  | None => (w, None)
  end.

(** [watchConnection]: the goroutine started for [watched] sees its [Read] fail. *)
Definition watchConnection_fails (watched : nat) (w : syslogWriter) : syslogWriter :=
  fst (Syslog_Close w).

#[global] Instance syslogWriter_Writer : Writer syslogWriter := {|
  dial_answer := result (nat * bool);
  write_answer := Z * option string;
  Connect := Syslog_Connect;
  Write := Syslog_Write;
  Close := Syslog_Close
|}.

(** ** tls_writer.go *)

Record tlsWriter : Type := mkTlsWriter {
  tls_appId : string; tls_host : string; tls_hostname : string;
  tls_conn : option nat; ioTimeout : Z; InsecureSkipVerify : bool; tls_wire : list netop
}.

Definition set_tls_conn (w : tlsWriter) (c : option nat) (ops : list netop) : tlsWriter :=
  {| tls_appId := tls_appId w; tls_host := tls_host w; tls_hostname := tls_hostname w;
     tls_conn := c; ioTimeout := ioTimeout w; InsecureSkipVerify := InsecureSkipVerify w;
     tls_wire := tls_wire w ++ ops |}.

Definition NewTlsWriter (outputUrl : URL) (appId hostname : string) (skipCertVerify dialer : bool)
  (ioTimeout : Z) : result tlsWriter :=
  if negb dialer then Err "cannot construct a writer with a nil dialer"
  else if bool_decide (Scheme outputUrl <> "syslog-tls"%string)
  then Err ("Invalid scheme " +:+ Scheme outputUrl +:+ ", tlsWriter only supports syslog-tls")
  else Ok {| tls_appId := appId; tls_hostname := hostname; tls_host := url_Host outputUrl;
             tls_conn := None; ioTimeout := ioTimeout; InsecureSkipVerify := skipCertVerify;
             tls_wire := [] |}.

Definition Tls_Close (w : tlsWriter) : tlsWriter * option string :=
  match tls_conn w with
  | Some c => (set_tls_conn w None [CloseConn c], None)
  | None => (w, None)
  end.

Definition Tls_Connect (w : tlsWriter) (dial : result nat) : tlsWriter * option string :=
  let w := fst (Tls_Close w) in
  let w := set_tls_conn w (tls_conn w) [Dial (tls_host w)] in
  match dial with
  | Ok c => (set_tls_conn w (Some c) [], None)
  | Err e => (w, Some e)
  end.

Definition Tls_Write (w : tlsWriter) (answer : Z * option string) (p : Z)
  (b source sourceId : string) (timestamp : Z) : tlsWriter * (Z * option string) :=
  let syslogMsg := createMessage h p (tls_appId w) (tls_hostname w) source sourceId b timestamp in
  let finalMsg := frame syslogMsg in
  match tls_conn w with
  | None => (w, (0, Some "Connection to syslog-tls sink lost"%string))
  | Some c =>
      let w := if bool_decide (ioTimeout w <> 0) then set_tls_conn w (Some c) [SetDeadline c] else w in
      (set_tls_conn w (Some c) [WriteConn c finalMsg], answer)
  end.

#[global] Instance tlsWriter_Writer : Writer tlsWriter := {|
  dial_answer := result nat;
  write_answer := Z * option string;
  Connect := Tls_Connect;
  Write := Tls_Write;
  Close := Tls_Close
|}.

(** ** https_writer.go *)

Record httpsWriter : Type := mkHttpsWriter {
  https_appId : string; https_hostname : string; outputUrl : URL;
  lastError : option string; skipVerify : bool; https_wire : list netop
}.

Definition NewHttpsWriter (outputUrl : URL) (appId hostname : string) (skipCertVerify dialer : bool)
  : result httpsWriter :=
  if negb dialer then Err "cannot construct a writer with a nil dialer"
  else if bool_decide (Scheme outputUrl <> "https"%string)
  then Err ("Invalid scheme " +:+ Scheme outputUrl +:+ ", httpsWriter only supports https")
  else Ok {| https_appId := appId; https_hostname := hostname; outputUrl := outputUrl;
             lastError := None; skipVerify := skipCertVerify; https_wire := [] |}.

Definition set_last (w : httpsWriter) (e : option string) (ops : list netop) : httpsWriter :=
  {| https_appId := https_appId w; https_hostname := https_hostname w; outputUrl := outputUrl w;
     lastError := e; skipVerify := skipVerify w; https_wire := https_wire w ++ ops |}.

Definition Https_Connect (w : httpsWriter) (_ : unit) : httpsWriter * option string :=
  match lastError w with
  | Some err => (set_last w None [], Some err)
  | None => (w, None)
  end.

(** [writeHttp]; the answer of [client.Post] is a status code or an error. *)
Definition writeHttp (answer : result Z) (finalMsg : string) : Z * option string :=
  let byteCount := Z.of_nat (String.length finalMsg) in
  match answer with
  | Err _ => (byteCount, Some "syslog https writer: failed to connect"%string)
  | Ok status =>
      (byteCount,
       if bool_decide (status < 200 \/ 299 < status)
       then Some ("Syslog Writer: Post responded with " +:+ Strconv.Itoa status +:+ " status code")
       else None)
  end.

Definition Https_Write (w : httpsWriter) (answer : result Z) (p : Z)
  (b source sourceId : string) (timestamp : Z) : httpsWriter * (Z * option string) :=
  let syslogMsg := createMessage h p (https_appId w) (https_hostname w) source sourceId b timestamp in
  let '(bytesWritten, err) := writeHttp answer syslogMsg in
  (set_last w err [Post (outputUrl w) syslogMsg], (bytesWritten, err)).

Definition Https_Close (w : httpsWriter) : httpsWriter * option string := (w, None).

#[global] Instance httpsWriter_Writer : Writer httpsWriter := {|
  dial_answer := unit;
  write_answer := result Z;
  Connect := Https_Connect;
  Write := Https_Write;
  Close := Https_Close
|}.

(** ** writer.go: NewWriter *)

Inductive AnyWriter : Type :=
| AHttps (w : httpsWriter)
| ASyslog (w : syslogWriter)
| ATls (w : tlsWriter).

Definition result_map {A B} (f : A -> B) (r : result A) : result B :=
  match r with Ok a => Ok (f a) | Err e => Err e end.

Definition NewWriter (outputUrl : URL) (appId hostname : string) (skipCertVerify : bool)
  (timeout : Z) : result AnyWriter :=
  if bool_decide (Scheme outputUrl = "https"%string)
  then result_map AHttps (NewHttpsWriter outputUrl appId hostname skipCertVerify true)
  else if bool_decide (Scheme outputUrl = "syslog"%string)
  then result_map ASyslog (NewSyslogWriter outputUrl appId hostname true timeout)
  else if bool_decide (Scheme outputUrl = "syslog-tls"%string)
  then result_map ATls (NewTlsWriter outputUrl appId hostname skipCertVerify true timeout)
  else Err ("Invalid scheme type " +:+ Scheme outputUrl +:+ ", must be https, syslog-tls or syslog").

End Writers.

(** ** The receiving end of an octet-counted stream (RFC 6587, 3.4.1) *)

Definition parse_frame (s : string) : option (string * string) :=
  match Str.IndexOf s " " with
  | None => None
  | Some i =>
      match Strconv.ParseInt (Str.take_n i s) 64 with
      | None => None
      | Some n =>
          let rest := Str.drop_n (S i) s in
          if bool_decide (0 <= n <= Z.of_nat (String.length rest))
          then Some (Str.take_n (Z.to_nat n) rest, Str.drop_n (Z.to_nat n) rest)
          else None
      end
  end.

Fixpoint decode (fuel : nat) (s : string) : option (list string) :=
  match fuel, s with
  | _, EmptyString => Some []
  | O, _ => None
  | S fuel, _ =>
      match parse_frame s with
      | None => None
      | Some (m, rest) => match decode fuel rest with Some l => Some (m :: l) | None => None end
      end
  end.

(** The bytes sent on connection [c]. *)
Fixpoint sent_on (c : nat) (ops : list netop) : string :=
  match ops with
  | [] => EmptyString
  | WriteConn c' d :: ops => if decide (c' = c) then d +:+ sent_on c ops else sent_on c ops
  | _ :: ops => sent_on c ops
  end.

Fixpoint concat_frames (l : list string) : string :=
  match l with [] => EmptyString | m :: l => frame m +:+ concat_frames l end.

Lemma drop_n_app_S s a r : Str.drop_n (S (String.length s)) (s +:+ String a r) = r.
Proof. induction s as [|b s IH]; simpl; [done|]. unfold String.app in *. simpl. by apply IH. Qed.

Lemma parse_frame_app m r :
  Z.of_nat (String.length m) < 2 ^ 63 -> parse_frame (frame m +:+ r) = Some (m, r).
Proof.
  intros Hm. unfold parse_frame, frame. rewrite Str.append_assoc.
  change (String " " m +:+ r) with (String " " (m +:+ r)).
  rewrite Str.IndexOf_app_hit by (apply Strconv.Itoa_no_char; [lia|vm_compute; intros [? _]; done]).
  rewrite Str.take_n_app, Strconv.ParseInt_Itoa by lia. rewrite drop_n_app_S.
  rewrite bool_decide_eq_true_2 by (rewrite Str.length_append; lia).
  by rewrite Nat2Z.id, Str.take_n_app, Str.drop_n_app.
Qed.

Lemma frame_nonempty m : exists a s, frame m = String a s.
Proof. unfold frame. destruct (Strconv.Itoa _); simpl; eauto. Qed.

Lemma decode_frames l fuel :
  Forall (fun m => Z.of_nat (String.length m) < 2 ^ 63) l -> (length l <= fuel)%nat ->
  decode fuel (concat_frames l) = Some l.
Proof.
  intros Hl. revert fuel. induction Hl as [|m l Hm Hl IH]; intros fuel Hf; simpl; [by destruct fuel|].
  destruct fuel as [|fuel]; simpl in Hf; [lia|].
  destruct (frame_nonempty m) as (a & s & E). simpl.
  assert (frame m +:+ concat_frames l = String a (s +:+ concat_frames l)) as Es by by rewrite E.
  rewrite Es at 1. rewrite parse_frame_app by done. rewrite IH by lia. done.
Qed.

Lemma sent_on_app c l k : sent_on c (l ++ k) = sent_on c l +:+ sent_on c k.
Proof.
  induction l as [|[] l IH]; simpl; rewrite ?IH; try done.
  case_decide; [|done]. by rewrite Str.append_assoc.
Qed.

Lemma HasSuffixChar_app s c : HasSuffixChar (s +:+ String c EmptyString) c = true.
Proof.
  induction s as [|a s IH]; simpl; [by destruct (ascii_dec c c)|].
  unfold String.app in *. simpl. rewrite IH. by destruct s.
Qed.

Lemma HasSuffixChar_prefix s r c : HasSuffixChar r c = true -> HasSuffixChar (s +:+ r) c = true.
Proof.
  intros Hr. induction s as [|a s IH]; simpl; [done|]. unfold String.app in *. simpl.
  rewrite IH. destruct s as [|b s]; simpl; [|done]. destruct r; [done|done].
Qed.

Lemma clean_suffix s : HasSuffixChar s newline = true -> HasSuffixChar (clean s) newline = true.
Proof.
  induction s as [|a s IH]; [done|]. destruct s as [|b s].
  - simpl. destruct (ascii_dec a newline) as [->|]; [|done]. intros _. reflexivity.
  - intros H. change (HasSuffixChar (String b s) newline = true) in H. specialize (IH H).
    change (clean (String a (String b s))) with
      (if ascii_dec a NUL then clean (String b s) else String a (clean (String b s))).
    destruct (ascii_dec a NUL); [done|]. destruct (clean (String b s)); [done|done].
Qed.

Lemma createMessage_newline h p app host src sid msg ts :
  HasSuffixChar (createMessage h p app host src sid msg ts) newline = true.
Proof.
  unfold createMessage. rewrite <- !Str.append_assoc.
  destruct (HasSuffixChar msg newline) eqn:E.
  - rewrite Str.append_nil_r. by apply HasSuffixChar_prefix, clean_suffix.
  - apply HasSuffixChar_app.
Qed.

Lemma clean_no_NUL s : Str.IndexOf (clean s) NUL = None.
Proof.
  induction s as [|a s IH]; simpl; [done|]. destruct (ascii_dec a NUL) as [->|n]; [done|].
  simpl. destruct (ascii_dec a NUL); [done|]. by rewrite IH.
Qed.

(** One log line to write, and a connection's run of writes with the answers of the network. *)
Record line : Type := mkLine {
  l_priority : Z; l_msg : string; l_source : string; l_sourceId : string; l_timestamp : Z }.

Definition write_lines (h : Host) (w : syslogWriter) (l : list (line * (Z * option string)))
  : syslogWriter :=
  foldl (fun w x => fst (Syslog_Write h w x.2 (l_priority x.1) (l_msg x.1) (l_source x.1)
                          (l_sourceId x.1) (l_timestamp x.1))) w l.

Definition line_message (h : Host) (w : syslogWriter) (x : line) : string :=
  createMessage h (l_priority x) (appId w) (hostname w) (l_source x) (l_sourceId x) (l_msg x)
    (l_timestamp x).

Lemma write_lines_sent h c w l :
  conn w = Some c ->
  sent_on c (wire (write_lines h w l)) =
    sent_on c (wire w) +:+ concat_frames (line_message h w <$> l.*1).
Proof.
  revert w. induction l as [|[x a] l IH]; intros w Hc; [simpl; by rewrite Str.append_nil_r|].
  change (write_lines h w ((x, a) :: l)) with
    (write_lines h (fst (Syslog_Write h w a (l_priority x) (l_msg x) (l_source x) (l_sourceId x)
       (l_timestamp x))) l).
  unfold Syslog_Write. rewrite Hc. simpl.
  assert (forall w', conn w' = Some c -> appId w' = appId w -> hostname w' = hostname w ->
    sent_on c (wire w') = sent_on c (wire w) +:+ frame (line_message h w x) ->
    sent_on c (wire (write_lines h w' l)) = sent_on c (wire w) +:+
      frame (line_message h w x) +:+ concat_frames (line_message h w <$> l.*1)) as K.
  { intros w' H1 H2 H3 H4. rewrite IH, H4, Str.append_assoc by done. unfold line_message.
    by rewrite H2, H3. }
  case_bool_decide; (apply K; [done..|]); simpl; rewrite !sent_on_app; simpl;
    rewrite decide_True by done; by rewrite ?Str.append_nil_r.
Qed.


(** A host for evaluation: UTC and ASCII letters. *)
Fixpoint ascii_upper (s : string) : string :=
  match s with
  | EmptyString => EmptyString
  | String a s =>
      let n := nat_of_ascii a in
      String (if bool_decide (97 <= n <= 122)%nat then ascii_of_nat (n - 32) else a) (ascii_upper s)
  end.
Definition utc_host : Host := mkHost ascii_upper (fun _ => 0).

Example createMessage_example :
  createMessage utc_host 14 "appId" "host" "app" "0" "hello" 1257894000000000000 =
  "<14>1 2009-11-10T23:00:00+00:00 host appId [APP/0] - - hello" +:+ String newline EmptyString.
Proof. vm_compute. reflexivity. Qed.

Definition example_lines : list (line * (Z * option string)) :=
  [(mkLine 14 "hello" "app" "0" 1257894000000000000, (70, None));
   (mkLine 11 "9 bottles" "rtr" "1" 1257894000000000001, (0, Some "broken pipe"%string))].


(** A reconnect can be undone by the previous connection's watcher.  [Connect] on a
    writer that still holds connection [c] closes [c]; the watcher of [c] then sees its
    read fail and calls [Close], which closes whatever connection the writer holds by
    then: the new one.  The next write fails although the dial succeeded. *)
Theorem syslog_watcher_closes_new_connection h w c c' answer p b src sid ts :
  conn w = Some c ->
  let '(w1, err1) := Syslog_Connect w (Ok (c', true)) in
  let w2 := watchConnection_fails c w1 in
  err1 = None /\ conn w1 = Some c' /\ conn w2 = None /\
  wire w2 = wire w ++ [CloseConn c; Dial (host w); CloseConn c'] /\
  Syslog_Write h w2 answer p b src sid ts =
    (w2, (0, Some "Connection to syslog sink lost"%string)).
Proof.
  intros Hc. unfold Syslog_Connect, drop_conn. rewrite Hc. simpl. split_and!; try done.
  by rewrite app_nil_r, <- !app_assoc.
Qed.

Lemma syslog_watcher_closes_new_connection_witness :
  let w := mkSyslogWriter "id" "h:514" "host" (Some 1%nat) 5 [] in
  let '(w1, err1) := Syslog_Connect w (Ok (2%nat, true)) in
  conn (watchConnection_fails 1 w1) = None.
Proof.
  exact (proj1 (proj2 (proj2 (syslog_watcher_closes_new_connection utc_host
    (mkSyslogWriter "id" "h:514" "host" (Some 1%nat) 5 []) 1%nat 2%nat (0, None) 14 "" "" "" 0
    eq_refl)))).
Defined.
