(* ===== verification/StreamingSinks.v ===== *)
(** * doppler/internal/sinks/{sink.go, syslog, websocket}

    The sinks that push what their truncating buffer delivers: [Syslog] to a drain through
    any [Writer], [Websocket] to a connected client.  Both read the buffer's output channel;
    the other side of that channel is the model of TruncatingBuffer.v. *)

From S2P Require Import Prelude Go Events TruncatingBuffer Sinks SyslogWriter.
Local Open Scope Z_scope.

(** ** sink.go *)

(** [RunTruncatingBuffer]: the buffer and the start of its goroutine. *)
Definition RunTruncatingBuffer (bufferSize : Z) (context : option BufferContext)
  : outcome TruncatingBuffer.system :=
  match NewTruncatingBuffer bufferSize context with
  | Returns b => Returns (start b)
  | Panics why => Panics why
  end.

(** ** syslog/syslog_sink.go *)

Module Syslog.

Definition messagePriorityValue (msg : option V1.LogMessage) : Z :=
  match default V1.LogMessage_OUT (V1.GetMessageType <$> msg) with
  | V1.LogMessage_OUT => 14
  | V1.LogMessage_ERR => 11
  | V1.LogMessage_Other _ => -1
  end.

Definition Identifier (drainURL : URL) : string :=
  if Str.empty (url_Host drainURL) then EmptyString
  else Scheme drainURL +:+ "://" +:+ url_Host drainURL +:+ Path drainURL.

Definition ShouldReceiveErrors : bool := false.

Section Sink.
Context {W : Type} `{!Writer W} (Intn : Z -> Z).

Record SyslogSink : Type := mkSyslogSink {
  appId : string;
  drainURL : URL;
  messageDrainBufferSize : Z;
  syslogWriter : W;
  dropsondeOrigin : string;
  disconnected : bool
}.

Definition NewSyslogSink (appId : string) (drainURL : URL) (messageDrainBufferSize : Z)
  (syslogWriter : W) (dropsondeOrigin : string) : SyslogSink :=
  {| appId := appId; drainURL := drainURL; messageDrainBufferSize := messageDrainBufferSize;
     syslogWriter := syslogWriter; dropsondeOrigin := dropsondeOrigin; disconnected := false |}.

Definition AppID (s : SyslogSink) : string := appId s.

Definition set_writer (s : SyslogSink) (w : W) : SyslogSink :=
  {| appId := appId s; drainURL := drainURL s;
     messageDrainBufferSize := messageDrainBufferSize s; syslogWriter := w;
     dropsondeOrigin := dropsondeOrigin s; disconnected := disconnected s |}.

(** [Disconnect]: the channel is closed once, whatever the number of calls. *)
Definition Disconnect (s : SyslogSink) : SyslogSink :=
  {| appId := appId s; drainURL := drainURL s;
     messageDrainBufferSize := messageDrainBufferSize s; syslogWriter := syslogWriter s;
     dropsondeOrigin := dropsondeOrigin s; disconnected := true |}.

(** [sendLogMessage]; a log message without a timestamp is a nil dereference. *)
Definition sendLogMessage (s : SyslogSink) (answer : write_answer) (m : option V1.LogMessage)
  : outcome (SyslogSink * option string) :=
  match m ≫= V1.lm_Timestamp with
  | None => Panics "nil pointer dereference"
  | Some ts =>
      let str f := default EmptyString (m ≫= f) in
      let '(w, (_, err)) :=
        Write (syslogWriter s) answer (messagePriorityValue m)
          (default EmptyString (V1.lm_Message <$> m))
          (str V1.lm_SourceType) (str V1.lm_SourceInstance) ts in
      Returns (set_writer s w, err)
  end.

(** Where the goroutine is in [Run]'s nested loops. *)
Inductive position : Type :=
| Selecting
| Connecting (msg : V1.Envelope) (numberOfTries : Z)
| BackingOff (msg : V1.Envelope) (numberOfTries : Z)
| Sending (msg : V1.Envelope) (numberOfTries : Z)
| Returned
| Crashed.

(** [taken] and [delivered] record the messages received from the buffer and those a write
    accepted; [reports] the calls of [handleSendError], by the values that make its text. *)
Record state : Type := mkState {
  sink : SyslogSink;
  connected : bool;
  at_ : position;
  taken : list V1.Envelope;
  delivered : list V1.Envelope;
  reports : list (string * Z * string * string)
}.

Definition Run_start (s : SyslogSink) : state := mkState s false Selecting [] [] [].

(** The deferred [syslogWriter.Close()]. *)
Definition Run_return (s : state) : state :=
  mkState (set_writer (sink s) (fst (Close (syslogWriter (sink s))))) (connected s) Returned
    (taken s) (delivered s) (reports s).

Inductive event : Type :=
| Output (msg : V1.Envelope)
| OutputClosed
| Disconnected
| ConnectAnswers (a : dial_answer)
| BackoffElapsed
| WriteAnswers (a : write_answer).

(** The head of the inner loop: [for !connected]. *)
Definition deliver (s : state) (msg : V1.Envelope) (numberOfTries : Z) : position :=
  if connected s then Sending msg numberOfTries else Connecting msg numberOfTries.

(** One event of [Run]; an event the goroutine is not waiting for changes nothing. *)
Definition Run_step (s : state) (e : event) : state :=
  let k := sink s in
  match at_ s, e with
  | Selecting, Disconnected => if disconnected k then Run_return s else s
  | Selecting, OutputClosed => Run_return s
  | Selecting, Output msg =>
      mkState k (connected s) (deliver s msg 0) (taken s ++ [msg]) (delivered s) (reports s)
  | Connecting msg n, ConnectAnswers a =>
      let '(w, err) := Connect (syslogWriter k) a in
      let k := set_writer k w in
      match err with
      | None => mkState k true (Sending msg n) (taken s) (delivered s) (reports s)
      | Some err =>
          match Retry.Exponential Intn n with
          | Panics _ => mkState k false Crashed (taken s) (delivered s) (reports s)
          | Returns sleepDuration =>
              mkState k false (BackingOff msg n) (taken s) (delivered s)
                (reports s ++ [(Identifier (drainURL k), sleepDuration, err, appId k)])
          end
      end
  | BackingOff msg n, Disconnected => if disconnected k then Run_return s else s
  | BackingOff msg n, BackoffElapsed =>
      mkState k (connected s) (Connecting msg (n + 1)) (taken s) (delivered s) (reports s)
  | Sending msg n, WriteAnswers a =>
      match sendLogMessage k a (V1.GetLogMessage msg) with
      | Panics _ => mkState k (connected s) Crashed (taken s) (delivered s) (reports s)
      | Returns (k, None) =>
          mkState k true Selecting (taken s) (delivered s ++ [msg]) (reports s)
      | Returns (k, Some _) =>
          mkState k false (Connecting msg (n + 1)) (taken s) (delivered s) (reports s)
      end
  | _, _ => s
  end.

Definition Run (s : state) (l : list event) : state := foldl Run_step s l.

(** The message the goroutine is working on. *)
Definition in_flight (p : position) : list V1.Envelope :=
  match p with
  | Connecting m _ | BackingOff m _ | Sending m _ => [m]
  | _ => []
  end.

Definition tries_ok (p : position) : Prop :=
  match p with
  | Connecting _ n | BackingOff _ n | Sending _ n => 0 <= n
  | _ => True
  end.

(** A log envelope the writer can format: it has a log message with a timestamp. *)
Definition sendable (m : V1.Envelope) : Prop := is_Some (V1.GetLogMessage m ≫= V1.lm_Timestamp).

Definition Inv (s : state) : Prop :=
  tries_ok (at_ s) /\
  (forall m n, at_ s = Sending m n -> connected s = true) /\
  (forall m n, at_ s = Connecting m n \/ at_ s = BackingOff m n -> connected s = false) /\
  match at_ s with
  | Returned => exists lost, taken s = delivered s ++ lost /\ (length lost <= 1)%nat
  | Crashed => exists m, taken s = delivered s ++ [m] /\ ~ sendable m
  | p => taken s = delivered s ++ in_flight p
  end.

Lemma Run_return_Inv s :
  taken s = delivered s ++ in_flight (at_ s) -> Inv (Run_return s).
Proof.
  intros H. split_and!; try done; [by intros ? ? [?|?]|].
  simpl. exists (in_flight (at_ s)). split; [done|]. destruct (at_ s); simpl; lia.
Qed.

Lemma Run_step_Inv s e : Inv s -> Inv (Run_step s e).
Proof.
  intros (Ht & Hs & Hc & Htk). pose proof Htk as Htk'.
  unfold Run_step. destruct (at_ s) as [|m n|m n|m n| |] eqn:Ea;
    destruct e; try (unfold Inv; by rewrite Ea).
  - unfold Inv, deliver. simpl. destruct (connected s) eqn:Ec; simpl;
      split_and!; try done; try naive_solver; rewrite Htk, app_nil_r; done.
  - apply Run_return_Inv. by rewrite Ea.
  - case_match; [apply Run_return_Inv|unfold Inv]; by rewrite Ea.
  - destruct (Connect _ _) as [w [err|]].
    + destruct (Retry.Exponential_returns Intn n Ht) as (d & ->).
      split_and!; simpl; naive_solver.
    + split_and!; simpl; naive_solver.
  - case_match; [apply Run_return_Inv|unfold Inv]; by rewrite Ea.
  - split_and!; simpl in *; [lia|done| |done]. intros ? ? _. eauto.
  - unfold sendLogMessage. destruct (_ ≫= _) as [ts|] eqn:Ets.
    + destruct (Write _ _ _ _ _ _) as [w [k [err|]]].
      * split_and!; simpl in *; [lia|done|done|done].
      * split_and!; simpl; [done|done|naive_solver|]. by rewrite Htk, app_nil_r.
    + split_and!; simpl; [done|done|naive_solver|]. exists m. split; [done|].
      unfold sendable. rewrite Ets. by apply is_Some_None.
Qed.

Lemma Run_Inv s l : Inv s -> Inv (Run s l).
Proof. revert s. induction l as [|e l IH]; intros s Hs; simpl; [done|]. by apply IH, Run_step_Inv. Qed.

Lemma start_Inv k : Inv (Run_start k).
Proof. by split_and!. Qed.


End Sink.

(** ** Recovery of a TCP drain *)

Section Recovery.
Context (h : Host) (Intn : Z -> Z).

#[local] Instance tcp_writer : Writer SyslogWriter.syslogWriter := syslogWriter_Writer h.

(** [k] refused connections, each followed by its back-off. *)
Fixpoint refusals (err : string) (k : nat) : list event :=
  match k with
  | O => []
  | S k => ConnectAnswers (Err err) :: BackoffElapsed :: refusals err k
  end.

(** [k] refusals, a successful dial and a successful write. *)
Definition recovery (err : string) (k c : nat) (bytes : Z) : list event :=
  refusals err k ++ [ConnectAnswers (Ok (c, true)); WriteAnswers (bytes, None)].

Definition report (s : state (W := SyslogWriter.syslogWriter)) (err : string) (d : Z) : string * Z * string * string :=
  (Identifier (drainURL (sink s)), d, err, appId (sink s)).

Lemma refusal_step err s msg n d :
  at_ s = Connecting msg n -> Retry.Exponential Intn n = Returns d ->
  exists w, Run_step Intn (Run_step Intn s (ConnectAnswers (Err err))) BackoffElapsed =
    mkState (set_writer (sink s) w) false (Connecting msg (n + 1)) (taken s) (delivered s)
      (reports s ++ [report s err d]).
Proof. intros Ha Hd. unfold Run_step at 2. rewrite Ha. simpl. rewrite Hd. eexists. done. Qed.

Lemma refusals_run err k s msg n :
  at_ s = Connecting msg n -> connected s = false -> 0 <= n ->
  exists s' ds, Run Intn s (refusals err k) = s' /\
    at_ s' = Connecting msg (n + Z.of_nat k) /\ connected s' = false /\
    taken s' = taken s /\ delivered s' = delivered s /\
    drainURL (sink s') = drainURL (sink s) /\ appId (sink s') = appId (sink s) /\
    reports s' = reports s ++ (report s err <$> ds) /\
    Forall2 (fun i d => Retry.Exponential Intn (n + Z.of_nat i) = Returns d) (seq 0 k) ds.
Proof.
  revert s n. induction k as [|k IH]; intros s n Ha Hc Hn.
  - exists s, []. simpl. rewrite Z.add_0_r, app_nil_r. split_and!; try done.
  - destruct (Retry.Exponential_returns Intn n Hn) as (d & Ed).
    destruct (refusal_step err s msg n d Ha Ed) as [w Ew].
    change (Run Intn s (refusals err (S k))) with
      (Run Intn (Run_step Intn (Run_step Intn s (ConnectAnswers (Err err))) BackoffElapsed)
         (refusals err k)). rewrite Ew.
    edestruct IH as (s' & ds & Hs' & A & C & T & D & U & I & R & F);
      [| | |exists s', (d :: ds); split; [exact Hs'|]]; [done|done|lia|]. split_and!; try done.
    + rewrite A. f_equal. lia.
    + rewrite R. simpl. by rewrite <- app_assoc.
    + simpl. constructor; [by rewrite Z.add_0_r|]. rewrite <- fmap_S_seq, Forall2_fmap_l.
      eapply Forall2_impl; [exact F|]. intros i d' Hd. simpl. rewrite <- Hd. f_equal. lia.
Qed.

Lemma success_steps s msg n c bytes :
  at_ s = Connecting msg n -> sendable msg ->
  exists w, Run_step Intn (Run_step Intn s (ConnectAnswers (Ok (c, true)))) (WriteAnswers (bytes, None)) =
    mkState (set_writer (sink s) w) true Selecting (taken s) (delivered s ++ [msg]) (reports s).
Proof.
  intros Ha [ts Hts]. unfold Run_step at 2. rewrite Ha. simpl.
  unfold Run_step; cbn [at_ sink]; unfold sendLogMessage. rewrite Hts.
  unfold Syslog_Write. simpl. eexists. done.
Qed.

(** Recovery.  A TCP drain that refuses any number of connections before it accepts one
    still receives the pending message: after [k] refusals, a successful dial and a
    successful write the sink is back at its select with the message delivered, and it has
    reported and slept exactly [k] times, the [i]-th time for the [i]-th delay of the
    exponential strategy. *)
Theorem syslog_sink_recovers err k s msg n c bytes :
  at_ s = Connecting msg n -> connected s = false -> 0 <= n -> sendable msg ->
  exists ds,
    let s' := Run Intn s (recovery err k c bytes) in
    at_ s' = Selecting /\ connected s' = true /\ delivered s' = delivered s ++ [msg] /\
    reports s' = reports s ++ (report s err <$> ds) /\
    Forall2 (fun i d => Retry.Exponential Intn (n + Z.of_nat i) = Returns d) (seq 0 k) ds.
Proof.
  intros Ha Hc Hn [ts Hts].
  destruct (refusals_run err k s msg n Ha Hc Hn) as (s1 & ds & E & A & C & T & D & U & I & R & F).
  exists ds. unfold Run, recovery. rewrite foldl_app. fold (Run Intn s (refusals err k)). rewrite E.
  simpl foldl. destruct (success_steps s1 msg (n + Z.of_nat k) c bytes A) as [w ->]; [by exists ts|].
  simpl. by rewrite D, R.
Qed.

End Recovery.

Definition log_with (ts : Z) : V1.Envelope :=
  V1.mkEnvelope None (Some V1.Envelope_LogMessage) (Some ts) None None None None ∅ None
    (Some (V1.mkLogMessage "hi" (Some V1.LogMessage_OUT) (Some ts) None (Some "APP"%string) None))
    None None None None.

Definition pending_state : state :=
  mkState
    (NewSyslogSink "app" (mkURL "syslog" "h:514" "/" "") 100
       (mkSyslogWriter "app" "h:514" "host" None 0 []) "doppler")
    false (Connecting (log_with 5) 0) [log_with 5] [] [].

Lemma syslog_sink_recovers_witness :
  exists ds,
    let s' := Run (Writer0 := syslogWriter_Writer utc_host) (fun n => n - 1) pending_state
      (recovery utc_host "refused" 2 1 9) in
    at_ s' = Selecting /\ connected s' = true /\ delivered s' = delivered pending_state ++ [log_with 5] /\
    reports s' = reports pending_state ++ (report pending_state "refused" <$> ds) /\
    Forall2 (fun i d => Retry.Exponential (fun n => n - 1) (0 + Z.of_nat i) = Returns d) (seq 0 2) ds.
Proof.
  apply syslog_sink_recovers; [reflexivity|reflexivity|lia|]. exists 5. reflexivity.
Defined.

End Syslog.

(** ** websocket/websocket_sink.go *)

Module Websocket.

Record WebsocketSink : Type := mkWebsocketSink {
  appID : string;
  clientAddress : string;
  messageDrainBufferSize : Z;
  writeTimeout : Z;
  dropsondeOrigin : string
}.

Definition NewWebsocketSink (appID remoteAddr : string) (messageDrainBufferSize writeTimeout : Z)
  (dropsondeOrigin : string) : WebsocketSink :=
  {| appID := appID; clientAddress := remoteAddr;
     messageDrainBufferSize := messageDrainBufferSize; writeTimeout := writeTimeout;
     dropsondeOrigin := dropsondeOrigin |}.

Definition Identifier (s : WebsocketSink) : string := clientAddress s.
Definition AppID (s : WebsocketSink) : string := appID s.
Definition ShouldReceiveErrors (s : WebsocketSink) : bool := true.

Section Run.
(** [proto.Marshal] *)
Context (Marshal : V1.Envelope -> result string).

(** [written] are the frames the client got, [counted] the calls of [counter.Increment],
    [stopped] whether [stopChan] was closed (which stops the truncating buffer). *)
Record state : Type := mkState {
  sink : WebsocketSink;
  written : list string;
  deadlines : nat;
  counted : list V1.EventType;
  stopped : bool
}.

Definition Run_start (s : WebsocketSink) : state := mkState s [] 0 [] false.

(** One receive of the loop: [None] is a closed channel; [ok] the answer of the socket. *)
Definition Run_step (s : state) (recv : option V1.Envelope) (ok : bool) : state :=
  if stopped s then s else
  match recv with
  | None => mkState (sink s) (written s) (deadlines s) (counted s) true
  | Some e =>
      match Marshal e with
      | Err _ => s
      | Ok bytes =>
          let deadlines :=
            if bool_decide (writeTimeout (sink s) <> 0) then S (deadlines s) else deadlines s in
          if ok
          then mkState (sink s) (written s ++ [bytes]) deadlines
                 (counted s ++ [V1.GetEventType e]) false
          else mkState (sink s) (written s) deadlines (counted s) true
      end
  end.

End Run.
End Websocket.
