(* ===== verification/GroupedSinks.v ===== *)
(** * doppler/internal/groupedsinks

    The registry of the sinks of every application and of every firehose subscription, and
    the broadcasts over it.  Input channels live in a store, since a wrapper only holds a
    reference: the reader of a channel is the sink's goroutine.  Every operation of the
    registry holds its lock throughout, so an execution is a sequence of operations and of
    steps of the readers.

    [*SinkWrapper] and [*AppGroup] values are never nil in the maps: the code stores only
    fresh objects there. *)

From S2P Require Import Prelude Go Events Sinks SyslogWriter StreamingSinks.

(** ** The sinks of the registry *)

(** A pointer to a sink, with what its interface methods answer. *)
Inductive Sink : Type :=
| SDump (ref : nat) (appId : string)
| SContainerMetric (ref : nat) (appID : string)
| SSyslog (ref : nat) (appId : string) (drainURL : URL)
| SWebsocket (ref : nat) (appID remoteAddr : string).

#[export] Instance URL_eq_dec : EqDecision URL.
Proof. solve_decision. Defined.
#[export] Instance Sink_eq_dec : EqDecision Sink.
Proof. solve_decision. Defined.

Definition AppID (s : Sink) : string :=
  match s with
  | SDump _ a | SContainerMetric _ a | SSyslog _ a _ | SWebsocket _ a _ => a
  end.

Definition Identifier (s : Sink) : string :=
  match s with
  | SDump _ a => a
  | SContainerMetric _ a => "container-metrics-" +:+ a
  | SSyslog _ _ u => Syslog.Identifier u
  | SWebsocket _ _ addr => addr
  end.

Definition ShouldReceiveErrors (s : Sink) : bool :=
  match s with
  | SDump _ _ | SWebsocket _ _ _ => true
  | SContainerMetric _ _ | SSyslog _ _ _ => false
  end.

(** The type assertions [sink.( *syslog.SyslogSink)] and [sink.( *websocket.WebsocketSink)]. *)
Definition is_syslog (s : Sink) : bool := match s with SSyslog _ _ _ => true | _ => false end.
Definition is_websocket (s : Sink) : bool := match s with SWebsocket _ _ _ => true | _ => false end.

(** ** sink_wrapper.go *)

Record SinkWrapper : Type := mkWrapper { InputChan : nat; wrapped : Sink }.

#[export] Instance SinkWrapper_eq_dec : EqDecision SinkWrapper.
Proof. solve_decision. Defined.

(** ** The store of channels and the metrics *)

Record world : Type := mkWorld {
  chans : gmap nat (Chan.t V1.Envelope);
  next_chan : nat;
  batched : list string;
  droppedMetric : Z;
  errorMetric : Z
}.

Definition empty_world : world := mkWorld ∅ 0 [] 0 0.

Definition set_chans (w : world) (m : gmap nat (Chan.t V1.Envelope)) : world :=
  mkWorld m (next_chan w) (batched w) (droppedMetric w) (errorMetric w).

(** [make(chan *events.Envelope, n)] *)
Definition make_chan (n : nat) (w : world) : nat * world :=
  (next_chan w,
   mkWorld (<[next_chan w := Chan.make V1.Envelope n]> (chans w)) (S (next_chan w))
     (batched w) (droppedMetric w) (errorMetric w)).

Definition close_chan (ch : nat) (w : world) : outcome world :=
  match chans w !! ch ≫= Chan.close with
  | Some c => Returns (set_chans w (<[ch := c]> (chans w)))
  | None => Panics "close of closed channel"
  end.

(** The sink's goroutine takes [n] envelopes. *)
Definition consume_chan (ch n : nat) (w : world) : world :=
  set_chans w (alter (Chan.consume n) ch (chans w)).

(** [select { case ch <- msg: default: on_full }] *)
Definition offer (on_full : world -> world) (msg : V1.Envelope) (w : world) (ch : nat)
  : outcome world :=
  match chans w !! ch with
  | None => Panics "no such channel"
  | Some c =>
      match Chan.try_send c msg with
      | Chan.Sent c => Returns (set_chans w (<[ch := c]> (chans w)))
      | Chan.Full => Returns (on_full w)
      | Chan.SendOnClosed => Panics "send on closed channel"
      end
  end.

Definition count_dropped (w : world) : world :=
  mkWorld (chans w) (next_chan w) (batched w ++ ["sinks.dropped"%string])
    (Words.add 64 (droppedMetric w) 1) (errorMetric w).

Definition count_error_dropped (w : world) : world :=
  mkWorld (chans w) (next_chan w) (batched w ++ ["sinks.errors.dropped"%string])
    (droppedMetric w) (Words.add 64 (errorMetric w) 1).

(** ** grouped_sinks.go: AppGroup *)

Module AppGroup.

Record t : Type := mk { wrappers : gmap string SinkWrapper }.

Definition NewAppGroup : t := mk ∅.

Definition exists_ (g : t) (s : Sink) : bool := bool_decide (is_Some (wrappers g !! Identifier s)).

Definition AddSink (g : t) (s : Sink) (in_ : nat) : t * bool :=
  if exists_ g s then (g, false)
  else (mk (<[Identifier s := mkWrapper in_ s]> (wrappers g)), true).

Definition sink (g : t) (id : string) : option Sink := wrapped <$> wrappers g !! id.

Definition RecentLogsSink (g : t) (id : string) : option Sink :=
  match sink g id with Some (SDump r a) => Some (SDump r a) | _ => None end.

Definition ContainerMetricsSink (g : t) (id : string) : option Sink :=
  match sink g id with Some (SContainerMetric r a) => Some (SContainerMetric r a) | _ => None end.

Definition SyslogSinks (ord : RangeOrder string) (g : t) : list Sink :=
  filter is_syslog
    (wrapped <$> (range_map ord (wrappers g)).*2).

Definition WebsocketSinks (ord : RangeOrder string) (g : t) : list Sink :=
  filter is_websocket
    (wrapped <$> (range_map ord (wrappers g)).*2).

Definition removeSink (g : t) (s : Sink) (w : world) : outcome (t * world * bool) :=
  let g' := mk (delete (Identifier s) (wrappers g)) in
  match wrappers g !! Identifier s with
  | None => Returns (g', w, false)
  | Some wr =>
      (let! w := close_chan (InputChan wr) w in Returns (g', w, true))%go
  end.

(** [RemoveAllSinks]: an entry deleted before the loop reaches it is not visited. *)
Definition RemoveAllSinks (ord : RangeOrder string) (g : t) (w : world) : outcome (t * world) :=
  ofold (fun gw kv =>
    let '(g, w) := gw in
    if bool_decide (is_Some (wrappers g !! (kv : string * SinkWrapper).1)) then
      (let! (g, w, _) := removeSink g (wrapped kv.2) w in Returns (g, w))%go
    else Returns (g, w)) (range_map ord (wrappers g)) (g, w).

Definition IsEmpty (g : t) : bool := bool_decide (size (wrappers g) = 0).

Definition length (g : t) : nat := size (wrappers g).

Definition BroadcastMessage (ord : RangeOrder string) (g : t) (msg : V1.Envelope) (w : world)
  : outcome world :=
  ofold (fun w kv => offer count_dropped msg w (InputChan (kv : string * SinkWrapper).2))
    (range_map ord (wrappers g)) w.

Definition BroadcastError (ord : RangeOrder string) (g : t) (msg : V1.Envelope) (w : world)
  : outcome world :=
  ofold (fun w kv =>
    if ShouldReceiveErrors (wrapped (kv : string * SinkWrapper).2)
    then offer count_error_dropped msg w (InputChan kv.2) else Returns w)
    (range_map ord (wrappers g)) w.

End AppGroup.

(** ** firehose_group.go

    The registration half of [firehoseGroup] repeats the code of [AppGroup] statement for
    statement, so the definitions are shared; [BroadcastMessage] differs. *)

Module FirehoseGroup.

Abbreviation t := AppGroup.t.
Abbreviation wrappers := AppGroup.wrappers.

Definition NewFirehoseGroup : t := AppGroup.NewAppGroup.
Definition exists_ : t -> Sink -> bool := AppGroup.exists_.
Definition AddSink : t -> Sink -> nat -> t * bool := AppGroup.AddSink.
Definition removeSink : t -> Sink -> world -> outcome (t * world * bool) := AppGroup.removeSink.
Definition RemoveAllSinks : RangeOrder string -> t -> world -> outcome (t * world) :=
  AppGroup.RemoveAllSinks.
Definition IsEmpty : t -> bool := AppGroup.IsEmpty.

(** [randomWrapper], with the result [r] of [rand.Intn(len(group.wrappers))]. *)
Definition randomWrapper (ord : RangeOrder string) (Intn : nat -> nat) (g : t) : option SinkWrapper :=
  if bool_decide (size (wrappers g) = 0) then None
  else snd <$> range_map ord (wrappers g) !! Intn (size (wrappers g)).

Definition BroadcastMessage (ord : RangeOrder string) (Intn : nat -> nat) (g : t)
  (msg : V1.Envelope) (w : world) : outcome world :=
  match randomWrapper ord Intn g with
  | None => Returns w
  | Some wr => offer count_dropped msg w (InputChan wr)
  end.

End FirehoseGroup.

(** ** grouped_sinks.go: GroupedSinks *)

Record GroupedSinks : Type := mkGroups {
  apps : gmap string AppGroup.t;
  firehoses : gmap string FirehoseGroup.t;
  store : world
}.

Definition NewGroupedSinks : GroupedSinks := mkGroups ∅ ∅ empty_world.

(** What the runtime chooses: the iteration orders and the random draws. *)
Record choices : Type := mkChoices {
  app_order : RangeOrder string;
  group_order : RangeOrder string;
  wrapper_order : RangeOrder string;
  Intn : string -> nat -> nat
}.

Definition RegisterAppSink (in_ : nat) (s : Sink) (g : GroupedSinks) : GroupedSinks * bool :=
  let appId := AppID s in
  if Str.empty appId || Str.empty (Identifier s) then (g, false)
  else
    let sinksForApp := default AppGroup.NewAppGroup (apps g !! appId) in
    let '(sinksForApp, ok) := AppGroup.AddSink sinksForApp s in_ in
    (mkGroups (<[appId := sinksForApp]> (apps g)) (firehoses g) (store g), ok).

Definition RegisterFirehoseSink (in_ : nat) (s : Sink) (g : GroupedSinks) : GroupedSinks * bool :=
  let subscriptionId := AppID s in
  if Str.empty subscriptionId then (g, false)
  else
    let fgroup := default FirehoseGroup.NewFirehoseGroup (firehoses g !! subscriptionId) in
    let '(fgroup, ok) := FirehoseGroup.AddSink fgroup s in_ in
    (mkGroups (apps g) (<[subscriptionId := fgroup]> (firehoses g)) (store g), ok).

Definition IsFirehoseRegistered (s : Sink) (g : GroupedSinks) : bool :=
  if Str.empty (AppID s) then false
  else match firehoses g !! AppID s with
       | None => false
       | Some fgroup => FirehoseGroup.exists_ fgroup s
       end.

Definition broadcastMessageToFirehoses (ch : choices) (msg : V1.Envelope) (g : GroupedSinks)
  (w : world) : outcome world :=
  ofold (fun w kv =>
    FirehoseGroup.BroadcastMessage (wrapper_order ch) (Intn ch (kv : string * FirehoseGroup.t).1)
      kv.2 msg w) (range_map (group_order ch) (firehoses g)) w.

Definition set_store (g : GroupedSinks) (w : world) : GroupedSinks :=
  mkGroups (apps g) (firehoses g) w.

Definition Broadcast (ch : choices) (appId : string) (msg : V1.Envelope) (g : GroupedSinks)
  : outcome GroupedSinks :=
  (let! w :=
     match apps g !! appId with
     | Some sinksForApp => AppGroup.BroadcastMessage (wrapper_order ch) sinksForApp msg (store g)
     | None => Returns (store g)
     end in
   let! w := broadcastMessageToFirehoses ch msg g w in
   Returns (set_store g w))%go.

Definition BroadcastError (ch : choices) (appId : string) (msg : V1.Envelope) (g : GroupedSinks)
  : outcome GroupedSinks :=
  (let! w :=
     match apps g !! appId with
     | Some sinksForApp => AppGroup.BroadcastError (wrapper_order ch) sinksForApp msg (store g)
     | None => Returns (store g)
     end in
   let! w := broadcastMessageToFirehoses ch msg g w in
   Returns (set_store g w))%go.

Definition CountFor (appId : string) (g : GroupedSinks) : nat :=
  match apps g !! appId with None => 0 | Some a => AppGroup.length a end.

Definition DrainFor (appId drainMetaData : string) (g : GroupedSinks) : option Sink :=
  apps g !! appId ≫= fun a => AppGroup.sink a drainMetaData.

Definition DrainsFor (ord : RangeOrder string) (appId : string) (g : GroupedSinks) : list Sink :=
  match apps g !! appId with None => [] | Some a => AppGroup.SyslogSinks ord a end.

Definition DumpFor (appId : string) (g : GroupedSinks) : option Sink :=
  apps g !! appId ≫= fun a => AppGroup.RecentLogsSink a appId.

Definition ContainerMetricsFor (appId : string) (g : GroupedSinks) : option Sink :=
  apps g !! appId ≫= fun a => AppGroup.ContainerMetricsSink a ("container-metrics-" +:+ appId).

Definition WebsocketSinksFor (ord : RangeOrder string) (appId : string) (g : GroupedSinks)
  : list Sink :=
  match apps g !! appId with None => [] | Some a => AppGroup.WebsocketSinks ord a end.

Definition CloseAndDelete (s : Sink) (g : GroupedSinks) : outcome (GroupedSinks * bool) :=
  let appId := AppID s in
  match apps g !! appId with
  | None => Returns (g, false)
  | Some sinksForApp =>
      (let! (sinksForApp, w, removed) := AppGroup.removeSink sinksForApp s (store g) in
       let apps' := if AppGroup.IsEmpty sinksForApp then delete appId (apps g)
                    else <[appId := sinksForApp]> (apps g) in
       Returns (mkGroups apps' (firehoses g) w, removed))%go
  end.

Definition CloseAndDeleteFirehose (s : Sink) (g : GroupedSinks) : outcome (GroupedSinks * bool) :=
  let firehoseSubscriptionId := AppID s in
  match firehoses g !! firehoseSubscriptionId with
  | None => Returns (g, false)
  | Some fgroup =>
      (let! (fgroup, w, removed) := FirehoseGroup.removeSink fgroup s (store g) in
       let f' := if FirehoseGroup.IsEmpty fgroup then delete firehoseSubscriptionId (firehoses g)
                 else <[firehoseSubscriptionId := fgroup]> (firehoses g) in
       Returns (mkGroups (apps g) f' w, removed))%go
  end.

Definition DeleteAll (ch : choices) (g : GroupedSinks) : outcome GroupedSinks :=
  (let! g := ofold (fun g kv =>
     let! (_, w) := AppGroup.RemoveAllSinks (wrapper_order ch) (kv : string * AppGroup.t).2 (store g) in
     Returns (mkGroups (delete kv.1 (apps g)) (firehoses g) w))
     (range_map (app_order ch) (apps g)) g in
   ofold (fun g kv =>
     let! (_, w) := FirehoseGroup.RemoveAllSinks (wrapper_order ch) (kv : string * FirehoseGroup.t).2 (store g) in
     Returns (mkGroups (apps g) (delete kv.1 (firehoses g)) w))
     (range_map (group_order ch) (firehoses g)) g)%go.

(** ** Executions of the registry *)

(** Registrations come with the channel their caller makes, as [SinkManager] does. *)
Inductive op : Type :=
| OpRegister (s : Sink) (cap : nat)
| OpRegisterFirehose (s : Sink) (cap : nat)
| OpBroadcast (ch : choices) (appId : string) (msg : V1.Envelope)
| OpBroadcastError (ch : choices) (appId : string) (msg : V1.Envelope)
| OpClose (s : Sink)
| OpCloseFirehose (s : Sink)
| OpDeleteAll (ch : choices)
| OpConsume (ch n : nat).

Definition step (g : GroupedSinks) (o : op) : outcome GroupedSinks :=
  match o with
  | OpRegister s cap =>
      let '(in_, w) := make_chan cap (store g) in
      Returns (fst (RegisterAppSink in_ s (set_store g w)))
  | OpRegisterFirehose s cap =>
      let '(in_, w) := make_chan cap (store g) in
      Returns (fst (RegisterFirehoseSink in_ s (set_store g w)))
  | OpBroadcast ch appId msg => Broadcast ch appId msg g
  | OpBroadcastError ch appId msg => BroadcastError ch appId msg g
  | OpClose s => (let! (g, _) := CloseAndDelete s g in Returns g)%go
  | OpCloseFirehose s => (let! (g, _) := CloseAndDeleteFirehose s g in Returns g)%go
  | OpDeleteAll ch => DeleteAll ch g
  | OpConsume ch n => Returns (set_store g (consume_chan ch n (store g)))
  end.

(** ** Invariant *)

(** A place of the registry: firehose or application, its key, the sink's identifier. *)
Definition place : Type := bool * string * string.

Definition groups (fh : bool) (g : GroupedSinks) : gmap string AppGroup.t :=
  if fh then firehoses g else apps g.

Definition registered (g : GroupedSinks) (p : place) : option SinkWrapper :=
  let '(fh, key, id) := p in groups fh g !! key ≫= fun x => AppGroup.wrappers x !! id.

(** Open ([Some false]), closed ([Some true]) or not yet made. *)
Definition status (w : world) (ch : nat) : option bool := Chan.closed <$> chans w !! ch.

Record Inv (g : GroupedSinks) : Prop := mkInv {
  inv_key : forall fh key id wr, registered g (fh, key, id) = Some wr ->
    key = AppID (wrapped wr) /\ id = Identifier (wrapped wr);
  inv_open : forall p wr, registered g p = Some wr -> status (store g) (InputChan wr) = Some false;
  inv_inj : forall p q wr wr', registered g p = Some wr -> registered g q = Some wr' ->
    InputChan wr = InputChan wr' -> p = q;
  inv_nonempty : forall fh key x, groups fh g !! key = Some x -> AppGroup.wrappers x <> ∅;
  inv_fresh : forall ch, is_Some (status (store g) ch) -> ch < next_chan (store g)
}.

(** A step that only moves envelopes. *)
Definition same_status (w w' : world) : Prop :=
  next_chan w' = next_chan w /\ forall ch, status w' ch = status w ch.

Lemma same_status_refl w : same_status w w.
Proof. done. Qed.

Lemma same_status_trans w1 w2 w3 : same_status w1 w2 -> same_status w2 w3 -> same_status w1 w3.
Proof. intros [N1 H1] [N2 H2]. split; [congruence|]. intros ch. by rewrite H2. Qed.

Lemma Inv_same_status g w : Inv g -> same_status (store g) w -> Inv (set_store g w).
Proof.
  intros [Hk Ho Hi Hn Hf] [N H]. split; try done; simpl.
  - intros p wr Hp. rewrite H. by eapply Ho.
  - intros ch. rewrite H, N. auto.
Qed.

Definition keeps_chans (f : world -> world) : Prop :=
  forall w, chans (f w) = chans w /\ next_chan (f w) = next_chan w.

Lemma offer_returns f msg w ch :
  keeps_chans f -> status w ch = Some false ->
  exists w', offer f msg w ch = Returns w' /\ same_status w w'.
Proof.
  intros Hf. unfold status, offer. intros (c & Hc & Hcl)%fmap_Some. rewrite Hc.
  unfold Chan.try_send. rewrite <- Hcl. case_decide; eexists; (split; [done|]).
  - split; [done|]. intros i. unfold status. simpl.
    destruct (decide (i = ch)) as [->|]; [rewrite lookup_insert_eq, Hc; simpl; congruence|].
    by rewrite lookup_insert_ne.
  - destruct (Hf w) as [E N]. split; [done|]. intros i. unfold status. by rewrite E.
Qed.

Lemma close_returns w ch :
  status w ch = Some false ->
  exists w', close_chan ch w = Returns w' /\ next_chan w' = next_chan w /\
    (forall i, status w' i = if decide (i = ch) then Some true else status w i).
Proof.
  unfold status, close_chan, Chan.close. intros (c & Hc & Hcl)%fmap_Some. rewrite Hc. simpl.
  rewrite <- Hcl. eexists. split; [done|]. split; [done|]. intros i. simpl.
  case_decide; subst; [by rewrite lookup_insert_eq|by rewrite lookup_insert_ne].
Qed.

Lemma keeps_dropped : keeps_chans count_dropped.
Proof. done. Qed.
Lemma keeps_error_dropped : keeps_chans count_error_dropped.
Proof. done. Qed.

#[export] Hint Resolve same_status_refl same_status_trans keeps_dropped keeps_error_dropped : loggregator.

(** *** Broadcasts *)

Definition all_open (x : AppGroup.t) (w : world) : Prop :=
  forall id wr, AppGroup.wrappers x !! id = Some wr -> status w (InputChan wr) = Some false.

Lemma all_open_same x w w' : same_status w w' -> all_open x w -> all_open x w'.
Proof. intros [_ H] Ho id wr Hid. rewrite H. by eapply Ho. Qed.

Lemma Inv_all_open g fh key x : Inv g -> groups fh g !! key = Some x -> all_open x (store g).
Proof.
  intros Hg Hx id wr Hid. apply (inv_open g Hg (fh, key, id)). simpl. by rewrite Hx.
Qed.

Lemma group_broadcast ord x w (body : world -> string * SinkWrapper -> outcome world) :
  all_open x w ->
  (forall w kv, status w (InputChan kv.2) = Some false ->
    exists w', body w kv = Returns w' /\ same_status w w') ->
  exists w', ofold body (range_map ord (AppGroup.wrappers x)) w = Returns w' /\ same_status w w'.
Proof.
  intros Ho Hb. apply ofold_returns; [|done].
  intros w1 [id wr] H1 Hin%range_elem. destruct (Hb w1 (id, wr)) as (w2 & E & H2).
  - simpl. destruct H1 as [_ ->]. by eapply Ho.
  - eauto using same_status_trans.
Qed.

Lemma BroadcastMessage_returns ord x msg w :
  all_open x w -> exists w', AppGroup.BroadcastMessage ord x msg w = Returns w' /\ same_status w w'.
Proof. intros Ho. apply group_broadcast; [done|]. intros. apply offer_returns; auto with loggregator. Qed.

Lemma BroadcastError_returns ord x msg w :
  all_open x w -> exists w', AppGroup.BroadcastError ord x msg w = Returns w' /\ same_status w w'.
Proof.
  intros Ho. apply group_broadcast; [done|]. intros. case_match; [|eauto with loggregator].
  apply offer_returns; auto with loggregator.
Qed.

Lemma randomWrapper_elem ord f x wr :
  FirehoseGroup.randomWrapper ord f x = Some wr -> exists id, AppGroup.wrappers x !! id = Some wr.
Proof.
  unfold FirehoseGroup.randomWrapper. case_bool_decide; [done|].
  intros ([id wr'] & Hl & ->)%fmap_Some. exists id. simpl.
  eapply range_elem. eapply list_elem_of_lookup_2. exact Hl.
Qed.

Lemma Firehose_returns ord f x msg w :
  all_open x w -> exists w', FirehoseGroup.BroadcastMessage ord f x msg w = Returns w' /\ same_status w w'.
Proof.
  intros Ho. unfold FirehoseGroup.BroadcastMessage.
  destruct (FirehoseGroup.randomWrapper ord f x) as [wr|] eqn:E; [|eauto with loggregator].
  destruct (randomWrapper_elem _ _ _ _ E) as [id Hid].
  apply offer_returns; [auto with loggregator|by eapply Ho].
Qed.

Lemma firehoses_returns ch msg g w :
  Inv g -> same_status (store g) w ->
  exists w', broadcastMessageToFirehoses ch msg g w = Returns w' /\ same_status w w'.
Proof.
  intros Hg Hw. apply ofold_returns; [|done].
  intros w1 [key x] H1 Hin%range_elem. simpl.
  destruct (Firehose_returns (wrapper_order ch) (Intn ch key) x msg w1) as (w2 & E & H2);
    [|eauto using same_status_trans].
  eapply all_open_same; [|by eapply (Inv_all_open g true)]. by eapply same_status_trans.
Qed.

(** *** Registration *)

Definition insert_wrapper (fh : bool) (s : Sink) (in_ : nat) (g : GroupedSinks) : GroupedSinks :=
  let x := default AppGroup.NewAppGroup (groups fh g !! AppID s) in
  let x := AppGroup.mk (<[Identifier s := mkWrapper in_ s]> (AppGroup.wrappers x)) in
  if fh then mkGroups (apps g) (<[AppID s := x]> (firehoses g)) (store g)
  else mkGroups (<[AppID s := x]> (apps g)) (firehoses g) (store g).

Lemma groups_insert fh s in_ g fh' key :
  groups fh' (insert_wrapper fh s in_ g) !! key =
    if decide (fh' = fh /\ key = AppID s)
    then Some (AppGroup.mk (<[Identifier s := mkWrapper in_ s]>
           (AppGroup.wrappers (default AppGroup.NewAppGroup (groups fh g !! AppID s)))))
    else groups fh' g !! key.
Proof.
  unfold insert_wrapper, groups. case_decide as H.
  - destruct H as [-> ->]. destruct fh; simpl; by rewrite lookup_insert_eq.
  - destruct fh, fh'; simpl; try done; rewrite lookup_insert_ne; naive_solver.
Qed.

Lemma registered_insert fh s in_ g p :
  registered (insert_wrapper fh s in_ g) p =
    if decide (p = (fh, AppID s, Identifier s)) then Some (mkWrapper in_ s) else registered g p.
Proof.
  destruct p as [[fh' key] id]. unfold registered. rewrite groups_insert.
  destruct (decide (fh' = fh /\ key = AppID s)) as [[-> ->]|Hne]; simpl.
  - destruct (decide (id = Identifier s)) as [->|Hid].
    + by rewrite decide_True, lookup_insert_eq.
    + rewrite decide_False, lookup_insert_ne by congruence. by destruct (groups fh g !! AppID s).
  - rewrite decide_False; [done|]. naive_solver.
Qed.

Lemma insert_Inv fh s cap g :
  Inv g -> let '(in_, w) := make_chan cap (store g) in
  registered g (fh, AppID s, Identifier s) = None ->
  Inv (insert_wrapper fh s in_ (set_store g w)).
Proof.
  intros [Hk Ho Hi Hn Hf]. simpl. intros Hnone.
  set (w := mkWorld _ _ _ _ _).
  assert (Hst : store (insert_wrapper fh s (next_chan (store g)) (set_store g w)) = w) by by destruct fh.
  assert (Hw : forall ch, status w ch = if decide (ch = next_chan (store g)) then Some false
    else status (store g) ch).
  { intros ch. unfold status, w. simpl. case_decide; subst;
      [by rewrite lookup_insert_eq|by rewrite lookup_insert_ne]. }
  assert (Hlt : forall p wr, registered g p = Some wr -> InputChan wr < next_chan (store g)).
  { intros p wr Hp. apply Hf. rewrite (Ho p wr Hp). eauto. }
  split.
  - intros fh' key id wr. rewrite registered_insert. case_decide; [naive_solver|]. apply Hk.
  - intros p wr. rewrite registered_insert, Hst. case_decide as Hp.
    + intros [= <-]. rewrite Hw. by rewrite decide_True.
    + intros Hr. rewrite Hw, decide_False by (apply Hlt in Hr; lia). by eapply Ho.
  - intros p q wr wr'. rewrite !registered_insert. repeat case_decide; try congruence.
    + intros [= <-] Hq%Hlt. simpl. lia.
    + intros Hp%Hlt [= <-]. simpl. lia.
    + apply Hi.
  - intros fh' key x. rewrite groups_insert. case_decide; [|by apply Hn].
    intros [= <-]. simpl. apply insert_non_empty.
  - intros ch. rewrite Hst, Hw. simpl. case_decide; [lia|]. intros Hc%Hf. lia.
Qed.

(** A channel that ends up unused does not matter. *)
Lemma make_chan_Inv cap g : Inv g -> Inv (set_store g (snd (make_chan cap (store g)))).
Proof.
  intros [Hk Ho Hi Hn Hf].
  assert (Hw : forall ch, status (snd (make_chan cap (store g))) ch =
    if decide (ch = next_chan (store g)) then Some false else status (store g) ch).
  { intros ch. unfold status. simpl. case_decide; subst;
      [by rewrite lookup_insert_eq|by rewrite lookup_insert_ne]. }
  split; try done.
  - intros p wr Hp. cbn [store set_store]. rewrite Hw. case_decide; [done|by eapply Ho].
  - intros ch. cbn [store set_store]. rewrite Hw. simpl. case_decide; [lia|]. intros Hc%Hf. lia.
Qed.

Lemma RegisterAppSink_cases in_ s g :
  RegisterAppSink in_ s g = (g, false) \/
  (registered g (false, AppID s, Identifier s) = None /\
   AppID s <> EmptyString /\ Identifier s <> EmptyString /\
   RegisterAppSink in_ s g = (insert_wrapper false s in_ g, true)).
Proof.
  unfold RegisterAppSink, insert_wrapper, AppGroup.AddSink, AppGroup.exists_. simpl.
  destruct (AppID s) eqn:Ea; [by left|]. destruct (Identifier s) eqn:Ei; [by left|].
  rewrite <- Ea, <- Ei in *. simpl.
  assert (Str.empty (AppID s) || Str.empty (Identifier s) = false) as -> by by rewrite Ea, Ei.
  destruct (apps g !! AppID s) as [x|] eqn:E; simpl; case_bool_decide as Hb; simpl.
  - left. rewrite insert_id by done. by destruct g.
  - right. rewrite <- eq_None_not_Some in Hb. split_and!; try congruence.
  - exfalso. destruct Hb as [? Hb]. by rewrite lookup_empty in Hb.
  - right. split_and!; try congruence.
Qed.

Lemma RegisterFirehoseSink_cases in_ s g :
  RegisterFirehoseSink in_ s g = (g, false) \/
  (registered g (true, AppID s, Identifier s) = None /\ AppID s <> EmptyString /\
   RegisterFirehoseSink in_ s g = (insert_wrapper true s in_ g, true)).
Proof.
  unfold RegisterFirehoseSink, insert_wrapper, FirehoseGroup.AddSink, AppGroup.AddSink, AppGroup.exists_.
  destruct (AppID s) eqn:Ea; [by left|]. rewrite <- Ea in *. simpl.
  assert (Str.empty (AppID s) = false) as -> by by rewrite Ea.
  unfold FirehoseGroup.NewFirehoseGroup.
  destruct (firehoses g !! AppID s) as [x|] eqn:E; simpl; case_bool_decide as Hb; simpl.
  - left. rewrite insert_id by done. by destruct g.
  - right. rewrite <- eq_None_not_Some in Hb. split_and!; try congruence.
  - exfalso. destruct Hb as [? Hb]. by rewrite lookup_empty in Hb.
  - right. split_and!; try congruence.
Qed.

(** *** Removal *)

Definition remove_place (fh : bool) (key id : string) (g : GroupedSinks) (w : world) : GroupedSinks :=
  match groups fh g !! key with
  | None => g
  | Some x =>
      let x' := AppGroup.mk (delete id (AppGroup.wrappers x)) in
      let m := if AppGroup.IsEmpty x' then delete key (groups fh g) else <[key := x']> (groups fh g) in
      if fh then mkGroups (apps g) m w else mkGroups m (firehoses g) w
  end.

Lemma IsEmpty_spec x : AppGroup.IsEmpty x = bool_decide (AppGroup.wrappers x = ∅).
Proof. unfold AppGroup.IsEmpty. apply bool_decide_ext. apply map_size_empty_iff. Qed.

Lemma registered_remove fh key id g w p x :
  groups fh g !! key = Some x ->
  registered (remove_place fh key id g w) p =
    if decide (p = (fh, key, id)) then None else registered g p.
Proof.
  intros Hx. destruct p as [[fh' key'] id']. unfold remove_place, registered. rewrite Hx, IsEmpty_spec. simpl.
  assert (forall m, groups fh' (if fh then mkGroups (apps g) m w else mkGroups m (firehoses g) w)
    = if decide (fh' = fh) then m else groups fh' g) as ->.
  { intros m. destruct fh, fh'; simpl; done. }
  destruct (decide (fh' = fh)) as [->|]; [|by rewrite decide_False by congruence].
  destruct (decide (key' = key)) as [->|].
  - rewrite Hx. case_bool_decide as He; rewrite ?lookup_delete_eq, ?lookup_insert_eq; simpl.
    + case_decide; [done|]. rewrite <- (lookup_delete_ne _ id) by congruence. by rewrite He, lookup_empty.
    + case_decide; simplify_eq; [by rewrite lookup_delete_eq|by rewrite lookup_delete_ne by congruence].
  - rewrite (decide_False (P := _ = _)) by congruence.
    case_bool_decide; by rewrite ?lookup_delete_ne, ?lookup_insert_ne by done.
Qed.

Lemma remove_Inv fh key id g w wr x :
  Inv g -> groups fh g !! key = Some x -> AppGroup.wrappers x !! id = Some wr ->
  next_chan w = next_chan (store g) ->
  (forall i, status w i = if decide (i = InputChan wr) then Some true else status (store g) i) ->
  Inv (remove_place fh key id g w).
Proof.
  intros [Hk Ho Hi Hn Hf] Hx Hid Hnx Hst.
  assert (Hw : store (remove_place fh key id g w) = w).
  { unfold remove_place. rewrite Hx. by destruct fh. }
  assert (Hp : registered g (fh, key, id) = Some wr) by (simpl; by rewrite Hx).
  split.
  - intros fh' key' id' wr'. rewrite (registered_remove _ _ _ _ _ _ x Hx). case_decide; [done|]. apply Hk.
  - intros p wr'. rewrite (registered_remove _ _ _ _ _ _ x Hx), Hw, Hst. case_decide as Hne; [done|].
    intros Hr. rewrite decide_False; [by eapply Ho|]. intros E. apply Hne. by eapply Hi.
  - intros p q wr1 wr2. rewrite !(registered_remove _ _ _ _ _ _ x Hx). repeat case_decide; try done. apply Hi.
  - intros fh' key' x'. unfold remove_place. rewrite Hx, IsEmpty_spec. simpl.
    destruct (decide (fh' = fh)) as [->|]; [|destruct fh, fh'; simpl; try done; [apply (Hn false)|apply (Hn true)]].
    assert (forall m, groups fh (if fh then mkGroups (apps g) m w else mkGroups m (firehoses g) w) = m) as ->
      by by destruct fh.
    case_bool_decide as He.
    + intros [_ H]%lookup_delete_Some. by eapply Hn.
    + intros [[<- <-]|[_ H]]%lookup_insert_Some; [done|by eapply Hn].
  - intros ch. rewrite Hw, Hst, Hnx. case_decide; [|auto]. intros _. subst. apply Hf.
    rewrite (Ho _ _ Hp). eauto.
Qed.

Lemma removeSink_returns x s w :
  all_open x w ->
  (AppGroup.wrappers x !! Identifier s = None /\
   AppGroup.removeSink x s w = Returns (x, w, false)) \/
  exists wr w', AppGroup.wrappers x !! Identifier s = Some wr /\
    AppGroup.removeSink x s w =
      Returns (AppGroup.mk (delete (Identifier s) (AppGroup.wrappers x)), w', true) /\
    next_chan w' = next_chan w /\
    forall i, status w' i = if decide (i = InputChan wr) then Some true else status w i.
Proof.
  intros Ho. unfold AppGroup.removeSink.
  destruct (AppGroup.wrappers x !! Identifier s) as [wr|] eqn:E.
  - right. destruct (close_returns w (InputChan wr)) as (w' & Ec & N & H); [by eapply Ho|].
    rewrite Ec. simpl. eauto 10.
  - left. rewrite delete_id by done. by destruct x.
Qed.

Lemma CloseAndDelete_returns s g :
  Inv g -> (registered g (false, AppID s, Identifier s) = None /\ CloseAndDelete s g = Returns (g, false)) \/
  exists wr w', registered g (false, AppID s, Identifier s) = Some wr /\
    next_chan w' = next_chan (store g) /\
    (forall i, status w' i = if decide (i = InputChan wr) then Some true else status (store g) i) /\
    CloseAndDelete s g = Returns (remove_place false (AppID s) (Identifier s) g w', true).
Proof.
  intros Hg. unfold CloseAndDelete, remove_place, registered, groups.
  destruct (apps g !! AppID s) as [x|] eqn:Hx; [|by left]. simpl.
  destruct (removeSink_returns x s (store g)) as [[Hn ->]|(wr & w' & Hid & -> & N & H)];
    [by eapply (Inv_all_open g false)| |right; simpl; eauto 10].
  left. split; [done|]. simpl. rewrite IsEmpty_spec, bool_decide_eq_false_2.
  - rewrite insert_id by done. by destruct g.
  - by eapply (inv_nonempty g Hg false).
Qed.

Lemma CloseAndDeleteFirehose_returns s g :
  Inv g -> (registered g (true, AppID s, Identifier s) = None /\ CloseAndDeleteFirehose s g = Returns (g, false)) \/
  exists wr w', registered g (true, AppID s, Identifier s) = Some wr /\
    next_chan w' = next_chan (store g) /\
    (forall i, status w' i = if decide (i = InputChan wr) then Some true else status (store g) i) /\
    CloseAndDeleteFirehose s g = Returns (remove_place true (AppID s) (Identifier s) g w', true).
Proof.
  intros Hg. unfold CloseAndDeleteFirehose, remove_place, registered, groups, FirehoseGroup.removeSink,
    FirehoseGroup.IsEmpty.
  destruct (firehoses g !! AppID s) as [x|] eqn:Hx; [|by left]. simpl.
  destruct (removeSink_returns x s (store g)) as [[Hn ->]|(wr & w' & Hid & -> & N & H)];
    [by eapply (Inv_all_open g true)| |right; simpl; eauto 10].
  left. split; [done|]. simpl. rewrite IsEmpty_spec, bool_decide_eq_false_2.
  - rewrite insert_id by done. by destruct g.
  - by eapply (inv_nonempty g Hg true).
Qed.

(** *** Removing everything *)

Definition remove_body : AppGroup.t * world -> string * SinkWrapper -> outcome (AppGroup.t * world) :=
  fun gw kv =>
    let '(g, w) := gw in
    if bool_decide (is_Some (AppGroup.wrappers g !! (kv : string * SinkWrapper).1)) then
      (let! (g, w, _) := AppGroup.removeSink g (wrapped kv.2) w in Returns (g, w))%go
    else Returns (g, w).

Lemma remove_all_loop l g w :
  NoDup l.*1 -> NoDup (InputChan <$> l.*2) ->
  (forall k wr, (k, wr) ∈ l -> AppGroup.wrappers g !! k = Some wr /\
     k = Identifier (wrapped wr) /\ status w (InputChan wr) = Some false) ->
  exists g' w', ofold remove_body l (g, w) = Returns (g', w') /\ next_chan w' = next_chan w /\
    forall i, status w' i = if decide (i ∈ InputChan <$> l.*2) then Some true else status w i.
Proof.
  revert g w. induction l as [|[k wr] l IH]; intros g w Hk Hc Hl; [by exists g, w|].
  inversion_clear Hk as [|? ? Hk1 Hk2]. inversion_clear Hc as [|? ? Hc1 Hc2].
  destruct (Hl k wr) as (Hg & Hid & Hs); [set_solver|].
  destruct (close_returns w (InputChan wr) Hs) as (w1 & Ec & N1 & H1).
  simpl ofold. rewrite bool_decide_eq_true_2 by (simpl; eauto). simpl.
  unfold AppGroup.removeSink. rewrite <- Hid, Hg, Ec. simpl.
  destruct (IH (AppGroup.mk (delete k (AppGroup.wrappers g))) w1) as (g' & w' & -> & N & H); [done|done| |].
  - intros k' wr' Hin. destruct (Hl k' wr') as (Hg' & Hid' & Hs'); [set_solver|].
    assert (k' <> k). { intros ->. apply Hk1. apply list_elem_of_fmap. by exists (k, wr'). }
    simpl. rewrite lookup_delete_ne by done. split_and!; [done|done|].
    rewrite H1, decide_False; [done|]. intros E. apply Hc1. rewrite <- E.
    apply list_elem_of_fmap. exists wr'. split; [done|]. apply list_elem_of_fmap. by exists (k', wr').
  - exists g', w'. split; [done|]. split; [congruence|]. intros i. rewrite H, H1.
    repeat case_decide; set_solver.
Qed.

Definition drop_group (fh : bool) (key : string) (g : GroupedSinks) (w : world) : GroupedSinks :=
  if fh then mkGroups (apps g) (delete key (firehoses g)) w
  else mkGroups (delete key (apps g)) (firehoses g) w.

Lemma groups_drop fh key g w fh' :
  groups fh' (drop_group fh key g w) = if decide (fh' = fh) then delete key (groups fh g) else groups fh' g.
Proof. destruct fh, fh'; done. Qed.

Lemma registered_drop fh key g w p :
  registered (drop_group fh key g w) p = if decide (p.1 = (fh, key)) then None else registered g p.
Proof.
  destruct p as [[fh' key'] id]. unfold registered. rewrite groups_drop. simpl.
  destruct (decide (fh' = fh)) as [->|]; [|by rewrite decide_False by congruence].
  destruct (decide (key' = key)) as [->|]; [by rewrite decide_True, lookup_delete_eq|].
  rewrite decide_False by congruence. by rewrite lookup_delete_ne.
Qed.

Lemma group_chans ord g fh key x :
  Inv g -> groups fh g !! key = Some x ->
  NoDup (InputChan <$> (range_map ord (AppGroup.wrappers x)).*2).
Proof.
  intros Hg Hx. rewrite <- list_fmap_compose. apply NoDup_fmap_2_strong; [|apply range_NoDup].
  intros [k wr] [k' wr'] H1%range_elem H2%range_elem E. simpl in E.
  assert ((fh, key, k) = (fh, key, k')) as [= ->].
  { eapply (inv_inj g Hg); [| |exact E]; simpl; by rewrite Hx. }
  congruence.
Qed.

Lemma drop_group_returns ord g fh key x :
  Inv g -> groups fh g !! key = Some x ->
  exists x' w, AppGroup.RemoveAllSinks ord x (store g) = Returns (x', w) /\
    Inv (drop_group fh key g w) /\
    (forall i, status (store g) i = Some true -> status w i = Some true) /\
    (forall id wr, AppGroup.wrappers x !! id = Some wr -> status w (InputChan wr) = Some true).
Proof.
  intros Hg Hx. pose proof Hg as [Hk Ho Hi Hn Hf].
  destruct (remove_all_loop (range_map ord (AppGroup.wrappers x)) x (store g))
    as (x' & w & E & N & H); [apply range_keys_NoDup|by eapply group_chans| |].
  { intros k wr Hin%range_elem. split; [done|].
    assert (registered g (fh, key, k) = Some wr) as Hr by (simpl; by rewrite Hx).
    split; [by apply (Hk _ _ _ _ Hr)|by apply (Ho _ _ Hr)]. }
  assert (Hmem : forall i, i ∈ InputChan <$> (range_map ord (AppGroup.wrappers x)).*2 <->
    exists id wr, AppGroup.wrappers x !! id = Some wr /\ InputChan wr = i).
  { intros i. rewrite list_elem_of_fmap. setoid_rewrite list_elem_of_fmap. split.
    - intros (wr & -> & [id wr'] & -> & Hin%range_elem). eauto.
    - intros (id & wr & Hid & <-). exists wr. split; [done|]. exists (id, wr). split; [done|]. by apply range_elem. }
  exists x', w. split; [exact E|]. split; [|split].
  - assert (Hw : store (drop_group fh key g w) = w) by by destruct fh.
    split.
    + intros fh' key' id wr. rewrite registered_drop. case_decide; [done|]. apply Hk.
    + intros p wr. rewrite registered_drop, Hw, H. case_decide as Hp; [done|]. intros Hr.
      rewrite decide_False; [by eapply Ho|]. rewrite Hmem. intros (id & wr' & Hid & Ech).
      apply Hp. assert ((fh, key, id) = p) as <-; [|done]. eapply Hi; [simpl; by rewrite Hx|done|done].
    + intros p q wr1 wr2. rewrite !registered_drop. repeat case_decide; try done. apply Hi.
    + intros fh' key' y. rewrite groups_drop. case_decide; subst; [|apply Hn].
      intros [_ Hy]%lookup_delete_Some. by eapply Hn.
    + intros ch. rewrite Hw, H, N. case_decide as Hin; [|auto]. intros _.
      apply Hmem in Hin as (id & wr & Hid & <-). apply Hf.
      rewrite (Ho (fh, key, id) wr) by (simpl; by rewrite Hx). eauto.
  - intros i Hst. rewrite H. by case_decide.
  - intros id wr Hid. rewrite H, decide_True; [done|]. apply Hmem. eauto.
Qed.

Definition drop_body (ord : RangeOrder string) (fh : bool) (g : GroupedSinks) (kv : string * AppGroup.t)
  : outcome GroupedSinks :=
  (let! (_, w) := AppGroup.RemoveAllSinks ord kv.2 (store g) in
   Returns (drop_group fh kv.1 g w))%go.

Lemma drop_loop ord fh l g :
  NoDup l.*1 -> (forall k x, (k, x) ∈ l -> groups fh g !! k = Some x) -> Inv g ->
  exists g', ofold (drop_body ord fh) l g = Returns g' /\ Inv g' /\
    groups (negb fh) g' = groups (negb fh) g /\
    (forall k, groups fh g' !! k = if decide (k ∈ l.*1) then None else groups fh g !! k) /\
    (forall i, status (store g) i = Some true -> status (store g') i = Some true) /\
    (forall k x id wr, (k, x) ∈ l -> AppGroup.wrappers x !! id = Some wr ->
      status (store g') (InputChan wr) = Some true).
Proof.
  revert g. induction l as [|[k x] l IH]; intros g Hk Hl Hg.
  { exists g. split_and!; try done. set_solver. }
  inversion_clear Hk as [|? ? Hk1 Hk2].
  destruct (drop_group_returns ord g fh k x Hg) as (x' & w & E & Hg1 & Hm & Hc); [apply Hl; set_solver|].
  assert (drop_body ord fh g (k, x) = Returns (drop_group fh k g w)) as Eb
    by (unfold drop_body; simpl; by rewrite E).
  simpl ofold. rewrite Eb. simpl.
  assert (Hst : store (drop_group fh k g w) = w) by by destruct fh.
  destruct (IH (drop_group fh k g w)) as (g' & -> & Hg' & Ho & Hk' & Hm' & Hc'); [done| |done|].
  - intros k' y Hin. rewrite groups_drop, decide_True by done. rewrite lookup_delete_ne; [apply Hl; set_solver|].
    intros ->. apply Hk1. apply list_elem_of_fmap. by exists (k', y).
  - rewrite Hst in Hm'. exists g'. split_and!; try done.
    + rewrite Ho, groups_drop, decide_False; [done|by destruct fh].
    + intros k'. rewrite Hk', groups_drop, (decide_True (P := fh = fh)) by done. simpl.
      destruct (decide (k' = k)) as [->|Hne].
      * rewrite lookup_delete_eq. destruct (decide (k ∈ k :: _)) as [|Hn]; [by case_match|].
        exfalso. apply Hn, elem_of_cons. by left.
      * rewrite lookup_delete_ne by done. apply decide_ext. rewrite elem_of_cons. naive_solver.
    + auto.
    + intros k' y id wr [[= -> ->]|Hin]%elem_of_cons Hid; [|by eapply Hc'].
      apply Hm'. by eapply Hc.
Qed.

Lemma DeleteAll_returns ch g :
  Inv g -> exists g', DeleteAll ch g = Returns g' /\ Inv g' /\ apps g' = ∅ /\ firehoses g' = ∅ /\
    forall p wr, registered g p = Some wr -> status (store g') (InputChan wr) = Some true.
Proof.
  intros Hg.
  destruct (drop_loop (wrapper_order ch) false (range_map (app_order ch) (apps g)) g)
    as (g1 & E1 & Hg1 & O1 & K1 & M1 & C1); [apply range_keys_NoDup|by intros ? ? ?%range_elem|done|].
  destruct (drop_loop (wrapper_order ch) true (range_map (group_order ch) (firehoses g1)) g1)
    as (g2 & E2 & Hg2 & O2 & K2 & M2 & C2); [apply range_keys_NoDup|by intros ? ? ?%range_elem|done|].
  assert (DeleteAll ch g = Returns g2) as ->.
  { unfold DeleteAll. change (obind (ofold (drop_body (wrapper_order ch) false)
      (range_map (app_order ch) (apps g)) g) (fun g => ofold (drop_body (wrapper_order ch) true)
      (range_map (group_order ch) (firehoses g)) g) = Returns g2). by rewrite E1. }
  assert (forall (m : gmap string AppGroup.t) ord k, k ∈ (range_map ord m).*1 <-> is_Some (m !! k)) as Hdom.
  { intros m ord k. rewrite list_elem_of_fmap. split.
    - intros ([k' x] & -> & Hin%range_elem). eauto.
    - intros [x Hx]. exists (k, x). split; [done|]. by apply range_elem. }
  exists g2. simpl in *. split_and!; [done|done|..].
  - rewrite O2. apply map_empty. intros k. rewrite K1. case_decide as Hin; [done|].
    rewrite Hdom in Hin. by apply eq_None_not_Some.
  - apply map_empty. intros k. rewrite K2. case_decide as Hin; [done|].
    rewrite Hdom in Hin. by apply eq_None_not_Some.
  - intros [[[] key] id] wr Hr; simpl in Hr; apply bind_Some in Hr as (x & Hx & Hid).
    + eapply C2; [|exact Hid]. apply range_elem. by rewrite O1.
    + apply M2. eapply C1; [|exact Hid]. by apply range_elem.
Qed.

(** Every operation returns and keeps the invariant. *)
Lemma step_Inv g o : Inv g -> exists g', step g o = Returns g' /\ Inv g'.
Proof.
  intros Hg. destruct o as [s cap|s cap|ch app msg|ch app msg|s|s|ch|c n]; simpl.
  - eexists. split; [done|]. pose proof (insert_Inv false s cap g Hg) as HI. simpl in HI.
    destruct (RegisterAppSink_cases (next_chan (store g)) s (set_store g (snd (make_chan cap (store g)))))
      as [E|(Hn & _ & _ & E)]; simpl in E; rewrite E; [|by apply HI].
    apply (make_chan_Inv cap g Hg).
  - eexists. split; [done|]. pose proof (insert_Inv true s cap g Hg) as HI. simpl in HI.
    destruct (RegisterFirehoseSink_cases (next_chan (store g)) s (set_store g (snd (make_chan cap (store g)))))
      as [E|(Hn & _ & E)]; simpl in E; rewrite E; [|by apply HI].
    apply (make_chan_Inv cap g Hg).
  - unfold Broadcast.
    assert (exists w, match apps g !! app with
      | Some x => AppGroup.BroadcastMessage (wrapper_order ch) x msg (store g)
      | None => Returns (store g) end = Returns w /\ same_status (store g) w) as (w & -> & Hw).
    { destruct (apps g !! app) eqn:E; [|eauto with loggregator].
      apply BroadcastMessage_returns. by eapply (Inv_all_open g false). }
    simpl. destruct (firehoses_returns ch msg g w Hg Hw) as (w' & -> & Hw'). simpl.
    eauto using Inv_same_status, same_status_trans.
  - unfold BroadcastError.
    assert (exists w, match apps g !! app with
      | Some x => AppGroup.BroadcastError (wrapper_order ch) x msg (store g)
      | None => Returns (store g) end = Returns w /\ same_status (store g) w) as (w & -> & Hw).
    { destruct (apps g !! app) eqn:E; [|eauto with loggregator].
      apply BroadcastError_returns. by eapply (Inv_all_open g false). }
    simpl. destruct (firehoses_returns ch msg g w Hg Hw) as (w' & -> & Hw'). simpl.
    eauto using Inv_same_status, same_status_trans.
  - destruct (CloseAndDelete_returns s g Hg) as [[_ ->]|(wr & w & Hr & N & H & ->)]; simpl; [eauto|].
    eexists. split; [done|]. simpl in Hr. apply bind_Some in Hr as (x & Hx & Hid).
    by eapply remove_Inv.
  - destruct (CloseAndDeleteFirehose_returns s g Hg) as [[_ ->]|(wr & w & Hr & N & H & ->)]; simpl; [eauto|].
    eexists. split; [done|]. simpl in Hr. apply bind_Some in Hr as (x & Hx & Hid).
    by eapply remove_Inv.
  - destruct (DeleteAll_returns ch g Hg) as (g' & -> & Hg' & _). eauto.
  - eexists. split; [done|]. apply Inv_same_status; [done|]. split; [done|]. intros i.
    unfold status. simpl. destruct (decide (i = c)) as [->|]; [|by rewrite lookup_alter_ne].
    rewrite lookup_alter_eq. by destruct (chans (store g) !! c).
Qed.

Lemma empty_registry_Inv : Inv NewGroupedSinks.
Proof.
  assert (forall p, registered NewGroupedSinks p = None) as Hr.
  { intros [[[] k] id]; simpl; by rewrite lookup_empty. }
  split; try (intros; by rewrite Hr in *).
  - intros [] k x; simpl; by rewrite lookup_empty.
  - intros ch. unfold status. simpl. rewrite lookup_empty. by intros [].
Qed.

Lemma run_Inv ops : exists g, ofold step ops NewGroupedSinks = Returns g /\ Inv g.
Proof. apply (ofold_returns Inv); [|apply empty_registry_Inv]. intros s x Hs _. by apply step_Inv. Qed.

(** ** What a broadcast delivers *)

(** A channel after [select { case c <- msg: default: }]. *)
Definition push (msg : V1.Envelope) (c : Chan.t V1.Envelope) : Chan.t V1.Envelope :=
  if decide (length (Chan.buf c) < Chan.cap c)
  then Chan.mk (Chan.cap c) (Chan.buf c ++ [msg]) (Chan.closed c) else c.

Definition is_full (w : world) (ch : nat) : bool :=
  match chans w !! ch with
  | Some c => bool_decide (Chan.cap c <= length (Chan.buf c))
  | None => false
  end.

Lemma offers_exact msg ids w :
  NoDup ids -> (forall i, i ∈ ids -> status w i = Some false) ->
  exists w', ofold (offer count_dropped msg) ids w = Returns w' /\
    (forall i, chans w' !! i = if decide (i ∈ ids) then push msg <$> chans w !! i else chans w !! i) /\
    batched w' = batched w ++ replicate (length (filter (is_full w) ids)) "sinks.dropped"%string.
Proof.
  revert w. induction ids as [|a ids IH]; intros w Hnd Ho.
  { exists w. split_and!; [done|done|by rewrite app_nil_r]. }
  inversion_clear Hnd as [|? ? Ha Hids].
  assert (status w a = Some false) as Hs by (apply Ho; set_solver).
  unfold status in Hs. apply fmap_Some in Hs as (c & Hc & Hcl).
  assert (exists w1, offer count_dropped msg w a = Returns w1 /\
    (forall i, chans w1 !! i = if decide (i = a) then Some (push msg c) else chans w !! i) /\
    batched w1 = batched w ++ (if is_full w a then ["sinks.dropped"%string] else [])) as (w1 & E & H1 & B1).
  { unfold offer, is_full, push. rewrite Hc. unfold Chan.try_send. rewrite <- Hcl.
    case_decide as Hd; eexists; (split; [done|]); simpl.
    - split; [|rewrite bool_decide_eq_false_2 by lia; by rewrite app_nil_r]. intros i.
      case_decide; subst; [by rewrite lookup_insert_eq|by rewrite lookup_insert_ne].
    - rewrite bool_decide_eq_true_2 by lia. split; [|done]. intros i. case_decide; by subst. }
  destruct (IH w1 Hids) as (w' & E' & H' & B').
  { intros i Hi. unfold status. rewrite H1, decide_False by congruence. apply Ho. set_solver. }
  exists w'. simpl. rewrite E. simpl. split; [done|]. split.
  - intros i. rewrite H', H1. destruct (decide (i = a)) as [->|Hne].
    + rewrite decide_False by done. rewrite decide_True by set_solver. by rewrite Hc.
    + repeat case_decide; try done; set_solver.
  - rewrite B', B1, <- app_assoc. f_equal. rewrite filter_cons.
    assert (filter (is_full w1) ids = filter (is_full w) ids) as ->.
    { apply ListFacts.filter_ext_bool. intros i Hi. unfold is_full.
      rewrite H1, decide_False by congruence. done. }
    by destruct (is_full w a).
Qed.

Lemma ofold_fmap {A B S} (f : S -> A -> outcome S) (h : B -> A) l s :
  ofold f (h <$> l) s = ofold (fun s x => f s (h x)) l s.
Proof. revert s. induction l as [|x l IH]; intros s; simpl; [done|]. destruct (f s (h x)); simpl; auto. Qed.

(** The sink each subscription's broadcast picks, and the channels a broadcast offers to. *)
Definition picks (ch : choices) (g : GroupedSinks) : list (string * SinkWrapper) :=
  omap (fun kv => (fun wr => (kv.1, wr)) <$>
    FirehoseGroup.randomWrapper (wrapper_order ch) (Intn ch kv.1) kv.2)
    (range_map (group_order ch) (firehoses g)).

Definition targets (ch : choices) (appId : string) (g : GroupedSinks) : list nat :=
  (match apps g !! appId with
   | Some x => InputChan <$> (range_map (wrapper_order ch) (AppGroup.wrappers x)).*2
   | None => []
   end) ++ (InputChan <$> (picks ch g).*2).

Lemma firehoses_offers ch msg g w :
  broadcastMessageToFirehoses ch msg g w =
    ofold (offer count_dropped msg) (InputChan <$> (picks ch g).*2) w.
Proof.
  unfold broadcastMessageToFirehoses, picks. generalize (range_map (group_order ch) (firehoses g)).
  intros l. revert w. induction l as [|[k x] l IH]; intros w; simpl; [done|].
  unfold FirehoseGroup.BroadcastMessage.
  destruct (FirehoseGroup.randomWrapper _ _ x) as [wr|] eqn:E; simpl; [|apply IH].
  destruct (offer _ _ _ _); simpl; [apply IH|done].
Qed.

Lemma Broadcast_offers ch appId msg g :
  Broadcast ch appId msg g =
    (let! w := ofold (offer count_dropped msg) (targets ch appId g) (store g) in
     Returns (set_store g w))%go.
Proof.
  unfold Broadcast, targets. rewrite ofold_app.
  assert (match apps g !! appId with
    | Some x => AppGroup.BroadcastMessage (wrapper_order ch) x msg (store g)
    | None => Returns (store g) end =
    ofold (offer count_dropped msg) (match apps g !! appId with
      | Some x => InputChan <$> (range_map (wrapper_order ch) (AppGroup.wrappers x)).*2
      | None => [] end) (store g)) as ->.
  { destruct (apps g !! appId); [|done]. by rewrite !ofold_fmap. }
  destruct (ofold _ _ (store g)) as [w|]; simpl; [|done]. by rewrite firehoses_offers.
Qed.

Lemma picks_elem ch g k wr :
  (k, wr) ∈ picks ch g -> exists x id, firehoses g !! k = Some x /\ AppGroup.wrappers x !! id = Some wr /\
    FirehoseGroup.randomWrapper (wrapper_order ch) (Intn ch k) x = Some wr.
Proof.
  unfold picks. rewrite list_elem_of_omap. intros ([k' x] & Hin%range_elem & (wr' & Hw & [= -> ->])%fmap_Some).
  simpl in *. destruct (randomWrapper_elem _ _ _ _ Hw) as [id Hid]. eauto 10.
Qed.

Lemma picks_keys ch g : NoDup (picks ch g).*1.
Proof.
  unfold picks. pose proof (range_keys_NoDup (group_order ch) (firehoses g)) as Hnd.
  revert Hnd. generalize (range_map (group_order ch) (firehoses g)). intros l Hnd.
  induction l as [|[k x] l IH]; simpl; [constructor|]. inversion_clear Hnd as [|? ? Hk Hl].
  assert (forall k', k' ∈ (omap (fun kv => (fun wr => (kv.1, wr)) <$>
    FirehoseGroup.randomWrapper (wrapper_order ch) (Intn ch kv.1) kv.2) l).*1 -> k' ∈ l.*1) as Hsub'.
  { intros k' ([k2 wr] & -> & ([k3 x'] & Hin & (wr' & _ & [= -> ->])%fmap_Some)%list_elem_of_omap)%list_elem_of_fmap.
    apply list_elem_of_fmap. by exists (k3, x'). }
  destruct (FirehoseGroup.randomWrapper _ _ x); simpl; [|by apply IH].
  constructor; [|by apply IH]. intros H%Hsub'. done.
Qed.

Lemma targets_NoDup ch appId g : Inv g -> NoDup (targets ch appId g).
Proof.
  intros Hg. unfold targets. apply NoDup_app. split_and!.
  - destruct (apps g !! appId) eqn:E; [|constructor]. by eapply (group_chans _ g false).
  - intros i H1 H2. destruct (apps g !! appId) as [x|] eqn:E; [|set_solver].
    apply list_elem_of_fmap in H1 as (wr & -> & ([id wr'] & -> & H1%range_elem)%list_elem_of_fmap).
    apply list_elem_of_fmap in H2 as (wr2 & Ech & ([k wr3] & -> & H2)%list_elem_of_fmap). simpl in *.
    destruct (picks_elem _ _ _ _ H2) as (y & id' & Hy & Hid' & _).
    assert ((false, appId, id) = (true, k, id')) as [=].
    eapply (inv_inj g Hg); [| |exact Ech]; simpl; [by rewrite E|by rewrite Hy].
  - rewrite <- list_fmap_compose. apply NoDup_fmap_2_strong.
    + intros [k1 w1] [k2 w2] H1 H2 Ech. simpl in Ech.
      destruct (picks_elem _ _ _ _ H1) as (y1 & i1 & Hy1 & Hi1 & R1).
      destruct (picks_elem _ _ _ _ H2) as (y2 & i2 & Hy2 & Hi2 & R2).
      assert ((true, k1, i1) = (true, k2, i2)) as [= -> ->].
      { eapply (inv_inj g Hg); [| |exact Ech]; simpl; [by rewrite Hy1|by rewrite Hy2]. }
      congruence.
    + eapply NoDup_fmap_1. apply picks_keys.
Qed.

Lemma targets_open ch appId g i : Inv g -> i ∈ targets ch appId g -> status (store g) i = Some false.
Proof.
  intros Hg. unfold targets. rewrite elem_of_app. intros [H|H].
  - destruct (apps g !! appId) as [x|] eqn:E; [|set_solver].
    apply list_elem_of_fmap in H as (wr & -> & ([id wr'] & -> & H%range_elem)%list_elem_of_fmap).
    eapply (inv_open g Hg (false, appId, id)). simpl. by rewrite E.
  - apply list_elem_of_fmap in H as (wr & -> & ([k wr'] & -> & H)%list_elem_of_fmap). simpl.
    destruct (picks_elem _ _ _ _ H) as (y & id & Hy & Hid & _).
    eapply (inv_open g Hg (true, k, id)). simpl. by rewrite Hy.
Qed.

Lemma targets_app ch appId g id wr :
  registered g (false, appId, id) = Some wr -> InputChan wr ∈ targets ch appId g.
Proof.
  simpl. intros (x & Hx & Hid)%bind_Some. unfold targets. rewrite Hx. apply elem_of_app. left.
  apply list_elem_of_fmap. exists wr. split; [done|]. apply list_elem_of_fmap. exists (id, wr).
  split; [done|]. by apply range_elem.
Qed.

(** Every subscription with a sink is served: a draw in range picks one of its wrappers. *)
Lemma picks_total ch g k x :
  Inv g -> (forall key n, 0 < n -> Intn ch key n < n) -> firehoses g !! k = Some x ->
  exists wr, (k, wr) ∈ picks ch g.
Proof.
  intros Hg HI Hx. unfold picks. setoid_rewrite list_elem_of_omap.
  assert (size (AppGroup.wrappers x) <> 0) as Hsz.
  { rewrite map_size_empty_iff. by eapply (inv_nonempty g Hg true). }
  assert (exists wr, FirehoseGroup.randomWrapper (wrapper_order ch) (Intn ch k) x = Some wr) as [wr Hw].
  { unfold FirehoseGroup.randomWrapper. rewrite bool_decide_eq_false_2 by done.
    destruct (lookup_lt_is_Some_2 (range_map (wrapper_order ch) (AppGroup.wrappers x))
      (Intn ch k (size (AppGroup.wrappers x)))) as [[id wr] ->]; [|by exists wr].
    rewrite range_length. apply HI. lia. }
  exists wr, (k, x). split; [by apply range_elem|]. simpl. by rewrite Hw.
Qed.

(** ** Properties *)

(** C16: safety of the sink registry.  Whatever the sequence of registrations, broadcasts,
    removals and reader steps, and whatever the runtime's iteration orders and draws, no
    operation ever sends on a closed channel or closes one twice, and in the resulting
    state every registered sink has an open input channel of its own. *)
Theorem grouped_sinks_never_panic ops :
  exists g, ofold step ops NewGroupedSinks = Returns g /\
    (forall p wr, registered g p = Some wr -> status (store g) (InputChan wr) = Some false) /\
    (forall p q wr wr', registered g p = Some wr -> registered g q = Some wr' ->
       InputChan wr = InputChan wr' -> p = q).
Proof. destruct (run_Inv ops) as (g & E & [_ Ho Hi _ _]). eauto. Qed.

(** C2: a broadcast delivers exactly.  In every reachable state a broadcast for an
    application offers the envelope once to each sink of that application and, per firehose
    subscription, to exactly one of its sinks; each of these channels receives it when it
    has room, no other channel changes, and the full ones are counted as drops. *)
Theorem grouped_sinks_broadcast_exact ops g ch appId msg :
  ofold step ops NewGroupedSinks = Returns g -> (forall key n, 0 < n -> Intn ch key n < n) ->
  exists g' hit picked,
    Broadcast ch appId msg g = Returns g' /\ apps g' = apps g /\ firehoses g' = firehoses g /\
    NoDup hit /\ NoDup picked.*1 /\
    (forall key, is_Some (firehoses g !! key) <-> key ∈ picked.*1) /\
    (forall key wr, (key, wr) ∈ picked -> exists id, registered g (true, key, id) = Some wr) /\
    (forall i, i ∈ hit <-> (exists id wr, registered g (false, appId, id) = Some wr /\ InputChan wr = i)
                        \/ (exists key wr, (key, wr) ∈ picked /\ InputChan wr = i)) /\
    (forall i, chans (store g') !! i =
       if decide (i ∈ hit) then push msg <$> chans (store g) !! i else chans (store g) !! i) /\
    batched (store g') = batched (store g) ++
      replicate (length (filter (is_full (store g)) hit)) "sinks.dropped"%string.
Proof.
  intros Hr HI. destruct (run_Inv ops) as (g0 & E & Hg). rewrite Hr in E. injection E as <-.
  destruct (offers_exact msg (targets ch appId g) (store g)) as (w & Ew & Hw & Hb).
  { by apply targets_NoDup. } { intros i Hi. by eapply targets_open. }
  exists (set_store g w), (targets ch appId g), (picks ch g).
  rewrite Broadcast_offers, Ew. split_and!; try done.
  - by apply targets_NoDup.
  - apply picks_keys.
  - intros key. split.
    + intros [x Hx]. destruct (picks_total ch g key x Hg HI Hx) as [wr Hin].
      apply list_elem_of_fmap. by exists (key, wr).
    + intros ([k wr] & -> & Hin)%list_elem_of_fmap. destruct (picks_elem _ _ _ _ Hin) as (x & _ & Hx & _). eauto.
  - intros key wr Hin. destruct (picks_elem _ _ _ _ Hin) as (x & id & Hx & Hid & _).
    exists id. simpl. by rewrite Hx.
  - intros i. unfold targets. rewrite elem_of_app. f_equiv.
    + destruct (apps g !! appId) as [x|] eqn:E; simpl.
      * rewrite list_elem_of_fmap. setoid_rewrite list_elem_of_fmap. rewrite E. split.
        -- intros (wr & -> & ([id wr'] & -> & H%range_elem)). eauto.
        -- intros (id & wr & Hid & <-). exists wr. split; [done|]. exists (id, wr). split; [done|]. by apply range_elem.
      * rewrite E. split; [set_solver|]. by intros (? & ? & ? & ?).
    + rewrite list_elem_of_fmap. setoid_rewrite list_elem_of_fmap. split.
      * intros (wr & -> & ([k wr'] & -> & H)). eauto.
      * intros (k & wr & Hin & <-). exists wr. split; [done|]. by exists (k, wr).
Qed.

(** Shutdown closes everything.  From every reachable state [DeleteAll] returns with an
    empty registry and every channel that was registered closed, so that every sink
    goroutine comes to the end of its input. *)
Theorem grouped_sinks_delete_all ops g ch :
  ofold step ops NewGroupedSinks = Returns g ->
  exists g', DeleteAll ch g = Returns g' /\ apps g' = ∅ /\ firehoses g' = ∅ /\
    forall p wr, registered g p = Some wr -> status (store g') (InputChan wr) = Some true.
Proof.
  intros Hr. destruct (run_Inv ops) as (g0 & E & Hg). rewrite Hr in E. injection E as <-.
  destruct (DeleteAll_returns ch g Hg) as (g' & -> & _ & Ha & Hf & Hc). eauto 10.
Qed.

(** ** A concrete registry *)

Module Registry_example.

Definition dump_a : Sink := SDump 0 "a".
Definition drain_a : Sink := SSyslog 1 "a" (mkURL "syslog" "h:514" "/x" "").
Definition fire_1 : Sink := SWebsocket 2 "sub" "10.0.0.1:99".
Definition fire_2 : Sink := SWebsocket 3 "sub" "10.0.0.2:99".

Definition runtime : choices :=
  mkChoices default_order default_order default_order (fun _ n => n - 1).

Definition ops : list op :=
  [OpRegister dump_a 1; OpRegister drain_a 2; OpRegister dump_a 1; OpRegisterFirehose fire_1 2;
   OpRegisterFirehose fire_2 2; OpBroadcast runtime "a" (V1.empty_envelope ∅);
   OpBroadcast runtime "a" (V1.empty_envelope ∅); OpConsume 0 1; OpClose drain_a; OpClose drain_a].

Definition state : GroupedSinks :=
  match ofold step ops NewGroupedSinks with Returns g => g | Panics _ => NewGroupedSinks end.

Example state_counts :
  CountFor "a" state = 1 /\ batched (store state) = ["sinks.dropped"%string] /\
  DumpFor "a" state = Some dump_a /\ IsFirehoseRegistered fire_2 state = true.
Proof. by vm_compute. Qed.

End Registry_example.

Lemma grouped_sinks_broadcast_exact_witness :
  exists g' hit picked,
    Broadcast Registry_example.runtime "a" (V1.empty_envelope ∅) Registry_example.state = Returns g' /\
    apps g' = apps Registry_example.state /\ firehoses g' = firehoses Registry_example.state /\
    NoDup hit /\ NoDup picked.*1 /\
    (forall key, is_Some (firehoses Registry_example.state !! key) <-> key ∈ picked.*1) /\
    (forall key wr, (key, wr) ∈ picked ->
       exists id, registered Registry_example.state (true, key, id) = Some wr) /\
    (forall i, i ∈ hit <->
       (exists id wr, registered Registry_example.state (false, "a"%string, id) = Some wr /\ InputChan wr = i)
       \/ (exists key wr, (key, wr) ∈ picked /\ InputChan wr = i)) /\
    (forall i, chans (store g') !! i =
       if decide (i ∈ hit)
       then push (V1.empty_envelope ∅) <$> chans (store Registry_example.state) !! i
       else chans (store Registry_example.state) !! i) /\
    batched (store g') = batched (store Registry_example.state) ++
      replicate (length (filter (is_full (store Registry_example.state)) hit)) "sinks.dropped"%string.
Proof.
  apply (grouped_sinks_broadcast_exact Registry_example.ops).
  - vm_compute. reflexivity.
  - intros key n Hn. simpl. lia.
Defined.

Lemma grouped_sinks_delete_all_witness :
  exists g', DeleteAll Registry_example.runtime Registry_example.state = Returns g' /\
    apps g' = ∅ /\ firehoses g' = ∅ /\
    forall p wr, registered Registry_example.state p = Some wr ->
      status (store g') (InputChan wr) = Some true.
Proof. apply (grouped_sinks_delete_all Registry_example.ops). vm_compute. reflexivity. Defined.
