(* ===== verification/Blacklist.v ===== *)
(** * doppler/internal/iprange and sinkserver/blacklist

    The check a syslog drain URL passes before the sink manager dials it.  [net.ParseIP] is
    modelled for dotted IPv4; its IPv6 half, [url.Parse] and the resolver are parameters. *)

From Stdlib Require Import Ascii DecimalString.
From S2P Require Import Prelude Go SyslogWriter.
Local Open Scope Z_scope.

Record IPRange : Type := mkRange { Start : string; End_ : string }.

(** [bytes.Compare], on byte slices. *)
Fixpoint Compare (a b : list Z) : comparison :=
  match a, b with
  | [], [] => Eq
  | [], _ :: _ => Lt
  | _ :: _, [] => Gt
  | x :: a, y :: b => match x ?= y with Eq => Compare a b | c => c end
  end.

(** The bytes of [net.IPv4(a, b, c, d)]: sixteen, with the v4-in-v6 prefix. *)
Definition IPv4 (a b c d : Z) : list Z := replicate 10 0 ++ [255; 255; a; b; c; d].

(** One decimal field of a dotted address. *)
Definition octet (s : string) : option Z :=
  if Str.empty s then None
  else match Strconv.all_digits s with
       | Some n => if bool_decide (n <= 255) then Some n else None
       | None => None
       end.

Definition parseIPv4 (s : string) : option (list Z) :=
  match octet <$> Str.Split s "." with
  | [Some a; Some b; Some c; Some d] => Some (IPv4 a b c d)
  | _ => None
  end.

Section Net.
(** [net]'s IPv6 parser, its resolver, and [url.Parse]. *)
Context (parseIPv6 : string -> option (list Z)).
Context (ResolveIPAddr : string -> result string).
Context (url_Parse : string -> result URL).

(** [net.ParseIP]: the first dot or colon decides the family. *)
Fixpoint ParseIP_from (whole s : string) : option (list Z) :=
  match s with
  | EmptyString => None
  | String c s =>
      if ascii_dec c "." then parseIPv4 whole
      else if ascii_dec c ":" then parseIPv6 whole
      else ParseIP_from whole s
  end.

Definition ParseIP (s : string) : option (list Z) := ParseIP_from s s.

(** ** ip_range.go *)

Fixpoint ValidateIpAddresses (ranges : list IPRange) : option string :=
  match ranges with
  | [] => None
  | r :: ranges =>
      match ParseIP (Start r), ParseIP (End_ r) with
      | None, _ => Some ("Invalid IP Address for Blacklist IP Range: " +:+ Start r)
      | _, None => Some ("Invalid IP Address for Blacklist IP Range: " +:+ End_ r)
      | Some startIP, Some endIP =>
          match Compare startIP endIP with
          | Gt => Some ("Invalid Blacklist IP Range: Start " +:+ Start r +:+
                        " has to be before End " +:+ End_ r)
          | _ => ValidateIpAddresses ranges
          end
      end
  end.

Inductive check_error : Type :=
| ResolutionFailure (msg : string)
| OtherError (msg : string).

(** A nil address compares as the empty slice. *)
Definition bytes_of (ip : option (list Z)) : list Z := default [] ip.

Definition in_range (ipAddress : list Z) (r : IPRange) : bool :=
  match Compare ipAddress (bytes_of (ParseIP (Start r))) with
  | Lt => false
  | _ => match Compare ipAddress (bytes_of (ParseIP (End_ r))) with Gt => false | _ => true end
  end.

(** The text of the first error leaves out the URL's printed form. *)
Definition IpOutsideOfRanges (testURL : URL) (ranges : list IPRange) : bool + check_error :=
  if Str.empty (url_Host testURL)
  then inr (OtherError "Incomplete URL. This could be caused by an URL without slashes or protocol.")
  else
    let host := default EmptyString (head (Str.Split (url_Host testURL) ":")) in
    let ipAddress :=
      match ParseIP host with
      | Some ip => inl (Some ip)
      | None =>
          match ResolveIPAddr host with
          | Err e => inr (ResolutionFailure e)
          | Ok addr => inl (ParseIP addr)
          end
      end in
    match ipAddress with
    | inr e => inr e
    | inl ip => inl (negb (existsb (in_range (bytes_of ip)) ranges))
    end.

(** ** url_blacklist_manager.go *)

Definition CheckUrl (blacklistIPs : list IPRange) (rawUrl : string) : result URL :=
  match url_Parse rawUrl with
  | Err e => Err e
  | Ok outputURL =>
      match IpOutsideOfRanges outputURL blacklistIPs with
      | inr (OtherError e) => Err e
      | inr (ResolutionFailure _) => Ok outputURL
      | inl ipNotBlacklisted =>
          if negb ipNotBlacklisted then Err "Syslog Drain URL is blacklisted" else Ok outputURL
      end
  end.

(** ** Byte order is numeric order *)

Fixpoint value (l : list Z) : Z :=
  match l with [] => 0 | x :: l => x * 256 ^ Z.of_nat (length l) + value l end.

Definition bytes_ok (l : list Z) : Prop := Forall (fun x => 0 <= x < 256) l.

Lemma value_bounds l : bytes_ok l -> 0 <= value l < 256 ^ Z.of_nat (length l).
Proof.
  induction 1 as [|x l Hx Hl IH]; simpl; [done|].
  rewrite Nat2Z.inj_succ, Z.pow_succ_r by lia. nia.
Qed.

Lemma Compare_value a b :
  bytes_ok a -> bytes_ok b -> length a = length b -> Compare a b = (value a ?= value b).
Proof.
  intros Ha. revert b. induction Ha as [|x a Hx Ha IH]; intros [|y b] Hb Hl; simpl in *; try lia; [done|].
  inversion_clear Hb as [|? ? Hy Hb']. injection Hl as Hl.
  pose proof (value_bounds a Ha) as Va. pose proof (value_bounds b Hb') as Vb.
  rewrite <- Hl in *. set (p := 256 ^ Z.of_nat (length a)) in *.
  destruct (Z.compare_spec x y) as [->|Hlt|Hgt].
  - rewrite IH by done. destruct (Z.compare_spec (value a) (value b)) as [E|E|E];
      destruct (Z.compare_spec (y * p + value a) (y * p + value b)); lia || done.
  - symmetry. apply Z.compare_lt_iff. nia.
  - symmetry. apply Z.compare_gt_iff. nia.
Qed.

Lemma octet_bounds s n : octet s = Some n -> 0 <= n < 256.
Proof.
  unfold octet, Strconv.all_digits. break. intros. destruct (NilEmpty.uint_of_string s); simplify_eq/=.
  case_bool_decide; [|done]. simplify_eq. split; [|lia].
  unfold Z.of_uint. lia.
Qed.

Lemma parseIPv4_ok s ip : parseIPv4 s = Some ip -> bytes_ok ip /\ length ip = 16%nat.
Proof.
  unfold parseIPv4. destruct (Str.Split s ".") as [|a [|b [|c [|d [|]]]]]; simpl; try by repeat case_match.
  destruct (octet a) eqn:Ea, (octet b) eqn:Eb, (octet c) eqn:Ec, (octet d) eqn:Ed; try done.
  intros [= <-]. split; [|done]. unfold bytes_ok, IPv4. apply octet_bounds in Ea, Eb, Ec, Ed.
  repeat constructor; lia.
Qed.

(** The documentation of [net.ParseIP]: a valid address is sixteen bytes. *)
Definition sixteen_bytes : Prop :=
  forall s ip, parseIPv6 s = Some ip -> bytes_ok ip /\ length ip = 16%nat.

Lemma ParseIP_ok s ip : sixteen_bytes -> ParseIP s = Some ip -> bytes_ok ip /\ length ip = 16%nat.
Proof.
  intros H6. unfold ParseIP. generalize s at 2 as r. induction r as [|c r IH]; simpl; [done|].
  repeat case_match; eauto using parseIPv4_ok.
Qed.

Definition numeric_in_range (ip : list Z) (r : IPRange) : bool :=
  match ParseIP (Start r), ParseIP (End_ r) with
  | Some a, Some b => bool_decide (value a <= value ip <= value b)
  | _, _ => false
  end.

Lemma in_range_numeric ip r :
  sixteen_bytes -> bytes_ok ip -> length ip = 16%nat ->
  is_Some (ParseIP (Start r)) -> is_Some (ParseIP (End_ r)) ->
  in_range ip r = numeric_in_range ip r.
Proof.
  intros H6 Hip Hl [a Ha] [b Hb]. unfold in_range, numeric_in_range. rewrite Ha, Hb. simpl.
  destruct (ParseIP_ok _ _ H6 Ha) as [Oa La]. destruct (ParseIP_ok _ _ H6 Hb) as [Ob Lb].
  rewrite !Compare_value by (done || congruence).
  destruct (Z.compare_spec (value ip) (value a)); [..|];
    destruct (Z.compare_spec (value ip) (value b)); symmetry;
    (apply bool_decide_eq_true_2 || apply bool_decide_eq_false_2); lia.
Qed.

Lemma Validate_parses ranges r :
  ValidateIpAddresses ranges = None -> r ∈ ranges ->
  is_Some (ParseIP (Start r)) /\ is_Some (ParseIP (End_ r)).
Proof.
  induction ranges as [|q ranges IH]; simpl; [set_solver|].
  destruct (ParseIP (Start q)) eqn:E1, (ParseIP (End_ q)) eqn:E2; try done.
  intros H [->|Hin]%elem_of_cons; [rewrite E1, E2; eauto|].
  apply IH; [|done]. by case_match.
Qed.

End Net.

(** The blacklist is a set of numeric intervals.  With a configuration that passed
    [ValidateIpAddresses], a drain whose host is a literal address is refused exactly when
    the address, as a number, lies between the two ends of one of the ranges, whatever the
    port; otherwise the parsed URL is returned. *)
Theorem blacklist_is_numeric_ranges p6 resolve parse ranges raw url ip port :
  sixteen_bytes p6 -> ValidateIpAddresses p6 ranges = None ->
  parse raw = Ok url -> Str.Split (url_Host url) ":" = ip :: port ->
  Str.empty (url_Host url) = false -> forall addr, ParseIP p6 ip = Some addr ->
  CheckUrl p6 resolve parse ranges raw =
    if existsb (numeric_in_range p6 addr) ranges
    then Err "Syslog Drain URL is blacklisted" else Ok url.
Proof.
  intros H6 Hv Hp Hs Hne addr Ha. unfold CheckUrl, IpOutsideOfRanges. rewrite Hp, Hne, Hs. simpl.
  rewrite Ha. simpl. destruct (ParseIP_ok _ _ _ H6 Ha) as [Oa La].
  assert (existsb (in_range p6 addr) ranges = existsb (numeric_in_range p6 addr) ranges) as ->.
  { assert (forall r, r ∈ ranges -> in_range p6 addr r = numeric_in_range p6 addr r) as He.
    { intros r Hin. destruct (Validate_parses _ _ _ Hv Hin). by apply in_range_numeric. }
    clear Hv. induction ranges as [|r ranges IH]; simpl; [done|].
    rewrite He by set_solver. f_equal. apply IH. set_solver. }
  by rewrite negb_involutive.
Qed.

Lemma blacklist_is_numeric_ranges_witness :
  CheckUrl (fun _ => None) (fun _ => Err "no resolver") (fun _ => Ok (mkURL "syslog" "10.0.1.7:514" "" ""))
    [mkRange "10.0.0.9" "10.0.2.1"] "syslog://10.0.1.7:514" = Err "Syslog Drain URL is blacklisted".
Proof.
  rewrite (blacklist_is_numeric_ranges (fun _ => None) _ _ _ _ (mkURL "syslog" "10.0.1.7:514" "" "")
    "10.0.1.7" ["514"%string]) with (addr := IPv4 10 0 1 7);
    [reflexivity|done|reflexivity|reflexivity|reflexivity|reflexivity|reflexivity].
Defined.

Lemma bracket_not_digits r : octet (String "[" r) = None.
Proof. unfold octet, Strconv.all_digits. simpl. by destruct (NilEmpty.uint_of_string r). Qed.

Lemma Split_head s c : exists w ws, Str.Split s c = w :: ws.
Proof. destruct (Str.Split s c) as [|w ws] eqn:E; [by apply Str.Split_nonempty in E|eauto]. Qed.

Lemma parseIPv4_bracket r : parseIPv4 (String "[" r) = None.
Proof.
  unfold parseIPv4. simpl. destruct (Split_head r ".") as (w & ws & ->). simpl.
  rewrite bracket_not_digits. done.
Qed.

Lemma ParseIP_from_no_colon p6 whole s :
  Str.IndexOf s ":" = None -> parseIPv4 whole = None -> ParseIP_from p6 whole s = None.
Proof.
  intros Hc H4. induction s as [|c s IH]; simpl in *; [done|].
  destruct (ascii_dec c ":"); [done|]. destruct (Str.IndexOf s ":"); [done|].
  destruct (ascii_dec c "."); auto.
Qed.

Lemma Split_first_no_sep s c w ws : Str.Split s c = w :: ws -> Str.IndexOf w c = None.
Proof.
  revert w ws. induction s as [|a s IH]; intros w ws; simpl; [by intros [= <- _]|].
  destruct (ascii_dec a c) as [->|Hne]; [by intros [= <- _]|].
  destruct (Split_head s c) as (v & vs & E). rewrite E. intros [= <- _]. simpl.
  destruct (ascii_dec a c); [done|]. by rewrite (IH _ _ E).
Qed.

(** An IPv6 literal is never checked against the ranges.  The host of such a URL starts
    with a bracket, splitting it at the first colon leaves no address, the resolver cannot
    resolve the remainder, and a resolution failure counts as allowed: whatever the
    configured ranges, the URL is accepted. *)
Theorem blacklist_skips_ipv6_literals p6 resolve parse ranges raw url r :
  (forall s, is_ok (resolve (String "[" s)) = false) ->
  parse raw = Ok url -> url_Host url = String "[" r ->
  CheckUrl p6 resolve parse ranges raw = Ok url.
Proof.
  intros Hres Hp Hh. unfold CheckUrl, IpOutsideOfRanges. rewrite Hp, Hh. cbn [Str.empty].
  assert (exists w ws, Str.Split (String "[" r) ":" = String "[" w :: ws) as (w & ws & E).
  { simpl. destruct (Split_head r ":") as (w & ws & ->). eauto. }
  rewrite E. simpl. unfold ParseIP.
  rewrite ParseIP_from_no_colon; [|by eapply Split_first_no_sep|apply parseIPv4_bracket].
  specialize (Hres w). by destruct (resolve (String "[" w)).
Qed.

Lemma blacklist_skips_ipv6_literals_witness :
  CheckUrl (fun _ => Some (replicate 16 0)) (fun _ => Err "no such host")
    (fun _ => Ok (mkURL "syslog" "[::1]:514" "" "")) [mkRange "::" "ffff::"] "syslog://[::1]:514" =
  Ok (mkURL "syslog" "[::1]:514" "" "").
Proof.
  apply (blacklist_skips_ipv6_literals _ _ _ _ _ _ "::1]:514"); reflexivity.
Defined.
