(* ===== verification/SinkManager.v ===== *)
(** * doppler/internal/sinkserver: the sink manager

    [SinkManager] owns the sink registry, the per-kind gauges and the channel of drain
    errors; it starts one goroutine per registered sink, which unregisters the sink when
    the sink's [Run] returns.  An execution is a sequence of calls, of those returns, and of
    iterations of the three listening loops of [Start]. *)

From S2P Require Import Prelude Go Events Sinks SyslogWriter StreamingSinks GroupedSinks Blacklist.

(** ** sinkserver/metrics/sink_manager_metrics.go *)

Module Metrics.
Local Open Scope Z_scope.

Record SinkManagerMetrics : Type := mkMetrics {
  dumpSinks : Z; websocketSinks : Z; syslogSinks : Z; firehoseSinks : Z; containerMetrics : Z;
  done : bool
}.

Definition NewSinkManagerMetrics : SinkManagerMetrics := mkMetrics 0 0 0 0 0 false.

(** [atomic.AddInt32(&field, d)] on the field of the sink's type. *)
Definition add (m : SinkManagerMetrics) (s : Sink) (d : Z) : SinkManagerMetrics :=
  let '(mkMetrics du ws sy fi cm dn) := m in
  match s with
  | SDump _ _ => mkMetrics (Words.int32 (du + d)) ws sy fi cm dn
  | SSyslog _ _ _ => mkMetrics du ws (Words.int32 (sy + d)) fi cm dn
  | SWebsocket _ _ _ => mkMetrics du (Words.int32 (ws + d)) sy fi cm dn
  | SContainerMetric _ _ => mkMetrics du ws sy fi (Words.int32 (cm + d)) dn
  end.

Definition Inc (m : SinkManagerMetrics) (s : Sink) : SinkManagerMetrics := add m s 1.
Definition Dec (m : SinkManagerMetrics) (s : Sink) : SinkManagerMetrics := add m s (-1).

Definition addFirehose (m : SinkManagerMetrics) (d : Z) : SinkManagerMetrics :=
  let '(mkMetrics du ws sy fi cm dn) := m in mkMetrics du ws sy (Words.int32 (fi + d)) cm dn.

Definition IncFirehose (m : SinkManagerMetrics) : SinkManagerMetrics := addFirehose m 1.
Definition DecFirehose (m : SinkManagerMetrics) : SinkManagerMetrics := addFirehose m (-1).

Definition Stop (m : SinkManagerMetrics) : outcome SinkManagerMetrics :=
  let '(mkMetrics du ws sy fi cm dn) := m in
  if dn then Panics "close of closed channel" else Returns (mkMetrics du ws sy fi cm true).

(** One tick of [run]: the gauges sent, unless stopped. *)
Definition run_tick (m : SinkManagerMetrics) : list (string * Z) :=
  if done m then [] else
  [("messageRouter.numberOfDumpSinks"%string, dumpSinks m);
   ("messageRouter.numberOfWebsocketSinks"%string, websocketSinks m);
   ("messageRouter.numberOfSyslogSinks"%string, syslogSinks m);
   ("messageRouter.numberOfFirehoseSinks"%string, firehoseSinks m);
   ("messageRouter.numberOfContainerMetricSinks"%string, containerMetrics m)].

End Metrics.

(** ** sink_manager.go *)

Record AppService : Type := mkAppService { as_AppId : string; as_Url : string; as_Hostname : string }.

(** A goroutine started by a registration: the sink it runs, and for which registry. *)
Record goroutine : Type := mkGoroutine { g_sink : Sink; g_firehose : bool; g_input : nat }.

Record SinkManager : Type := mkManager {
  sinks : GroupedSinks;
  metrics : Metrics.SinkManagerMetrics;
  errorChannel : Chan.t V1.Envelope;
  stopped : bool;
  goroutines : list goroutine;
  disconnected : list nat;
  next_ref : nat
}.

Definition New : SinkManager :=
  mkManager NewGroupedSinks Metrics.NewSinkManagerMetrics (Chan.make V1.Envelope 100) false [] [] 0.

Definition set_sinks (sm : SinkManager) (g : GroupedSinks) : SinkManager :=
  mkManager g (metrics sm) (errorChannel sm) (stopped sm) (goroutines sm) (disconnected sm) (next_ref sm).

Definition set_metrics (sm : SinkManager) (m : Metrics.SinkManagerMetrics) : SinkManager :=
  mkManager (sinks sm) m (errorChannel sm) (stopped sm) (goroutines sm) (disconnected sm) (next_ref sm).

Definition set_errors (sm : SinkManager) (c : Chan.t V1.Envelope) : SinkManager :=
  mkManager (sinks sm) (metrics sm) c (stopped sm) (goroutines sm) (disconnected sm) (next_ref sm).

Definition spawn (sm : SinkManager) (r : goroutine) : SinkManager :=
  mkManager (sinks sm) (metrics sm) (errorChannel sm) (stopped sm) (goroutines sm ++ [r])
    (disconnected sm) (next_ref sm).

(** The identity of a sink about to be built. *)
Definition new_ref (sm : SinkManager) : nat * SinkManager :=
  (next_ref sm, mkManager (sinks sm) (metrics sm) (errorChannel sm) (stopped sm) (goroutines sm)
     (disconnected sm) (S (next_ref sm))).

(** [syslogSink.Disconnect()] when the sink is one. *)
Definition disconnect (sm : SinkManager) (s : Sink) : SinkManager :=
  match s with
  | SSyslog r _ _ => mkManager (sinks sm) (metrics sm) (errorChannel sm) (stopped sm)
                       (goroutines sm) (disconnected sm ++ [r]) (next_ref sm)
  | _ => sm
  end.

Section Manager.

Context (parseIPv6 : string -> option (list Z)) (ResolveIPAddr : string -> result string)
  (url_Parse : string -> result URL).

(** The configuration of [New]. *)
Context (blacklistIPs : list IPRange) (skipCertVerify : bool) (sinkIOTimeout : Z).

(** [factories.NewLogMessage] and [emitter.Wrap] of dropsonde, from the text and the
    application; and [envelope_extensions.GetAppId]. *)
Context (wrap_error : string -> string -> result V1.Envelope) (GetAppId : V1.Envelope -> string).

Definition RegisterSink (s : Sink) (sm : SinkManager) : SinkManager * bool :=
  let '(inputChan, w) := make_chan 128 (store (sinks sm)) in
  let '(g, ok) := RegisterAppSink inputChan s (set_store (sinks sm) w) in
  let sm := set_sinks sm g in
  if negb ok then (sm, false)
  else
    let sm := set_metrics sm (Metrics.Inc (metrics sm) s) in
    (spawn sm (mkGoroutine s false inputChan), true).

Definition UnregisterSink (s : Sink) (sm : SinkManager) : outcome SinkManager :=
  (let! (g, ok) := CloseAndDelete s (sinks sm) in
   let sm := set_sinks sm g in
   Returns (if negb ok then sm
            else disconnect (set_metrics sm (Metrics.Dec (metrics sm) s)) s))%go.

Definition RegisterFirehose (s : Sink) (sm : SinkManager) : SinkManager * bool :=
  let '(inputChan, w) := make_chan 128 (store (sinks sm)) in
  let '(g, ok) := RegisterFirehoseSink inputChan s (set_store (sinks sm) w) in
  let sm := set_sinks sm g in
  if negb ok then (sm, false)
  else
    let sm := set_metrics sm (Metrics.IncFirehose (metrics sm)) in
    (spawn sm (mkGoroutine s true inputChan), true).

Definition UnregisterFirehoseSink (s : Sink) (sm : SinkManager) : outcome SinkManager :=
  (let! (g, ok) := CloseAndDeleteFirehose s (sinks sm) in
   let sm := set_sinks sm g in
   Returns (if negb ok then sm else set_metrics sm (Metrics.DecFirehose (metrics sm))))%go.

(** The [i]-th goroutine's [sink.Run] returns: the sink is unregistered. *)
Definition sink_returns (i : nat) (sm : SinkManager) : outcome SinkManager :=
  match goroutines sm !! i with
  | None => Returns sm
  | Some r =>
      let sm := mkManager (sinks sm) (metrics sm) (errorChannel sm) (stopped sm)
                  (delete i (goroutines sm)) (disconnected sm) (next_ref sm) in
      if g_firehose r then UnregisterFirehoseSink (g_sink r) sm else UnregisterSink (g_sink r) sm
  end.

Definition ensureRecentLogsSinkFor (appId : string) (sm : SinkManager) : SinkManager :=
  match DumpFor appId (sinks sm) with
  | Some _ => sm
  | None => let '(r, sm) := new_ref sm in fst (RegisterSink (SDump r appId) sm)
  end.

Definition ensureContainerMetricsSinkFor (appId : string) (sm : SinkManager) : SinkManager :=
  match ContainerMetricsFor appId (sinks sm) with
  | Some _ => sm
  | None => let '(r, sm) := new_ref sm in fst (RegisterSink (SContainerMetric r appId) sm)
  end.

Definition SendTo (ch : choices) (appID : string) (msg : V1.Envelope) (sm : SinkManager)
  : outcome SinkManager :=
  let sm := ensureRecentLogsSinkFor appID sm in
  let sm := ensureContainerMetricsSinkFor appID sm in
  (let! g := Broadcast ch appID msg (sinks sm) in Returns (set_sinks sm g))%go.

(** [RecentLogsFor] and [LatestContainerMetrics], from the contents of the sinks by identity. *)
Definition RecentLogsFor (dumps : gmap nat Sinks.Dump.DumpSink) (appId : string) (sm : SinkManager)
  : outcome (list V1.Envelope) :=
  match DumpFor appId (sinks sm) with
  | Some (SDump r _) =>
      match dumps !! r with Some d => Sinks.Dump.Dump d | None => Panics "no such sink" end
  | _ => Returns []
  end.

Definition LatestContainerMetrics (caches : gmap nat Sinks.ContainerMetric.ContainerMetricSink)
  (ord : RangeOrder Z) (now : Z) (appId : string) (sm : SinkManager)
  : outcome (gmap nat Sinks.ContainerMetric.ContainerMetricSink * list V1.Envelope) :=
  match ContainerMetricsFor appId (sinks sm) with
  | Some (SContainerMetric r _) =>
      match caches !! r with
      | Some c =>
          let '(c, l) := Sinks.ContainerMetric.GetLatest ord now c in Returns (<[r := c]> caches, l)
      | None => Panics "no such sink"
      end
  | _ => Returns (caches, [])
  end.

(** [SendSyslogErrorToLoggregator]: a blocking send; [None] is the caller blocked. *)
Definition SendSyslogErrorToLoggregator (errorMsg appId : string) (sm : SinkManager)
  : option SinkManager :=
  match wrap_error errorMsg appId with
  | Err _ => Some sm
  | Ok envelope =>
      match Chan.try_send (errorChannel sm) envelope with
      | Chan.Sent c => Some (set_errors sm c)
      | _ => None
      end
  end.

Definition invalidSyslogURLErrorMsg (appId syslogSinkURL err : string) : string :=
  "SinkManager: Invalid syslog drain URL (" +:+ syslogSinkURL +:+ ") for application " +:+ appId +:+
  ". Err: " +:+ err.

Definition registerNewSyslogSink (appId syslogSinkURL hostname : string) (sm : SinkManager)
  : option SinkManager :=
  match CheckUrl parseIPv6 ResolveIPAddr url_Parse blacklistIPs syslogSinkURL with
  | Err err =>
      SendSyslogErrorToLoggregator (invalidSyslogURLErrorMsg appId syslogSinkURL err) appId sm
  | Ok url =>
      match NewWriter url appId hostname skipCertVerify sinkIOTimeout with
      | Err err =>
          let logURL := Scheme url +:+ "://" +:+ url_Host url +:+ Path url in
          SendSyslogErrorToLoggregator (invalidSyslogURLErrorMsg appId logURL err) appId sm
      | Ok _ =>
          let '(r, sm) := new_ref sm in Some (fst (RegisterSink (SSyslog r appId url) sm))
      end
  end.

(** One receive of [listenForNewAppServices]; [None] is the nil service of a closed channel. *)
Definition newAppService (a : option AppService) (sm : SinkManager) : outcome (option SinkManager) :=
  match a with
  | None => Panics "nil pointer dereference"
  | Some a => Returns (registerNewSyslogSink (as_AppId a) (as_Url a) (as_Hostname a) sm)
  end.

(** One receive of [listenForDeletedAppServices]. *)
Definition deletedAppService (a : option AppService) (sm : SinkManager) : outcome SinkManager :=
  match a with
  | None => Panics "nil pointer dereference"
  | Some a =>
      match DrainFor (as_AppId a) (as_Url a) (sinks sm) with
      | Some syslogSink => UnregisterSink syslogSink sm
      | None => Returns sm
      end
  end.

(** One iteration of [listenForErrorMessages]. *)
Definition errorMessage (ch : choices) (sm : SinkManager) : outcome SinkManager :=
  match Chan.try_recv (errorChannel sm) with
  | Chan.Received m c =>
      (let! g := BroadcastError ch (GetAppId m) m (sinks sm) in
       Returns (set_errors (set_sinks sm g) c))%go
  | _ => Returns sm
  end.

Definition Stop (ch : choices) (sm : SinkManager) : outcome SinkManager :=
  if stopped sm then Returns sm
  else
    (let! m := Metrics.Stop (metrics sm) in
     let! g := DeleteAll ch (sinks sm) in
     Returns (mkManager g m (errorChannel sm) true (goroutines sm) (disconnected sm) (next_ref sm)))%go.

(** ** message_router.go *)

(** One iteration of [MessageRouter.Start] with the sink manager as its sender. *)
Definition route (ch : choices) (envelope : V1.Envelope) (sm : SinkManager) : outcome SinkManager :=
  SendTo ch (GetAppId envelope) envelope sm.

(** ** Executions *)

Inductive event : Type :=
| EvEnvelope (ch : choices) (envelope : V1.Envelope)
| EvRegister (s : Sink)
| EvUnregister (s : Sink)
| EvRegisterFirehose (s : Sink)
| EvUnregisterFirehose (s : Sink)
| EvSinkReturns (i : nat)
| EvNewService (a : AppService)
| EvDeletedService (a : AppService)
| EvErrorMessage (ch : choices)
| EvSinkReads (ch n : nat).

(** One event of a manager that has not been stopped; a blocked caller waits, unchanged. *)
Definition step (sm : SinkManager) (e : event) : outcome SinkManager :=
  match e with
  | EvEnvelope ch env => route ch env sm
  | EvRegister s => Returns (fst (RegisterSink s sm))
  | EvUnregister s => UnregisterSink s sm
  | EvRegisterFirehose s => Returns (fst (RegisterFirehose s sm))
  | EvUnregisterFirehose s => UnregisterFirehoseSink s sm
  | EvSinkReturns i => sink_returns i sm
  | EvNewService a =>
      match newAppService (Some a) sm with
      | Returns o => Returns (default sm o)
      | Panics w => Panics w
      end
  | EvDeletedService a => deletedAppService (Some a) sm
  | EvErrorMessage ch => errorMessage ch sm
  | EvSinkReads ch n => Returns (set_sinks sm (set_store (sinks sm) (consume_chan ch n (store (sinks sm)))))
  end.

(** ** Invariant *)

(** The sinks of a registry as one map from (key, identifier). *)
Definition flat (fh : bool) (g : GroupedSinks) : gmap (string * string) SinkWrapper :=
  map_uncurry (AppGroup.wrappers <$> groups fh g).

Lemma flat_lookup fh g k i : flat fh g !! (k, i) = registered g (fh, k, i).
Proof.
  unfold flat, registered. rewrite lookup_map_uncurry, lookup_fmap. by destruct (groups fh g !! k).
Qed.

Definition app_gauges (m : Metrics.SinkManagerMetrics) : Z :=
  (Metrics.dumpSinks m + Metrics.websocketSinks m + Metrics.syslogSinks m + Metrics.containerMetrics m)%Z.

Record SMInv (sm : SinkManager) : Prop := mkSMInv {
  sm_registry : GroupedSinks.Inv (sinks sm);
  sm_gauges : Words.wrap 32 (app_gauges (metrics sm)) =
              Words.wrap 32 (Z.of_nat (size (flat false (sinks sm))));
  sm_firehose : Words.wrap 32 (Metrics.firehoseSinks (metrics sm)) =
                Words.wrap 32 (Z.of_nat (size (flat true (sinks sm))));
  sm_served : forall fh k i wr, registered (sinks sm) (fh, k, i) = Some wr ->
    mkGoroutine (wrapped wr) fh (InputChan wr) ∈ goroutines sm
}.

Lemma wrap_int32 x y : Words.wrap 32 (Words.int32 x + y) = Words.wrap 32 (x + y).
Proof.
  unfold Words.swrap. case_decide.
  - change (x mod 2 ^ 32)%Z with (Words.wrap 32 x). by rewrite Words.wrap_add_l.
  - unfold Words.wrap. replace (x mod 2 ^ 32 - 2 ^ 32 + y)%Z with (x mod 2 ^ 32 + y + (-1) * 2 ^ 32)%Z by lia.
    rewrite Z_mod_plus_full. apply Zplus_mod_idemp_l.
Qed.

Lemma wrap_add_gauge m s d :
  Words.wrap 32 (app_gauges (Metrics.add m s d)) = Words.wrap 32 (app_gauges m + d).
Proof.
  destruct m as [du ws sy fi cm dn]. unfold app_gauges. destruct s; simpl.
  - replace (Words.int32 (du + d) + ws + sy + cm)%Z with (Words.int32 (du + d) + (ws + sy + cm))%Z by lia.
    rewrite wrap_int32. f_equal. lia.
  - replace (du + ws + sy + Words.int32 (cm + d))%Z with (Words.int32 (cm + d) + (du + ws + sy))%Z by lia.
    rewrite wrap_int32. f_equal. lia.
  - replace (du + ws + Words.int32 (sy + d) + cm)%Z with (Words.int32 (sy + d) + (du + ws + cm))%Z by lia.
    rewrite wrap_int32. f_equal. lia.
  - replace (du + Words.int32 (ws + d) + sy + cm)%Z with (Words.int32 (ws + d) + (du + sy + cm))%Z by lia.
    rewrite wrap_int32. f_equal. lia.
Qed.

Lemma wrap_bump x y d : Words.wrap 32 x = Words.wrap 32 y -> Words.wrap 32 (x + d) = Words.wrap 32 (y + d).
Proof. intros H. rewrite <- (Words.wrap_add_l 32 x), <- (Words.wrap_add_l 32 y) by lia. by rewrite H. Qed.

Lemma flat_insert fh s in_ g fh' :
  registered g (fh, AppID s, Identifier s) = None ->
  size (flat fh' (insert_wrapper fh s in_ g)) = (if decide (fh' = fh) then 1 else 0) + size (flat fh' g).
Proof.
  intros Hn. case_decide as E.
  - subst fh'. replace (flat fh (insert_wrapper fh s in_ g)) with
      (<[(AppID s, Identifier s) := mkWrapper in_ s]> (flat fh g)).
    + rewrite map_size_insert_None; [lia|]. by rewrite flat_lookup.
    + apply map_eq. intros [k i]. rewrite flat_lookup, registered_insert.
      destruct (decide ((k, i) = (AppID s, Identifier s))) as [[= -> ->]|Hne].
      * by rewrite lookup_insert_eq, decide_True.
      * rewrite lookup_insert_ne, decide_False by congruence. apply flat_lookup.
  - simpl. f_equal. apply map_eq. intros [k i]. rewrite !flat_lookup, registered_insert.
    by rewrite decide_False by congruence.
Qed.

Lemma flat_remove fh k i g w wr fh' :
  registered g (fh, k, i) = Some wr ->
  size (flat fh' g) = (if decide (fh' = fh) then 1 else 0) + size (flat fh' (remove_place fh k i g w)).
Proof.
  intros Hr. assert (exists x, groups fh g !! k = Some x) as [x Hx].
  { simpl in Hr. apply bind_Some in Hr as (x & Hx & _). eauto. }
  case_decide as E.
  - subst fh'. replace (flat fh (remove_place fh k i g w)) with (delete (k, i) (flat fh g)).
    + rewrite map_size_delete_Some; [|rewrite flat_lookup; eauto].
      assert (size (flat fh g) <> 0); [|lia]. rewrite map_size_empty_iff. intros E.
      pose proof (flat_lookup fh g k i) as H. rewrite E, Hr, lookup_empty in H. done.
    + apply map_eq. intros [k' i']. rewrite flat_lookup, (registered_remove _ _ _ _ _ _ x Hx).
      destruct (decide ((k', i') = (k, i))) as [[= -> ->]|Hne].
      * by rewrite lookup_delete_eq, decide_True.
      * rewrite lookup_delete_ne, decide_False by congruence. apply flat_lookup.
  - simpl. f_equal. apply map_eq. intros [k' i']. rewrite !flat_lookup, (registered_remove _ _ _ _ _ _ x Hx).
    by rewrite decide_False by congruence.
Qed.

Lemma flat_set_store fh g w : flat fh (set_store g w) = flat fh g.
Proof. by destruct fh. Qed.

(** A step that leaves the registry's maps and the gauges alone. *)
Lemma SMInv_sinks sm g :
  SMInv sm -> GroupedSinks.Inv g -> apps g = apps (sinks sm) -> firehoses g = firehoses (sinks sm) ->
  SMInv (set_sinks sm g).
Proof.
  intros [Hg Hga Hfi Hse] Hg' Ha Hf. destruct g as [a f w]. simpl in *. subst.
  split; [done|exact Hga|exact Hfi|]. intros fh k i wr. simpl. intros H.
  apply (Hse fh k i wr). destruct fh; exact H.
Qed.

Lemma SMInv_bump sm r : SMInv sm -> SMInv (mkManager (sinks sm) (metrics sm) (errorChannel sm)
  (stopped sm) (goroutines sm) (disconnected sm) r).
Proof. by intros []. Qed.

Lemma make_chan_registry n sm :
  SMInv sm -> SMInv (set_sinks sm (set_store (sinks sm) (snd (make_chan n (store (sinks sm)))))).
Proof. intros H. apply SMInv_sinks; [done| |done|done]. by apply make_chan_Inv, H. Qed.

(** Registering inserts one wrapper, bumps a gauge and starts the goroutine. *)
Lemma register_SMInv fh s sm m :
  SMInv sm -> registered (sinks sm) (fh, AppID s, Identifier s) = None ->
  Words.wrap 32 (app_gauges m) =
    Words.wrap 32 (app_gauges (metrics sm) + if fh then 0 else 1) ->
  Words.wrap 32 (Metrics.firehoseSinks m) =
    Words.wrap 32 (Metrics.firehoseSinks (metrics sm) + if fh then 1 else 0) ->
  let '(in_, w) := make_chan 128 (store (sinks sm)) in
  SMInv (spawn (set_metrics (set_sinks sm (insert_wrapper fh s in_ (set_store (sinks sm) w))) m)
           (mkGoroutine s fh in_)).
Proof.
  intros [Hg Hga Hfi Hse] Hn Hm Hf.
  pose proof (insert_Inv fh s 128 (sinks sm) Hg) as HI. simpl in *. set (w := mkWorld _ _ _ _ _) in *.
  assert (Hn' : registered (set_store (sinks sm) w) (fh, AppID s, Identifier s) = None) by by destruct fh.
  assert (forall fh', size (flat fh' (insert_wrapper fh s (next_chan (store (sinks sm))) (set_store (sinks sm) w)))
    = (if decide (fh' = fh) then 1 else 0) + size (flat fh' (sinks sm))) as Hsz.
  { intros fh'. rewrite flat_insert by done. by rewrite flat_set_store. }
  split; simpl.
  - by apply HI.
  - rewrite Hm, Hsz, (wrap_bump _ _ _ Hga). f_equal. destruct fh; simpl; lia.
  - rewrite Hf, Hsz, (wrap_bump _ _ _ Hfi). f_equal. destruct fh; simpl; lia.
  - intros fh' k i wr Hr. change (registered (insert_wrapper fh s (next_chan (store (sinks sm)))
      (set_store (sinks sm) w)) (fh', k, i) = Some wr) in Hr. rewrite registered_insert in Hr.
    apply elem_of_app. case_decide as E; [right; simplify_eq; set_solver|left].
    apply (Hse fh' k i). by destruct fh'.
Qed.

Lemma RegisterSink_SMInv s sm : SMInv sm -> SMInv (fst (RegisterSink s sm)).
Proof.
  intros H. unfold RegisterSink. pose proof (register_SMInv false s sm (Metrics.Inc (metrics sm) s) H) as HR.
  simpl in *. pose proof (make_chan_registry 128 sm H) as Hmc. simpl in Hmc. set (w := mkWorld _ _ _ _ _) in *.
  destruct (RegisterAppSink_cases (next_chan (store (sinks sm))) s (set_store (sinks sm) w))
    as [->|(Hn & _ & _ & ->)]; [exact Hmc|].
  simpl. apply HR; [done|apply wrap_add_gauge|]. destruct (metrics sm), s; simpl; by rewrite Z.add_0_r.
Qed.

Lemma RegisterFirehose_SMInv s sm : SMInv sm -> SMInv (fst (RegisterFirehose s sm)).
Proof.
  intros H. unfold RegisterFirehose. pose proof (register_SMInv true s sm (Metrics.IncFirehose (metrics sm)) H) as HR.
  simpl in *. pose proof (make_chan_registry 128 sm H) as Hmc. simpl in Hmc. set (w := mkWorld _ _ _ _ _) in *.
  destruct (RegisterFirehoseSink_cases (next_chan (store (sinks sm))) s (set_store (sinks sm) w))
    as [->|(Hn & _ & ->)]; [exact Hmc|].
  simpl. apply HR; [done|by rewrite Z.add_0_r; destruct (metrics sm)|].
  destruct (metrics sm). unfold Metrics.IncFirehose, Metrics.addFirehose. simpl.
  rewrite <- (Z.add_0_r (Words.int32 _)), wrap_int32. f_equal. lia.
Qed.

(** The sinks that stay registered keep their goroutine when [l] is what is left of the list. *)
Definition still_served (sm : SinkManager) (fh : bool) (s : Sink) (l : list goroutine) : Prop :=
  forall fh' k i wr, registered (sinks sm) (fh', k, i) = Some wr ->
    (fh', k, i) <> (fh, AppID s, Identifier s) ->
    mkGoroutine (wrapped wr) fh' (InputChan wr) ∈ l.

Lemma still_served_all sm fh s : SMInv sm -> still_served sm fh s (goroutines sm).
Proof. intros H fh' k i wr Hr _. by eapply sm_served. Qed.

Definition with_goroutines (sm : SinkManager) (l : list goroutine) : SinkManager :=
  mkManager (sinks sm) (metrics sm) (errorChannel sm) (stopped sm) l (disconnected sm) (next_ref sm).

Lemma unregister_SMInv fh s sm m l w wr :
  SMInv sm -> still_served sm fh s l ->
  registered (sinks sm) (fh, AppID s, Identifier s) = Some wr ->
  next_chan w = next_chan (store (sinks sm)) ->
  (forall i, status w i = if decide (i = InputChan wr) then Some true else status (store (sinks sm)) i) ->
  Words.wrap 32 (app_gauges m) =
    Words.wrap 32 (app_gauges (metrics sm) + if fh then 0 else -1) ->
  Words.wrap 32 (Metrics.firehoseSinks m) =
    Words.wrap 32 (Metrics.firehoseSinks (metrics sm) + if fh then -1 else 0) ->
  SMInv (mkManager (remove_place fh (AppID s) (Identifier s) (sinks sm) w) m (errorChannel sm)
           (stopped sm) l (disconnected sm) (next_ref sm)).
Proof.
  intros [Hg Hga Hfi Hse] Hl Hr Hnx Hst Hm Hf.
  assert (exists x, groups fh (sinks sm) !! AppID s = Some x /\ AppGroup.wrappers x !! Identifier s = Some wr)
    as (x & Hx & Hid).
  { simpl in Hr. apply bind_Some in Hr as (x & Hx & Hid). eauto. }
  split; cbn [sinks metrics goroutines].
  - by eapply remove_Inv.
  - rewrite Hm, (wrap_bump _ _ _ Hga). f_equal.
    rewrite (flat_remove fh (AppID s) (Identifier s) (sinks sm) w wr false Hr). destruct fh; simpl; lia.
  - rewrite Hf, (wrap_bump _ _ _ Hfi). f_equal.
    rewrite (flat_remove fh (AppID s) (Identifier s) (sinks sm) w wr true Hr). destruct fh; simpl; lia.
  - intros fh' k i wr' Hr'. rewrite (registered_remove _ _ _ _ _ _ x Hx) in Hr'.
    case_decide as E; [done|]. by eapply Hl.
Qed.

Lemma SMInv_goroutines fh s sm l :
  SMInv sm -> still_served sm fh s l ->
  registered (sinks sm) (fh, AppID s, Identifier s) = None -> SMInv (with_goroutines sm l).
Proof.
  intros [Hg Hga Hfi Hse] Hl Hn. split; try done. intros fh' k i wr Hr. apply (Hl fh' k i wr Hr).
  intros [= -> -> ->]. cbn [sinks with_goroutines] in Hr. congruence.
Qed.

Lemma SMInv_disconnect s sm : SMInv sm -> SMInv (disconnect sm s).
Proof. intros []. by destruct s. Qed.

Lemma UnregisterSink_returns s sm l :
  SMInv sm -> still_served sm false s l ->
  exists sm', UnregisterSink s (with_goroutines sm l) = Returns sm' /\ SMInv sm'.
Proof.
  intros H Hl. unfold UnregisterSink. cbn [sinks with_goroutines].
  destruct (CloseAndDelete_returns s (sinks sm)) as [[Hn ->]|(wr & w & Hr & N & Hst & ->)]; [apply H| |].
  - cbn [obind negb]. eexists. split; [done|]. exact (SMInv_goroutines false s sm l H Hl Hn).
  - cbn [obind negb]. eexists. split; [done|]. apply SMInv_disconnect.
    eapply (unregister_SMInv false s sm); [done|done|done|done|done| |].
    + cbn [metrics set_sinks with_goroutines]. apply wrap_add_gauge.
    + cbn [metrics set_sinks with_goroutines]. destruct (metrics sm), s; simpl; by rewrite Z.add_0_r.
Qed.

Lemma UnregisterFirehoseSink_returns s sm l :
  SMInv sm -> still_served sm true s l ->
  exists sm', UnregisterFirehoseSink s (with_goroutines sm l) = Returns sm' /\ SMInv sm'.
Proof.
  intros H Hl. unfold UnregisterFirehoseSink. cbn [sinks with_goroutines].
  destruct (CloseAndDeleteFirehose_returns s (sinks sm)) as [[Hn ->]|(wr & w & Hr & N & Hst & ->)]; [apply H| |].
  - cbn [obind negb]. eexists. split; [done|]. exact (SMInv_goroutines true s sm l H Hl Hn).
  - cbn [obind negb]. eexists. split; [done|].
    eapply (unregister_SMInv true s sm); [done|done|done|done|done| |];
      cbn [metrics set_sinks with_goroutines]; destruct (metrics sm);
      unfold Metrics.DecFirehose, Metrics.addFirehose, app_gauges; simpl.
    + by rewrite Z.add_0_r.
    + rewrite <- (Z.add_0_r (Words.int32 _)), wrap_int32. f_equal. lia.
Qed.

Lemma with_goroutines_id sm : with_goroutines sm (goroutines sm) = sm.
Proof. by destruct sm. Qed.

Lemma sink_returns_returns i sm :
  SMInv sm -> exists sm', sink_returns i sm = Returns sm' /\ SMInv sm'.
Proof.
  intros H. unfold sink_returns. destruct (goroutines sm !! i) as [r|] eqn:E; [|eauto].
  assert (still_served sm (g_firehose r) (g_sink r) (delete i (goroutines sm))) as Hl.
  { intros fh k id wr Hr Hne. eapply ListFacts.elem_of_delete_ne; [done|by eapply sm_served|].
    intros <-. apply Hne. simpl. destruct (inv_key _ (sm_registry sm H) _ _ _ _ Hr) as [-> ->]. done. }
  destruct (g_firehose r).
  - by apply UnregisterFirehoseSink_returns.
  - by apply UnregisterSink_returns.
Qed.

(** The registry steps that only move envelopes. *)
Lemma registry_step sm o g :
  SMInv sm -> GroupedSinks.step (sinks sm) o = Returns g ->
  apps g = apps (sinks sm) -> firehoses g = firehoses (sinks sm) -> SMInv (set_sinks sm g).
Proof.
  intros H E Ha Hf. apply SMInv_sinks; [done| |done|done].
  destruct (step_Inv (sinks sm) o) as (g' & E' & Hg'); [apply H|]. congruence.
Qed.

Lemma Broadcast_same_maps ch app msg g g' :
  Broadcast ch app msg g = Returns g' -> apps g' = apps g /\ firehoses g' = firehoses g.
Proof.
  unfold Broadcast. destruct (match apps g !! app with Some _ => _ | None => _ end); simpl; [|done].
  destruct (broadcastMessageToFirehoses _ _ _ _); simpl; [|done]. by intros [= <-].
Qed.

Lemma BroadcastError_same_maps ch app msg g g' :
  BroadcastError ch app msg g = Returns g' -> apps g' = apps g /\ firehoses g' = firehoses g.
Proof.
  unfold BroadcastError. destruct (match apps g !! app with Some _ => _ | None => _ end); simpl; [|done].
  destruct (broadcastMessageToFirehoses _ _ _ _); simpl; [|done]. by intros [= <-].
Qed.

Lemma ensure_SMInv app sm :
  SMInv sm -> SMInv (ensureContainerMetricsSinkFor app (ensureRecentLogsSinkFor app sm)).
Proof.
  intros H.
  assert (SMInv (ensureRecentLogsSinkFor app sm)) as H1.
  { unfold ensureRecentLogsSinkFor. case_match; [done|]. by apply RegisterSink_SMInv, SMInv_bump. }
  unfold ensureContainerMetricsSinkFor. case_match; [done|]. by apply RegisterSink_SMInv, SMInv_bump.
Qed.

Lemma SendTo_returns ch app msg sm :
  SMInv sm -> exists sm', SendTo ch app msg sm = Returns sm' /\ SMInv sm'.
Proof.
  intros H. unfold SendTo. pose proof (ensure_SMInv app sm H) as H1.
  set (sm1 := ensureContainerMetricsSinkFor _ _) in *.
  destruct (step_Inv (sinks sm1) (OpBroadcast ch app msg)) as (g & E & Hg); [apply H1|].
  simpl in E. rewrite E. simpl. eexists. split; [done|].
  destruct (Broadcast_same_maps _ _ _ _ _ E). by apply SMInv_sinks.
Qed.

Lemma SMInv_errors sm c : SMInv sm -> SMInv (set_errors sm c).
Proof. by intros []. Qed.

Lemma SendSyslogError_SMInv msg app sm sm' :
  SMInv sm -> SendSyslogErrorToLoggregator msg app sm = Some sm' -> SMInv sm'.
Proof.
  intros H. unfold SendSyslogErrorToLoggregator. repeat case_match; try done; intros [= <-]; [|done].
  by apply SMInv_errors.
Qed.

Lemma registerNewSyslogSink_SMInv app url host sm sm' :
  SMInv sm -> registerNewSyslogSink app url host sm = Some sm' -> SMInv sm'.
Proof.
  intros H. unfold registerNewSyslogSink. destruct (CheckUrl _ _ _ _ _); [|eauto using SendSyslogError_SMInv].
  destruct (NewWriter _ _ _ _ _); [|eauto using SendSyslogError_SMInv].
  intros [= <-]. by apply RegisterSink_SMInv, SMInv_bump.
Qed.

Lemma manager_step_SMInv sm e : SMInv sm -> exists sm', step sm e = Returns sm' /\ SMInv sm'.
Proof.
  intros H. destruct e as [ch env|s|s|s|s|i|a|a|ch|c n]; simpl.
  - by apply SendTo_returns.
  - eauto using RegisterSink_SMInv.
  - pose proof (UnregisterSink_returns s sm _ H (still_served_all sm false s H)) as R.
    by rewrite with_goroutines_id in R.
  - eauto using RegisterFirehose_SMInv.
  - pose proof (UnregisterFirehoseSink_returns s sm _ H (still_served_all sm true s H)) as R.
    by rewrite with_goroutines_id in R.
  - by apply sink_returns_returns.
  - eexists. split; [done|]. destruct (registerNewSyslogSink _ _ _ sm) eqn:E; simpl;
      eauto using registerNewSyslogSink_SMInv.
  - destruct (DrainFor _ _ _) as [s|]; [|eauto].
    pose proof (UnregisterSink_returns s sm _ H (still_served_all sm false s H)) as R.
    by rewrite with_goroutines_id in R.
  - unfold errorMessage. destruct (Chan.try_recv (errorChannel sm)) as [m c| |]; eauto.
    destruct (step_Inv (sinks sm) (OpBroadcastError ch (GetAppId m) m)) as (g & E & Hg); [apply H|].
    simpl in E. rewrite E. simpl. eexists. split; [done|].
    destruct (BroadcastError_same_maps _ _ _ _ _ E). by apply SMInv_errors, SMInv_sinks.
  - eexists. split; [done|]. eapply (registry_step sm (OpConsume c n)); done.
Qed.

Lemma New_SMInv : SMInv New.
Proof.
  split; [apply empty_registry_Inv|reflexivity|reflexivity|].
  intros [] k i wr; simpl; by rewrite lookup_empty.
Qed.

Lemma manager_run_SMInv l : exists sm, ofold step l New = Returns sm /\ SMInv sm.
Proof. apply (ofold_returns SMInv); [|apply New_SMInv]. intros. by apply manager_step_SMInv. Qed.

Lemma RegisterSink_fresh s sm :
  Str.empty (AppID s) = false -> Str.empty (Identifier s) = false ->
  registered (sinks sm) (false, AppID s, Identifier s) = None ->
  forall p, registered (sinks (fst (RegisterSink s sm))) p =
    if decide (p = (false, AppID s, Identifier s))
    then Some (mkWrapper (next_chan (store (sinks sm))) s) else registered (sinks sm) p.
Proof.
  intros Ha Hi Hn p. unfold RegisterSink. cbn [make_chan]. set (w := mkWorld _ _ _ _ _).
  destruct (RegisterAppSink_cases (next_chan (store (sinks sm))) s (set_store (sinks sm) w))
    as [R|(_ & _ & _ & ->)].
  - exfalso. revert R. unfold RegisterAppSink, AppGroup.AddSink, AppGroup.exists_. rewrite Ha, Hi.
    cbn [orb apps set_store]. rewrite bool_decide_eq_false_2; [done|].
    unfold registered in Hn. cbn [groups] in Hn.
    destruct (apps (sinks sm) !! AppID s); simpl in *; rewrite ?Hn, ?lookup_empty; apply is_Some_None.
  - cbn [negb fst spawn set_metrics set_sinks sinks]. rewrite registered_insert.
    case_decide; [done|]. by destruct p as [[[] ?] ?].
Qed.

Lemma UnregisterSink_clears s sm :
  GroupedSinks.Inv (sinks sm) -> exists sm', UnregisterSink s sm = Returns sm' /\
    registered (sinks sm') (false, AppID s, Identifier s) = None /\
    forall wr, registered (sinks sm) (false, AppID s, Identifier s) = Some wr ->
      status (store (sinks sm')) (InputChan wr) = Some true.
Proof.
  intros H. unfold UnregisterSink.
  destruct (CloseAndDelete_returns s (sinks sm) H) as [[Hn ->]|(wr & w & Hr & N & Hst & ->)]; cbn [obind negb].
  - eexists. split; [done|]. cbn [sinks set_sinks]. rewrite Hn. done.
  - eexists. split; [done|].
    assert (forall sm s, sinks (disconnect sm s) = sinks sm) as -> by (by intros ? []).
    cbn [sinks set_metrics set_sinks].
    assert (exists x, groups false (sinks sm) !! AppID s = Some x) as [x Hx].
    { unfold registered in Hr. apply bind_Some in Hr as (x & Hx & _). eauto. }
    rewrite (registered_remove false _ _ _ _ _ x Hx), decide_True by done. split; [done|].
    rewrite Hr. intros wr' [= <-]. unfold remove_place. rewrite Hx. simpl. rewrite Hst. by rewrite decide_True.
Qed.

Lemma DrainFor_registered app id g :
  DrainFor app id g = wrapped <$> registered g (false, app, id).
Proof. unfold DrainFor, registered, AppGroup.sink. simpl. by destruct (apps g !! app). Qed.

Lemma RegisterSink_store s sm :
  store (sinks (fst (RegisterSink s sm))) = snd (make_chan 128 (store (sinks sm))).
Proof.
  unfold RegisterSink. cbn [make_chan]. set (w := mkWorld _ _ _ _ _).
  destruct (RegisterAppSink_cases (next_chan (store (sinks sm))) s (set_store (sinks sm) w))
    as [->|(_ & _ & _ & ->)]; done.
Qed.

(** The caches of an application that has no sink yet. *)
Lemma fresh_caches app sm :
  SMInv sm -> Str.empty app = false -> apps (sinks sm) !! app = None ->
  let sm4 := ensureContainerMetricsSinkFor app (ensureRecentLogsSinkFor app sm) in
  let c := next_chan (store (sinks sm)) in
  exists r r', SMInv sm4 /\
    registered (sinks sm4) (false, app, app) = Some (mkWrapper c (SDump r app)) /\
    registered (sinks sm4) (false, app, "container-metrics-" +:+ app) =
      Some (mkWrapper (S c) (SContainerMetric r' app)) /\
    chans (store (sinks sm4)) !! c = Some (Chan.make V1.Envelope 128) /\
    chans (store (sinks sm4)) !! S c = Some (Chan.make V1.Envelope 128).
Proof.
  intros H Hne Hno.
  assert (forall id, registered (sinks sm) (false, app, id) = None) as Hnone
    by (intros id; simpl; by rewrite Hno).
  assert (app <> "container-metrics-" +:+ app) as Hdiff.
  { intros Ea%(f_equal String.length). rewrite Str.length_append in Ea. simpl in Ea. lia. }
  unfold ensureRecentLogsSinkFor, DumpFor. rewrite Hno. cbn [mbind option_bind].
  unfold new_ref. set (sm1 := mkManager _ _ _ _ _ _ (S (next_ref sm))).
  assert (SMInv (fst (RegisterSink (SDump (next_ref sm) app) sm1))) as H2 by (by apply RegisterSink_SMInv, SMInv_bump).
  pose proof (RegisterSink_fresh (SDump (next_ref sm) app) sm1 Hne Hne (Hnone app)) as R2.
  pose proof (RegisterSink_store (SDump (next_ref sm) app) sm1) as S2.
  set (sm2 := fst (RegisterSink (SDump (next_ref sm) app) sm1)) in *. cbn [AppID Identifier] in R2.
  assert (ContainerMetricsFor app (sinks sm2) = None) as Hcm.
  { specialize (R2 (false, app, "container-metrics-" +:+ app)).
    rewrite decide_False in R2 by congruence. cbn [sinks sm1] in R2. rewrite Hnone in R2.
    unfold ContainerMetricsFor, AppGroup.ContainerMetricsSink, AppGroup.sink. simpl in R2.
    destruct (apps (sinks sm2) !! app); [|done]. simpl in *. by rewrite R2. }
  unfold ensureContainerMetricsSinkFor. rewrite Hcm. unfold new_ref.
  set (sm3 := mkManager _ _ _ _ _ _ (S (next_ref sm2))). set (s := SContainerMetric (next_ref sm2) app).
  assert (SMInv (fst (RegisterSink s sm3))) as H4 by (by apply RegisterSink_SMInv, SMInv_bump).
  assert (registered (sinks sm3) (false, app, "container-metrics-" +:+ app) = None) as Hn3.
  { cbn [sinks sm3]. rewrite R2, decide_False by congruence. apply Hnone. }
  pose proof (RegisterSink_fresh s sm3 Hne eq_refl Hn3) as R4.
  pose proof (RegisterSink_store s sm3) as S4. set (sm4 := fst (RegisterSink s sm3)) in *.
  cbn [AppID Identifier s sinks sm3] in R4, S4. rewrite S2 in R4, S4.
  cbn [make_chan snd sinks sm1 next_chan chans] in R4, S4.
  assert (registered (sinks sm4) (false, app, app) =
    Some (mkWrapper (next_chan (store (sinks sm))) (SDump (next_ref sm) app))) as Q1.
  { rewrite R4, decide_False by congruence. by rewrite R2, decide_True. }
  assert (registered (sinks sm4) (false, app, "container-metrics-" +:+ app) =
    Some (mkWrapper (S (next_chan (store (sinks sm)))) s)) as Q2 by (by rewrite R4, decide_True).
  exists (next_ref sm), (next_ref sm2). rewrite S4. simpl chans. split_and!; try done.
  - by rewrite lookup_insert_ne, lookup_insert_eq by lia.
  - by rewrite lookup_insert_eq.
Qed.

(** What a broadcast to a registered sink with an empty channel leaves there. *)
Lemma SendTo_fresh_channel ch app msg sm id wr n :
  SMInv sm -> registered (sinks sm) (false, app, id) = Some wr ->
  chans (store (sinks sm)) !! InputChan wr = Some (Chan.make V1.Envelope (S n)) ->
  exists g, Broadcast ch app msg (sinks sm) = Returns g /\
    apps g = apps (sinks sm) /\ firehoses g = firehoses (sinks sm) /\
    Chan.buf <$> chans (store g) !! InputChan wr = Some [msg].
Proof.
  intros H Hr Hc. rewrite Broadcast_offers.
  destruct (offers_exact msg (targets ch app (sinks sm)) (store (sinks sm))) as (w & -> & Hw & _).
  { by apply targets_NoDup, H. } { intros i Hi. by eapply targets_open; [apply H|]. }
  cbn [obind]. eexists. split_and!; [done|done|done|]. cbn [store set_store]. rewrite Hw.
  rewrite decide_True by (by eapply targets_app). by rewrite Hc.
Qed.

(** ** Properties *)


(** A returning goroutine unregisters by identifier, not by identity.  When the [i]-th
    goroutine ran a sink that has meanwhile been replaced by another one with the same
    identifier, its return removes the replacement from the registry and closes the
    replacement's input channel. *)
Theorem sink_manager_stale_return l sm i r wr :
  ofold step l New = Returns sm -> goroutines sm !! i = Some r -> g_firehose r = false ->
  registered (sinks sm) (false, AppID (g_sink r), Identifier (g_sink r)) = Some wr ->
  InputChan wr <> g_input r ->
  exists sm', sink_returns i sm = Returns sm' /\
    registered (sinks sm') (false, AppID (g_sink r), Identifier (g_sink r)) = None /\
    status (store (sinks sm')) (InputChan wr) = Some true.
Proof.
  intros E Hi Hf Hr _. destruct (manager_run_SMInv l) as (sm0 & E0 & H). rewrite E in E0. injection E0 as <-.
  unfold sink_returns. rewrite Hi, Hf.
  destruct (UnregisterSink_clears (g_sink r) (with_goroutines sm (delete i (goroutines sm))))
    as (sm' & E' & Hn & Hc); [apply H|]. exists sm'. split_and!; [exact E'|done|by apply Hc].
Qed.

(** Removing a drain works exactly when its URL is its own identifier.  A service whose
    URL is accepted gets a sink registered under [scheme://host/path]; when the service is
    deleted, the sink is looked up by the raw URL, so it is removed if and only if the two
    are the same text: with a query string the drain stays for ever. *)
Theorem sink_manager_drain_removal l sm a url wtr :
  ofold step l New = Returns sm ->
  CheckUrl parseIPv6 ResolveIPAddr url_Parse blacklistIPs (as_Url a) = Ok url ->
  NewWriter url (as_AppId a) (as_Hostname a) skipCertVerify sinkIOTimeout = Ok wtr ->
  Str.empty (as_AppId a) = false -> Str.empty (Syslog.Identifier url) = false ->
  registered (sinks sm) (false, as_AppId a, Syslog.Identifier url) = None ->
  registered (sinks sm) (false, as_AppId a, as_Url a) = None ->
  exists sm1 sm2, newAppService (Some a) sm = Returns (Some sm1) /\
    is_Some (registered (sinks sm1) (false, as_AppId a, Syslog.Identifier url)) /\
    deletedAppService (Some a) sm1 = Returns sm2 /\
    (registered (sinks sm2) (false, as_AppId a, Syslog.Identifier url) = None <->
     as_Url a = Syslog.Identifier url).
Proof.
  intros E Hu Hw Ha Hid Hr1 Hr2.
  destruct (manager_run_SMInv l) as (sm0 & E0 & H). rewrite E in E0. injection E0 as <-.
  unfold newAppService, registerNewSyslogSink. rewrite Hu, Hw. unfold new_ref.
  set (sm' := mkManager _ _ _ _ _ _ _). set (s := SSyslog (next_ref sm) (as_AppId a) url).
  pose proof (RegisterSink_fresh s sm' Ha Hid Hr1) as Hreg.
  assert (SMInv (fst (RegisterSink s sm'))) as H1 by (by apply RegisterSink_SMInv, SMInv_bump).
  set (sm1 := fst (RegisterSink s sm')) in *.
  unfold deletedAppService. setoid_rewrite DrainFor_registered.
  change (false, AppID s, Identifier s) with (false, as_AppId a, Syslog.Identifier url) in Hreg.
  destruct (decide (as_Url a = Syslog.Identifier url)) as [Eu|Nu].
  - destruct (UnregisterSink_clears s sm1 (sm_registry _ H1)) as (sm2 & U & Hn & _).
    exists sm1, sm2. rewrite Eu, Hreg, decide_True by done. by split_and!; eauto.
  - exists sm1, sm1. rewrite !Hreg, decide_True by done. rewrite decide_False by congruence.
    cbn [sinks sm']. rewrite Hr2. split_and!; eauto. split; [done|congruence].
Qed.

(** The first envelope of an application is cached.  Routing an envelope of an
    application with no sinks registers a recent-logs sink and a container-metric sink for
    it, and the envelope is in the input channel of both when the call returns. *)
Theorem sink_manager_first_envelope l sm ch env :
  ofold step l New = Returns sm -> Str.empty (GetAppId env) = false ->
  apps (sinks sm) !! GetAppId env = None ->
  exists sm' r c r' c', let app := GetAppId env in route ch env sm = Returns sm' /\
    registered (sinks sm') (false, app, app) = Some (mkWrapper c (SDump r app)) /\
    registered (sinks sm') (false, app, "container-metrics-" +:+ app) =
      Some (mkWrapper c' (SContainerMetric r' app)) /\
    Chan.buf <$> chans (store (sinks sm')) !! c = Some [env] /\
    Chan.buf <$> chans (store (sinks sm')) !! c' = Some [env].
Proof.
  intros E Hne Hno. destruct (manager_run_SMInv l) as (sm0 & E0 & H). rewrite E in E0. injection E0 as <-.
  destruct (fresh_caches (GetAppId env) sm H Hne Hno) as (r & r' & H4 & Q1 & Q2 & C1 & C2).
  unfold route, SendTo. set (sm4 := ensureContainerMetricsSinkFor _ _) in *.
  destruct (SendTo_fresh_channel ch (GetAppId env) env sm4 _ _ 127 H4 Q1 C1) as (g & Eg & Ga & Gf & B1).
  destruct (SendTo_fresh_channel ch (GetAppId env) env sm4 _ _ 127 H4 Q2 C2) as (g' & Eg' & _ & _ & B2).
  rewrite Eg in Eg'. injection Eg' as <-. rewrite Eg. cbn [obind].
  eexists _, _, _, _, _. split; [done|]. cbn [sinks set_sinks].
  assert (forall i, registered g (false, GetAppId env, i) = registered (sinks sm4) (false, GetAppId env, i)) as Hsame
    by (intros i; simpl; by rewrite Ga).
  rewrite !Hsame. by split_and!.
Qed.

End Manager.

(** ** Concrete executions *)

Module Manager_example.

(** URL parsing and the envelope's application, for the URLs and envelopes used below. *)
Definition parse (raw : string) : result URL :=
  if decide (raw = "syslog://h:514/x"%string) then Ok (mkURL "syslog" "h:514" "/x" "")
  else if decide (raw = "syslog://h:514/x?token=1"%string) then Ok (mkURL "syslog" "h:514" "/x" "token=1")
  else Err "parse error".

Definition app_of (e : V1.Envelope) : string := default "a"%string (V1.Origin e).
Definition no_wrap (t a : string) : result V1.Envelope := Err "not wrapped".
Definition unresolved (h : string) : result string := Err "no such host".

Abbreviation run := (ofold (step (fun _ => None) unresolved parse [] false 0 no_wrap app_of)).

Definition drain : AppService := mkAppService "a" "syslog://h:514/x" "host".
Definition drain_with_query : AppService := mkAppService "a" "syslog://h:514/x?token=1" "host".

(** A drain is removed and added again before its first goroutine has returned. *)
Definition events : list event := [EvNewService drain; EvDeletedService drain; EvNewService drain].

Definition result_of (l : list event) : SinkManager :=
  match run l New with Returns sm => sm | Panics _ => New end.

End Manager_example.

Lemma sink_manager_stale_return_witness :
  exists sm', sink_returns 0 (Manager_example.result_of Manager_example.events) = Returns sm' /\
    registered (sinks sm') (false, "a"%string, "syslog://h:514/x"%string) = None /\
    status (store (sinks sm')) 1 = Some true.
Proof.
  apply (sink_manager_stale_return (fun _ => None) Manager_example.unresolved Manager_example.parse [] false 0%Z
    Manager_example.no_wrap Manager_example.app_of Manager_example.events _ 0
    (mkGoroutine (SSyslog 0 "a" (mkURL "syslog" "h:514" "/x" "")) false 0)
    (mkWrapper 1 (SSyslog 1 "a" (mkURL "syslog" "h:514" "/x" "")))); try (vm_compute; reflexivity).
  vm_compute. discriminate.
Defined.

Lemma sink_manager_drain_removal_witness :
  exists sm1 sm2,
    newAppService (fun _ => None) Manager_example.unresolved Manager_example.parse [] false 0%Z
      Manager_example.no_wrap (Some Manager_example.drain_with_query) New = Returns (Some sm1) /\
    is_Some (registered (sinks sm1) (false, "a"%string, "syslog://h:514/x"%string)) /\
    deletedAppService (Some Manager_example.drain_with_query) sm1 = Returns sm2 /\
    (registered (sinks sm2) (false, "a"%string, "syslog://h:514/x"%string) = None <->
     "syslog://h:514/x?token=1"%string = "syslog://h:514/x"%string).
Proof.
  exact (sink_manager_drain_removal (fun _ => None) Manager_example.unresolved Manager_example.parse [] false 0%Z
    Manager_example.no_wrap Manager_example.app_of [] New Manager_example.drain_with_query
    (mkURL "syslog" "h:514" "/x" "token=1")
    (ASyslog (mkSyslogWriter "a" "h:514" "host" None 0 []))
    eq_refl eq_refl eq_refl eq_refl eq_refl eq_refl eq_refl).
Defined.

Lemma sink_manager_first_envelope_witness :
  exists sm' r c r' c',
    route Manager_example.app_of Registry_example.runtime (V1.empty_envelope ∅) New = Returns sm' /\
    registered (sinks sm') (false, "a"%string, "a"%string) = Some (mkWrapper c (SDump r "a")) /\
    registered (sinks sm') (false, "a"%string, "container-metrics-a"%string) =
      Some (mkWrapper c' (SContainerMetric r' "a")) /\
    Chan.buf <$> chans (store (sinks sm')) !! c = Some [V1.empty_envelope ∅] /\
    Chan.buf <$> chans (store (sinks sm')) !! c' = Some [V1.empty_envelope ∅].
Proof.
  exact (sink_manager_first_envelope (fun _ => None) Manager_example.unresolved Manager_example.parse [] false 0%Z
    Manager_example.no_wrap Manager_example.app_of [] New Registry_example.runtime (V1.empty_envelope ∅)
    eq_refl eq_refl eq_refl).
Defined.
