(* ===== verification/AppServices.v ===== *)
(** * doppler/internal/store: the syslog drains bound to applications

    A cache of the drain services known for each application, and the watcher that keeps it
    in step with etcd and announces additions and removals to the sink manager. *)

From Stdlib Require Import Ascii.
From S2P Require Import Prelude Go.

(** ** The package path *)

Module Path.

(** One path element pushed on the (reversed) stack of [path.Clean]. *)
Definition push (rooted : bool) (stack : list string) (c : string) : list string :=
  if Str.empty c then stack
  else if decide (c = "."%string) then stack
  else if decide (c = ".."%string) then
    match stack with
    | [] => if rooted then [] else [".."%string]
    | top :: rest => if decide (top = ".."%string) then ".."%string :: stack else rest
    end
  else c :: stack.

Definition Clean (p : string) : string :=
  if Str.empty p then "."%string
  else
    let rooted := Str.HasPrefix p "/" in
    let body := Str.Join (reverse (foldl (push rooted) [] (Str.Split p "/"))) "/" in
    if rooted then "/" +:+ body
    else if Str.empty body then "."%string else body.

(** Everything up to and including the last slash. *)
Definition dir_part (p : string) : string :=
  match reverse (Str.Split p "/") with
  | [] | [_] => EmptyString
  | _ :: rest => Str.Join (reverse rest) "/" +:+ "/"
  end.

Definition Dir (p : string) : string := Clean (dir_part p).

Definition Base (p : string) : string :=
  if Str.empty p then "."%string
  else match filter (fun c => negb (Str.empty c)) (reverse (Str.Split p "/")) with
       | [] => "/"%string
       | c :: _ => c
       end.

Example Dir_Base_key :
  Base (Dir "/loggregator/v2/services/app-1/drain-2") = "app-1"%string.
Proof. reflexivity. Qed.

End Path.

(** ** service_info.go *)

Record ServiceInfo : Type := mkServiceInfo { appId : string; url : string; hostname : string }.

#[export] Instance ServiceInfo_eq_dec : EqDecision ServiceInfo.
Proof. solve_decision. Defined.

Definition NewServiceInfo (appId url hostname : string) : ServiceInfo := mkServiceInfo appId url hostname.

Section Services.

(** [fmt.Sprintf("%x", sha1.Sum(...))] *)
Context (sha1_hex : string -> string).

Definition Id (s : ServiceInfo) : string := sha1_hex (url s).

(** ** app_service_cache.go *)

Abbreviation appServiceCache := (gmap string (gmap string ServiceInfo)).

Definition NewAppServiceCache : appServiceCache := ∅.

Definition Add (c : appServiceCache) (s : ServiceInfo) : appServiceCache :=
  let appServicesById := default ∅ (c !! appId s) in
  <[appId s := <[Id s := s]> appServicesById]> c.

Definition Remove (c : appServiceCache) (s : ServiceInfo) : appServiceCache :=
  let appCache := delete (Id s) (default ∅ (c !! appId s)) in
  if bool_decide (size appCache = 0) then delete (appId s) c
  else <[appId s := appCache]> c.

Definition values (ord : RangeOrder string) (m : gmap string ServiceInfo) : list ServiceInfo :=
  (range_map ord m).*2.

Definition RemoveApp (ord : RangeOrder string) (c : appServiceCache) (app : string)
  : appServiceCache * list ServiceInfo :=
  (delete app c, values ord (default ∅ (c !! app))).

Definition Get (ord : RangeOrder string) (c : appServiceCache) (app : string) : list ServiceInfo :=
  values ord (default ∅ (c !! app)).

Definition GetAll (ord : RangeOrder string) (c : appServiceCache) : list ServiceInfo :=
  (range_map ord c).*2 ≫= values ord.

Definition Size (ord : RangeOrder string) (c : appServiceCache) : nat :=
  foldl (fun count m => if bool_decide (0 < size m) then count + size m else S count) 0
    (range_map ord c).*2.

Definition Exists (c : appServiceCache) (s : ServiceInfo) : bool :=
  match c !! appId s with
  | Some m => bool_decide (is_Some (m !! Id s))
  | None => false
  end.

(** ** app_service_store_watcher.go *)

(** What the watcher sends on [outAddChan] and [outRemoveChan], in order. *)
Inductive output : Type := OutAdd (s : ServiceInfo) | OutRemove (s : ServiceInfo).

Record AppServiceStoreWatcher : Type := mkWatcher {
  cache : appServiceCache;
  outputs : list output;
  channels_open : bool
}.

Definition NewAppServiceStoreWatcher (c : appServiceCache) : AppServiceStoreWatcher :=
  mkWatcher c [] true.

Definition watcher_Add (w : AppServiceStoreWatcher) (s : ServiceInfo) : AppServiceStoreWatcher :=
  if negb (Exists (cache w) s)
  then mkWatcher (Add (cache w) s) (outputs w ++ [OutAdd s]) (channels_open w) else w.

Definition watcher_Remove (w : AppServiceStoreWatcher) (s : ServiceInfo) : AppServiceStoreWatcher :=
  if Exists (cache w) s
  then mkWatcher (Remove (cache w) s) (outputs w ++ [OutRemove s]) (channels_open w) else w.

Definition watcher_RemoveApp (ord : RangeOrder string) (w : AppServiceStoreWatcher) (app : string)
  : AppServiceStoreWatcher :=
  let '(c, services) := RemoveApp ord (cache w) app in
  mkWatcher c (outputs w ++ (OutRemove <$> services)) (channels_open w).

(** A node of the store adapter. *)
#[warnings="-register-all"]
Inductive StoreNode : Type := mkNode {
  Key : string; Value : string; Dir : bool; ChildNodes : list StoreNode }.

(** [json.Unmarshal] into [appServiceMetadata]: the host name and the drain URL. *)
Context (unmarshal : string -> result (string * string)).

Definition appServiceFromStoreNode (n : StoreNode) : result ServiceInfo :=
  let app := Path.Base (Path.Dir (Key n)) in
  match unmarshal (Value n) with
  | Err e => Err e
  | Ok (host, drainURL) => Ok (NewServiceInfo app drainURL host)
  end.

Definition deleteEvent (ord : RangeOrder string) (w : AppServiceStoreWatcher) (n : StoreNode)
  : AppServiceStoreWatcher :=
  if Dir n then watcher_RemoveApp ord w (Path.Base (Key n))
  else match appServiceFromStoreNode n with
       | Err _ => w
       | Ok s => watcher_Remove w s
       end.

(** [registerExistingServicesFromStore]: the nodes two levels below the listed one. *)
Definition registerExistingServicesFromStore (w : AppServiceStoreWatcher) (services : StoreNode)
  : AppServiceStoreWatcher :=
  foldl (fun w n =>
    foldl (fun w n =>
      match appServiceFromStoreNode n with Err _ => w | Ok s => watcher_Add w s end)
      w (ChildNodes n)) w (ChildNodes services).

(** One turn of [Run]'s loop: a store event, an error of the watch, or a reason to stop. *)
Inductive watch_event : Type :=
| CreateOrUpdate (n : StoreNode)
| DeleteOrExpire (prev : StoreNode)
| WatchError
| Done.

Definition watcher_Run_step (ord : RangeOrder string) (w : AppServiceStoreWatcher) (e : watch_event)
  : AppServiceStoreWatcher :=
  if negb (channels_open w) then w else
  match e with
  | CreateOrUpdate n =>
      if Dir n || Str.empty (Value n) then w
      else match appServiceFromStoreNode n with Err _ => w | Ok s => watcher_Add w s end
  | DeleteOrExpire prev => deleteEvent ord w prev
  | WatchError => w
  | Done => mkWatcher (cache w) (outputs w) false
  end.

Definition watcher_Run (ord : RangeOrder string) (existing : StoreNode) (l : list watch_event)
  : AppServiceStoreWatcher :=
  foldl (watcher_Run_step ord)
    (registerExistingServicesFromStore (NewAppServiceStoreWatcher NewAppServiceCache) existing) l.

(** ** The receiver's view

    A receiver that applies the outputs to its own set, and rejects an addition of a service
    it has or the removal of one it does not have. *)

Definition apply_output (view : option (gmap (string * string) ServiceInfo)) (o : output)
  : option (gmap (string * string) ServiceInfo) :=
  match view with
  | None => None
  | Some v =>
      match o with
      | OutAdd s => if decide (is_Some (v !! (appId s, Id s))) then None
                    else Some (<[(appId s, Id s) := s]> v)
      | OutRemove s => if decide (is_Some (v !! (appId s, Id s)))
                       then Some (delete (appId s, Id s) v) else None
      end
  end.

Definition view_of (l : list output) : option (gmap (string * string) ServiceInfo) :=
  foldl apply_output (Some ∅) l.

Definition flat (c : appServiceCache) : gmap (string * string) ServiceInfo :=
  map_uncurry (M1 := gmap string) (M2 := gmap string) c.

(** Entries sit under their own keys, and no application has an empty entry. *)
Definition cache_wf (c : appServiceCache) : Prop :=
  (forall app id s, flat c !! (app, id) = Some s -> app = appId s /\ id = Id s) /\
  (forall app m, c !! app = Some m -> m <> ∅).

Lemma services_flat_lookup c a i : flat c !! (a, i) = c !! a ≫= fun m => m !! i.
Proof. apply lookup_map_uncurry. Qed.

Lemma Exists_flat c s : Exists c s = bool_decide (is_Some (flat c !! (appId s, Id s))).
Proof.
  unfold Exists. rewrite services_flat_lookup. by destruct (c !! appId s).
Qed.

Lemma Add_flat c s : flat (Add c s) = <[(appId s, Id s) := s]> (flat c).
Proof.
  apply map_eq. intros [a i]. rewrite services_flat_lookup. unfold Add.
  destruct (decide (a = appId s)) as [->|Ha].
  - rewrite lookup_insert_eq. simpl. destruct (decide (i = Id s)) as [->|Hi].
    + by rewrite !lookup_insert_eq.
    + rewrite !lookup_insert_ne by congruence. rewrite services_flat_lookup. by destruct (c !! appId s).
  - rewrite !lookup_insert_ne by congruence. by rewrite services_flat_lookup.
Qed.

Lemma Remove_flat c s : flat (Remove c s) = delete (appId s, Id s) (flat c).
Proof.
  apply map_eq. intros [a i]. rewrite services_flat_lookup. unfold Remove.
  destruct (decide (a = appId s)) as [->|Ha].
  - destruct (decide (i = Id s)) as [->|Hi].
    + rewrite lookup_delete_eq. case_bool_decide; [by rewrite lookup_delete_eq|].
      rewrite lookup_insert_eq. simpl. by rewrite lookup_delete_eq.
    + rewrite lookup_delete_ne by congruence. rewrite services_flat_lookup. case_bool_decide as E.
      * rewrite lookup_delete_eq. apply map_size_empty_inv in E.
        assert (default ∅ (c !! appId s) !! i = None) as Hn.
        { rewrite <- (lookup_delete_ne _ (Id s)) by congruence. by rewrite E, lookup_empty. }
        destruct (c !! appId s); simpl in *; congruence.
      * rewrite lookup_insert_eq. simpl. rewrite lookup_delete_ne by congruence.
        by destruct (c !! appId s).
  - rewrite lookup_delete_ne by congruence. rewrite services_flat_lookup.
    case_bool_decide; by rewrite ?lookup_delete_ne, ?lookup_insert_ne by done.
Qed.

Lemma Add_wf c s : cache_wf c -> cache_wf (Add c s).
Proof.
  intros [Hk Hn]. split.
  - intros a i t. rewrite Add_flat. intros [[[= <- <-] <-]|[_ H]]%lookup_insert_Some; eauto.
  - intros a m. unfold Add. intros [[_ <-]|[_ H]]%lookup_insert_Some; [apply insert_non_empty|eauto].
Qed.

Lemma Remove_wf c s : cache_wf c -> cache_wf (Remove c s).
Proof.
  intros [Hk Hn]. split.
  - intros a i t. rewrite Remove_flat. intros [_ H]%lookup_delete_Some; eauto.
  - intros a m. unfold Remove. case_bool_decide as E.
    + intros [_ H]%lookup_delete_Some; eauto.
    + intros [[_ <-]|[_ H]]%lookup_insert_Some; [|eauto]. intros E'. by rewrite E', map_size_empty in E.
Qed.

Lemma delete_app_wf c a : cache_wf c -> cache_wf (delete a c).
Proof.
  intros [Hk Hn]. split.
  - intros a' i t. rewrite services_flat_lookup. intros H. apply Hk. rewrite services_flat_lookup.
    destruct (decide (a' = a)) as [->|]; [by rewrite lookup_delete_eq in H|by rewrite lookup_delete_ne in H].
  - intros a' m [_ H]%lookup_delete_Some; eauto.
Qed.

(** Announcing the removal of every service of an application, in any order. *)
Lemma remove_all_view (a : string) (l : list (string * ServiceInfo)) (v : gmap (string * string) ServiceInfo) :
  NoDup l.*1 -> (forall i s, (i, s) ∈ l -> v !! (a, i) = Some s /\ appId s = a /\ Id s = i) ->
  exists v', foldl apply_output (Some v) (OutRemove <$> l.*2) = Some v' /\
    forall k, v' !! k = if decide (k.1 = a /\ k.2 ∈ l.*1) then None else v !! k.
Proof.
  revert v. induction l as [|[i s] l IH]; intros v Hnd Hl.
  - exists v. split; [done|]. intros k. rewrite decide_False; [done|]. intros [_ H]. set_solver.
  - change (OutRemove <$> ((i, s) :: l).*2) with (OutRemove s :: (OutRemove <$> l.*2)).
    change (((i, s) :: l).*1) with (i :: l.*1) in *. cbn [foldl apply_output]. inversion_clear Hnd as [|? ? Hi Hnd']. destruct (Hl i s) as (Hv & Ha & Hid); [set_solver|].
    rewrite Ha, Hid. rewrite decide_True by (rewrite Hv; eauto).
    destruct (IH (delete (a, i) v)) as (v' & -> & H); [done| |].
    + intros j t Hj. destruct (Hl j t) as (Hv' & Ha' & Hid'); [set_solver|]. split; [|done].
      rewrite lookup_delete_ne; [done|]. intros [= ->]. apply Hi. apply list_elem_of_fmap. by exists (j, t).
    + exists v'. split; [done|]. intros [k1 k2]. rewrite H. simpl.
      destruct (decide (k1 = a /\ k2 = i)) as [[-> ->]|Hne].
      * rewrite lookup_delete_eq. repeat case_decide; try done; set_solver.
      * rewrite lookup_delete_ne by naive_solver. repeat case_decide; try done; set_solver.
Qed.

Definition Mirrors (w : AppServiceStoreWatcher) : Prop :=
  view_of (outputs w) = Some (flat (cache w)) /\ cache_wf (cache w).

Lemma view_of_app l k : view_of (l ++ k) = foldl apply_output (view_of l) k.
Proof. apply foldl_app. Qed.

Lemma watcher_Add_mirrors w s : Mirrors w -> Mirrors (watcher_Add w s).
Proof.
  intros [Hv Hwf]. unfold watcher_Add. rewrite Exists_flat. case_bool_decide as E; simpl; [done|].
  split; simpl; [|by apply Add_wf]. rewrite view_of_app, Hv. simpl. rewrite decide_False by done.
  by rewrite Add_flat.
Qed.

Lemma watcher_Remove_mirrors w s : Mirrors w -> Mirrors (watcher_Remove w s).
Proof.
  intros [Hv Hwf]. unfold watcher_Remove. rewrite Exists_flat. case_bool_decide as E; simpl; [|done].
  split; simpl; [|by apply Remove_wf]. rewrite view_of_app, Hv. simpl. rewrite decide_True by done.
  by rewrite Remove_flat.
Qed.

Lemma watcher_RemoveApp_mirrors ord w a : Mirrors w -> Mirrors (watcher_RemoveApp ord w a).
Proof.
  intros [Hv Hwf]. unfold watcher_RemoveApp, RemoveApp, values.
  split; simpl; [|by apply delete_app_wf]. rewrite view_of_app, Hv.
  destruct (remove_all_view a (range_map ord (default ∅ (cache w !! a))) (flat (cache w))) as (v & -> & H).
  - apply range_keys_NoDup.
  - intros i s Hin%range_elem. rewrite services_flat_lookup.
    assert (flat (cache w) !! (a, i) = Some s) as Hf.
    { rewrite services_flat_lookup. destruct (cache w !! a); simpl in *; [done|by rewrite lookup_empty in Hin]. }
    destruct (proj1 Hwf _ _ _ Hf) as [-> ->]. by rewrite <- services_flat_lookup.
  - f_equal. apply map_eq. intros [k i]. rewrite H, !services_flat_lookup. simpl.
    destruct (decide (k = a)) as [->|Hne].
    + rewrite lookup_delete_eq. case_decide as E; [done|].
      destruct (cache w !! a) as [m|] eqn:Em; [|done]. simpl in *. apply eq_None_not_Some. intros [s Hs].
      apply E. split; [done|]. apply list_elem_of_fmap. exists (i, s). split; [done|]. by apply range_elem.
    + rewrite decide_False by naive_solver. by rewrite lookup_delete_ne.
Qed.

Lemma watcher_Run_step_mirrors ord w e : Mirrors w -> Mirrors (watcher_Run_step ord w e).
Proof.
  intros H. unfold watcher_Run_step, deleteEvent.
  repeat case_match; auto using watcher_Add_mirrors, watcher_Remove_mirrors, watcher_RemoveApp_mirrors.
Qed.

Lemma register_mirrors w n : Mirrors w -> Mirrors (registerExistingServicesFromStore w n).
Proof.
  unfold registerExistingServicesFromStore. generalize (ChildNodes n) as l. intros l.
  revert w. induction l as [|x l IH]; intros w H; simpl; [done|]. apply IH.
  revert H. generalize (ChildNodes x) as k. intros k. revert w.
  induction k as [|y k IHk]; intros w H; simpl; [done|]. apply IHk.
  case_match; auto using watcher_Add_mirrors.
Qed.

Lemma foldl_keeps {A B} (P : A -> Prop) (f : A -> B -> A) l a :
  (forall a b, P a -> P (f a b)) -> P a -> P (foldl f a l).
Proof. intros Hf. revert a. induction l as [|b l IH]; intros a Ha; simpl; auto. Qed.

Lemma size_kmap_pair (a : string) (m : gmap string ServiceInfo) :
  size (kmap (M2 := gmap (string * string)) (pair a) m) = size m.
Proof.
  induction m as [|i s m Hi IH] using map_ind; [by rewrite kmap_empty, !map_size_empty|].
  rewrite kmap_insert by apply _. rewrite !map_size_insert_None, IH; [done|done|].
  by rewrite (lookup_kmap (pair a)) by apply _.
Qed.

Lemma flat_insert_size c a m :
  c !! a = None -> size (flat (<[a := m]> c)) = size m + size (flat c).
Proof.
  intros Ha. assert (flat (<[a := m]> c) = kmap (pair a) m ∪ flat c) as ->.
  { apply map_eq. intros [b i]. rewrite services_flat_lookup. destruct (decide (b = a)) as [->|Hne].
    - rewrite lookup_insert_eq. simpl. rewrite lookup_union, services_flat_lookup, Ha. simpl.
      rewrite (lookup_kmap (pair a)) by apply _. by destruct (m !! i).
    - rewrite lookup_insert_ne by congruence. rewrite lookup_union_r, services_flat_lookup; [done|].
      apply lookup_kmap_None; [apply _|]. intros j [= ]. congruence. }
  rewrite map_size_disj_union; [by rewrite size_kmap_pair|].
  apply map_disjoint_spec. intros [b i] s t H1 H2.
  apply lookup_kmap_Some in H1 as (j & [= -> <-] & _); [|apply _].
  rewrite services_flat_lookup, Ha in H2. done.
Qed.

Lemma Size_sum ord c : cache_wf c -> Size ord c = sum_list (size <$> (range_map ord c).*2).
Proof.
  intros [_ Hn]. unfold Size.
  assert (forall l n, (forall m, m ∈ l -> m <> (∅ : gmap string ServiceInfo)) ->
    foldl (fun count m => if bool_decide (0 < size m) then count + size m else S count) n l =
    n + sum_list (size <$> l)) as G.
  { induction l as [|m l IH]; intros n Hl; simpl; [lia|].
    assert (size m <> 0) as Hm by (rewrite map_size_empty_iff; apply Hl; set_solver).
    rewrite bool_decide_eq_true_2 by lia. rewrite IH by set_solver. apply eq_sym, Nat.add_assoc. }
  rewrite G; [done|]. intros m ([a m'] & -> & Hin%range_elem)%list_elem_of_fmap. eauto.
Qed.

Lemma Size_flat ord c : cache_wf c -> Size ord c = size (flat c).
Proof.
  intros Hwf. rewrite Size_sum by done. rewrite (range_perm ord c). clear Hwf.
  induction c as [|a m c Ha IH] using map_ind; [done|].
  rewrite map_to_list_insert by done.
  change (size m + sum_list (size <$> (map_to_list c).*2) = size (flat (<[a := m]> c))).
  rewrite IH. by rewrite flat_insert_size.
Qed.

(** C24: the drain watcher and its receiver agree.  Whatever is in the store at start and
    whatever events follow, a receiver that applies the announced additions and removals
    in order never sees the addition of a service it already has or the removal of one it
    does not have, and ends up with exactly the services of the cache, whose reported size
    is their number. *)
Theorem drain_watcher_mirrors_cache ord existing l :
  let w := watcher_Run ord existing l in
  view_of (outputs w) = Some (flat (cache w)) /\ Size ord (cache w) = size (flat (cache w)).
Proof.
  intros w. assert (Mirrors w) as [Hv Hwf].
  { unfold w, watcher_Run. apply (foldl_keeps Mirrors); [intros; by apply watcher_Run_step_mirrors|]. apply register_mirrors.
    split; [done|]. cbn [cache NewAppServiceStoreWatcher]. unfold NewAppServiceCache.
    split; [|intros a m; by rewrite lookup_empty].
    intros a i s. rewrite services_flat_lookup. by rewrite lookup_empty. }
  auto using Size_flat.
Qed.

End Services.
