(* ===== verification/Router.v ===== *)
(** * doppler/internal/grpcmanager/v1: the gRPC edges of doppler

    [Router] fans every envelope out to the gRPC subscriptions: all the unsharded ones whose
    filter matches, and one member of every matching shard group.  [Ingestor] is the v1
    ingress stream. *)

From S2P Require Import Prelude Go Events Sinks.

(** ** router.go *)

Inductive filterType : Type := noType | logType | metricType.

#[export] Instance filterType_eq_dec : EqDecision filterType.
Proof. solve_decision. Defined.

#[export] Instance filterType_countable : Countable filterType.
Proof.
  apply (inj_countable' (fun t => match t with noType => 0 | logType => 1 | metricType => 2 end)
    (fun n => match n with 0 => noType | 1 => logType | _ => metricType end)).
  by intros [].
Defined.

Record filter_ : Type := mkFilter { appID : string; envelopeType : filterType }.

#[export] Instance filter_eq_dec : EqDecision filter_.
Proof. solve_decision. Defined.

#[export] Instance filter_countable : Countable filter_.
Proof.
  apply (inj_countable' (fun f => (appID f, envelopeType f)) (fun p => mkFilter p.1 p.2)).
  by intros [].
Defined.

(** [plumbing.SubscriptionRequest]: a shard and an optional filter, which has an
    application and at most one of the messages [Log] and [Metric]. *)
Inductive request_message : Type := AnyMessage | LogOnly | MetricOnly.
Record SubscriptionRequest : Type := mkRequest {
  ShardID : string;
  Filter : option (string * request_message)
}.

(** A data setter is known by its identity. *)
Record Router : Type := mkRouter { subscriptions : gmap filter_ (gmap string (list nat)) }.

Definition NewRouter : Router := mkRouter ∅.

Definition convertFilter (req : SubscriptionRequest) : filter_ :=
  match Filter req with
  | None => mkFilter EmptyString noType
  | Some (app, m) =>
      mkFilter app match m with AnyMessage => noType | LogOnly => logType | MetricOnly => metricType end
  end.

Definition filterTypeFromEnvelope (e : V1.Envelope) : filterType :=
  match V1.GetEventType e with V1.Envelope_LogMessage => logType | _ => metricType end.

Definition createTypedFilters (app : string) (e : V1.Envelope) : list filter_ :=
  [mkFilter app noType;
   mkFilter app (filterTypeFromEnvelope e);
   mkFilter EmptyString (filterTypeFromEnvelope e);
   mkFilter EmptyString noType].

Definition registerSetter (req : SubscriptionRequest) (d : nat) (r : Router) : Router :=
  let f := convertFilter req in
  let m := default ∅ (subscriptions r !! f) in
  mkRouter (<[f := <[ShardID req := default [] (m !! ShardID req) ++ [d]]> m]> (subscriptions r)).

(** The function [buildCleanup] returns. *)
Definition cleanup (req : SubscriptionRequest) (d : nat) (r : Router) : Router :=
  let f := convertFilter req in
  let m := default ∅ (subscriptions r !! f) in
  let setters := filter (fun s => s <> d) (default [] (m !! ShardID req)) in
  match setters with
  | _ :: _ => mkRouter (<[f := <[ShardID req := setters]> m]> (subscriptions r))
  | [] =>
      let m := delete (ShardID req) m in
      if bool_decide (size m = 0) then mkRouter (delete f (subscriptions r))
      else mkRouter (<[f := m]> (subscriptions r))
  end.

Definition Register (req : SubscriptionRequest) (d : nat) (r : Router) : Router * (Router -> Router) :=
  (registerSetter req d r, cleanup req d).

Section Send.

(** [envelope.Marshal()], the iteration order, and the random draws. *)
Context (marshal : V1.Envelope -> option string) (ord : RangeOrder string)
  (Intn : filter_ -> string -> nat -> nat).

(** The setters one shard's [writeToShard] calls [Set] on, in order. *)
Definition writeToShard (f : filter_) (id : string) (setters : list nat) : outcome (list nat) :=
  if Str.empty id then Returns setters
  else match setters with
       | [] => Panics "invalid argument to Intn"
       | _ =>
           match setters !! Intn f id (length setters) with
           | Some d => Returns [d]
           | None => Panics "index out of range"
           end
       end.

(** [SendTo]: every call of [Set], in order. *)
Definition SendTo (app : string) (e : V1.Envelope) (r : Router) : outcome (list nat) :=
  match marshal e with
  | None => Returns []
  | Some _ =>
      ofold (fun sets f =>
        ofold (fun sets kv =>
          let! l := writeToShard f (kv : string * list nat).1 kv.2 in Returns (sets ++ l))%go
          (range_map ord (default ∅ (subscriptions r !! f))) sets)
        (createTypedFilters app e) []
  end.

End Send.

(** ** Invariant: no empty shard group and no empty filter entry *)

Definition router_wf (r : Router) : Prop :=
  forall f m, subscriptions r !! f = Some m ->
    m <> ∅ /\ forall id l, m !! id = Some l -> l <> [].

Lemma registerSetter_wf req d r : router_wf r -> router_wf (registerSetter req d r).
Proof.
  intros H f m. unfold registerSetter. simpl. intros [[_ <-]|[_ Hm]]%lookup_insert_Some; [|eauto].
  split; [apply insert_non_empty|]. intros id l [[_ <-]|[_ Hl]]%lookup_insert_Some; [by destruct (default _ _)|].
  destruct (subscriptions r !! convertFilter req) eqn:E; simpl in *; [|by rewrite lookup_empty in Hl].
  by eapply H.
Qed.

Lemma cleanup_wf req d r : router_wf r -> router_wf (cleanup req d r).
Proof.
  intros H f m. unfold cleanup. set (g := convertFilter req).
  assert (forall id l, default ∅ (subscriptions r !! g) !! id = Some l -> l <> []) as Hl.
  { intros id l. destruct (subscriptions r !! g) eqn:E; simpl; [by eapply H|by rewrite lookup_empty]. }
  destruct (filter _ _) as [|s l0] eqn:Ef.
  - case_bool_decide as E; simpl.
    + intros [_ Hm]%lookup_delete_Some. eauto.
    + intros [[_ <-]|[_ Hm]]%lookup_insert_Some; [|eauto]. split.
      * intros E'. by rewrite E', map_size_empty in E.
      * intros id l [_ Hd]%lookup_delete_Some. by eapply Hl.
  - simpl. intros [[_ <-]|[_ Hm]]%lookup_insert_Some; [|eauto]. split; [apply insert_non_empty|].
    intros id l [[_ <-]|[_ Hd]]%lookup_insert_Some; [done|by eapply Hl].
Qed.

(** An execution: registrations and cleanups, in any order. *)
Inductive router_op : Type :=
| OpSubscribe (req : SubscriptionRequest) (d : nat)
| OpCleanup (req : SubscriptionRequest) (d : nat).

Definition router_step (r : Router) (o : router_op) : Router :=
  match o with
  | OpSubscribe req d => fst (Register req d r)
  | OpCleanup req d => snd (Register req d r) r
  end.

Lemma router_run_wf l : router_wf (foldl router_step NewRouter l).
Proof.
  assert (forall r, router_wf r -> router_wf (foldl router_step r l)) as G.
  { induction l as [|[] l IH]; intros r Hr; simpl; auto using registerSetter_wf, cleanup_wf. }
  apply G. intros f m. simpl. by rewrite lookup_empty.
Qed.

(** ** What a subscription group receives *)

(** The subscription groups: filter, shard, members. *)
Definition groups (r : Router) : list (filter_ * string * list nat) :=
  map_to_list (map_uncurry (M1 := gmap filter_) (M2 := gmap string) (subscriptions r)).

(** A filter matches by application and by type, an empty one matching everything. *)
Definition matches (app : string) (e : V1.Envelope) (f : filter_) : bool :=
  bool_decide (appID f = EmptyString \/ appID f = app) &&
  bool_decide (envelopeType f = noType \/ envelopeType f = filterTypeFromEnvelope e).

(** All the members without a shard, the drawn one with a shard. *)
Definition contribution (Intn : filter_ -> string -> nat -> nat) (g : filter_ * string * list nat) : list nat :=
  let '(f, id, l) := g in
  if Str.empty id then l else option_list (l !! Intn f id (length l)).

Definition in_range (Intn : filter_ -> string -> nat -> nat) : Prop :=
  forall f id n, 0 < n -> Intn f id n < n.

(** The groups in the order [SendTo] visits them. *)
Definition visited (ord : RangeOrder string) (app : string) (e : V1.Envelope) (r : Router)
  : list (filter_ * string * list nat) :=
  createTypedFilters app e ≫= fun f =>
    (fun kv => (f, kv.1, kv.2)) <$> range_map ord (default ∅ (subscriptions r !! f)).

Lemma writeToShard_contribution Intn f id l :
  in_range Intn -> l <> [] -> writeToShard Intn f id l = Returns (contribution Intn (f, id, l)).
Proof.
  intros HI Hl. unfold writeToShard, contribution. destruct (Str.empty id); [done|].
  destruct l as [|d l]; [done|].
  destruct (lookup_lt_is_Some_2 (d :: l) (Intn f id (length (d :: l)))) as [x ->]; [|done].
  apply HI. simpl. lia.
Qed.

Lemma SendTo_visited marshal ord Intn app e r :
  router_wf r -> in_range Intn -> is_Some (marshal e) ->
  SendTo marshal ord Intn app e r = Returns (visited ord app e r ≫= contribution Intn).
Proof.
  intros Hr HI [x Hm]. unfold SendTo, visited. rewrite Hm.
  assert (forall l acc f, (forall kv, kv ∈ l -> kv.2 <> []) ->
    ofold (fun sets kv => (let! l := writeToShard Intn f (kv : string * list nat).1 kv.2 in
      Returns (sets ++ l))%go) l acc =
    Returns (acc ++ (((fun kv => (f, kv.1, kv.2)) <$> l) ≫= contribution Intn))) as Inner.
  { induction l as [|[id k] l IH]; intros acc f Hl; simpl; [by rewrite app_nil_r|].
    rewrite writeToShard_contribution by (done || by apply (Hl (id, k)); set_solver). simpl.
    rewrite IH by set_solver. by rewrite <- app_assoc. }
  generalize (createTypedFilters app e) as fs. intros fs.
  change (Returns ((fs ≫= fun f => (fun kv => (f, kv.1, kv.2)) <$> range_map ord (default ∅ (subscriptions r !! f)))
    ≫= contribution Intn)) with (Returns (@nil nat ++ ((fs ≫= fun f => (fun kv => (f, kv.1, kv.2)) <$>
    range_map ord (default ∅ (subscriptions r !! f))) ≫= contribution Intn))).
  generalize (@nil nat) as acc. induction fs as [|f fs IH]; intros acc; simpl; [by rewrite app_nil_r|].
  rewrite Inner.
  - simpl. rewrite IH. f_equal. rewrite bind_app, app_assoc. done.
  - intros [id l] Hin%range_elem. simpl. destruct (subscriptions r !! f) eqn:E; simpl in Hin.
    + by eapply Hr.
    + by rewrite lookup_empty in Hin.
Qed.

Lemma typed_filters_matches app e f : f ∈ createTypedFilters app e <-> matches app e f.
Proof.
  unfold createTypedFilters, matches. destruct f as [a t].
  rewrite !elem_of_cons, andb_True, !bool_decide_spec. simpl. split.
  - intros [[= -> ->]|[[= -> ->]|[[= -> ->]|[[= -> ->]|H]]]]; [auto..|set_solver].
  - intros [[->| ->] [->| ->]]; auto 6.
Qed.

Lemma typed_filters_NoDup app e : app <> EmptyString -> NoDup (createTypedFilters app e).
Proof.
  intros Ha. unfold createTypedFilters.
  assert (filterTypeFromEnvelope e <> noType) by (unfold filterTypeFromEnvelope; by case_match).
  repeat (constructor; [rewrite ?elem_of_cons; intros ?; destruct_or?; simplify_eq; set_solver|]).
  constructor.
Qed.

Lemma groups_elem r f id l :
  (f, id, l) ∈ groups r <-> default ∅ (subscriptions r !! f) !! id = Some l.
Proof.
  unfold groups. rewrite elem_of_map_to_list, lookup_map_uncurry.
  destruct (subscriptions r !! f); simpl; [done|]. by rewrite lookup_empty.
Qed.

Lemma visited_matching ord app e r :
  app <> EmptyString -> visited ord app e r ≡ₚ filter (fun g => matches app e g.1.1) (groups r).
Proof.
  intros Ha. apply NoDup_Permutation.
  - unfold visited. apply NoDup_bind.
    + intros f1 f2 y _ _ (kv & -> & _)%list_elem_of_fmap (kv2 & E & _)%list_elem_of_fmap. congruence.
    + intros f _. apply NoDup_fmap_2; [|apply range_NoDup]. intros [] [] [= -> ->]. done.
    + by apply typed_filters_NoDup.
  - apply NoDup_filter, NoDup_map_to_list.
  - intros [[f id] l]. rewrite list_elem_of_filter, groups_elem. simpl. rewrite <- typed_filters_matches.
    unfold visited. rewrite list_elem_of_bind. split.
    + intros (g & (kv & [= -> -> ->] & Hin)%list_elem_of_fmap & Hg). split; [done|].
      destruct kv. by apply range_elem in Hin.
    + intros [Hf Hl]. exists f. split; [|done]. apply list_elem_of_fmap. exists (id, l).
      split; [done|]. by apply range_elem.
Qed.

(** ** Properties *)


Definition log_envelope : V1.Envelope :=
  V1.mkEnvelope None (Some V1.Envelope_LogMessage) None None None None None ∅ None None None None None None.

Definition example_ops : list router_op :=
  [OpSubscribe (mkRequest "" None) 1; OpSubscribe (mkRequest "shard" None) 2;
   OpSubscribe (mkRequest "shard" None) 3; OpSubscribe (mkRequest "" (Some ("a"%string, LogOnly))) 4;
   OpSubscribe (mkRequest "" (Some ("b"%string, AnyMessage))) 5; OpCleanup (mkRequest "shard" None) 2].


Lemma filter_fresh (l : list nat) d : d ∉ l -> filter (fun s => s <> d) l = l.
Proof.
  induction l as [|x l IH]; intros Hd; [done|]. rewrite filter_cons_True by set_solver.
  f_equal. apply IH. set_solver.
Qed.

Lemma router_cleanup_wf_id req d r :
  router_wf r -> d ∉ default [] (default ∅ (subscriptions r !! convertFilter req) !! ShardID req) ->
  cleanup req d (registerSetter req d r) = r.
Proof.
  intros Hr Hd.
  unfold registerSetter, cleanup. cbn [subscriptions]. set (f := convertFilter req) in *.
  rewrite lookup_insert_eq. simpl default. rewrite lookup_insert_eq. simpl default.
  rewrite filter_app, filter_fresh by done. rewrite filter_cons_False, filter_nil, app_nil_r by naive_solver.
  destruct r as [subs]. simpl in *.
  destruct (subs !! f) as [m|] eqn:Ef; simpl in *.
  - destruct (m !! ShardID req) as [l|] eqn:El; simpl in *.
    + destruct l as [|x l]; [by destruct (Hr f m Ef) as [_ H]; apply H in El|].
      rewrite !insert_insert_eq. rewrite (insert_id m) by done. by rewrite insert_id.
    + rewrite delete_insert_id by done. destruct (Hr f m Ef) as [Hm _].
      rewrite bool_decide_eq_false_2 by (by rewrite map_size_empty_iff).
      by rewrite insert_insert_eq, insert_id.
  - rewrite lookup_empty in *. simpl. rewrite delete_insert_id by apply lookup_empty.
    rewrite bool_decide_eq_true_2 by apply map_size_empty. by rewrite delete_insert_id.
Qed.

Lemma router_cleanup_id ops req d :
  d ∉ default [] (default ∅ (subscriptions (foldl router_step NewRouter ops) !! convertFilter req) !! ShardID req) ->
  snd (Register req d (foldl router_step NewRouter ops)) (fst (Register req d (foldl router_step NewRouter ops)))
    = foldl router_step NewRouter ops.
Proof. apply router_cleanup_wf_id, router_run_wf. Qed.

(** Unsubscribing undoes subscribing.  On every reachable router, registering a setter
    that is not yet in its group and running the cleanup returns the router to exactly the
    state it was in, empty map entries included. *)
Theorem router_cleanup_restores ops req d :
  let r := foldl router_step NewRouter ops in
  d ∉ default [] (default ∅ (subscriptions r !! convertFilter req) !! ShardID req) ->
  let '(r', clean) := Register req d r in clean r' = r.
Proof. intros r Hd. by apply router_cleanup_wf_id; [apply router_run_wf|]. Qed.

Lemma router_cleanup_restores_witness :
  let r := foldl router_step NewRouter example_ops in
  let '(r', clean) := Register (mkRequest "shard" None) 9 r in clean r' = r.
Proof.
  apply router_cleanup_restores. vm_compute. intros H. repeat (inversion H as [|? ? ? H']; subst; clear H; rename H' into H).
Defined.

(** An envelope without an application is delivered twice.  With an empty application
    the four typed filters of an envelope are only two, each listed twice, so a plain
    firehose subscription receives every such envelope two times. *)
Theorem router_duplicates_without_app marshal ord Intn e d :
  is_Some (marshal e) -> in_range Intn ->
  SendTo marshal ord Intn EmptyString e
    (foldl router_step NewRouter [OpSubscribe (mkRequest EmptyString None) d]) = Returns [d; d].
Proof.
  intros Hm HI. rewrite SendTo_visited by (done || apply router_run_wf). f_equal.
  assert (forall f, default ∅ (subscriptions (foldl router_step NewRouter
    [OpSubscribe (mkRequest EmptyString None) d]) !! f) =
    if decide (f = mkFilter EmptyString noType) then {[EmptyString := [d]]} else ∅) as Hs.
  { intros f. simpl. unfold registerSetter. simpl. rewrite lookup_empty. simpl.
    rewrite lookup_empty. case_decide; subst; [by rewrite lookup_insert_eq|by rewrite lookup_insert_ne]. }
  assert (range_map ord ({[EmptyString := [d]]} : gmap string (list nat)) = [(EmptyString, [d])]) as H1.
  { apply Permutation_singleton_r. rewrite (range_perm ord). by rewrite map_to_list_singleton. }
  assert (range_map ord (∅ : gmap string (list nat)) = []) as H0.
  { apply Permutation_nil_r. rewrite (range_perm ord). by rewrite map_to_list_empty. }
  assert (filterTypeFromEnvelope e <> noType) by (unfold filterTypeFromEnvelope; by case_match).
  unfold visited, createTypedFilters. simpl. rewrite !Hs.
  rewrite !(decide_True (P := mkFilter EmptyString noType = _)) by done.
  rewrite !(decide_False (P := mkFilter EmptyString (filterTypeFromEnvelope e) = _)) by congruence.
  by rewrite H0, H1.
Qed.

Lemma router_duplicates_without_app_witness :
  SendTo (fun _ => Some "bytes"%string) default_order (fun _ _ n => n - 1) EmptyString log_envelope
    (foldl router_step NewRouter [OpSubscribe (mkRequest EmptyString None) 7]) = Returns [7; 7].
Proof. apply router_duplicates_without_app; [by eexists|intros f id n Hn; lia]. Defined.

(** The members of a subscription group. *)
Definition members (r : Router) (f : filter_) (id : string) : list nat :=
  default [] (default ∅ (subscriptions r !! f) !! id).

Lemma members_register req d r f id :
  members (registerSetter req d r) f id =
  members r f id ++ (if decide (f = convertFilter req /\ id = ShardID req) then [d] else []).
Proof.
  unfold members, registerSetter. cbn [subscriptions]. destruct (decide (f = convertFilter req)) as [->|Hf].
  - rewrite lookup_insert_eq. simpl default. destruct (decide (id = ShardID req)) as [->|Hid].
    + by rewrite lookup_insert_eq, decide_True.
    + rewrite lookup_insert_ne by done. by rewrite decide_False, app_nil_r by naive_solver.
  - rewrite lookup_insert_ne by done. by rewrite decide_False, app_nil_r by naive_solver.
Qed.

Lemma members_cleanup req d r f id :
  members (cleanup req d r) f id =
  if decide (f = convertFilter req /\ id = ShardID req) then filter (fun s => s <> d) (members r f id)
  else members r f id.
Proof.
  unfold cleanup. destruct (decide (f = convertFilter req)) as [->|Hf].
  2:{ rewrite decide_False by naive_solver. unfold members.
      destruct (filter _ _); [case_bool_decide|]; cbn [subscriptions];
        by rewrite ?lookup_delete_ne, ?lookup_insert_ne by done. }
  unfold members. set (m := default ∅ (subscriptions r !! convertFilter req)).
  destruct (filter _ _) as [|x l] eqn:E; [case_bool_decide as Em|]; cbn [subscriptions].
  - rewrite lookup_delete_eq. simpl. apply map_size_empty_inv in Em.
    case_decide as Hd; [destruct Hd as [_ ->]; by rewrite E, lookup_empty|].
    rewrite lookup_empty. rewrite <- (lookup_delete_ne m (ShardID req) id) by naive_solver. by rewrite Em, lookup_empty.
  - rewrite lookup_insert_eq. simpl. case_decide as Hd; [destruct Hd as [_ ->]; by rewrite E, lookup_delete_eq|].
    by rewrite lookup_delete_ne by naive_solver.
  - rewrite lookup_insert_eq. simpl. case_decide as Hd; [destruct Hd as [_ ->]; by rewrite E, lookup_insert_eq|].
    by rewrite lookup_insert_ne by naive_solver.
Qed.

Lemma groups_members r f id l : router_wf r -> (f, id, l) ∈ groups r <-> members r f id = l /\ l <> [].
Proof.
  intros Hr. rewrite groups_elem. unfold members. split.
  - intros H. rewrite H. split; [done|]. destruct (subscriptions r !! f) eqn:E; simpl in H; [by eapply Hr|].
    by rewrite lookup_empty in H.
  - destruct (default ∅ (subscriptions r !! f) !! id); naive_solver.
Qed.

(** A router without members is empty. *)
Lemma no_members r : router_wf r -> (forall f id, members r f id = []) -> r = NewRouter.
Proof.
  intros Hr H. destruct r as [subs]. unfold NewRouter. f_equal. apply map_eq. intros f. rewrite lookup_empty.
  destruct (subs !! f) as [m|] eqn:E; [|done]. exfalso. destruct (Hr f m E) as [Hm Hl]. apply Hm.
  apply map_eq. intros id. rewrite lookup_empty. destruct (m !! id) as [l|] eqn:El; [|done]. exfalso.
  apply (Hl id l El). specialize (H f id). unfold members in H. simpl in H. rewrite E in H. simpl in H. by rewrite El in H.
Qed.

(** ** ingestor_server.go: the v1 ingress stream *)

Module Ingestor.

Record state : Type := mkState {
  health : health_calls;
  buffered : list V1.Envelope;
  counted : list (string * list (string * string));
  returned : bool
}.

Definition Pusher_start (h : health_calls) : state :=
  mkState (h ++ [("ingressStreamCount"%string, 1%Z)]) [] [] false.

Definition Pusher_return (s : state) : state :=
  mkState (health s ++ [("ingressStreamCount"%string, (-1)%Z)]) (buffered s) (counted s) true.

(** What the loop sees: the context is done, or an answer of [Recv]. *)
Inductive turn : Type :=
| ContextDone
| EOF
| RecvError
| Payload (data : string).

(** [proto.Unmarshal] and the name of an event type. *)
Definition Pusher_turn (unmarshal : string -> option V1.Envelope) (type_name : V1.EventType -> string)
  (s : state) (t : turn) : state :=
  if returned s then s else
  match t with
  | ContextDone => Pusher_return s
  | EOF => Pusher_return s
  | RecvError => s
  | Payload data =>
      match unmarshal data with
      | None => s
      | Some env =>
          mkState (health s) (buffered s ++ [env])
            (counted s ++
             [("listeners.receivedEnvelopes"%string,
               [("protocol"%string, "grpc"%string); ("event_type"%string, type_name (V1.GetEventType env))]);
              ("listeners.totalReceivedMessageCount"%string, [])]) false
      end
  end.

End Ingestor.
