(* ===== verification/Averager.v ===== *)
(** * plumbing/envelope_averager.go

    The average size of the envelopes sent in an interval, kept in one 64-bit word: sixteen
    bits of count above forty-eight bits of total.  [Track] may be called by several
    goroutines at once, so its compare-and-swap loop is modelled step by step. *)

From Stdlib Require Import SpecFloat.
From S2P Require Import Prelude Go Events.
Local Open Scope Z_scope.

Definition mask48 : Z := 2 ^ 48 - 1.

(** ** countAndTotal *)

Definition decode (u : Z) : Z * Z :=
  (Words.uint16 (Z.shiftr (Z.land u (Z.shiftl (2 ^ 16 - 1) 48)) 48), Z.land u mask48).

Definition encodeDelta (u count total : Z) : Z :=
  let '(currentCount, currentTotal) := decode u in
  let count := Words.add 16 count currentCount in
  let total := Words.add 64 total currentTotal in
  Words.add 64 (Words.uint64 (Z.shiftl count 48)) (Z.land total mask48).

(** ** EnvelopeAverager: Track, as atomic steps of goroutines *)

(** Inside [Track(count, size)], before the load or with the loaded value. *)
Inductive tracking : Type :=
| AtLoad (count size : Z)
| AtSwap (count size current : Z).

Record EnvelopeAverager : Type := mkAverager {
  storage : Z;
  threads : gmap nat tracking;
  tracked : list (Z * Z)
}.

Definition NewEnvelopeAverager : EnvelopeAverager := mkAverager 0 ∅ [].

Inductive track_step : Type :=
| Call (thread : nat) (count size : Z)
| Load (thread : nat)
| Swap (thread : nat).

(** [tracked] records the arguments of the calls whose swap succeeded, in that order. *)
Definition Track (a : EnvelopeAverager) (s : track_step) : EnvelopeAverager :=
  match s with
  | Call i count size =>
      match threads a !! i with
      | None => mkAverager (storage a) (<[i := AtLoad count size]> (threads a)) (tracked a)
      | Some _ => a
      end
  | Load i =>
      match threads a !! i with
      | Some (AtLoad count size) =>
          mkAverager (storage a) (<[i := AtSwap count size (storage a)]> (threads a)) (tracked a)
      | _ => a
      end
  | Swap i =>
      match threads a !! i with
      | Some (AtSwap count size current) =>
          let newValue := encodeDelta current (Words.uint16 count) (Words.uint64 size) in
          if bool_decide (storage a = current)
          then mkAverager newValue (delete i (threads a)) (tracked a ++ [(count, size)])
          else mkAverager (storage a) (<[i := AtLoad count size]> (threads a)) (tracked a)
      | _ => a
      end
  end.

(** ** Start: one tick *)

Definition float_of (z : Z) : float64 := binary_normalize 53 1024 z 0 false.

Record ticker : Type := mkTicker { prevCount : Z; prevTotal : Z }.

(** The deltas of a tick, and the value [f] is called with. *)
Definition tick_deltas (t : ticker) (current : Z) : Z * Z :=
  let '(count, total) := decode current in
  (Words.sub 16 count (prevCount t), Words.sub 64 total (prevTotal t)).

Definition Start_tick (t : ticker) (current : Z) : ticker * float64 :=
  let '(count, total) := decode current in
  let '(deltaCount, deltaTotal) := tick_deltas t current in
  (mkTicker count total,
   if bool_decide (deltaCount = 0) then float_of 0
   else SFdiv 53 1024 (float_of deltaTotal) (float_of deltaCount)).

(** ** The packed word *)

Lemma decode_packed c t : 0 <= c < 2 ^ 16 -> 0 <= t < 2 ^ 48 -> decode (c * 2 ^ 48 + t) = (c, t).
Proof.
  intros Hc Ht. unfold decode, mask48.
  replace (Z.shiftl (2 ^ 16 - 1) 48) with (Z.shiftl (Z.ones 16) 48) by reflexivity.
  replace (2 ^ 48 - 1) with (Z.ones 48) by reflexivity.
  assert (Z.land (c * 2 ^ 48 + t) (Z.ones 48) = t) as ->.
  { rewrite Z.land_ones by lia. rewrite Z.add_comm, Z_mod_plus_full. by apply Z.mod_small. }
  f_equal. rewrite Z.shiftr_land, Z.shiftr_shiftl_l, Z.sub_diag, Z.shiftl_0_r by lia.
  rewrite Z.land_ones, Z.shiftr_div_pow2 by lia.
  rewrite Z.div_add_l, (Z.div_small t), Z.add_0_r by lia.
  rewrite Z.mod_small by lia. apply Words.wrap_small. lia.
Qed.

Lemma encodeDelta_packed c t count total :
  0 <= c < 2 ^ 16 -> 0 <= t < 2 ^ 48 ->
  encodeDelta (c * 2 ^ 48 + t) count total =
    Words.wrap 16 (count + c) * 2 ^ 48 + Words.wrap 48 (total + t).
Proof.
  intros Hc Ht. unfold encodeDelta. rewrite decode_packed by done.
  pose proof (Words.wrap_bounds 16 (count + c) ltac:(lia)) as B16.
  pose proof (Words.wrap_bounds 48 (total + t) ltac:(lia)) as B48.
  unfold mask48. replace (2 ^ 48 - 1) with (Z.ones 48) by reflexivity.
  rewrite Z.land_ones, Z.shiftl_mul_pow2 by lia. unfold Words.add at 2 3.
  assert (Words.wrap 64 (total + t) mod 2 ^ 48 = Words.wrap 48 (total + t)) as ->.
  { unfold Words.wrap. rewrite Z.mod_mod_divide; [done|]. by exists (2 ^ 16). }
  rewrite (Words.wrap_small 64 (_ * _)) by lia. apply Words.add_small. lia.
Qed.

Definition sum_counts (l : list (Z * Z)) : Z := foldr (fun p n => p.1 + n) 0 l.
Definition sum_sizes (l : list (Z * Z)) : Z := foldr (fun p n => p.2 + n) 0 l.

Definition packed (l : list (Z * Z)) : Z :=
  Words.wrap 16 (sum_counts l) * 2 ^ 48 + Words.wrap 48 (sum_sizes l).

Lemma sums_snoc l c s :
  sum_counts (l ++ [(c, s)]) = sum_counts l + c /\ sum_sizes (l ++ [(c, s)]) = sum_sizes l + s.
Proof. induction l as [|p l [IH1 IH2]]; simpl; lia. Qed.

Lemma packed_snoc l c s :
  encodeDelta (packed l) (Words.uint16 c) (Words.uint64 s) = packed (l ++ [(c, s)]).
Proof.
  unfold packed. rewrite encodeDelta_packed by (apply Words.wrap_bounds; lia).
  destruct (sums_snoc l c s) as [-> ->]. f_equal; [f_equal|].
  - rewrite Words.wrap_add_l, Words.wrap_add_r by lia. f_equal. lia.
  - rewrite Words.wrap_add_r by lia.
    assert (forall x y, Words.wrap 48 (Words.wrap 64 x + y) = Words.wrap 48 (x + y)) as ->.
    { intros x y. unfold Words.wrap.
      rewrite <- (Zplus_mod_idemp_l (x mod 2 ^ 64)), Z.mod_mod_divide by (by exists (2 ^ 16)).
      apply Zplus_mod_idemp_l. }
    f_equal. lia.
Qed.

Lemma Track_packed a s : storage a = packed (tracked a) -> storage (Track a s) = packed (tracked (Track a s)).
Proof.
  intros H. destruct s; simpl; repeat case_match; simpl; try done.
  case_bool_decide as E; simpl; [|done]. rewrite <- packed_snoc, <- H. by rewrite E.
Qed.

Lemma run_packed l : let a := foldl Track NewEnvelopeAverager l in storage a = packed (tracked a).
Proof.
  assert (forall a, storage a = packed (tracked a) ->
    storage (foldl Track a l) = packed (tracked (foldl Track a l))) as G.
  { induction l as [|s l IH]; intros a Ha; simpl; auto using Track_packed. }
  apply G. reflexivity.
Qed.

(** ** Properties *)

(** C25: no call of [Track] is lost.  Under every interleaving of any number of goroutines,
    the packed word always decodes to the sums, modulo 2^16 and 2^48, of the counts and of
    the sizes of exactly the calls that have returned. *)
Theorem averager_no_lost_updates l :
  let a := foldl Track NewEnvelopeAverager l in
  decode (storage a) = (Words.wrap 16 (sum_counts (tracked a)), Words.wrap 48 (sum_sizes (tracked a))).
Proof.
  intros a. unfold a. rewrite run_packed. apply decode_packed; apply Words.wrap_bounds; lia.
Qed.

(** The average of an interval.  Between two ticks with fewer than 2^16 envelopes and
    fewer than 2^48 bytes, the deltas are exactly the envelopes and the bytes tracked in
    between when the 48-bit total does not wrap; when it does, the subtraction is carried
    out at 64 bits and the total delta is too large by 2^64 - 2^48. *)
Theorem averager_interval_deltas l1 l2 :
  let a1 := foldl Track NewEnvelopeAverager l1 in
  let a2 := foldl Track a1 l2 in
  forall new, tracked a2 = tracked a1 ++ new ->
  0 <= sum_counts new < 2 ^ 16 -> 0 <= sum_sizes new < 2 ^ 48 ->
  let t := fst (Start_tick (mkTicker 0 0) (storage a1)) in
  tick_deltas t (storage a2) =
    (sum_counts new,
     if bool_decide (Words.wrap 48 (sum_sizes (tracked a1)) + sum_sizes new < 2 ^ 48)
     then sum_sizes new else sum_sizes new + (2 ^ 64 - 2 ^ 48)).
Proof.
  intros a1 a2 new Hnew Hc Hs t.
  assert (storage a2 = packed (tracked a2)) as P2.
  { unfold a2, a1. rewrite <- foldl_app. apply run_packed. }
  assert (storage a1 = packed (tracked a1)) as P1 by apply run_packed.
  assert (sum_counts (tracked a2) = sum_counts (tracked a1) + sum_counts new /\
          sum_sizes (tracked a2) = sum_sizes (tracked a1) + sum_sizes new) as [Ec Es].
  { rewrite Hnew. unfold sum_counts, sum_sizes. clear. induction (tracked a1) as [|p l [IH1 IH2]]; simpl; lia. }
  unfold t, Start_tick, tick_deltas. rewrite P1, P2. unfold packed.
  rewrite !decode_packed by (apply Words.wrap_bounds; lia). cbn [fst prevCount prevTotal]. f_equal.
  - unfold Words.sub. rewrite Words.wrap_sub_wrap by lia. rewrite Ec.
    replace (sum_counts (tracked a1) + sum_counts new - sum_counts (tracked a1)) with (sum_counts new) by lia.
    by apply Words.wrap_small.
  - rewrite Es. rewrite <- (Words.wrap_add_l 48) by lia.
    pose proof (Words.wrap_bounds 48 (sum_sizes (tracked a1)) ltac:(lia)) as B.
    set (x := Words.wrap 48 (sum_sizes (tracked a1))) in *. unfold Words.sub.
    case_bool_decide as Hw.
    + rewrite (Words.wrap_small 48) by lia. rewrite Words.wrap_small by lia. lia.
    + replace (Words.wrap 48 (x + sum_sizes new)) with (x + sum_sizes new - 2 ^ 48).
      * unfold Words.wrap. replace (x + sum_sizes new - 2 ^ 48 - x) with
          (sum_sizes new + (2 ^ 64 - 2 ^ 48) + (-1) * 2 ^ 64) by lia.
        rewrite Z_mod_plus_full, Z.mod_small by lia. done.
      * unfold Words.wrap. replace (x + sum_sizes new) with (x + sum_sizes new - 2 ^ 48 + 1 * 2 ^ 48) at 2 by lia.
        rewrite Z_mod_plus_full, Z.mod_small by lia. done.
Qed.

Definition one_call (thread : nat) (count size : Z) : list track_step :=
  [Call thread count size; Load thread; Swap thread].

Lemma averager_interval_deltas_witness :
  let a1 := foldl Track NewEnvelopeAverager (one_call 0 3 (2 ^ 48 - 10)) in
  let a2 := foldl Track a1 (Call 1 1 7 :: Load 1 :: one_call 2 2 8 ++ [Swap 1; Load 1; Swap 1]) in
  let t := fst (Start_tick (mkTicker 0 0) (storage a1)) in
  tick_deltas t (storage a2) = (3, 15 + (2 ^ 64 - 2 ^ 48)).
Proof.
  refine (eq_trans (averager_interval_deltas (one_call 0 3 (2 ^ 48 - 10))
    (Call 1 1 7 :: Load 1 :: one_call 2 2 8 ++ [Swap 1; Load 1; Swap 1]) [(2, 8); (1, 7)] _ _ _) _).
  - vm_compute. reflexivity.
  - vm_compute. split; [discriminate|reflexivity].
  - vm_compute. split; [discriminate|reflexivity].
  - vm_compute. reflexivity.
Defined.
