(* ===== verification/Conversion.v ===== *)
(** * plumbing/conversion: v1 and v2 envelopes

    Go maps are references.  [ToV1] writes into the v2 envelope's own tag map and hands the
    same map to the v1 envelope, [ToV2] does the converse, so the preferred tags of both
    envelopes are references into a heap of maps and every write goes through it. *)

From Stdlib Require Import Ascii SpecFloat.
From S2P Require Import Prelude Go Events.

Record Heap : Type := mkHeap { maps : gmap nat (gmap string string); next_map : nat }.

(** The references the envelopes hold; [None] is a nil map. *)
Abbreviation ref := (option nat).
Abbreviation env1 := (V1.EnvelopeOf ref).
Abbreviation env2 := (V2.EnvelopeOf ref).

Definition read (h : Heap) (r : ref) : gmap string string := default ∅ (r ≫= fun i => maps h !! i).

Definition alloc (h : Heap) (m : gmap string string) : Heap * nat :=
  (mkHeap (<[next_map h := m]> (maps h)) (S (next_map h)), next_map h).

Definition update (h : Heap) (i : nat) (f : gmap string string -> gmap string string) : Heap :=
  mkHeap (alter f i (maps h)) (next_map h).

(** [delete(m, k)], a no-op on a nil map, for each key of a list in turn. *)
Definition delete_key (h : Heap) (r : ref) (k : string) : Heap :=
  match r with None => h | Some i => update h i (delete k) end.

Definition delete_keys (h : Heap) (r : ref) (ks : list string) : Heap := foldl (fun h k => delete_key h r k) h ks.

(** [m[k] = v]: an assignment to a nil map panics. *)
Definition assign (h : Heap) (r : ref) (k v : string) : outcome Heap :=
  match r with
  | None => Panics "assignment to entry in nil map"
  | Some i => Returns (update h i (insert k v))
  end.

Section Conversion.
Local Open Scope Z_scope.

(** [fmt.Sprintf("%f", d)], and the enumerations of sonde-go by name. *)
Context (sprintf_f : float64 -> string).
Context (Method_name PeerType_name : Z -> string) (Method_value PeerType_value : string -> Z).

(** ** tov1.go *)

(** [convertTags]' and [getV2Tag]'s reading of a deprecated tag. *)
Definition value_text (v : V2.Value) : option string :=
  match v with
  | V2.Value_Text s => Some s
  | V2.Value_Integer i => Some (Strconv.Itoa i)
  | V2.Value_Decimal d => Some (sprintf_f d)
  | V2.Value_Nil => None
  end.

Definition getV2Tag (h : Heap) (e : env2) (key : string) : string :=
  match read h (V2.Tags e) !! key with
  | Some value => value
  | None =>
      match V2.DeprecatedTags e !! key with
      | Some (Some d) => default EmptyString (value_text d)
      | _ => EmptyString
      end
  end.

(** [convertTags]: the deprecated tags are written into the envelope's own map, or into a
    fresh one when it has none; the result is a reference to that map. *)
Definition convertTags (ord : RangeOrder string) (h : Heap) (e : env2) : Heap * nat :=
  let '(h, oldTags) :=
    match V2.Tags e with Some i => (h, i) | None => alloc h ∅ end in
  (foldl (fun h kv =>
     match (kv : string * option V2.Value).2 ≫= value_text with
     | Some s => update h oldTags (insert kv.1 s)
     | None => h
     end) h (range_map ord (V2.DeprecatedTags e)), oldTags).

Definition createBaseV1 (ord : RangeOrder string) (h : Heap) (e : env2) : Heap * env1 :=
  let origin := getV2Tag h e "origin" in
  let deployment := getV2Tag h e "deployment" in
  let job := getV2Tag h e "job" in
  let index := getV2Tag h e "index" in
  let ip := getV2Tag h e "ip" in
  let '(h, tags) := convertTags ord h e in
  let h := delete_keys h (Some tags)
             ["__v1_type"; "origin"; "deployment"; "job"; "index"; "ip"]%string in
  let h := if Str.empty (V2.SourceId e) then h else update h tags (insert "source_id"%string (V2.SourceId e)) in
  let h := if Str.empty (V2.InstanceId e) then h
           else update h tags (insert "instance_id"%string (V2.InstanceId e)) in
  (h, V1.mkEnvelope (Some origin) None (Some (V2.Timestamp e)) (Some deployment) (Some job)
        (Some index) (Some ip) (Some tags) None None None None None None).

Definition atoi (s : string) : Z := default 0 (Strconv.ParseInt s 64).

Definition set_event (e : env1) (t : V1.EventType) (http : option V1.HttpStartStop)
  (log : option V1.LogMessage) (val : option V1.ValueMetric) (cnt : option V1.CounterEvent)
  (err : option V1.Error) (cm : option V1.ContainerMetric) : env1 :=
  V1.mkEnvelope (V1.Origin e) (Some t) (V1.Timestamp e) (V1.Deployment e) (V1.Job e) (V1.Index e)
    (V1.Ip e) (V1.Tags e) http log val cnt err cm.

(** The bytes of a UUID. *)
Definition hex_digit (a : ascii) : option Z :=
  let n := Z.of_nat (nat_of_ascii a) in
  if bool_decide (48 <= n <= 57) then Some (n - 48)
  else if bool_decide (97 <= n <= 102) then Some (n - 87)
  else if bool_decide (65 <= n <= 70) then Some (n - 55)
  else None.

(** [hex.DecodeString] *)
Fixpoint hex_decode (s : string) : option (list Z) :=
  match s with
  | EmptyString => Some []
  | String a (String b s) =>
      match hex_digit a, hex_digit b, hex_decode s with
      | Some x, Some y, Some l => Some (x * 16 + y :: l)
      | _, _, _ => None
      end
  | String _ EmptyString => None
  end.

(** [s[i:j]] *)
Definition slice (s : string) (i j : nat) : string := Str.take_n (j - i) (Str.drop_n i s).

Definition parseUUID (id : string) : option (list Z) :=
  if bool_decide (String.length id <> 36%nat) then None
  else hex_decode (slice id 0 8 +:+ slice id 9 13 +:+ slice id 14 18 +:+ slice id 19 23 +:+ slice id 24 36).

(** [binary.LittleEndian.Uint64] *)
Fixpoint le_value (l : list Z) : Z := match l with [] => 0 | b :: l => b + 256 * le_value l end.

Definition convertUUID (id : option (list Z)) : V1.UUID :=
  match id with
  | Some l =>
      if bool_decide (length l <> 16%nat) then V1.mkUUID None None
      else V1.mkUUID (Some (le_value (take 8 l))) (Some (le_value (drop 8 l)))
  | None => V1.mkUUID None None
  end.

Definition timer_keys : list string :=
  ["peer_type"; "method"; "request_id"; "uri"; "remote_address"; "user_agent"; "status_code";
   "content_length"; "instance_index"; "routing_instance_id"; "forwarded"]%string.

Definition newline : ascii := ascii_of_nat 10.

Definition convertTimer (h : Heap) (v1e : env1) (e : env2) (timer : V2.Timer) : Heap * env1 :=
  let tag := getV2Tag h e in
  let http := {|
    V1.StartTimestamp := Some (V2.Start timer);
    V1.StopTimestamp := Some (V2.Stop timer);
    V1.RequestId := Some (convertUUID (parseUUID (tag "request_id"%string)));
    V1.ApplicationId := Some (convertUUID (parseUUID (V2.SourceId e)));
    V1.PeerType := Some (PeerType_value (tag "peer_type"%string));
    V1.Method := Some (Method_value (tag "method"%string));
    V1.Uri := Some (tag "uri"%string);
    V1.RemoteAddress := Some (tag "remote_address"%string);
    V1.UserAgent := Some (tag "user_agent"%string);
    V1.StatusCode := Some (Words.int32 (atoi (tag "status_code"%string)));
    V1.ContentLength := Some (atoi (tag "content_length"%string));
    V1.InstanceIndex := Some (Words.int32 (atoi (tag "instance_index"%string)));
    V1.InstanceId := Some (tag "routing_instance_id"%string);
    V1.Forwarded := Str.Split (tag "forwarded"%string) newline |} in
  (delete_keys h (V1.Tags v1e) timer_keys,
   set_event v1e V1.Envelope_HttpStartStop (Some http) None None None None None).

Definition messageType (l : V2.Log) : V1.MessageType :=
  match V2.Type_ l with V2.Log_OUT => V1.LogMessage_OUT | _ => V1.LogMessage_ERR end.

Definition recoverError (h : Heap) (v1e : env1) (e : env2) (log : V2.Log) : Heap * env1 :=
  let code := Words.int32 (atoi (getV2Tag h e "code")) in
  let err := V1.mkError (Some (getV2Tag h e "source")) (Some code) (Some (V2.Payload log)) in
  (delete_keys h (V1.Tags v1e) ["source"; "code"]%string,
   set_event v1e V1.Envelope_Error None None None None (Some err) None).

Definition convertLog (h : Heap) (v1e : env1) (e : env2) (log : V2.Log) : Heap * env1 :=
  if decide (getV2Tag h e "__v1_type" = "Error"%string) then recoverError h v1e e log
  else
    let m := V1.mkLogMessage (V2.Payload log) (Some (messageType log)) (Some (V2.Timestamp e))
               (Some (V2.SourceId e)) (Some (getV2Tag h e "source_type")) (Some (V2.InstanceId e)) in
    (delete_keys h (V1.Tags v1e) ["source_type"]%string,
     set_event v1e V1.Envelope_LogMessage None (Some m) None None None None).

Definition convertCounter (h : Heap) (v1e : env1) (c : V2.Counter) : Heap * env1 :=
  (h, set_event v1e V1.Envelope_CounterEvent None None None
        (Some (V1.mkCounterEvent (Some (V2.c_Name c)) (Some 0) (Some (V2.GetTotal c)))) None None).

(** [int32(f)] and [uint64(f)] of a float: truncation; what is out of range is reduced. *)
Definition trunc (f : float64) : Z :=
  match f with
  | S754_finite s m e =>
      let v := if bool_decide (0 <= e) then Z.pos m * 2 ^ e else Z.pos m / 2 ^ (- e) in
      if s then - v else v
  | _ => 0
  end.

(** [float64(i)] *)
Definition float_of (z : Z) : float64 := binary_normalize 53 1024 z 0 false.

Definition required : list string :=
  ["instance_index"; "cpu"; "memory"; "disk"; "memory_quota"; "disk_quota"]%string.

Definition metric (g : V2.Gauge) (k : string) : option V2.GaugeValue :=
  match V2.Metrics g !! k with Some v => v | None => None end.

Definition tryConvertContainerMetric (ord : RangeOrder string) (h : Heap) (e : env2) (g : V2.Gauge)
  : Heap * option env1 :=
  let '(h, v1e) := createBaseV1 ord h e in
  if bool_decide (size (V2.Metrics g) = 1%nat) then (h, None)
  else if bool_decide (Forall (fun k => is_Some (metric g k)) required) then
    let val k := default (S754_zero false) (V2.g_Value <$> metric g k) in
    let cm := {|
      V1.cm_ApplicationId := Some (V2.SourceId e);
      V1.cm_InstanceIndex := Some (Words.int32 (trunc (val "instance_index"%string)));
      V1.cm_CpuPercentage := Some (val "cpu"%string);
      V1.cm_MemoryBytes := Some (Words.uint64 (trunc (val "memory"%string)));
      V1.cm_DiskBytes := Some (Words.uint64 (trunc (val "disk"%string)));
      V1.cm_MemoryBytesQuota := Some (Words.uint64 (trunc (val "memory_quota"%string)));
      V1.cm_DiskBytesQuota := Some (Words.uint64 (trunc (val "disk_quota"%string))) |} in
    (h, Some (set_event v1e V1.Envelope_ContainerMetric None None None None None (Some cm)))
  else (h, None).

(** The loop of [convertGauge]; a nil metric returns nil for the whole envelope. *)
Fixpoint convertGauge_loop (ord : RangeOrder string) (h : Heap) (e : env2)
  (metrics : list (string * option V2.GaugeValue)) (results : list env1) : Heap * list env1 :=
  match metrics with
  | [] => (h, results)
  | (key, m) :: metrics =>
      let '(h, v1e) := createBaseV1 ord h e in
      match m with
      | None => (h, [])
      | Some m =>
          let vm := V1.mkValueMetric (Some key) (Some (V2.g_Value m)) (Some (V2.Unit_ m)) in
          convertGauge_loop ord h e metrics
            (results ++ [set_event v1e V1.Envelope_ValueMetric None None (Some vm) None None None])
      end
  end.

Definition convertGauge (ord : RangeOrder string) (h : Heap) (e : env2) (g : V2.Gauge)
  : Heap * list env1 :=
  let '(h, o) := tryConvertContainerMetric ord h e g in
  match o with
  | Some v1e => (h, [v1e])
  | None => convertGauge_loop ord h e (range_map ord (V2.Metrics g)) []
  end.

Definition ToV1 (ord : RangeOrder string) (h : Heap) (e : env2) : Heap * list env1 :=
  let '(h, v1e) := createBaseV1 ord h e in
  match V2.Message_ e with
  | Some (V2.Envelope_Log l) => let '(h, v1e) := convertLog h v1e e l in (h, [v1e])
  | Some (V2.Envelope_Counter c) => let '(h, v1e) := convertCounter h v1e c in (h, [v1e])
  | Some (V2.Envelope_Gauge g) => convertGauge ord h e g
  | Some (V2.Envelope_Timer t) => let '(h, v1e) := convertTimer h v1e e t in (h, [v1e])
  | None => (h, [])
  end.

(** ** tov2.go *)

Definition EventType_String (t : V1.EventType) : string :=
  match t with
  | V1.Envelope_HttpStartStop => "HttpStartStop"
  | V1.Envelope_LogMessage => "LogMessage"
  | V1.Envelope_ValueMetric => "ValueMetric"
  | V1.Envelope_CounterEvent => "CounterEvent"
  | V1.Envelope_Error => "Error"
  | V1.Envelope_ContainerMetric => "ContainerMetric"
  | V1.Envelope_Unknown n => Strconv.Itoa n
  end.

Definition with_deprecated (e : env2) (m : gmap string (option V2.Value)) : env2 :=
  V2.mkEnvelope (V2.Timestamp e) (V2.SourceId e) (V2.InstanceId e) m (V2.Tags e) (V2.Message_ e).

(** [setV2Tag] of a value already printed with [%v]. *)
Definition setV2Tag (h : Heap) (e : env2) (key value : string) (usePreferredTags : bool)
  : outcome (Heap * env2) :=
  if usePreferredTags
  then (let! h := assign h (V2.Tags e) key value in Returns (h, e))%go
  else Returns (h, with_deprecated e (<[key := Some (V2.Value_Text value)]> (V2.DeprecatedTags e))).

Definition setV2Tags (pref : bool) (kvs : list (string * string)) (he : Heap * env2)
  : outcome (Heap * env2) :=
  ofold (fun he kv => setV2Tag he.1 he.2 (kv : string * string).1 kv.2 pref) kvs he.

Definition unsetV2Tag (h : Heap) (e : env2) (key : string) : Heap * env2 :=
  (delete_key h (V2.Tags e) key, with_deprecated e (delete key (V2.DeprecatedTags e))).

Definition initTags (ord : RangeOrder string) (h : Heap) (v1e : env1) (e : env2) (pref : bool)
  : outcome (Heap * env2) :=
  if pref then
    let '(h, r) := match V1.Tags v1e with
                   | Some i => (h, Some i)
                   | None => let '(h, i) := alloc h ∅ in (h, Some i)
                   end in
    Returns (h, V2.mkEnvelope (V2.Timestamp e) (V2.SourceId e) (V2.InstanceId e)
                  (V2.DeprecatedTags e) r (V2.Message_ e))
  else
    setV2Tags pref (range_map ord (read h (V1.Tags v1e))) (h, with_deprecated e ∅).

Definition with_source (e : env2) (s : string) : env2 :=
  V2.mkEnvelope (V2.Timestamp e) s (V2.InstanceId e) (V2.DeprecatedTags e) (V2.Tags e) (V2.Message_ e).
Definition with_instance (e : env2) (s : string) : env2 :=
  V2.mkEnvelope (V2.Timestamp e) (V2.SourceId e) s (V2.DeprecatedTags e) (V2.Tags e) (V2.Message_ e).
Definition with_message (e : env2) (m : V2.Message) : env2 :=
  V2.mkEnvelope (V2.Timestamp e) (V2.SourceId e) (V2.InstanceId e) (V2.DeprecatedTags e) (V2.Tags e) (Some m).

Definition str (o : option string) : string := default EmptyString o.
Definition num (o : option Z) : Z := default 0 o.

Definition convertAppID (appID sourceID : string) : string := if Str.empty appID then sourceID else appID.

Definition hex_char (n : Z) : ascii :=
  ascii_of_nat (Z.to_nat (if bool_decide (n < 10) then 48 + n else 87 + n)).

(** The verb [%x] on a byte slice. *)
Fixpoint hex (l : list Z) : string :=
  match l with
  | [] => EmptyString
  | b :: l => String (hex_char (b / 16)) (String (hex_char (b mod 16)) (hex l))
  end.

(** [binary.LittleEndian.PutUint64] *)
Fixpoint le_bytes (n : nat) (z : Z) : list Z :=
  match n with O => [] | S n => z mod 256 :: le_bytes n (z / 256) end.

Definition uuidToString (u : option V1.UUID) : string :=
  let low := le_bytes 8 (num (u ≫= V1.Low)) in
  let high := le_bytes 8 (num (u ≫= V1.High)) in
  hex (take 4 low) +:+ "-" +:+ hex (take 2 (drop 4 low)) +:+ "-" +:+ hex (drop 6 low) +:+ "-" +:+
  hex (take 2 high) +:+ "-" +:+ hex (drop 2 high).

Definition convertAppUUID (appID : option V1.UUID) (sourceID : string) : string :=
  if bool_decide (num (appID ≫= V1.Low) = 0 /\ num (appID ≫= V1.High) = 0) then sourceID
  else uuidToString appID.

Definition convertError (h : Heap) (e : env2) (err : option V1.Error) (pref : bool) : outcome (Heap * env2) :=
  (let! (h, e) := setV2Tags pref [("source"%string, str (err ≫= V1.er_Source));
                                  ("code"%string, Strconv.Itoa (num (err ≫= V1.er_Code)))] (h, e) in
   Returns (h, with_message e (V2.Envelope_Log (V2.mkLog (str (err ≫= V1.er_Message)) V2.Log_OUT))))%go.

Definition convertLogMessageType (t : V1.MessageType) : V2.LogType :=
  match t with
  | V1.LogMessage_OUT => V2.Log_OUT
  | V1.LogMessage_ERR => V2.Log_ERR
  | V1.LogMessage_Other _ => V2.Log_OUT
  end.

Definition convertLogMessage (h : Heap) (e : env2) (m : option V1.LogMessage) (pref : bool)
  : outcome (Heap * env2) :=
  (let! (h, e) := setV2Tag h e "source_type" (str (m ≫= V1.lm_SourceType)) pref in
   let e := with_instance e (str (m ≫= V1.lm_SourceInstance)) in
   let e := with_source e (convertAppID (str (m ≫= V1.lm_AppId)) (V2.SourceId e)) in
   Returns (h, with_message e (V2.Envelope_Log (V2.mkLog
     (default EmptyString (V1.lm_Message <$> m))
     (convertLogMessageType (default V1.LogMessage_OUT (V1.GetMessageType <$> m)))))))%go.

Definition convertHTTPStartStop (h : Heap) (e : env2) (t : option V1.HttpStartStop) (pref : bool)
  : outcome (Heap * env2) :=
  let e := with_source e (convertAppUUID (t ≫= V1.ApplicationId) (V2.SourceId e)) in
  let e := with_message e (V2.Envelope_Timer (V2.mkTimer "http" (num (t ≫= V1.StartTimestamp))
             (num (t ≫= V1.StopTimestamp)))) in
  setV2Tags pref
    [("request_id"%string, uuidToString (t ≫= V1.RequestId));
     ("peer_type"%string, PeerType_name (default 1 (t ≫= V1.PeerType)));
     ("method"%string, Method_name (default 1 (t ≫= V1.Method)));
     ("uri"%string, str (t ≫= V1.Uri));
     ("remote_address"%string, str (t ≫= V1.RemoteAddress));
     ("user_agent"%string, str (t ≫= V1.UserAgent));
     ("status_code"%string, Strconv.Itoa (num (t ≫= V1.StatusCode)));
     ("content_length"%string, Strconv.Itoa (num (t ≫= V1.ContentLength)));
     ("instance_index"%string, Strconv.Itoa (num (t ≫= V1.InstanceIndex)));
     ("routing_instance_id"%string, str (t ≫= V1.InstanceId));
     ("forwarded"%string, Str.Join (default [] (V1.Forwarded <$> t)) newline)] (h, e).

Definition convertValueMetric (e : env2) (m : option V1.ValueMetric) : env2 :=
  with_message e (V2.Envelope_Gauge (V2.mkGauge
    {[ str (m ≫= V1.vm_Name) :=
         Some (V2.mkGaugeValue (str (m ≫= V1.vm_Unit))
           (default (S754_zero false) (m ≫= V1.vm_Value))) ]})).

Definition convertCounterEvent (e : env2) (c : option V1.CounterEvent) : env2 :=
  with_message e (V2.Envelope_Counter (V2.mkCounter (str (c ≫= V1.ce_Name))
    (V2.Counter_Total (num (c ≫= V1.ce_Total))))).

Definition convertContainerMetric (e : env2) (m : option V1.ContainerMetric) : env2 :=
  let e := with_source e (convertAppID (str (m ≫= V1.cm_ApplicationId)) (V2.SourceId e)) in
  let gv unit v := Some (V2.mkGaugeValue unit v) in
  with_message e (V2.Envelope_Gauge (V2.mkGauge (list_to_map
    [("instance_index"%string, gv "index"%string (float_of (num (m ≫= V1.cm_InstanceIndex))));
     ("cpu"%string, gv "percentage"%string (default (S754_zero false) (m ≫= V1.cm_CpuPercentage)));
     ("memory"%string, gv "bytes"%string (float_of (num (m ≫= V1.cm_MemoryBytes))));
     ("disk"%string, gv "bytes"%string (float_of (num (m ≫= V1.cm_DiskBytes))));
     ("memory_quota"%string, gv "bytes"%string (float_of (num (m ≫= V1.cm_MemoryBytesQuota))));
     ("disk_quota"%string, gv "bytes"%string (float_of (num (m ≫= V1.cm_DiskBytesQuota))))]))).

Definition ToV2 (ord : RangeOrder string) (h : Heap) (e : env1) (usePreferredTags : bool)
  : outcome (Heap * env2) :=
  let v2e := V2.mkEnvelope (V1.GetTimestamp e) EmptyString EmptyString ∅ None None in
  (let! (h, v2e) := initTags ord h e v2e usePreferredTags in
   let! (h, v2e) := setV2Tags usePreferredTags
     [("origin"%string, str (V1.Origin e)); ("deployment"%string, str (V1.Deployment e));
      ("job"%string, str (V1.Job e)); ("index"%string, str (V1.Index e)); ("ip"%string, str (V1.Ip e));
      ("__v1_type"%string, EventType_String (V1.GetEventType e))] (h, v2e) in
   let sourceId := read h (V1.Tags e) !! "source_id"%string in
   let v2e := with_source v2e
     (match sourceId with Some s => s | None => str (V1.Deployment e) +:+ "/" +:+ str (V1.Job e) end) in
   let '(h, v2e) := unsetV2Tag h v2e "source_id" in
   let v2e := with_instance v2e (str (read h (V1.Tags e) !! "instance_id"%string)) in
   let '(h, v2e) := unsetV2Tag h v2e "instance_id" in
   match V1.GetEventType e with
   | V1.Envelope_LogMessage => convertLogMessage h v2e (V1.LogMessageF e) usePreferredTags
   | V1.Envelope_HttpStartStop => convertHTTPStartStop h v2e (V1.HttpStartStopF e) usePreferredTags
   | V1.Envelope_ValueMetric => Returns (h, convertValueMetric v2e (V1.ValueMetricF e))
   | V1.Envelope_CounterEvent => Returns (h, convertCounterEvent v2e (V1.CounterEventF e))
   | V1.Envelope_Error => convertError h v2e (V1.ErrorF e) usePreferredTags
   | V1.Envelope_ContainerMetric => Returns (h, convertContainerMetric v2e (V1.ContainerMetricF e))
   | V1.Envelope_Unknown _ => Returns (h, v2e)
   end)%go.

End Conversion.
