(* ===== verification/ConversionRoundTrip.v ===== *)
(** * Round trips through plumbing/conversion

    What survives a v1 envelope's conversion to v2 and back: everything, with the
    deprecated tags; with the preferred tags the shared tag map loses the headers of
    gauges and the type of errors. *)

From Stdlib Require Import Ascii SpecFloat.
From S2P Require Import Prelude Go Events Conversion.
Local Open Scope Z_scope.

(** ** UUIDs *)

Definition byte (b : Z) : Prop := 0 <= b < 256.

Lemma hex_digit_char n : 0 <= n < 16 -> hex_digit (hex_char n) = Some n.
Proof.
  intros Hn. rewrite <- (Z2Nat.id n) by lia. assert (Z.to_nat n < 16)%nat as H by lia. revert H.
  generalize (Z.to_nat n) as k. intros k Hk.
  do 16 (destruct k as [|k]; [reflexivity|]). lia.
Qed.

Lemma hex_round_trip l : Forall byte l -> hex_decode (hex l) = Some l.
Proof.
  induction 1 as [|b l Hb _ IH]; [done|]. cbn [hex hex_decode]. unfold byte in Hb.
  rewrite !hex_digit_char, IH; [|apply Z.mod_pos_bound; lia|].
  - do 2 f_equal. pose proof (Z.div_mod b 16). lia.
  - split; [apply Z.div_pos; lia|]. apply Z.div_lt_upper_bound; lia.
Qed.

Lemma le_bytes_byte n z : Forall byte (le_bytes n z).
Proof. revert z. induction n as [|n IH]; intros z; constructor; [|done]. apply Z.mod_pos_bound. lia. Qed.

Lemma le_bytes_length n z : length (le_bytes n z) = n.
Proof. revert z. induction n as [|n IH]; intros z; simpl; [done|]. by rewrite IH. Qed.

Lemma le_round_trip n z : 0 <= z < 256 ^ Z.of_nat n -> le_value (le_bytes n z) = z.
Proof.
  revert z. induction n as [|n IH]; intros z Hz; cbn [le_bytes le_value].
  - change (256 ^ Z.of_nat 0) with 1 in Hz. lia.
  - rewrite Nat2Z.inj_succ, Z.pow_succ_r in Hz by lia. rewrite IH.
    + pose proof (Z.div_mod z 256). lia.
    + split; [apply Z.div_pos; lia|]. apply Z.div_lt_upper_bound; lia.
Qed.

Lemma parseUUID_hex l h :
  length l = 8%nat -> length h = 8%nat ->
  parseUUID (hex (take 4 l) +:+ "-" +:+ hex (take 2 (drop 4 l)) +:+ "-" +:+ hex (drop 6 l) +:+ "-" +:+
    hex (take 2 h) +:+ "-" +:+ hex (drop 2 h)) = hex_decode (hex (l ++ h)).
Proof.
  intros Hl Hh. do 8 (destruct l as [|? l]; [done|]). destruct l; [|done].
  do 8 (destruct h as [|? h]; [done|]). destruct h; [|done]. reflexivity.
Qed.

Lemma uuid_round_trip u :
  0 <= num (u ≫= V1.Low) < 2 ^ 64 -> 0 <= num (u ≫= V1.High) < 2 ^ 64 ->
  convertUUID (parseUUID (uuidToString u)) =
    V1.mkUUID (Some (num (u ≫= V1.Low))) (Some (num (u ≫= V1.High))).
Proof.
  intros Hl Hh. unfold uuidToString. rewrite parseUUID_hex by apply le_bytes_length.
  rewrite hex_round_trip by (apply Forall_app; split; apply le_bytes_byte). unfold convertUUID.
  rewrite bool_decide_eq_false_2 by (rewrite length_app, !le_bytes_length; lia).
  rewrite take_app_length', drop_app_length' by (by rewrite le_bytes_length).
  by rewrite !le_round_trip.
Qed.

(** ** Integers of at most 53 bits as floats *)

Lemma digits_size p : digits2_pos p = Pos.size p.
Proof. induction p; simpl; congruence. Qed.

Lemma digits_bounds p : 2 ^ (Z.pos (digits2_pos p) - 1) <= Z.pos p < 2 ^ Z.pos (digits2_pos p).
Proof.
  rewrite digits_size. split.
  - pose proof (Pos.size_le p) as H. apply Pos2Z.pos_le_pos in H.
    rewrite Pos2Z.inj_pow in H. replace (Z.pos (Pos.size p)) with (Z.pos (Pos.size p) - 1 + 1) in H by lia.
    rewrite Z.pow_add_r in H by lia. lia.
  - pose proof (Pos.size_gt p) as H. apply Pos2Z.pos_lt_pos in H. by rewrite Pos2Z.inj_pow in H.
Qed.

Lemma iter_xO_value m k : Z.pos (Pos.iter xO m k) = Z.pos m * 2 ^ Z.pos k.
Proof.
  induction k as [|k IH] using Pos.peano_ind; [change (2 ^ 1) with 2; simpl; lia|].
  rewrite Pos.iter_succ, (Pos2Z.inj_succ k), Z.pow_succ_r by lia. lia.
Qed.

Lemma iter_xO_digits m k : Z.pos (digits2_pos (Pos.iter xO m k)) = Z.pos (digits2_pos m) + Z.pos k.
Proof.
  induction k as [|k IH] using Pos.peano_ind; [simpl; lia|].
  rewrite Pos.iter_succ. simpl. lia.
Qed.

(** A mantissa of exactly 53 bits is not rounded. *)
Lemma round_aux_exact s m e :
  Z.pos (digits2_pos m) = 53 -> -1074 <= e <= 971 ->
  binary_round_aux 53 1024 s (Z.pos m) e loc_Exact = S754_finite s m e.
Proof.
  intros Hd He. unfold binary_round_aux, shr_fexp, fexp, emin, Zdigits2. rewrite Hd.
  replace (Z.max (53 + e - 53) (3 - 1024 - 53) - e) with 0 by lia. simpl shr_record_of_loc.
  cbn [shr shr_m loc_of_shr_record round_nearest_even Zdigits2]. rewrite Hd.
  replace (Z.max (53 + e - 53) (3 - 1024 - 53) - e) with 0 by lia. cbn [shr shr_m].
  rewrite (proj2 (Z.leb_le e (1024 - 53))) by lia. done.
Qed.

Lemma trunc_binary_round s m :
  Z.pos m < 2 ^ 53 -> trunc (binary_round 53 1024 s m 0) = if s then Z.neg m else Z.pos m.
Proof.
  intros Hm. pose proof (digits_bounds m) as B. set (d := Z.pos (digits2_pos m)) in *.
  assert (1 <= d <= 53) as Hd.
  { split; [unfold d; lia|]. destruct (decide (d <= 53)); [done|].
    assert (2 ^ 53 <= 2 ^ (d - 1)) by (apply Z.pow_le_mono_r; lia). lia. }
  unfold binary_round, fexp, emin. rewrite Z.add_0_r. fold d.
  replace (Z.max (d - 53) (3 - 1024 - 53)) with (d - 53) by lia. unfold shl_align. rewrite Z.sub_0_r.
  destruct (d - 53) as [|p|p] eqn:E; [|lia|].
  - rewrite round_aux_exact by (fold d; lia). unfold trunc.
    rewrite bool_decide_eq_true_2 by lia. destruct s; simpl; lia.
  - rewrite round_aux_exact by (rewrite ?iter_xO_digits; fold d; lia). unfold trunc.
    rewrite bool_decide_eq_false_2 by lia. rewrite iter_xO_value. simpl (- Z.neg p).
    rewrite Z.div_mul by (apply Z.pow_nonzero; lia). by destruct s.
Qed.

Lemma trunc_float_of z : Z.abs z < 2 ^ 53 -> trunc (float_of z) = z.
Proof. destruct z as [|p|p]; intros H; [done|exact (trunc_binary_round false p H)|exact (trunc_binary_round true p H)]. Qed.

(** ** Maps of tags *)

Definition text_map (m : gmap string string) : gmap string (option V2.Value) :=
  (fun s => Some (V2.Value_Text s)) <$> m.

Definition set_all {V} (kvs : list (string * V)) (m : gmap string V) : gmap string V :=
  foldl (fun m kv => <[kv.1 := kv.2]> m) m kvs.

Definition delete_all {V} (ks : list string) (m : gmap string V) : gmap string V :=
  foldl (fun m k => delete k m) m ks.

Lemma set_all_perm {V} (l : list (string * V)) (T m : gmap string V) :
  l ≡ₚ map_to_list T -> set_all l m = T ∪ m.
Proof.
  assert (forall l : list (string * V), NoDup l.*1 -> forall m, set_all l m = list_to_map l ∪ m) as G.
  { clear. induction l as [|[k v] l IH]; intros Hl m'.
    { change (m' = ∅ ∪ m'). by rewrite map_empty_union. }
    apply NoDup_cons in Hl as [Hk Hl]. cbn [set_all foldl fst snd] in *. unfold set_all in IH. rewrite IH by done.
    cbn [list_to_map foldr uncurry fst snd]. rewrite <- insert_union_l. symmetry.
    apply insert_union_r. by apply not_elem_of_list_to_map_1. }
  intros HP. assert (NoDup l.*1) as HN by (rewrite HP; apply NoDup_fst_map_to_list).
  rewrite G by done. f_equal. rewrite (list_to_map_proper _ (map_to_list T)) by done.
  apply list_to_map_to_list.
Qed.

Lemma set_all_text kvs m :
  set_all ((fun kv : string * string => (kv.1, Some (V2.Value_Text kv.2))) <$> kvs) (text_map m) =
  text_map (set_all kvs m).
Proof.
  revert m. induction kvs as [|[k v] kvs IH]; intros m; [done|]. etrans; [|exact (IH (<[k:=v]> m))].
  unfold text_map. by rewrite (fmap_insert _ m).
Qed.

Lemma delete_all_lookup_ne {V} ks (m : gmap string V) k : k ∉ ks -> delete_all ks m !! k = m !! k.
Proof.
  revert m. induction ks as [|x ks IH]; intros m Hk; [done|]. cbn [delete_all foldl] in *.
  unfold delete_all in IH. rewrite IH by set_solver. apply lookup_delete_ne. set_solver.
Qed.

Lemma set_all_lookup_ne {V} kvs (m : gmap string V) k : k ∉ kvs.*1 -> set_all kvs m !! k = m !! k.
Proof.
  revert m. induction kvs as [|[x v] kvs IH]; intros m Hk; [done|]. cbn [set_all foldl fmap list_fmap fst snd] in *.
  unfold set_all in IH. rewrite IH by set_solver. apply lookup_insert_ne. set_solver.
Qed.

(** Deleting from the map behind a reference. *)
Lemma delete_keys_heap h i ks m :
  maps h !! i = Some m -> delete_keys h (Some i) ks = mkHeap (<[i := delete_all ks m]> (maps h)) (next_map h).
Proof.
  revert h m. induction ks as [|k ks IH]; intros h m Hi; cbn [delete_keys delete_all foldl] in *.
  - rewrite insert_id by done. by destruct h.
  - unfold delete_keys in IH. rewrite (IH _ (delete k m)); simpl; [|by rewrite lookup_alter_eq, Hi].
    f_equal. apply map_eq. intros j. destruct (decide (i = j)) as [->|Hj]; [by rewrite !lookup_insert_eq|].
    rewrite !lookup_insert_ne by done. by rewrite lookup_alter_ne.
Qed.

Lemma update_heap h i f m :
  maps h !! i = Some m -> update h i f = mkHeap (<[i := f m]> (maps h)) (next_map h).
Proof.
  intros Hi. unfold update. f_equal. apply map_eq. intros j. destruct (decide (i = j)) as [->|Hj].
  - by rewrite lookup_alter_eq, Hi, lookup_insert_eq.
  - by rewrite lookup_alter_ne, lookup_insert_ne.
Qed.

Lemma update_cell (M : gmap nat (gmap string string)) i m n f :
  update (mkHeap (<[i := m]> M) n) i f = mkHeap (<[i := f m]> M) n.
Proof. rewrite (update_heap _ _ _ m); simpl; [by rewrite insert_insert_eq|apply lookup_insert_eq]. Qed.

Lemma delete_keys_cell (M : gmap nat (gmap string string)) i m n ks :
  delete_keys (mkHeap (<[i := m]> M) n) (Some i) ks = mkHeap (<[i := delete_all ks m]> M) n.
Proof. rewrite (delete_keys_heap _ _ _ m); simpl; [by rewrite insert_insert_eq|apply lookup_insert_eq]. Qed.

(** ** Conversion to v2 with deprecated tags *)

Definition header_tags (e : env1) : list (string * string) :=
  [("origin"%string, str (V1.Origin e)); ("deployment"%string, str (V1.Deployment e));
   ("job"%string, str (V1.Job e)); ("index"%string, str (V1.Index e)); ("ip"%string, str (V1.Ip e));
   ("__v1_type"%string, EventType_String (V1.GetEventType e))].

(** The heap after [createBaseV1] gave the fresh reference [i] to the tags [m]. *)
Definition fresh_heap (h : Heap) (m : gmap string string) : Heap :=
  mkHeap (<[next_map h := m]> (maps h)) (S (next_map h)).

Definition ids (e : env2) (m : gmap string string) : gmap string string :=
  let m := if Str.empty (V2.SourceId e) then m else <["source_id"%string := V2.SourceId e]> m in
  if Str.empty (V2.InstanceId e) then m else <["instance_id"%string := V2.InstanceId e]> m.

Definition v1_headers : list string := ["__v1_type"; "origin"; "deployment"; "job"; "index"; "ip"]%string.

Lemma setV2Tags_deprecated kvs h (e : env2) :
  setV2Tags false kvs (h, e) =
  Returns (h, with_deprecated e
    (set_all ((fun kv : string * string => (kv.1, Some (V2.Value_Text kv.2))) <$> kvs) (V2.DeprecatedTags e))).
Proof.
  revert e. induction kvs as [|[k v] kvs IH]; intros e; [by destruct e|].
  unfold setV2Tags in *. cbn [ofold setV2Tag fst snd obind]. by rewrite IH.
Qed.

Lemma initTags_deprecated ord h (v1e : env1) (e : env2) :
  initTags ord h v1e e false = Returns (h, with_deprecated e (text_map (read h (V1.Tags v1e)))).
Proof.
  unfold initTags. rewrite setV2Tags_deprecated. do 3 f_equal. simpl. change ∅ with (text_map ∅).
  rewrite set_all_text. f_equal. rewrite (set_all_perm _ (read h (V1.Tags v1e))) by apply range_perm.
  apply map_union_empty.
Qed.

Section RoundTrip.
Context (sprintf_f : float64 -> string).
Context (Method_name PeerType_name : Z -> string) (Method_value PeerType_value : string -> Z).

Lemma getV2Tag_deprecated h (e : env2) m k :
  V2.Tags e = None -> V2.DeprecatedTags e = text_map m -> getV2Tag sprintf_f h e k = str (m !! k).
Proof.
  intros HT HD. unfold getV2Tag. rewrite HT, HD. unfold read. simpl. rewrite lookup_empty.
  unfold text_map. rewrite lookup_fmap. by destruct (m !! k).
Qed.

Lemma convertTags_loop (l : list (string * string)) h i m :
  maps h !! i = Some m ->
  foldl (fun h kv => match (kv : string * option V2.Value).2 ≫= value_text sprintf_f with
                     | Some s => update h i (insert kv.1 s) | None => h end) h
    (prod_map id (fun s => Some (V2.Value_Text s)) <$> l) =
  mkHeap (<[i := set_all l m]> (maps h)) (next_map h).
Proof.
  revert h m. induction l as [|[k v] l IH]; intros h m Hi.
  - cbn. rewrite insert_id by done. by destruct h.
  - cbn [foldl fmap list_fmap prod_map fst snd mbind option_bind value_text id]. rewrite (update_heap _ _ _ m) by done.
    rewrite (IH _ (<[k := v]> m)); simpl; [|by rewrite lookup_insert_eq]. f_equal. by rewrite insert_insert_eq.
Qed.

Lemma convertTags_deprecated ord h (e : env2) m :
  V2.Tags e = None -> V2.DeprecatedTags e = text_map m ->
  convertTags sprintf_f ord h e = (fresh_heap h m, next_map h).
Proof.
  intros HT HD. unfold convertTags. rewrite HT, HD. simpl.
  assert (exists l, range_map ord (text_map m) = prod_map id (fun s => Some (V2.Value_Text s)) <$> l /\
    l ≡ₚ map_to_list m) as (l & -> & Hl).
  { destruct (Permutation_map_inv (prod_map id (fun s => Some (V2.Value_Text s))) (map_to_list m)
      (l1 := range_map ord (text_map m))) as (l & Hl & Hp); [|by exists l].
    rewrite (range_perm ord). unfold text_map. by rewrite map_to_list_fmap. }
  rewrite (convertTags_loop _ _ _ ∅) by (simpl; by rewrite lookup_insert_eq).
  rewrite (set_all_perm _ m) by done. rewrite map_union_empty. unfold fresh_heap. simpl. do 2 f_equal.
  by rewrite insert_insert_eq.
Qed.

Lemma createBaseV1_deprecated ord h (e : env2) m :
  V2.Tags e = None -> V2.DeprecatedTags e = text_map m ->
  createBaseV1 sprintf_f ord h e =
    (fresh_heap h (ids e (delete_all v1_headers m)),
     V1.mkEnvelope (Some (str (m !! "origin"%string))) None (Some (V2.Timestamp e))
       (Some (str (m !! "deployment"%string))) (Some (str (m !! "job"%string)))
       (Some (str (m !! "index"%string))) (Some (str (m !! "ip"%string)))
       (Some (next_map h)) None None None None None None).
Proof.
  intros HT HD. unfold createBaseV1. rewrite (convertTags_deprecated _ _ _ m) by done.
  rewrite !(getV2Tag_deprecated _ _ m) by done. f_equal.
  rewrite (delete_keys_heap _ _ _ m) by (simpl; by rewrite lookup_insert_eq).
  unfold ids, fresh_heap. cbn [maps next_map]. rewrite insert_insert_eq. fold v1_headers.
  destruct (Str.empty (V2.SourceId e)), (Str.empty (V2.InstanceId e)); by rewrite ?update_cell.
Qed.
(** What [ToV2] makes of an envelope whose tags are [T]. *)
Definition event_tags (e : env1) : list (string * string) :=
  match V1.GetEventType e with
  | V1.Envelope_LogMessage => [("source_type"%string, str (V1.LogMessageF e ≫= V1.lm_SourceType))]
  | V1.Envelope_Error =>
      [("source"%string, str (V1.ErrorF e ≫= V1.er_Source));
       ("code"%string, Strconv.Itoa (num (V1.ErrorF e ≫= V1.er_Code)))]
  | V1.Envelope_HttpStartStop =>
      let t := V1.HttpStartStopF e in
      [("request_id"%string, uuidToString (t ≫= V1.RequestId));
       ("peer_type"%string, PeerType_name (default 1 (t ≫= V1.PeerType)));
       ("method"%string, Method_name (default 1 (t ≫= V1.Method)));
       ("uri"%string, str (t ≫= V1.Uri));
       ("remote_address"%string, str (t ≫= V1.RemoteAddress));
       ("user_agent"%string, str (t ≫= V1.UserAgent));
       ("status_code"%string, Strconv.Itoa (num (t ≫= V1.StatusCode)));
       ("content_length"%string, Strconv.Itoa (num (t ≫= V1.ContentLength)));
       ("instance_index"%string, Strconv.Itoa (num (t ≫= V1.InstanceIndex)));
       ("routing_instance_id"%string, str (t ≫= V1.InstanceId));
       ("forwarded"%string, Str.Join (default [] (V1.Forwarded <$> t)) newline)]
  | _ => []
  end.

Definition event_keys (t : V1.EventType) : list string :=
  match t with
  | V1.Envelope_LogMessage => ["source_type"%string]
  | V1.Envelope_Error => ["source"; "code"]%string
  | V1.Envelope_HttpStartStop =>
      ["request_id"; "peer_type"; "method"; "uri"; "remote_address"; "user_agent"; "status_code";
       "content_length"; "instance_index"; "routing_instance_id"; "forwarded"]%string
  | _ => []
  end.

Definition v2_source (e : env1) (T : gmap string string) : string :=
  let base := match T !! "source_id"%string with
              | Some s => s | None => str (V1.Deployment e) +:+ "/" +:+ str (V1.Job e) end in
  match V1.GetEventType e with
  | V1.Envelope_LogMessage => convertAppID (str (V1.LogMessageF e ≫= V1.lm_AppId)) base
  | V1.Envelope_ContainerMetric => convertAppID (str (V1.ContainerMetricF e ≫= V1.cm_ApplicationId)) base
  | V1.Envelope_HttpStartStop => convertAppUUID (V1.HttpStartStopF e ≫= V1.ApplicationId) base
  | _ => base
  end.

Definition v2_instance (e : env1) (T : gmap string string) : string :=
  match V1.GetEventType e with
  | V1.Envelope_LogMessage => str (V1.LogMessageF e ≫= V1.lm_SourceInstance)
  | _ => str (T !! "instance_id"%string)
  end.

Definition blank : env2 := V2.mkEnvelope 0 EmptyString EmptyString ∅ None None.

Definition v2_message (e : env1) : option V2.Message :=
  match V1.GetEventType e with
  | V1.Envelope_LogMessage =>
      Some (V2.Envelope_Log (V2.mkLog (default EmptyString (V1.lm_Message <$> V1.LogMessageF e))
        (convertLogMessageType (default V1.LogMessage_OUT (V1.GetMessageType <$> V1.LogMessageF e)))))
  | V1.Envelope_Error =>
      Some (V2.Envelope_Log (V2.mkLog (str (V1.ErrorF e ≫= V1.er_Message)) V2.Log_OUT))
  | V1.Envelope_HttpStartStop =>
      Some (V2.Envelope_Timer (V2.mkTimer "http" (num (V1.HttpStartStopF e ≫= V1.StartTimestamp))
        (num (V1.HttpStartStopF e ≫= V1.StopTimestamp))))
  | V1.Envelope_ValueMetric => V2.Message_ (convertValueMetric blank (V1.ValueMetricF e))
  | V1.Envelope_CounterEvent => V2.Message_ (convertCounterEvent blank (V1.CounterEventF e))
  | V1.Envelope_ContainerMetric => V2.Message_ (convertContainerMetric blank (V1.ContainerMetricF e))
  | V1.Envelope_Unknown _ => None
  end.

Definition v2_tags (e : env1) (T : gmap string string) : gmap string string :=
  set_all (event_tags e)
    (delete "instance_id"%string (delete "source_id"%string (set_all (header_tags e) T))).

Definition v2_of (e : env1) (T : gmap string string) : env2 :=
  V2.mkEnvelope (V1.GetTimestamp e) (v2_source e T) (v2_instance e T) (text_map (v2_tags e T)) None
    (v2_message e).

Ltac v2_fields :=
  unfold with_deprecated, with_instance, with_source, with_message;
  cbn [V2.DeprecatedTags V2.Timestamp V2.SourceId V2.InstanceId V2.Message_ V2.Tags].

Lemma text_map_delete k m : delete k (text_map m) = text_map (delete k m).
Proof. symmetry. apply fmap_delete. Qed.

Lemma ToV2_deprecated ord h (e : env1) :
  ToV2 Method_name PeerType_name ord h e false = Returns (h, v2_of e (read h (V1.Tags e))).
Proof.
  unfold ToV2. rewrite initTags_deprecated. cbn [obind]. rewrite setV2Tags_deprecated. fold (header_tags e).
  cbn [obind unsetV2Tag delete_key V2.Tags with_source with_deprecated with_instance V2.DeprecatedTags
       V2.Timestamp V2.SourceId V2.InstanceId V2.Message_].
  v2_fields. rewrite set_all_text, !text_map_delete. unfold v2_of, v2_tags, v2_source, v2_instance, v2_message, event_tags.
  destruct (V1.GetEventType e); try reflexivity.
  - unfold convertHTTPStartStop. rewrite setV2Tags_deprecated. v2_fields. by rewrite set_all_text.
  - unfold convertLogMessage, setV2Tag. cbn [obind]. v2_fields. do 3 f_equal.
    symmetry. apply (fmap_insert (fun s => Some (V2.Value_Text s))).
  - unfold convertError. rewrite setV2Tags_deprecated. v2_fields. cbn [obind]. by rewrite set_all_text.
Qed.
Lemma event_tags_keys e : (event_tags e).*1 = event_keys (V1.GetEventType e).
Proof. unfold event_tags. by destruct (V1.GetEventType e). Qed.

Lemma v2_tags_other e T k :
  k ∉ event_keys (V1.GetEventType e) -> k <> "source_id"%string -> k <> "instance_id"%string ->
  v2_tags e T !! k = set_all (header_tags e) T !! k.
Proof.
  intros Hk Hs Hi. unfold v2_tags. rewrite set_all_lookup_ne by (by rewrite event_tags_keys).
  by rewrite !lookup_delete_ne by done.
Qed.

Definition header_of (e : env1) (i : nat) : env1 :=
  V1.mkEnvelope (Some (str (V1.Origin e))) None (Some (V1.GetTimestamp e)) (Some (str (V1.Deployment e)))
    (Some (str (V1.Job e))) (Some (str (V1.Index e))) (Some (str (V1.Ip e))) (Some i)
    None None None None None None.

Definition base_tags (e : env1) (T : gmap string string) : gmap string string :=
  ids (v2_of e T) (delete_all v1_headers (v2_tags e T)).

Lemma header_not_event k t : k ∈ v1_headers -> k ∉ event_keys t.
Proof.
  intros Hk. assert (Forall (fun k => k ∉ event_keys t) v1_headers) as H.
  { apply (bool_decide_unpack _). by destruct t; vm_compute. }
  by eapply Forall_forall in H.
Qed.

Lemma v2_tags_header e T k v :
  k ∈ v1_headers -> set_all (header_tags e) T !! k = Some v -> v2_tags e T !! k = Some v.
Proof.
  intros Hk <-. apply v2_tags_other; [by apply header_not_event| |]; intros ->;
    apply (bool_decide_pack _) in Hk; by vm_compute in Hk.
Qed.

Lemma v2_tags_headers e T :
  str (v2_tags e T !! "origin"%string) = str (V1.Origin e) /\
  str (v2_tags e T !! "deployment"%string) = str (V1.Deployment e) /\
  str (v2_tags e T !! "job"%string) = str (V1.Job e) /\
  str (v2_tags e T !! "index"%string) = str (V1.Index e) /\
  str (v2_tags e T !! "ip"%string) = str (V1.Ip e).
Proof.
  assert (forall k v, bool_decide (k ∈ v1_headers) -> set_all (header_tags e) T !! k = Some v ->
    str (v2_tags e T !! k) = v) as H.
  { intros k v Hk%bool_decide_unpack Hv. by rewrite (v2_tags_header e T k v). }
  split_and!; (apply H; [vm_compute; exact I|]); cbn [set_all header_tags foldl fst snd];
    repeat (rewrite lookup_insert_ne by discriminate); apply lookup_insert_eq.
Qed.

Lemma base_v2_of ord h e T :
  createBaseV1 sprintf_f ord h (v2_of e T) = (fresh_heap h (base_tags e T), header_of e (next_map h)).
Proof.
  rewrite (createBaseV1_deprecated _ _ _ (v2_tags e T)) by done. unfold base_tags, header_of.
  by destruct (v2_tags_headers e T) as (-> & -> & -> & -> & ->).
Qed.

(** ** And back *)

Definition payload_type : Type :=
  option V1.HttpStartStop * option V1.LogMessage * option V1.ValueMetric * option V1.CounterEvent *
  option V1.Error * option V1.ContainerMetric.

Definition payload (e : env1) : payload_type :=
  (V1.HttpStartStopF e, V1.LogMessageF e, V1.ValueMetricF e, V1.CounterEventF e, V1.ErrorF e,
   V1.ContainerMetricF e).

Definition with_payload (e : env1) (t : V1.EventType) (p : payload_type) : env1 :=
  let '(http, log, val, cnt, err, cm) := p in set_event e t http log val cnt err cm.

(** The event [ToV1] builds from [v2_of e T]. *)
Definition recovered (e : env1) (T : gmap string string) : payload_type :=
  match V1.GetEventType e with
  | V1.Envelope_LogMessage =>
      let m := V1.LogMessageF e in
      (None, Some (V1.mkLogMessage (default EmptyString (V1.lm_Message <$> m))
        (Some (match default V1.LogMessage_OUT (V1.GetMessageType <$> m) with
               | V1.LogMessage_ERR => V1.LogMessage_ERR | _ => V1.LogMessage_OUT end))
        (Some (V1.GetTimestamp e)) (Some (v2_source e T)) (Some (str (m ≫= V1.lm_SourceType)))
        (Some (v2_instance e T))), None, None, None, None)
  | V1.Envelope_HttpStartStop =>
      let t := V1.HttpStartStopF e in
      (Some {|
        V1.StartTimestamp := Some (num (t ≫= V1.StartTimestamp));
        V1.StopTimestamp := Some (num (t ≫= V1.StopTimestamp));
        V1.RequestId := Some (convertUUID (parseUUID (uuidToString (t ≫= V1.RequestId))));
        V1.ApplicationId := Some (convertUUID (parseUUID (v2_source e T)));
        V1.PeerType := Some (PeerType_value (PeerType_name (default 1 (t ≫= V1.PeerType))));
        V1.Method := Some (Method_value (Method_name (default 1 (t ≫= V1.Method))));
        V1.Uri := Some (str (t ≫= V1.Uri));
        V1.RemoteAddress := Some (str (t ≫= V1.RemoteAddress));
        V1.UserAgent := Some (str (t ≫= V1.UserAgent));
        V1.StatusCode := Some (Words.int32 (atoi (Strconv.Itoa (num (t ≫= V1.StatusCode)))));
        V1.ContentLength := Some (atoi (Strconv.Itoa (num (t ≫= V1.ContentLength))));
        V1.InstanceIndex := Some (Words.int32 (atoi (Strconv.Itoa (num (t ≫= V1.InstanceIndex)))));
        V1.InstanceId := Some (str (t ≫= V1.InstanceId));
        V1.Forwarded := Str.Split (Str.Join (default [] (V1.Forwarded <$> t)) newline) newline |},
       None, None, None, None, None)
  | V1.Envelope_ValueMetric =>
      let m := V1.ValueMetricF e in
      (None, None, Some (V1.mkValueMetric (Some (str (m ≫= V1.vm_Name)))
        (Some (default (S754_zero false) (m ≫= V1.vm_Value))) (Some (str (m ≫= V1.vm_Unit)))),
       None, None, None)
  | V1.Envelope_CounterEvent =>
      let c := V1.CounterEventF e in
      (None, None, None, Some (V1.mkCounterEvent (Some (str (c ≫= V1.ce_Name))) (Some 0)
        (Some (num (c ≫= V1.ce_Total)))), None, None)
  | V1.Envelope_Error =>
      let r := V1.ErrorF e in
      (None, None, None, None, Some (V1.mkError (Some (str (r ≫= V1.er_Source)))
        (Some (Words.int32 (atoi (Strconv.Itoa (num (r ≫= V1.er_Code))))))
        (Some (str (r ≫= V1.er_Message)))), None)
  | V1.Envelope_ContainerMetric =>
      let m := V1.ContainerMetricF e in
      let bytes z := Some (Words.uint64 (trunc (float_of (num z)))) in
      (None, None, None, None, None, Some {|
        V1.cm_ApplicationId := Some (v2_source e T);
        V1.cm_InstanceIndex := Some (Words.int32 (trunc (float_of (num (m ≫= V1.cm_InstanceIndex)))));
        V1.cm_CpuPercentage := Some (default (S754_zero false) (m ≫= V1.cm_CpuPercentage));
        V1.cm_MemoryBytes := bytes (m ≫= V1.cm_MemoryBytes);
        V1.cm_DiskBytes := bytes (m ≫= V1.cm_DiskBytes);
        V1.cm_MemoryBytesQuota := bytes (m ≫= V1.cm_MemoryBytesQuota);
        V1.cm_DiskBytesQuota := bytes (m ≫= V1.cm_DiskBytesQuota) |})
  | V1.Envelope_Unknown _ => (None, None, None, None, None, None)
  end.

(** The heap after the conversion: the reference [i] is fresh, its map holds the base tags
    less those of the event, and the maps that were there are untouched. *)
Definition converted_heap (h : Heap) (e : env1) (T : gmap string string) (h' : Heap) (i : nat) : Prop :=
  (forall j, (j < next_map h)%nat -> maps h' !! j = maps h !! j) /\
  exists tags, maps h' !! i = Some tags /\
    forall k, k ∉ event_keys (V1.GetEventType e) -> tags !! k = base_tags e T !! k.

Lemma fresh_heap_converted h e T ks :
  (forall k, k ∈ ks -> k ∈ event_keys (V1.GetEventType e)) ->
  converted_heap h e T (delete_keys (fresh_heap h (base_tags e T)) (Some (next_map h)) ks) (next_map h).
Proof.
  intros Hks. unfold fresh_heap. rewrite delete_keys_cell. split; simpl.
  - intros j Hj. apply lookup_insert_ne. lia.
  - eexists. split; [apply lookup_insert_eq|]. intros k Hk. apply delete_all_lookup_ne. auto.
Qed.

Lemma fresh_heap_later h e T h' i :
  (forall j, (j < next_map h)%nat -> maps h' !! j = maps h !! j) -> (next_map h <= next_map h')%nat ->
  i = next_map h' -> converted_heap h e T (fresh_heap h' (base_tags e T)) i.
Proof.
  intros Hold Hle ->. split; simpl.
  - intros j Hj. rewrite lookup_insert_ne by lia. auto.
  - eexists. split; [apply lookup_insert_eq|done].
Qed.
Definition toV1 := ToV1 sprintf_f Method_value PeerType_value.
Definition toV2 := ToV2 Method_name PeerType_name.

Lemma v2_of_tag h e T k : getV2Tag sprintf_f h (v2_of e T) k = str (v2_tags e T !! k).
Proof. by apply getV2Tag_deprecated. Qed.

(** Reads a tag of a known event from the tags of [v2_of]. *)
Ltac event_lookup E :=
  unfold v2_tags, event_tags; rewrite E; cbn [set_all foldl fst snd];
  repeat (rewrite lookup_insert_ne by discriminate); rewrite lookup_insert_eq; cbn [str default].

Lemma v2_of_type h e T : getV2Tag sprintf_f h (v2_of e T) "__v1_type" = EventType_String (V1.GetEventType e).
Proof.
  rewrite v2_of_tag, (v2_tags_header e T _ (EventType_String (V1.GetEventType e))); [done| |].
  - apply (bool_decide_unpack _). by vm_compute.
  - apply lookup_insert_eq.
Qed.

Lemma back_log ord h e T : V1.GetEventType e = V1.Envelope_LogMessage ->
  exists h' i, toV1 ord h (v2_of e T) = (h', [with_payload (header_of e i) (V1.GetEventType e) (recovered e T)]) /\
    converted_heap h e T h' i.
Proof.
  intros E. unfold toV1, ToV1. rewrite base_v2_of.
  assert (v2_message e = Some (V2.Envelope_Log (V2.mkLog (default EmptyString (V1.lm_Message <$> V1.LogMessageF e))
    (convertLogMessageType (default V1.LogMessage_OUT (V1.GetMessageType <$> V1.LogMessageF e)))))) as Hm.
  { unfold v2_message. by rewrite E. }
  cbn [V2.Message_ v2_of]. rewrite Hm. unfold convertLog. rewrite v2_of_type, E.
  rewrite decide_False by discriminate. rewrite v2_of_tag.
  exists (delete_keys (fresh_heap h (base_tags e T)) (Some (next_map h)) ["source_type"]%string), (next_map h).
  split; [|apply fresh_heap_converted; rewrite E; by intros k Hk]. do 2 f_equal.
  unfold recovered. rewrite E. unfold with_payload. f_equal. f_equal. f_equal.
  - unfold messageType. cbn [V2.Type_]. f_equal. by destruct (default V1.LogMessage_OUT _).
  - f_equal. event_lookup E. done.
Qed.

Lemma back_error ord h e T : V1.GetEventType e = V1.Envelope_Error ->
  exists h' i, toV1 ord h (v2_of e T) = (h', [with_payload (header_of e i) (V1.GetEventType e) (recovered e T)]) /\
    converted_heap h e T h' i.
Proof.
  intros E. unfold toV1, ToV1. rewrite base_v2_of.
  assert (v2_message e = Some (V2.Envelope_Log (V2.mkLog (str (V1.ErrorF e ≫= V1.er_Message)) V2.Log_OUT))) as Hm.
  { unfold v2_message. by rewrite E. }
  cbn [V2.Message_ v2_of]. rewrite Hm. unfold convertLog. rewrite v2_of_type, E.
  rewrite decide_True by done. unfold recoverError. rewrite !v2_of_tag.
  exists (delete_keys (fresh_heap h (base_tags e T)) (Some (next_map h)) ["source"; "code"]%string), (next_map h).
  split; [|apply fresh_heap_converted; rewrite E; by intros k Hk]. do 2 f_equal.
  unfold recovered. rewrite E. unfold with_payload. f_equal. f_equal. f_equal; [|f_equal; f_equal; f_equal].
  - f_equal. event_lookup E. done.
  - event_lookup E. done.
Qed.

Lemma back_counter ord h e T : V1.GetEventType e = V1.Envelope_CounterEvent ->
  exists h' i, toV1 ord h (v2_of e T) = (h', [with_payload (header_of e i) (V1.GetEventType e) (recovered e T)]) /\
    converted_heap h e T h' i.
Proof.
  intros E. unfold toV1, ToV1. rewrite base_v2_of.
  assert (v2_message e = V2.Message_ (convertCounterEvent blank (V1.CounterEventF e))) as Hm.
  { unfold v2_message. by rewrite E. }
  cbn [V2.Message_ v2_of]. rewrite Hm. cbn [convertCounterEvent with_message V2.Message_ convertCounter].
  exists (fresh_heap h (base_tags e T)), (next_map h). unfold recovered. rewrite E.
  split; [done|]. by apply (fresh_heap_later h e T h).
Qed.

Lemma back_http ord h e T : V1.GetEventType e = V1.Envelope_HttpStartStop ->
  exists h' i, toV1 ord h (v2_of e T) = (h', [with_payload (header_of e i) (V1.GetEventType e) (recovered e T)]) /\
    converted_heap h e T h' i.
Proof.
  intros E. unfold toV1, ToV1. rewrite base_v2_of.
  assert (v2_message e = Some (V2.Envelope_Timer (V2.mkTimer "http"
    (num (V1.HttpStartStopF e ≫= V1.StartTimestamp)) (num (V1.HttpStartStopF e ≫= V1.StopTimestamp))))) as Hm.
  { unfold v2_message. by rewrite E. }
  cbn [V2.Message_ v2_of]. rewrite Hm. unfold convertTimer. rewrite !v2_of_tag.
  exists (delete_keys (fresh_heap h (base_tags e T)) (Some (next_map h)) timer_keys), (next_map h).
  split.
  - do 2 f_equal. unfold recovered. rewrite E. unfold with_payload. f_equal. f_equal.
    f_equal; try reflexivity; event_lookup E; reflexivity.
  - apply fresh_heap_converted. rewrite E. apply Forall_forall. apply (bool_decide_unpack _). by vm_compute.
Qed.
Lemma range_singleton {V} (ord : RangeOrder string) k (v : V) : range_map ord {[k := v]} = [(k, v)].
Proof. apply Permutation_singleton_r. rewrite (range_perm ord). by rewrite map_to_list_singleton. Qed.

Lemma back_value ord h e T : V1.GetEventType e = V1.Envelope_ValueMetric ->
  exists h' i, toV1 ord h (v2_of e T) = (h', [with_payload (header_of e i) (V1.GetEventType e) (recovered e T)]) /\
    converted_heap h e T h' i.
Proof.
  intros E. unfold toV1, ToV1. rewrite base_v2_of.
  assert (v2_message e = V2.Message_ (convertValueMetric blank (V1.ValueMetricF e))) as Hm.
  { unfold v2_message. by rewrite E. }
  cbn [V2.Message_ v2_of]. rewrite Hm. cbn [convertValueMetric with_message V2.Message_].
  unfold convertGauge, tryConvertContainerMetric. rewrite base_v2_of. cbn [V2.Metrics].
  rewrite map_size_singleton, bool_decide_eq_true_2, range_singleton by done.
  unfold convertGauge_loop. rewrite base_v2_of. unfold recovered. rewrite E.
  eexists _, _. split; [reflexivity|]. apply (fresh_heap_later h e T); [|simpl; lia|done].
  intros j Hj. unfold fresh_heap. simpl. rewrite !lookup_insert_ne by lia. done.
Qed.

Lemma back_container ord h e T : V1.GetEventType e = V1.Envelope_ContainerMetric ->
  exists h' i, toV1 ord h (v2_of e T) = (h', [with_payload (header_of e i) (V1.GetEventType e) (recovered e T)]) /\
    converted_heap h e T h' i.
Proof.
  intros E. unfold toV1, ToV1. rewrite base_v2_of.
  assert (v2_message e = V2.Message_ (convertContainerMetric blank (V1.ContainerMetricF e))) as Hm.
  { unfold v2_message. by rewrite E. }
  cbn [V2.Message_ v2_of]. rewrite Hm. cbn [convertContainerMetric with_message V2.Message_].
  unfold convertGauge, tryConvertContainerMetric. rewrite base_v2_of. cbn [V2.Metrics].
  rewrite bool_decide_eq_false_2 by (by vm_compute).
  rewrite bool_decide_eq_true_2 by (repeat (constructor; [by eexists|]); constructor).
  unfold recovered. rewrite E.
  eexists _, _. split; [reflexivity|]. apply (fresh_heap_later h e T); [|simpl; lia|done].
  intros j Hj. unfold fresh_heap. simpl. rewrite !lookup_insert_ne by lia. done.
Qed.
Definition known (e : env1) : Prop := forall n, V1.GetEventType e <> V1.Envelope_Unknown n.

Lemma back ord h e T : known e ->
  exists h' i, toV1 ord h (v2_of e T) = (h', [with_payload (header_of e i) (V1.GetEventType e) (recovered e T)]) /\
    converted_heap h e T h' i.
Proof.
  intros He. destruct (V1.GetEventType e) eqn:E; [rewrite <- E..|by destruct (He n)].
  - by apply back_http.
  - by apply back_log.
  - by apply back_value.
  - by apply back_counter.
  - by apply back_error.
  - by apply back_container.
Qed.

(** The tags the conversions use for themselves. *)
Definition reserved (t : V1.EventType) : list string :=
  "source_id"%string :: "instance_id"%string :: v1_headers ++ event_keys t.

Definition nonempty (s : string) : option string := if Str.empty s then None else Some s.

Lemma ids_lookup (v : env2) m :
  m !! "source_id"%string = None -> m !! "instance_id"%string = None ->
  ids v m !! "source_id"%string = nonempty (V2.SourceId v) /\
  ids v m !! "instance_id"%string = nonempty (V2.InstanceId v) /\
  forall k, k <> "source_id"%string -> k <> "instance_id"%string -> ids v m !! k = m !! k.
Proof.
  intros Hs Hi. unfold ids, nonempty. split_and!.
  - destruct (Str.empty (V2.SourceId v)), (Str.empty (V2.InstanceId v));
      rewrite ?(lookup_insert_ne _ "instance_id") by done; rewrite ?lookup_insert_eq; done.
  - destruct (Str.empty (V2.InstanceId v)); [|by rewrite lookup_insert_eq].
    destruct (Str.empty (V2.SourceId v)); by rewrite ?(lookup_insert_ne _ "source_id") by done.
  - intros k H1 H2. destruct (Str.empty (V2.SourceId v)), (Str.empty (V2.InstanceId v));
      by rewrite ?lookup_insert_ne by done.
Qed.

Lemma ids_not_event k t : k = "source_id"%string \/ k = "instance_id"%string -> k ∉ event_keys t.
Proof. intros [-> | ->]; apply (bool_decide_unpack _); by destruct t; vm_compute. Qed.

Lemma v2_tags_ids e T :
  v2_tags e T !! "source_id"%string = None /\ v2_tags e T !! "instance_id"%string = None.
Proof.
  unfold v2_tags. split; rewrite set_all_lookup_ne by (rewrite event_tags_keys; apply ids_not_event; auto).
  - rewrite lookup_delete_ne by done. apply lookup_delete_eq.
  - apply lookup_delete_eq.
Qed.

Lemma base_tags_lookup e T :
  base_tags e T !! "source_id"%string = nonempty (v2_source e T) /\
  base_tags e T !! "instance_id"%string = nonempty (v2_instance e T) /\
  forall k, k ∉ reserved (V1.GetEventType e) -> base_tags e T !! k = T !! k.
Proof.
  destruct (v2_tags_ids e T) as [Hs Hi]. unfold base_tags.
  destruct (ids_lookup (v2_of e T) (delete_all v1_headers (v2_tags e T))) as (H1 & H2 & H3).
  - rewrite delete_all_lookup_ne; [done|]. apply (bool_decide_unpack _). by vm_compute.
  - rewrite delete_all_lookup_ne; [done|]. apply (bool_decide_unpack _). by vm_compute.
  - split_and!; [done..|]. intros k Hk. unfold reserved in Hk.
    assert (k <> "source_id"%string /\ k <> "instance_id"%string /\ k ∉ v1_headers /\
      k ∉ event_keys (V1.GetEventType e)) as (? & ? & Hh & ?) by set_solver.
    rewrite H3, delete_all_lookup_ne, v2_tags_other by done. apply set_all_lookup_ne.
    unfold header_tags. cbn. unfold v1_headers in Hh. set_solver.
Qed.
(** ** Properties *)

Definition header (e : env1) : list string * Z :=
  ([str (V1.Origin e); str (V1.Deployment e); str (V1.Job e); str (V1.Index e); str (V1.Ip e)],
   V1.GetTimestamp e).

(** Converting a v1 envelope to v2 with deprecated tags and back yields one envelope
    with the same event type, header fields and user tags; the identity tags carry the
    source and the instance of the v2 envelope.  No tag map that existed before, the
    original envelope's included, is changed. *)
Theorem conversion_keeps_envelope ord h e :
  known e ->
  exists v2e h' e',
    ToV2 Method_name PeerType_name ord h e false = Returns (h, v2e) /\
    ToV1 sprintf_f Method_value PeerType_value ord h v2e = (h', [e']) /\
    V1.GetEventType e' = V1.GetEventType e /\ header e' = header e /\
    (forall k, k ∉ reserved (V1.GetEventType e) ->
      read h' (V1.Tags e') !! k = read h (V1.Tags e) !! k) /\
    read h' (V1.Tags e') !! "source_id"%string = nonempty (V2.SourceId v2e) /\
    read h' (V1.Tags e') !! "instance_id"%string = nonempty (V2.InstanceId v2e) /\
    (forall j, (j < next_map h)%nat -> maps h' !! j = maps h !! j).
Proof.
  intros He. rewrite ToV2_deprecated. set (T := read h (V1.Tags e)).
  destruct (back ord h e T He) as (h' & i & HV & Hold & tags & Hi & Ht).
  destruct (base_tags_lookup e T) as (Hs & Hn & Hk).
  exists (v2_of e T), h', (with_payload (header_of e i) (V1.GetEventType e) (recovered e T)).
  split; [done|]. split; [exact HV|].
  assert (V1.Tags (with_payload (header_of e i) (V1.GetEventType e) (recovered e T)) = Some i) as ->.
  { by destruct (recovered e T) as [[[[[? ?] ?] ?] ?] ?]. }
  assert (read h' (Some i) = tags) as -> by (unfold read; simpl; by rewrite Hi).
  destruct (recovered e T) as [[[[[? ?] ?] ?] ?] ?]. split_and!; try done.
  - intros k Hr. rewrite Ht; [by apply Hk|]. unfold reserved in Hr. set_solver.
  - rewrite Ht; [done|]. apply ids_not_event. auto.
  - rewrite Ht; [done|]. apply ids_not_event. auto.
Qed.

Definition uint64_uuid (u : V1.UUID) : Prop :=
  exists l h, u = V1.mkUUID (Some l) (Some h) /\ 0 <= l < 2 ^ 64 /\ 0 <= h < 2 ^ 64.

Definition int32_range (z : Z) : Prop := - 2 ^ 31 <= z < 2 ^ 31.

(** The events whose fields the v2 envelope can carry. *)
Definition representable (e : env1) : Prop :=
  match V1.GetEventType e with
  | V1.Envelope_LogMessage =>
      exists msg t app st si, (t = V1.LogMessage_OUT \/ t = V1.LogMessage_ERR) /\ app <> EmptyString /\
        payload e = (None, Some (V1.mkLogMessage msg (Some t) (Some (V1.GetTimestamp e)) (Some app)
                      (Some st) (Some si)), None, None, None, None)
  | V1.Envelope_HttpStartStop =>
      exists t start stop rid aid peer meth uri addr agent code len idx inst fwd,
        payload e = (Some t, None, None, None, None, None) /\
        t = V1.mkHttpStartStop (Some start) (Some stop) (Some rid) (Some aid) (Some peer) (Some meth)
              (Some uri) (Some addr) (Some agent) (Some code) (Some len) (Some idx) (Some inst) fwd /\
        uint64_uuid rid /\ uint64_uuid aid /\ aid <> V1.mkUUID (Some 0) (Some 0) /\
        PeerType_value (PeerType_name peer) = peer /\ Method_value (Method_name meth) = meth /\
        int32_range code /\ int32_range idx /\ - 2 ^ 63 <= len < 2 ^ 63 /\
        fwd <> [] /\ Forall (fun w => Str.IndexOf w newline = None) fwd
  | V1.Envelope_ValueMetric =>
      exists n v u, payload e = (None, None, Some (V1.mkValueMetric (Some n) (Some v) (Some u)), None, None, None)
  | V1.Envelope_CounterEvent =>
      exists n t, payload e = (None, None, None, Some (V1.mkCounterEvent (Some n) (Some 0) (Some t)), None, None)
  | V1.Envelope_Error =>
      exists src code msg, int32_range code /\
        payload e = (None, None, None, None, Some (V1.mkError (Some src) (Some code) (Some msg)), None)
  | V1.Envelope_ContainerMetric =>
      exists app idx cpu m d mq dq, app <> EmptyString /\ int32_range idx /\
        Forall (fun z => 0 <= z < 2 ^ 53) [m; d; mq; dq] /\
        payload e = (None, None, None, None, None, Some (V1.mkContainerMetric (Some app) (Some idx)
          (Some cpu) (Some m) (Some d) (Some mq) (Some dq)))
  | V1.Envelope_Unknown _ => False
  end.

Lemma int32_trunc z : int32_range z -> Words.int32 (trunc (float_of z)) = z.
Proof. unfold int32_range. intros H. rewrite trunc_float_of by lia. apply Words.swrap_small; lia. Qed.

Lemma uint64_trunc z : 0 <= z < 2 ^ 53 -> Words.uint64 (trunc (float_of z)) = z.
Proof. intros H. rewrite trunc_float_of by lia. apply Words.wrap_small. lia. Qed.

Lemma atoi_Itoa z : - 2 ^ 63 <= z < 2 ^ 63 -> atoi (Strconv.Itoa z) = z.
Proof. intros H. unfold atoi. by rewrite Strconv.ParseInt_Itoa_signed. Qed.

Lemma int32_atoi z : int32_range z -> Words.int32 (atoi (Strconv.Itoa z)) = z.
Proof. unfold int32_range. intros H. rewrite atoi_Itoa by lia. apply Words.swrap_small; lia. Qed.

Lemma nonempty_app s base : s <> EmptyString -> convertAppID s base = s.
Proof. by destruct s. Qed.

Lemma recovered_http e T : V1.GetEventType e = V1.Envelope_HttpStartStop -> representable e ->
  recovered e T = payload e.
Proof.
  intros E. unfold representable, recovered, v2_source, payload. rewrite E.
  intros (t & start & stop & rid & aid & peer & meth & uri & addr & agent & code & len & idx & inst & fwd &
    Hp & Ht & (rl & rh & -> & Hrl & Hrh) & (al & ah & -> & Hal & Hah) & Hz & Hpeer & Hmeth & Hcode & Hidx &
    Hlen & Hne & Hfwd).
  injection Hp as Hh -> -> -> -> ->. rewrite Hh. subst t. simpl. do 6 f_equal.
  f_equal; f_equal; auto using int32_atoi, atoi_Itoa, Str.Split_Join.
  - by rewrite uuid_round_trip.
  - unfold convertAppUUID. simpl. rewrite bool_decide_eq_false_2 by (intros [-> ->]; done).
    by rewrite uuid_round_trip.
Qed.

Lemma representable_recovered e T : representable e -> recovered e T = payload e.
Proof.
  intros He. destruct (V1.GetEventType e) eqn:E; [by apply recovered_http|..];
    revert He; unfold representable, recovered, v2_source, v2_instance, payload; rewrite E.
  - intros (msg & t & app & st & si & Ht & Happ & Hp). injection Hp as -> -> -> -> -> ->. simpl.
    rewrite nonempty_app by done. by destruct Ht as [-> | ->].
  - intros (n & v & u & Hp). by injection Hp as -> -> -> -> -> ->.
  - intros (n & t & Hp). by injection Hp as -> -> -> -> -> ->.
  - intros (src & code & msg & Hc & Hp). injection Hp as -> -> -> -> -> ->. simpl. by rewrite int32_atoi.
  - intros (app & idx & cpu & m & d & mq & dq & Happ & Hidx & Hb & Hp). injection Hp as -> -> -> -> -> ->.
    rewrite !Forall_cons in Hb. destruct Hb as (? & ? & ? & ? & _). simpl.
    by rewrite nonempty_app, int32_trunc, !uint64_trunc.
  - done.
Qed.

(** ** Preferred tags: both envelopes share one map *)

Definition cell (h : Heap) (i : nat) (m : gmap string string) : Heap :=
  mkHeap (<[i := m]> (maps h)) (next_map h).

Lemma read_cell h i m : read (cell h i m) (Some i) = m.
Proof. unfold read, cell. simpl. by rewrite lookup_insert_eq. Qed.

Lemma cell_update h i m f : update (cell h i m) i f = cell h i (f m).
Proof. apply update_cell. Qed.

Lemma setV2Tags_preferred kvs h i m (e : env2) :
  V2.Tags e = Some i -> setV2Tags true kvs (cell h i m, e) = Returns (cell h i (set_all kvs m), e).
Proof.
  intros He. revert m. induction kvs as [|[k v] kvs IH]; intros m; [done|].
  unfold setV2Tags in *. cbn [ofold setV2Tag fst snd obind]. rewrite He. cbn [assign obind].
  rewrite cell_update. by rewrite IH.
Qed.

Definition v2_shared (e : env1) (T : gmap string string) (i : nat) : env2 :=
  V2.mkEnvelope (V1.GetTimestamp e) (v2_source e T) (v2_instance e T) ∅ (Some i) (v2_message e).

Lemma header_tags_ids e T k : k = "source_id"%string \/ k = "instance_id"%string ->
  set_all (header_tags e) T !! k = T !! k.
Proof.
  intros H. apply set_all_lookup_ne. unfold header_tags. cbn.
  destruct H as [-> | ->]; apply (bool_decide_unpack _); by vm_compute.
Qed.

Lemma ToV2_preferred ord h e i T :
  V1.Tags e = Some i -> maps h !! i = Some T ->
  toV2 ord h e true = Returns (cell h i (v2_tags e T), v2_shared e T i).
Proof.
  intros Ht Hi. unfold toV2, ToV2, initTags. rewrite Ht. cbn [obind].
  assert (h = cell h i T) as Hh by (destruct h; unfold cell; simpl in *; by rewrite insert_id).
  rewrite Hh at 1. rewrite setV2Tags_preferred by done. fold (header_tags e). cbn [obind].
  v2_fields. rewrite read_cell, header_tags_ids by auto. unfold unsetV2Tag. v2_fields. cbn [delete_key].
  rewrite !cell_update.
  rewrite read_cell, lookup_delete_ne, header_tags_ids, !delete_empty by auto. v2_fields.
  unfold v2_shared, v2_tags, v2_source, v2_instance, v2_message, event_tags.
  destruct (V1.GetEventType e); try reflexivity.
  - unfold convertHTTPStartStop. rewrite setV2Tags_preferred by done. by v2_fields.
  - unfold convertLogMessage. unfold setV2Tag. v2_fields. cbn [assign obind]. rewrite cell_update. by v2_fields.
  - unfold convertError. rewrite setV2Tags_preferred by done. by v2_fields.
Qed.

Lemma getV2Tag_preferred h i m (e : env2) k :
  V2.Tags e = Some i -> V2.DeprecatedTags e = ∅ -> getV2Tag sprintf_f (cell h i m) e k = str (m !! k).
Proof.
  intros HT HD. unfold getV2Tag. rewrite HT, HD, read_cell, lookup_empty. by destruct (m !! k).
Qed.

Lemma createBaseV1_preferred ord h i m (e : env2) :
  V2.Tags e = Some i -> V2.DeprecatedTags e = ∅ ->
  createBaseV1 sprintf_f ord (cell h i m) e =
    (cell h i (ids e (delete_all v1_headers m)),
     V1.mkEnvelope (Some (str (m !! "origin"%string))) None (Some (V2.Timestamp e))
       (Some (str (m !! "deployment"%string))) (Some (str (m !! "job"%string)))
       (Some (str (m !! "index"%string))) (Some (str (m !! "ip"%string)))
       (Some i) None None None None None None).
Proof.
  intros HT HD. unfold createBaseV1, convertTags. rewrite !(getV2Tag_preferred _ i) by done. rewrite HT, HD.
  assert (range_map ord (∅ : gmap string (option V2.Value)) = []) as ->.
  { apply Permutation_nil_r. rewrite (range_perm ord). by rewrite map_to_list_empty. }
  cbn [foldl]. f_equal. unfold cell, ids. rewrite delete_keys_cell. fold v1_headers.
  destruct (Str.empty (V2.SourceId e)), (Str.empty (V2.InstanceId e)); by rewrite ?update_cell.
Qed.
Lemma shared_base ord h i e T :
  createBaseV1 sprintf_f ord (cell h i (v2_tags e T)) (v2_shared e T i) =
    (cell h i (ids (v2_shared e T i) (delete_all v1_headers (v2_tags e T))), header_of e i).
Proof.
  rewrite createBaseV1_preferred by done. unfold header_of.
  by destruct (v2_tags_headers e T) as (-> & -> & -> & -> & ->).
Qed.

Definition no_headers (m : gmap string string) : Prop := forall k, k ∈ v1_headers -> m !! k = None.

Lemma delete_all_none {V} ks (m : gmap string V) k : m !! k = None \/ k ∈ ks -> delete_all ks m !! k = None.
Proof.
  revert m. induction ks as [|x ks IH]; intros m H; cbn [delete_all foldl] in *; [set_solver|].
  apply IH. destruct (decide (k = x)) as [->|Hx]; [left; apply lookup_delete_eq|].
  rewrite lookup_delete_ne by done. set_solver.
Qed.

Lemma ids_no_headers (v : env2) m : no_headers (ids v (delete_all v1_headers m)).
Proof.
  intros k Hk. assert (k <> "source_id"%string /\ k <> "instance_id"%string) as [H1 H2].
  { split; intros ->; apply (bool_decide_pack _) in Hk; by vm_compute in Hk. }
  unfold ids. destruct (Str.empty (V2.SourceId v)), (Str.empty (V2.InstanceId v));
    rewrite ?lookup_insert_ne by done; apply delete_all_none; auto.
Qed.

(** A second base envelope is built from a map that has lost its headers. *)
Lemma shared_again ord h i m e T :
  no_headers m ->
  exists m', createBaseV1 sprintf_f ord (cell h i m) (v2_shared e T i) =
    (cell h i m', header_of (V1.mkEnvelope None None (Some (V1.GetTimestamp e)) None None None None (Some i)
                     None None None None None None) i) /\ no_headers m'.
Proof.
  intros Hm. eexists. rewrite createBaseV1_preferred by done. split; [|apply ids_no_headers].
  assert (forall k, bool_decide (k ∈ v1_headers) -> m !! k = None) as H by (intros k Hk%bool_decide_unpack; auto).
  by rewrite !H by (vm_compute; exact I).
Qed.

(** With the preferred tags the v1 and the v2 envelope share one tag map, and the
    conversion back reads what it has already deleted: an error comes back as a log
    message, since its type tag is gone, and a value or container metric comes back with
    empty origin, deployment, job, index and address, since its base envelope is built
    again from the stripped map.  The other events keep their type and header. *)
Theorem conversion_preferred_tags ord h e i T :
  known e -> V1.Tags e = Some i -> maps h !! i = Some T ->
  exists v2e h1 h2 e',
    ToV2 Method_name PeerType_name ord h e true = Returns (h1, v2e) /\
    ToV1 sprintf_f Method_value PeerType_value ord h1 v2e = (h2, [e']) /\
    V2.Tags v2e = Some i /\ V1.Tags e' = Some i /\
    V1.GetEventType e' =
      match V1.GetEventType e with V1.Envelope_Error => V1.Envelope_LogMessage | t => t end /\
    header e' =
      match V1.GetEventType e with
      | V1.Envelope_ValueMetric | V1.Envelope_ContainerMetric => (replicate 5 EmptyString, V1.GetTimestamp e)
      | _ => header e
      end.
Proof.
  intros He Ht Hi. pose proof (ToV2_preferred ord h e i T Ht Hi) as H2. unfold toV2 in H2. rewrite H2.
  set (v := v2_shared e T i). set (m := ids v (delete_all v1_headers (v2_tags e T))).
  assert (no_headers m) as Hm by apply ids_no_headers.
  assert (getV2Tag sprintf_f (cell h i m) v "__v1_type" = EmptyString) as Htype.
  { rewrite getV2Tag_preferred by done. rewrite Hm; [done|]. apply (bool_decide_unpack _). by vm_compute. }
  destruct (shared_again ord h i m e T Hm) as (m1 & H1 & Hm1).
  destruct (shared_again ord h i m1 e T Hm1) as (m2 & H3 & _). fold v in H1, H3.
  unfold ToV1. destruct (V1.GetEventType e) eqn:E; [..|by destruct (He n)];
    eexists v, _, _, _; (split; [done|]); rewrite shared_base; fold v m; cbn [V2.Message_ v v2_shared];
    unfold v2_message; rewrite E; fold (v2_message e) (v2_shared e T i) v.
  - split; [reflexivity|]. by split_and!.
  - unfold convertLog. rewrite Htype, decide_False by discriminate. split; [reflexivity|]. by split_and!.
  - cbn [convertValueMetric with_message V2.Message_]. unfold convertGauge, tryConvertContainerMetric.
    rewrite H1. cbn [V2.Metrics].
    rewrite map_size_singleton, bool_decide_eq_true_2, range_singleton by done. unfold convertGauge_loop.
    rewrite H3. split; [reflexivity|]. by split_and!.
  - split; [reflexivity|]. by split_and!.
  - unfold convertLog. rewrite Htype, decide_False by discriminate. split; [reflexivity|]. by split_and!.
  - cbn [convertContainerMetric with_message V2.Message_]. unfold convertGauge, tryConvertContainerMetric.
    rewrite H1. cbn [V2.Metrics].
    rewrite bool_decide_eq_false_2 by (by vm_compute).
    rewrite bool_decide_eq_true_2 by (repeat (constructor; [by eexists|]); constructor).
    split; [reflexivity|]. by split_and!.
Qed.
End RoundTrip.

(** ** Witnesses *)

Definition example_http : V1.HttpStartStop :=
  V1.mkHttpStartStop (Some 1) (Some 2) (Some (V1.mkUUID (Some 72623859790382856) (Some 651345242494996240)))
    (Some (V1.mkUUID (Some 1) (Some 18446744073709551615))) (Some 2) (Some 1) (Some "/"%string)
    (Some "10.0.0.1:80"%string) (Some "curl"%string) (Some 200) (Some (-1)) (Some 3) (Some "i"%string)
    ["10.0.0.2"; "10.0.0.3"]%string.

Definition example_envelope : env1 :=
  V1.mkEnvelope (Some "origin"%string) (Some V1.Envelope_HttpStartStop) (Some 7) (Some "cf"%string)
    (Some "router"%string) (Some "0"%string) (Some "10.0.0.9"%string) (Some 0%nat) (Some example_http)
    None None None None None.

Definition example_error : env1 :=
  V1.mkEnvelope (Some "origin"%string) (Some V1.Envelope_Error) (Some 7) None None None None (Some 0%nat)
    None None None None (Some (V1.mkError (Some "src"%string) (Some 5) (Some "boom"%string))) None.

Definition example_heap : Heap := mkHeap {[0%nat := {["color"%string := "red"%string]}]} 1.

(** Enumerations printed as numbers. *)
Definition number_name (z : Z) : string := Strconv.Itoa z.
Definition number_value (s : string) : Z := atoi s.

Lemma conversion_keeps_envelope_witness :
  exists v2e h' e',
    ToV2 number_name number_name default_order example_heap example_envelope false = Returns (example_heap, v2e) /\
    ToV1 (fun _ => EmptyString) number_value number_value default_order example_heap v2e = (h', [e']) /\
    V1.GetEventType e' = V1.GetEventType example_envelope /\ header e' = header example_envelope /\
    (forall k, k ∉ reserved (V1.GetEventType example_envelope) ->
      read h' (V1.Tags e') !! k = read example_heap (V1.Tags example_envelope) !! k) /\
    read h' (V1.Tags e') !! "source_id"%string = nonempty (V2.SourceId v2e) /\
    read h' (V1.Tags e') !! "instance_id"%string = nonempty (V2.InstanceId v2e) /\
    (forall j, (j < next_map example_heap)%nat -> maps h' !! j = maps example_heap !! j).
Proof. apply conversion_keeps_envelope. intros n. discriminate. Defined.


Lemma conversion_preferred_tags_witness :
  exists v2e h1 h2 e',
    ToV2 number_name number_name default_order example_heap example_error true = Returns (h1, v2e) /\
    ToV1 (fun _ => EmptyString) number_value number_value default_order h1 v2e = (h2, [e']) /\
    V2.Tags v2e = Some 0%nat /\ V1.Tags e' = Some 0%nat /\
    V1.GetEventType e' = V1.Envelope_LogMessage /\ header e' = header example_error.
Proof.
  apply (conversion_preferred_tags (fun _ => EmptyString) number_name number_name number_value number_value
    default_order example_heap example_error 0 {["color"%string := "red"%string]});
    [intros n; discriminate|reflexivity|reflexivity].
Defined.
