(* ===== verification/MetronV1.v ===== *)
(** * metron, v1: the stages between a datagram and the client pool

    The [EventUnmarshaller] validates datagrams and passes the envelopes to the
    [MessageAggregator], the [Tagger], the [EventMarshaller] and the [GRPCWrapper] over the
    client pool.  The pipeline that app_v1.go builds of them is in [NetworkReader].

    Calls of the metric batcher are recorded in order as name, tags and increment. *)

From Stdlib Require Import Ascii.
From S2P Require Import Prelude Go Events Conversion ConversionRoundTrip.

Abbreviation metric_call := (string * list (string * string) * Z)%type.

Definition BatchIncrementCounter (name : string) : metric_call := (name, [], 1%Z).
Definition BatchAddCounter (name : string) (delta : Z) : metric_call := (name, [], delta).

(** ** ingress/v1/event_unmarshaller.go *)

Module Unmarshaller.

(** [unicode.ToLower] of the first letter, as the [init] function applies it. *)
Definition lower_first (s : string) : string :=
  match s with
  | EmptyString => EmptyString
  | String a s =>
      let n := nat_of_ascii a in
      String (if bool_decide (65 <= n <= 90) then ascii_of_nat (n + 32) else a) s
  end.

(** The map [metricNames]; an unknown type is not in it. *)
Definition metricNames (t : V1.EventType) : string :=
  match t with
  | V1.Envelope_Unknown _ => EmptyString
  | _ => "dropsondeUnmarshaller." +:+ lower_first (EventType_String t) +:+ "Received"
  end.

Definition valid (env : V1.Envelope) : bool :=
  match V1.GetEventType env with
  | V1.Envelope_HttpStartStop => bool_decide (is_Some (V1.HttpStartStopF env))
  | V1.Envelope_LogMessage => bool_decide (is_Some (V1.LogMessageF env))
  | V1.Envelope_ValueMetric => bool_decide (is_Some (V1.ValueMetricF env))
  | V1.Envelope_CounterEvent => bool_decide (is_Some (V1.CounterEventF env))
  | V1.Envelope_Error => bool_decide (is_Some (V1.ErrorF env))
  | V1.Envelope_ContainerMetric => bool_decide (is_Some (V1.ContainerMetricF env))
  | V1.Envelope_Unknown _ => true
  end.

Definition incrementReceiveCount (t : V1.EventType) : list metric_call * option string :=
  let '(name, err) :=
    match t with
    | V1.Envelope_LogMessage => ("dropsondeUnmarshaller.logMessageTotal"%string, None)
    | _ => if Str.empty (metricNames t)
           then ("dropsondeUnmarshaller.unknownEventTypeReceived"%string,
                 Some ("eventUnmarshaller: received unknown event type " +:+ EventType_String t))
           else (metricNames t, None)
    end in
  ([BatchIncrementCounter name;
    ("dropsondeUnmarshaller.receivedEnvelopes"%string,
     [("protocol"%string, "udp"%string); ("event_type"%string, EventType_String t)], 1%Z)], err).

(** [proto.Unmarshal] is an argument. *)
Definition UnmarshallMessage (unmarshal : string -> option V1.Envelope) (message : string)
  : list metric_call * result V1.Envelope :=
  match unmarshal message with
  | None => ([BatchIncrementCounter "dropsondeUnmarshaller.unmarshalErrors"], Err "unmarshal error")
  | Some envelope =>
      if valid envelope then
        let '(calls, err) := incrementReceiveCount (V1.GetEventType envelope) in
        (calls, match err with Some e => Err e | None => Ok envelope end)
      else ([BatchIncrementCounter "dropsondeUnmarshaller.unmarshalErrors"], Err "Invalid Envelope")
  end.

End Unmarshaller.

(** ** egress/v1/message_aggregator.go *)

Module Aggregator.

Record counterID : Type := mkID { origin : string; name : string; tagsHash : string }.

#[global] Instance counterID_eq_dec : EqDecision counterID.
Proof. solve_decision. Defined.

#[global] Instance counterID_countable : Countable counterID.
Proof.
  apply (inj_countable' (fun i => (origin i, name i, tagsHash i)) (fun p => mkID p.1.1 p.1.2 p.2)).
  by intros [].
Defined.

(** [byKey.Less] compares the keys bytewise; [sort.Sort] puts the elements in its order. *)
Definition byKey (p q : string * string) : Prop := String.le p.1 q.1.

#[global] Instance byKey_dec p q : Decision (byKey p q) := decide_rel String.le p.1 q.1.

Definition sort_elements (l : list (string * string)) : list (string * string) := merge_sort byKey l.

Section Hash.
(** The hexadecimal SHA-1 digest of a string. *)
Context (sha1 : string -> string).

Definition hash_elements (l : list (string * string)) : string :=
  foldl (fun hash e => hash +:+ (sha1 (e : string * string).1 +:+ sha1 e.2)) EmptyString l.

Definition hashTags (ord : RangeOrder string) (tags : gmap string string) : string :=
  hash_elements (sort_elements (range_map ord tags)).

Definition countID (ord : RangeOrder string) (e : V1.Envelope) : counterID :=
  mkID (V1.GetOrigin e) (str (V1.CounterEventF e ≫= V1.ce_Name)) (hashTags ord (V1.Tags e)).

Definition GetDelta (e : V1.Envelope) : Z := num (V1.CounterEventF e ≫= V1.ce_Delta).

Definition with_total (e : V1.Envelope) (c : V1.CounterEvent) (total : Z) : V1.Envelope :=
  V1.mkEnvelope (V1.Origin e) (V1.EventTypeF e) (V1.Timestamp e) (V1.Deployment e) (V1.Job e)
    (V1.Index e) (V1.Ip e) (V1.Tags e) (V1.HttpStartStopF e) (V1.LogMessageF e) (V1.ValueMetricF e)
    (Some (V1.mkCounterEvent (V1.ce_Name c) (V1.ce_Delta c) (Some total))) (V1.ErrorF e)
    (V1.ContainerMetricF e).

(** [handleCounter]: a counter envelope without its event is a nil dereference. *)
Definition handleCounter (ord : RangeOrder string) (totals : gmap counterID Z) (e : V1.Envelope)
  : outcome (gmap counterID Z * V1.Envelope) :=
  let id := countID ord e in
  let newVal := Words.add 64 (default 0%Z (totals !! id)) (GetDelta e) in
  match V1.CounterEventF e with
  | None => Panics "nil pointer dereference"
  | Some c => Returns (<[id := newVal]> totals, with_total e c newVal)
  end.

(** [Write], up to the call of the output writer. *)
Definition Write (ord : RangeOrder string) (totals : gmap counterID Z) (e : V1.Envelope)
  : outcome (gmap counterID Z * list metric_call * V1.Envelope) :=
  if decide (V1.GetEventType e = V1.Envelope_CounterEvent) then
    (let! (totals, e) := handleCounter ord totals e in
     Returns (totals, [BatchIncrementCounter "MessageAggregator.counterEventReceived"], e))%go
  else Returns (totals, [], e).

End Hash.
End Aggregator.

(** ** egress/v1/tagger.go *)

Record Tagger : Type := mkTagger { deploymentName : string; job : string; index : string; ip : string }.

Definition setDefaultTags (t : Tagger) (e : V1.Envelope) : V1.Envelope :=
  let or (o : option string) s := match o with None => Some s | Some _ => o end in
  V1.mkEnvelope (V1.Origin e) (V1.EventTypeF e) (V1.Timestamp e) (or (V1.Deployment e) (deploymentName t))
    (or (V1.Job e) (job t)) (or (V1.Index e) (index t)) (or (V1.Ip e) (ip t)) (V1.Tags e)
    (V1.HttpStartStopF e) (V1.LogMessageF e) (V1.ValueMetricF e) (V1.CounterEventF e) (V1.ErrorF e)
    (V1.ContainerMetricF e).

(** ** egress/v1/grpc_wrapper.go *)

(** [conn.Write] answers with an error or not; the chainers are counters with their tags. *)
Definition GRPCWrapper_Write (err : option string) (message : string) (chainers : list (string * list (string * string)))
  : list metric_call * option string :=
  match err with
  | Some e => ([BatchIncrementCounter "grpc.sendErrorCount"], Some e)
  | None =>
      ([BatchIncrementCounter "grpc.sentMessageCount";
        BatchAddCounter "grpc.sentByteCount" (Z.of_nat (String.length message));
        BatchIncrementCounter "DopplerForwarder.sentMessages"] ++
       ((fun c => (c.1, c.2 ++ [("protocol"%string, "grpc"%string)], 1%Z)) <$> chainers), None)
  end.

(** ** egress/v1/event_marshaller.go *)

(** [Write]: what is handed to [conn.Write], if anything, and the metrics.  [conn] is
    [None] while no writer is set. *)
Definition Marshaller_Write (marshal : V1.Envelope -> option string) (conn : option (option string))
  (envelope : V1.Envelope) : list metric_call * option string :=
  match conn with
  | None => ([], None)
  | Some err =>
      match marshal envelope with
      | None => ([BatchIncrementCounter "dropsondeMarshaller.marshalErrors"], None)
      | Some bytes =>
          let '(calls, _) := GRPCWrapper_Write err bytes
            [("dropsondeMarshaller.sentEnvelopes"%string,
              [("event_type"%string, EventType_String (V1.GetEventType envelope))])] in
          (calls, Some bytes)
      end
  end.

(** ** The tag hash *)

Module TagHash.
Import Aggregator.

#[export] Instance byKey_trans : Transitive byKey.
Proof. intros p q r. unfold byKey. intros. by etrans. Qed.

#[export] Instance byKey_total : Total byKey.
Proof. intros p q. apply (total String.le). Qed.

Lemma sort_elements_sorted l : StronglySorted byKey (sort_elements l).
Proof. apply Sorted_StronglySorted; [apply _|]. by apply Sorted_merge_sort, _. Qed.

Lemma sorted_unique (T : gmap string string) l :
  StronglySorted byKey l -> l ≡ₚ map_to_list T -> l = sort_elements (map_to_list T).
Proof.
  intros Hs Hp. assert (sort_elements (map_to_list T) ≡ₚ map_to_list T) as Hm by apply merge_sort_Permutation.
  apply (StronglySorted_unique_strong byKey); [|done|apply sort_elements_sorted|by rewrite Hm].
  intros [k v] [k' v']. rewrite Hp, Hm, !elem_of_map_to_list. unfold byKey. simpl. intros H1 H2 A B.
  assert (k = k') as <- by (by apply (anti_symm String.le)). congruence.
Qed.

(** The elements hashed do not depend on the iteration order. *)
Lemma sort_range ord (T : gmap string string) : sort_elements (range_map ord T) = sort_elements (map_to_list T).
Proof. apply sorted_unique; [apply sort_elements_sorted|]. unfold sort_elements. by rewrite merge_sort_Permutation, (range_perm ord). Qed.

Lemma hashTags_order sha1 ord ord' (T : gmap string string) : hashTags sha1 ord T = hashTags sha1 ord' T.
Proof. unfold hashTags. by rewrite !sort_range. Qed.

Definition element_strings (l : list (string * string)) : list string := l ≫= fun e => [e.1; e.2].

(** Digests have forty digits, and no two of the given strings share one. *)
Definition collision_free (sha1 : string -> string) (S : list string) : Prop :=
  (forall s, String.length (sha1 s) = 40) /\
  forall a b, a ∈ S -> b ∈ S -> sha1 a = sha1 b -> a = b.

Lemma append_inj (a b c d : string) :
  String.length a = String.length c -> a +:+ b = c +:+ d -> a = c /\ b = d.
Proof.
  revert c. induction a as [|x a IH]; intros [|y c] Hl E; try done.
  injection Hl as Hl. injection E as -> E. destruct (IH c Hl E) as [-> ->]. done.
Qed.

Lemma hash_elements_acc sha1 acc l :
  foldl (fun hash e => hash +:+ (sha1 (e : string * string).1 +:+ sha1 e.2)) acc l =
  acc +:+ hash_elements sha1 l.
Proof.
  unfold hash_elements. revert acc. induction l as [|e l IH]; intros acc; cbn [foldl].
  - by rewrite Str.append_nil_r.
  - rewrite IH, (IH (EmptyString +:+ _)). rewrite !Str.append_assoc. done.
Qed.

Lemma hash_elements_cons sha1 e l :
  hash_elements sha1 (e :: l) = sha1 e.1 +:+ (sha1 e.2 +:+ hash_elements sha1 l).
Proof. unfold hash_elements at 1. cbn [foldl]. rewrite hash_elements_acc. by rewrite !Str.append_assoc. Qed.

Lemma hash_elements_inj sha1 S l k :
  collision_free sha1 S -> element_strings l ⊆ S -> element_strings k ⊆ S ->
  hash_elements sha1 l = hash_elements sha1 k -> l = k.
Proof.
  intros [Hlen Hinj] Hl Hk. revert k Hk. induction l as [|[a b] l IH]; intros [|[c d] k] Hk.
  - done.
  - rewrite hash_elements_cons. intros E. apply (f_equal String.length) in E.
    rewrite Str.length_append, Hlen in E. discriminate.
  - rewrite hash_elements_cons. intros E. apply (f_equal String.length) in E.
    rewrite Str.length_append, Hlen in E. discriminate.
  - rewrite !hash_elements_cons. cbn [fst snd]. intros E.
    apply append_inj in E as [E1 E]; [|by rewrite !Hlen]. apply append_inj in E as [E2 E]; [|by rewrite !Hlen].
    cbn [element_strings mbind list_bind fst snd app] in Hl, Hk.
    assert (a = c) as -> by (apply Hinj; [apply Hl|apply Hk|done]; set_solver).
    assert (b = d) as -> by (apply Hinj; [apply Hl|apply Hk|done]; set_solver).
    f_equal. apply IH; [|by intros x Hx; apply Hk; set_solver|done]. intros x Hx. apply Hl. set_solver.
Qed.

Lemma hashTags_inj sha1 ord S (T U : gmap string string) :
  collision_free sha1 S -> element_strings (map_to_list T) ⊆ S -> element_strings (map_to_list U) ⊆ S ->
  hashTags sha1 ord T = hashTags sha1 ord U -> T = U.
Proof.
  intros HS HT HU E. unfold hashTags in E. rewrite !sort_range in E.
  assert (forall V : gmap string string, element_strings (sort_elements (map_to_list V)) ≡ₚ
    element_strings (map_to_list V)) as HP.
  { intros V. unfold element_strings, sort_elements. by rewrite merge_sort_Permutation. }
  apply (hash_elements_inj _ S) in E; [|done| |].
  - assert (map_to_list T ≡ₚ map_to_list U) as P.
    { rewrite <- (merge_sort_Permutation byKey (map_to_list T)), <- (merge_sort_Permutation byKey (map_to_list U)).
      unfold sort_elements in E. by rewrite E. }
    by apply map_to_list_inj in P.
  - intros x Hx. apply HT. by rewrite <- HP.
  - intros x Hx. apply HU. by rewrite <- HP.
Qed.

End TagHash.

(** ** What the pipeline forwards *)

Section Forwarding.
Context (sha1 : string -> string) (ord : RangeOrder string).
Context (unmarshal : string -> option V1.Envelope) (marshal : V1.Envelope -> option string).
Context (tagger : Tagger).
Import Aggregator TagHash.

Definition is_counter (e : V1.Envelope) : bool := bool_decide (V1.GetEventType e = V1.Envelope_CounterEvent).

(** The same counter: origin, name and tags. *)
Definition same_counter (e e' : V1.Envelope) : bool :=
  bool_decide (V1.GetOrigin e = V1.GetOrigin e' /\
    str (V1.CounterEventF e ≫= V1.ce_Name) = str (V1.CounterEventF e' ≫= V1.ce_Name) /\ V1.Tags e = V1.Tags e').

Definition sum_deltas (P : V1.Envelope -> bool) (l : list V1.Envelope) : Z :=
  foldr (fun e n => (if is_counter e && P e then GetDelta e else 0) + n)%Z 0%Z l.

(** The envelope [e] after the envelopes [hist]: a counter's total is the sum of its deltas
    so far, and the tagger fills in what is absent. *)
Definition expected (hist : list V1.Envelope) (e : V1.Envelope) : V1.Envelope :=
  setDefaultTags tagger
    (match V1.CounterEventF e with
     | Some c => if is_counter e
                 then with_total e c (Words.wrap 64 (sum_deltas (same_counter e) hist + GetDelta e))
                 else e
     | None => e
     end).

Fixpoint expected_from (hist es : list V1.Envelope) : list V1.Envelope :=
  match es with
  | [] => []
  | e :: es => expected hist e :: expected_from (hist ++ [e]) es
  end.

Definition accepted (data : string) : option V1.Envelope :=
  match snd (Unmarshaller.UnmarshallMessage unmarshal data) with Ok e => Some e | Err _ => None end.

Definition tag_strings (es : list V1.Envelope) : list string :=
  es ≫= fun e => element_strings (map_to_list (V1.Tags e)).

Lemma sum_deltas_snoc P l e :
  sum_deltas P (l ++ [e]) = (sum_deltas P l + if is_counter e && P e then GetDelta e else 0)%Z.
Proof. induction l as [|x l IH]; simpl; [lia|]. rewrite IH. lia. Qed.

Lemma sum_deltas_ext P Q l : (forall e, e ∈ l -> P e = Q e) -> sum_deltas P l = sum_deltas Q l.
Proof.
  induction l as [|x l IH]; intros H; simpl; [done|]. rewrite IH by set_solver. by rewrite H by set_solver.
Qed.

(** The totals hold, for every identifier, the deltas seen so far. *)
Definition totals_of (hist : list V1.Envelope) (totals : gmap counterID Z) : Prop :=
  forall id, default 0%Z (totals !! id) =
    Words.wrap 64 (sum_deltas (fun e => bool_decide (countID sha1 ord e = id)) hist).

Lemma countID_same S e e' :
  collision_free sha1 S -> tag_strings [e; e'] ⊆ S ->
  bool_decide (countID sha1 ord e' = countID sha1 ord e) = same_counter e e'.
Proof.
  intros HS Hin. apply bool_decide_ext. unfold countID. split.
  - intros [= Ho Hn Ht]. split_and!; [done..|]. symmetry.
    apply (hashTags_inj sha1 ord S); [done| | |done]; intros x Hx; apply Hin; unfold tag_strings; set_solver.
  - intros (-> & -> & ->). done.
Qed.

Lemma aggregator_step hist totals e S :
  collision_free sha1 S -> tag_strings (hist ++ [e]) ⊆ S -> totals_of hist totals -> Unmarshaller.valid e ->
  exists totals' calls e', Aggregator.Write sha1 ord totals e = Returns (totals', calls, e') /\
    totals_of (hist ++ [e]) totals' /\ setDefaultTags tagger e' = expected hist e.
Proof.
  intros HS Hin HT Hv. unfold Aggregator.Write, expected, is_counter. case_decide as Hc.
  - unfold Unmarshaller.valid in Hv. rewrite Hc in Hv. apply bool_decide_unpack in Hv as [c Hv].
    unfold handleCounter. rewrite Hv, bool_decide_eq_true_2 by done. cbn [obind].
    assert (sum_deltas (fun e' => bool_decide (countID sha1 ord e' = countID sha1 ord e)) hist =
      sum_deltas (same_counter e) hist) as Hsum.
    { apply sum_deltas_ext. intros x Hx. apply (countID_same S); [done|]. intros y Hy. apply Hin.
      unfold tag_strings in *. set_solver. }
    rewrite HT, Hsum. unfold Words.add at 2. rewrite Words.wrap_add_l by lia.
    eexists _, _, _. split; [reflexivity|]. split; [|done].
    intros id. rewrite sum_deltas_snoc. unfold is_counter. rewrite (bool_decide_eq_true_2 _ Hc). simpl.
    destruct (decide (countID sha1 ord e = id)) as [<-|Hne].
    + rewrite lookup_insert_eq, bool_decide_eq_true_2 by done. simpl. rewrite Hsum.
      unfold Words.add. by rewrite Words.wrap_add_l by lia.
    + rewrite lookup_insert_ne, bool_decide_eq_false_2 by done. by rewrite HT, Z.add_0_r.
  - eexists _, _, _. split; [reflexivity|]. split.
    + intros id. rewrite sum_deltas_snoc. unfold is_counter. rewrite (bool_decide_eq_false_2 _ Hc). simpl.
      by rewrite HT, Z.add_0_r.
    + rewrite bool_decide_eq_false_2 by done. by destruct (V1.CounterEventF e).
Qed.

Lemma accepted_valid data e : accepted data = Some e -> Unmarshaller.valid e.
Proof.
  unfold accepted, Unmarshaller.UnmarshallMessage. destruct (unmarshal data) as [x|]; [|done].
  destruct (Unmarshaller.valid x) eqn:E; [|done].
  destruct (Unmarshaller.incrementReceiveCount _) as [calls [err|]]; simpl; [done|]. intros [= ->]. by rewrite E.
Qed.

Lemma expected_from_app hist a b :
  expected_from hist (a ++ b) = expected_from hist a ++ expected_from (hist ++ a) b.
Proof.
  revert hist. induction a as [|e a IH]; intros hist; simpl; [by rewrite app_nil_r|].
  rewrite IH. by rewrite <- app_assoc.
Qed.

End Forwarding.

(** A digest that is forty characters long and injective on short strings. *)
Definition pad40 (s : string) : string :=
  Str.take_n 40 (s +:+ "........................................").

Definition example_counter (name : string) (delta : Z) (tags : gmap string string) : V1.Envelope :=
  V1.mkEnvelope (Some "o"%string) (Some V1.Envelope_CounterEvent) None None None None None tags None None None
    (Some (V1.mkCounterEvent (Some name) (Some delta) None)) None None.

(** Datagram "a" carries a counter, "b" the same counter with a tag, "c" an invalid envelope. *)
Definition example_unmarshal (s : string) : option V1.Envelope :=
  if decide (s = "a"%string) then Some (example_counter "requests" 3 ∅)
  else if decide (s = "b"%string) then Some (example_counter "requests" 5 {["k"%string := "v"%string]})
  else if decide (s = "c"%string) then Some (V1.empty_envelope ∅) else None.

Definition example_marshal (e : V1.Envelope) : option string :=
  Some (Strconv.Itoa (num (V1.CounterEventF e ≫= V1.ce_Total))).

Lemma pad40_length s : String.length (pad40 s) = 40.
Proof.
  unfold pad40. do 40 (destruct s as [|? s]; [reflexivity|]). cbn [Str.take_n String.app String.append]. reflexivity.
Qed.
