(* ===== verification/NetworkReader.v ===== *)
(** * metron, v1: the pipeline of app_v1.go

    ingress/v1/network_reader.go and egress/v1/eventwriter.go around the stages of [MetronV1].
    One goroutine reads datagrams into a diode and another takes them out and writes them
    through the pipeline; goroutines that report metron's own metrics write through the same
    pipeline at the same time.  The aggregator's map is locked; tagging, marshalling and the
    connection are not, so a goroutine can overtake another between the two. *)

From S2P Require Import Prelude Go Events Diode Conversion MetronV1.

#[local] Open Scope go_scope.

(** Goroutine 0 runs [StartWriting]; the others emit metrics.  [inside] holds the envelopes
    between the aggregator and the connection; [seen] is what the aggregator was given. *)
Record Agent {D : Type} : Type := mkAgent {
  reading : bool;
  buffer : Tally string D;
  writer : bool;
  counterTotals : gmap Aggregator.counterID Z;
  inside : gmap nat V1.Envelope;
  batched : list metric_call;
  alerts : list metric_call;
  handed : list (nat * string);
  refused : list (nat * string);
  seen : list (nat * V1.Envelope)
}.
Arguments Agent : clear implicits.

Section Pipeline.

Context {D : Type} `{DiodeLaws string D}.
Context (sha1 : string -> string) (ord : RangeOrder string).
Context (unmarshal : string -> option V1.Envelope) (marshal : V1.Envelope -> option string).
Context (tagger : Tagger).

(** [emitter.Wrap] of an event and an origin. *)
Context {Event : Type} (Wrap : Event -> string -> result V1.Envelope).

Definition contextName : string := "dropsondeAgentListener".

(** [AppV1.Start] before the goroutines run. *)
Definition NewAgent : Agent D := mkAgent D true empty_tally false ∅ ∅ [] [] [] [] [].

Definition set_buffer (t : Tally string D) (a : Agent D) : Agent D :=
  mkAgent D (reading a) t (writer a) (counterTotals a) (inside a) (batched a) (alerts a) (handed a) (refused a) (seen a).

Definition add_calls (calls : list metric_call) (a : Agent D) : Agent D :=
  mkAgent D (reading a) (buffer a) (writer a) (counterTotals a) (inside a) (batched a ++ calls) (alerts a) (handed a)
    (refused a) (seen a).

(** The alert of the diode. *)
Definition Alert (missed : nat) (a : Agent D) : Agent D :=
  if bool_decide (missed = 0) then a else
  mkAgent D (reading a) (buffer a) (writer a) (counterTotals a) (inside a) (batched a)
    (alerts a ++ [BatchAddCounter "udp.receiveErrorCount" (Words.uint64 (Z.of_nat missed))]) (handed a) (refused a)
    (seen a).

(** One turn of [StartReading], with the answer of [ReadFrom]. *)
Definition StartReading_turn (read : result string) (a : Agent D) : Agent D :=
  if reading a then
    match read with
    | Err _ =>
        mkAgent D false (buffer a) (writer a) (counterTotals a) (inside a) (batched a) (alerts a) (handed a)
          (refused a) (seen a)
    | Ok readData => set_buffer (put readData (buffer a)) a
    end
  else a.

(** [aggregator.Write] up to its output writer, by the goroutine [g]. *)
Definition aggregate (g : nat) (e : V1.Envelope) (a : Agent D) : outcome (Agent D) :=
  let! p := Aggregator.Write sha1 ord (counterTotals a) e in
  let '(totals, calls, e') := p in
  Returns (mkAgent D (reading a) (buffer a) (writer a) totals (<[g := e']> (inside a)) (batched a ++ calls) (alerts a)
    (handed a) (refused a) (seen a ++ [(g, e)])).

(** The output writer: tagger, marshaller and connection, whose answer is [err]. *)
Definition forward (g : nat) (err : option string) (a : Agent D) : Agent D :=
  match inside a !! g with
  | None => a
  | Some e =>
      let '(calls, bytes) := Marshaller_Write marshal (Some err) (setDefaultTags tagger e) in
      mkAgent D (reading a) (buffer a) (writer a) (counterTotals a) (delete g (inside a)) (batched a ++ calls)
        (alerts a) (handed a ++ ((fun b => (g, b)) <$> option_list bytes)) (refused a) (seen a)
  end.

(** One turn of [StartWriting] up to the output writer; a turn on an empty diode waits. *)
Definition StartWriting_turn (a : Agent D) : outcome (Agent D) :=
  match inside a !! 0 with
  | Some _ => Returns a
  | None =>
      let '(t, missed, x) := take_next (buffer a) in
      let a := Alert missed (set_buffer t a) in
      match x with
      | None => Returns a
      | Some data =>
          let a := add_calls [BatchIncrementCounter (contextName +:+ ".receivedMessageCount");
            BatchAddCounter (contextName +:+ ".receivedByteCount") (Z.of_nat (String.length data))] a in
          let '(calls, r) := Unmarshaller.UnmarshallMessage unmarshal data in
          let a := add_calls calls a in
          match r with
          | Err _ => Returns a
          | Ok e => aggregate 0 e a
          end
      end
  end.

Definition SetWriter (a : Agent D) : Agent D :=
  mkAgent D (reading a) (buffer a) true (counterTotals a) (inside a) (batched a) (alerts a) (handed a) (refused a) (seen a).

Definition refuse (g : nat) (err : string) (a : Agent D) : Agent D :=
  mkAgent D (reading a) (buffer a) (writer a) (counterTotals a) (inside a) (batched a) (alerts a) (handed a)
    (refused a ++ [(g, err)]) (seen a).

Definition EmitEnvelope (g : nat) (e : V1.Envelope) (a : Agent D) : outcome (Agent D) :=
  if writer a then aggregate g e a
  else Returns (refuse g "EventWriter: No envelope writer set (see SetWriter)" a).

Definition Emit (g : nat) (event : Event) (a : Agent D) : outcome (Agent D) :=
  match Wrap event "MetronAgent" with
  | Err err => Returns (refuse g err a)
  | Ok envelope => EmitEnvelope g envelope a
  end.

(** ** Executions *)

Inductive agent_event : Type :=
| Datagram (read : result string)
| Deliver
| Attach
| Report (g : nat) (event : Event)
| Forward (g : nat) (err : option string).

Definition agent_step (a : Agent D) (ev : agent_event) : outcome (Agent D) :=
  match ev with
  | Datagram read => Returns (StartReading_turn read a)
  | Deliver => StartWriting_turn a
  | Attach => Returns (SetWriter a)
  | Report g event =>
      match inside a !! S g with
      | Some _ => Returns a
      | None => Emit (S g) event a
      end
  | Forward g err => Returns (forward g err a)
  end.

Definition agent_run (l : list agent_event) : outcome (Agent D) := ofold agent_step l NewAgent.

(** ** What the goroutines forward *)

(** The envelopes of the goroutine [g], as the pipeline forwards them. *)
Definition due (g : nat) (l : list (nat * V1.Envelope)) : list V1.Envelope :=
  (filter (fun p => p.1 = g) (zip l.*1 (expected_from tagger [] l.*2))).*2.

Definition handed_by (g : nat) (a : Agent D) : list string := (filter (fun p => p.1 = g) (handed a)).*2.

(** What [g] holds, as it will be handed over. *)
Definition held (g : nat) (a : Agent D) : list V1.Envelope := option_list (setDefaultTags tagger <$> inside a !! g).

(** The reader has given the envelopes [r] to the aggregator. *)
Record AgentInv (S : list string) (r : list V1.Envelope) (a : Agent D) : Prop := {
  agent_tally : tally_ok (buffer a);
  agent_totals : totals_of sha1 ord (seen a).*2 (counterTotals a);
  agent_due g : handed_by g a ++ omap marshal (held g a) = omap marshal (due g (seen a));
  agent_reader : (filter (fun p => p.1 = 0) (seen a)).*2 = r;
  agent_tags : tag_strings (seen a).*2 ⊆ S;
  agent_offers data e : data ∈ offered (buffer a) -> accepted unmarshal data = Some e -> tag_strings [e] ⊆ S;
  agent_alerts : Words.uint64 (foldr Z.add 0 ((fun c => c.2) <$> alerts a))%Z = Words.uint64 (Z.of_nat (missed (buffer a)))
}.

Lemma expected_from_length hist es : length (expected_from tagger hist es) = length es.
Proof. revert hist. induction es as [|e es IH]; intros hist; simpl; [done|]. by rewrite IH. Qed.

Lemma due_snoc g l g' e :
  due g (l ++ [(g', e)]) = due g l ++ if decide (g' = g) then [expected tagger l.*2 e] else [].
Proof.
  unfold due. rewrite !fmap_app. simpl. rewrite expected_from_app. simpl.
  rewrite zip_with_app by (by rewrite expected_from_length, !length_fmap).
  rewrite filter_app, fmap_app. f_equal. simpl. case_decide as E.
  - by rewrite filter_cons_True.
  - by rewrite filter_cons_False.
Qed.

Lemma Marshaller_bytes err e : snd (Marshaller_Write marshal (Some err) e) = marshal e.
Proof. unfold Marshaller_Write. destruct (marshal e); [|done]. by destruct (GRPCWrapper_Write _ _ _). Qed.

Lemma tag_strings_app l k : tag_strings (l ++ k) = tag_strings l ++ tag_strings k.
Proof. apply bind_app. Qed.

(** An idle goroutine gives an envelope to the aggregator. *)
Lemma aggregate_Inv S r g e a :
  TagHash.collision_free sha1 S -> tag_strings [e] ⊆ S -> Unmarshaller.valid e -> inside a !! g = None ->
  AgentInv S r a ->
  exists a', aggregate g e a = Returns a' /\ buffer a' = buffer a /\
    AgentInv S (r ++ if decide (g = 0) then [e] else []) a'.
Proof.
  intros HS Hin Hv Hg [Ht HT Hdue Hr Htg Ho Hal]. unfold aggregate.
  assert (tag_strings ((seen a).*2 ++ [e]) ⊆ S) as Htg'.
  { rewrite tag_strings_app. intros x [Hx|Hx]%elem_of_app; [by apply Htg|by apply Hin]. }
  destruct (aggregator_step sha1 ord unmarshal marshal tagger (seen a).*2 (counterTotals a) e S HS Htg' HT Hv)
    as (totals & calls & e' & HW & HT' & He).
  rewrite HW. cbn [obind]. eexists. split; [done|]. split; [done|]. split; cbn [seen counterTotals buffer alerts]; try done.
  - by rewrite fmap_app.
  - intros g'. rewrite due_snoc, omap_app, <- (Hdue g'). unfold held, handed_by. cbn [inside handed].
    rewrite <- app_assoc. f_equal. case_decide as E.
    + subst g'. rewrite lookup_insert_eq, Hg. simpl. by rewrite He.
    + rewrite lookup_insert_ne by done. by rewrite app_nil_r.
  - rewrite filter_app, fmap_app, Hr. f_equal. case_decide; [by rewrite filter_cons_True|by rewrite filter_cons_False].
  - by rewrite fmap_app.
Qed.

Lemma forward_due g err a :
  (forall g, handed_by g a ++ omap marshal (held g a) = omap marshal (due g (seen a))) ->
  forall g', handed_by g' (forward g err a) ++ omap marshal (held g' (forward g err a)) = omap marshal (due g' (seen a)).
Proof.
  intros Hdue g'. unfold forward. destruct (inside a !! g) as [e|] eqn:E; [|done].
  pose proof (Marshaller_bytes err (setDefaultTags tagger e)) as Hb.
  destruct (Marshaller_Write marshal (Some err) (setDefaultTags tagger e)) as [calls bytes]. simpl in Hb. subst bytes.
  rewrite <- (Hdue g'). unfold handed_by, held. cbn [handed inside]. rewrite filter_app, fmap_app, <- app_assoc. f_equal.
  destruct (decide (g' = g)) as [->|Hne].
  - rewrite lookup_delete_eq, E. simpl. destruct (marshal _); simpl; [by rewrite filter_cons_True|done].
  - rewrite lookup_delete_ne by done. destruct (marshal _) as [b|]; simpl; [by rewrite filter_cons_False|done].
Qed.

(** Events whose envelopes have tags among [S]. *)
Definition tags_in (S : list string) (ev : agent_event) : Prop :=
  match ev with
  | Datagram (Ok data) => forall e, accepted unmarshal data = Some e -> tag_strings [e] ⊆ S
  | Report _ event => forall e, Wrap event "MetronAgent" = Ok e -> tag_strings [e] ⊆ S
  | _ => True
  end.

(** Taking a datagram out of the diode. *)
Lemma take_Inv S r a t k x :
  take_next (buffer a) = (t, k, x) -> AgentInv S r a ->
  AgentInv S r (Alert k (set_buffer t a)) /\ buffer (Alert k (set_buffer t a)) = t /\
  inside (Alert k (set_buffer t a)) = inside a /\ offered t = offered (buffer a) /\
  taken t = taken (buffer a) ++ option_list x.
Proof.
  intros Et [Ht HT Hd Hr Htg Ho Hal]. pose proof (take_next_ok _ _ _ _ Ht Et) as Ht'.
  assert (offered t = offered (buffer a) /\ taken t = taken (buffer a) ++ option_list x /\
    missed t = missed (buffer a) + k) as (E1 & E2 & E3).
  { unfold take_next in Et. destruct (TryNext _) as [[d n] o]. by simplify_eq/=. }
  unfold Alert. case_bool_decide as Ek; (split; [|done]); split; simpl; try done; rewrite ?E1; try done.
  - by rewrite E3, Ek, Nat.add_0_r.
  - rewrite fmap_app, foldr_app. simpl.
    assert (forall l z, foldr Z.add z l = (foldr Z.add 0 l + z)%Z) as Hf by (induction l; intros; simpl; [lia|rewrite IHl; lia]).
    rewrite Hf, Z.add_0_r. rewrite <- Words.wrap_add_l, Hal by lia. rewrite Words.wrap_add_l, Words.wrap_add_r by lia.
    f_equal. lia.
Qed.

Lemma add_calls_Inv S r calls a : AgentInv S r a -> AgentInv S r (add_calls calls a).
Proof. by intros []. Qed.

Lemma deliver_Inv S a :
  TagHash.collision_free sha1 S -> AgentInv S (omap (accepted unmarshal) (taken (buffer a))) a ->
  exists a', StartWriting_turn a = Returns a' /\ AgentInv S (omap (accepted unmarshal) (taken (buffer a'))) a'.
Proof.
  intros HS Ha. unfold StartWriting_turn. destruct (inside a !! 0) as [e|] eqn:E0; [eauto|].
  destruct (take_next (buffer a)) as [[t k] x] eqn:Et.
  destruct (take_Inv S _ a t k x Et Ha) as (Ha1 & F1 & F2 & F3 & F4). set (a1 := Alert k (set_buffer t a)) in *.
  destruct x as [data|].
  2:{ exists a1. split; [done|]. by rewrite F1, F4, app_nil_r. }
  pose proof (accepted_valid unmarshal data) as Hv.
  destruct (Unmarshaller.UnmarshallMessage unmarshal data) as [calls [e|err]] eqn:Eu.
  - assert (accepted unmarshal data = Some e) as Ea by (unfold accepted; by rewrite Eu).
    destruct (aggregate_Inv S (omap (accepted unmarshal) (taken (buffer a))) 0 e
      (add_calls calls (add_calls [BatchIncrementCounter (contextName +:+ ".receivedMessageCount");
            BatchAddCounter (contextName +:+ ".receivedByteCount") (Z.of_nat (String.length data))] a1)))
      as (a' & -> & Hb & Ha'); [done| |by apply Hv|by simpl; rewrite F2|by apply add_calls_Inv, add_calls_Inv|].
    { eapply (agent_offers _ _ _ Ha1); [|exact Ea]. rewrite F1, F3.
      assert (data ∈ taken t) as Hin by (rewrite F4; set_solver).
      assert (tally_ok t) as [Hto _] by (rewrite <- F1; apply Ha1). rewrite <- F3.
      eapply elem_of_submseteq; [|by apply sublist_submseteq]. set_solver. }
    exists a'. split; [done|]. rewrite Hb. simpl. rewrite F1, F4, omap_app. simpl. by rewrite Ea.
  - exists (add_calls calls (add_calls [BatchIncrementCounter (contextName +:+ ".receivedMessageCount");
            BatchAddCounter (contextName +:+ ".receivedByteCount") (Z.of_nat (String.length data))] a1)).
    split; [done|]. apply add_calls_Inv, add_calls_Inv. simpl. rewrite F1, F4, omap_app. simpl.
    unfold accepted at 2. rewrite Eu. simpl. by rewrite app_nil_r.
Qed.

(** The datagrams read, up to the first error of the socket. *)
Fixpoint datagrams (l : list agent_event) : list string :=
  match l with
  | [] => []
  | Datagram (Ok data) :: l => data :: datagrams l
  | Datagram (Err _) :: _ => []
  | _ :: l => datagrams l
  end.

(** The envelopes an execution may give to the aggregator. *)
Definition envelopes (l : list agent_event) : list V1.Envelope :=
  omap (fun ev => match ev with
    | Datagram (Ok data) => accepted unmarshal data
    | Report _ event => match Wrap event "MetronAgent" with Ok e => Some e | Err _ => None end
    | _ => None
    end) l.

Section Run.

(** A wrapped event has the payload of its type. *)
Context (Wrap_valid : forall event e, Wrap event "MetronAgent" = Ok e -> Unmarshaller.valid e).

Abbreviation Inv T a := (AgentInv T (omap (accepted unmarshal) (taken (buffer a))) a).

Lemma agent_step_Inv T a ev :
  TagHash.collision_free sha1 T -> tags_in T ev -> Inv T a -> exists a', agent_step a ev = Returns a' /\ Inv T a'.
Proof.
  intros HS Hev Ha. destruct ev as [read| | |g event|g err]; simpl.
  - eexists. split; [done|]. unfold StartReading_turn. destruct (reading a); [|done]. destruct read as [data|err].
    + destruct Ha as [Ht HT Hd Hr Htg Ho Hal]. split; simpl; try done; [by apply put_ok|].
      intros data' e [Hin| ->%list_elem_of_singleton]%elem_of_app He; [by eapply Ho|by apply Hev].
    + by destruct Ha.
  - by apply deliver_Inv.
  - eexists. split; [done|]. by destruct Ha.
  - destruct (inside a !! S g) as [x|] eqn:E; [eauto|]. unfold Emit. simpl in Hev. pose proof (Wrap_valid event) as Hv.
    destruct (Wrap event "MetronAgent") as [e|err]; [|eexists; split; [done|]; by destruct Ha].
    unfold EmitEnvelope. destruct (writer a); [|eexists; split; [done|]; by destruct Ha].
    destruct (aggregate_Inv T _ (S g) e a HS (Hev e eq_refl) (Hv e eq_refl) E Ha) as (a' & -> & Hb & Ha').
    exists a'. split; [done|]. rewrite Hb. simpl in Ha'. by rewrite app_nil_r in Ha'.
  - eexists. split; [done|]. pose proof (forward_due g err a (agent_due _ _ _ Ha)) as Hd.
    unfold forward in *. destruct (inside a !! g) as [e|]; [|done]. destruct (Marshaller_Write _ _ _) as [calls bytes].
    destruct Ha as [Ht HT _ Hr Htg Ho Hal]. by split.
Qed.

Lemma aggregate_buffer g e a a' : aggregate g e a = Returns a' -> buffer a' = buffer a /\ reading a' = reading a.
Proof.
  unfold aggregate. destruct (Aggregator.Write _ _ _ _) as [[[totals calls] e']|why]; simpl; [|done]. by intros [= <-].
Qed.

(** Only [StartReading] sets values and stops reading. *)
Lemma agent_step_offered a ev a' :
  agent_step a ev = Returns a' ->
  offered (buffer a') = offered (buffer a) ++ (if reading a then datagrams [ev] else []) /\
  reading a' = reading a && match ev with Datagram (Err _) => false | _ => true end.
Proof.
  destruct ev as [read| | |g event|g err]; simpl.
  - intros [= <-]. unfold StartReading_turn. destruct (reading a) eqn:E; simpl; [|by rewrite E, app_nil_r].
    destruct read; simpl; [by rewrite E|by rewrite app_nil_r].
  - replace (if reading a then [] else []) with (@nil string) by (by destruct (reading a)). rewrite app_nil_r, andb_true_r.
    unfold StartWriting_turn. destruct (inside a !! 0); [by intros [= <-]|].
    unfold take_next. destruct (TryNext (diode (buffer a))) as [[d k] x].
    assert (forall t, offered (buffer (Alert k (set_buffer t a))) = offered t /\
      reading (Alert k (set_buffer t a)) = reading a) as HA by (intros t; unfold Alert; by case_bool_decide).
    destruct x as [data|]; [|intros [= <-]; exact (HA _)].
    destruct (Unmarshaller.UnmarshallMessage unmarshal data) as [calls [e|err]]; [|intros [= <-]; exact (HA _)].
    intros [-> ->]%aggregate_buffer. exact (HA _).
  - intros [= <-]. simpl. destruct (reading a); by rewrite app_nil_r.
  - replace (if reading a then [] else []) with (@nil string) by (by destruct (reading a)). rewrite app_nil_r, andb_true_r.
    destruct (inside a !! S g); [by intros [= <-]|]. unfold Emit, EmitEnvelope.
    destruct (Wrap event _); [destruct (writer a)|]; [by intros [-> ->]%aggregate_buffer|by intros [= <-]..].
  - replace (if reading a then [] else []) with (@nil string) by (by destruct (reading a)). rewrite app_nil_r, andb_true_r.
    intros [= <-]. unfold forward. destruct (inside a !! g); [|done]. by destruct (Marshaller_Write _ _ _).
Qed.

Lemma agent_run_offered l a a' :
  ofold agent_step l a = Returns a' ->
  offered (buffer a') = offered (buffer a) ++ if reading a then datagrams l else [].
Proof.
  revert a. induction l as [|ev l IH]; intros a; simpl.
  - intros [= ->]. destruct (reading a'); by rewrite app_nil_r.
  - destruct (agent_step a ev) as [a1|why] eqn:E; simpl; [|done]. intros H'%IH. rewrite H'.
    destruct (agent_step_offered a ev a1 E) as [-> ->]. rewrite <- app_assoc. f_equal.
    destruct (reading a); [|done]. destruct ev as [[]| | | |]; done.
Qed.

Lemma tags_in_envelopes l : Forall (tags_in (tag_strings (envelopes l))) l.
Proof.
  apply Forall_forall. intros ev Hev.
  assert (forall e, e ∈ envelopes l -> tag_strings [e] ⊆ tag_strings (envelopes l)) as HT.
  { intros e He x Hx. unfold tag_strings in *. rewrite bind_singleton in Hx. apply list_elem_of_bind. eauto. }
  destruct ev as [[data|]| | |g event|]; simpl; try done; intros e He; apply HT; apply list_elem_of_omap.
  - by exists (Datagram (Ok data)).
  - exists (Report g event). by rewrite He.
Qed.

Lemma NewAgent_Inv T : Inv T NewAgent.
Proof.
  split; simpl; try done; [apply empty_tally_ok|by intros x Hx%elem_of_nil|].
  intros data e Hd. by apply elem_of_nil in Hd.
Qed.

(** C5: The metron v1 pipeline.  Let datagrams arrive, metron report its own metrics, and the
    goroutines take their steps in any order, whatever the connection answers.  No stage
    panics.  The datagrams written through the pipeline are datagrams read, in order; the
    others are still in the diode or were missed, and the metric of receive errors counts
    those.  Each goroutine hands its envelopes to the connection once each and in the order it
    gave them to the aggregator, up to the one it holds: the reader those of its datagrams
    that unmarshal to a valid envelope of a known type.  The absent deployment, job, index and
    address are filled in, and a counter carries the total of all deltas of its origin, name
    and tags that reached the aggregator up to then, metron's own included, modulo 2^64, as
    long as the tags' digests do not collide.  The result does not depend on map order. *)
Theorem metron_v1_forwards l :
  TagHash.collision_free sha1 (tag_strings (envelopes l)) ->
  exists a, agent_run l = Returns a /\
    (taken (buffer a) ++ unread (diode (buffer a))) `sublist_of` datagrams l /\
    length (datagrams l) = length (taken (buffer a)) + length (unread (diode (buffer a))) + missed (buffer a) /\
    Words.uint64 (foldr Z.add 0 ((fun c => c.2) <$> alerts a))%Z = Words.uint64 (Z.of_nat (missed (buffer a))) /\
    (filter (fun p => p.1 = 0) (seen a)).*2 = omap (accepted unmarshal) (taken (buffer a)) /\
    forall g, handed_by g a ++ omap marshal (held g a) = omap marshal (due g (seen a)).
Proof.
  intros HS. destruct (ofold_returns (fun a => Inv (tag_strings (envelopes l)) a) agent_step l NewAgent) as (a & Ha & HI).
  - intros a ev Ha Hev. apply agent_step_Inv; [done| |done]. by eapply Forall_forall in Hev; [|apply tags_in_envelopes].
  - apply NewAgent_Inv.
  - exists a. split; [done|]. pose proof (agent_run_offered l NewAgent a Ha) as Ho. simpl in Ho.
    destruct HI as [[Hto Htm] _ Hd Hr _ _ Hal]. rewrite Ho in Hto, Htm. done.
Qed.

End Run.

End Pipeline.

Module Pipeline_example.

#[global] Instance datagram_ring : Diode string (list string) := last_values 2.
#[global] Instance datagram_ring_laws : DiodeLaws string (list string) := last_values_laws 2.

(** An own metric of metron is a counter by its name. *)
Definition wrap (name origin : string) : result V1.Envelope := Ok (example_counter name 1 ∅).

Definition events : list (agent_event (Event := string)) :=
  [Datagram (Ok "a"); Datagram (Ok "b"); Datagram (Ok "a"); Report 0 "requests"; Attach; Deliver; Report 0 "requests";
   Forward 1 None; Forward 0 None; Deliver; Forward 0 (Some "broken"); Datagram (Err "closed"); Datagram (Ok "c")]%string.

Definition run : outcome (Agent (list string)) :=
  agent_run pad40 default_order example_unmarshal example_marshal (mkTagger "d" "j" "i" "ip") wrap events.

(** The diode has lost the first datagram, and metron's own counter adds to the total. *)
Example forwards : exists a, run = Returns a /\ handed a = [(1, "1"); (0, "5"); (0, "4")]%string /\
  taken (buffer a) = ["b"; "a"]%string /\ missed (buffer a) = 1 /\
  refused a = [(1, "EventWriter: No envelope writer set (see SetWriter)"%string)].
Proof. eexists. split; [vm_compute; reflexivity|]. vm_compute. done. Qed.

End Pipeline_example.

Lemma metron_v1_forwards_witness :
  exists a, Pipeline_example.run = Returns a /\
    (taken (buffer a) ++ unread (diode (buffer a))) `sublist_of` ["a"; "b"; "a"]%string.
Proof.
  destruct (metron_v1_forwards (D := list string) pad40 default_order example_unmarshal example_marshal
    (mkTagger "d" "j" "i" "ip") Pipeline_example.wrap ltac:(by intros event e [= <-]) Pipeline_example.events)
    as (a & H1 & H2 & _).
  - split; [apply pad40_length|].
    assert (tag_strings (envelopes example_unmarshal Pipeline_example.wrap Pipeline_example.events) = ["k"; "v"]%string)
      as -> by (vm_compute; reflexivity).
    intros a b Ha Hb. rewrite !elem_of_cons in Ha, Hb. destruct Ha as [->|[->|Ha]], Hb as [->|[->|Hb]];
      try done; set_solver.
  - exists a. split; [exact H1|exact H2].
Defined.
