(* ===== verification/BatchWriter.v ===== *)
(** * metron/internal/egress/v1/writer.go: the batch writer

    Messages are prefixed with their length and collected in a buffer of fixed capacity.
    A timer flushes the buffer; a message that does not fit takes the whole batch out of
    the buffer into a goroutine that tries to write it five times and otherwise counts it
    as dropped.  The goroutines' attempts interleave freely with writes and flushes, so
    an execution is a sequence of the steps below. *)

From S2P Require Import Prelude Go Conversion ConversionRoundTrip.

Abbreviation bytes := (list Z).

Definition maxOverflowTries : nat := 5.
Definition minBufferCapacity : nat := 1024.

(** ** Framing *)

Definition prefixMessage (msg : bytes) : bytes := le_bytes 4 (Words.uint32 (Z.of_nat (length msg))) ++ msg.

(** The reader's side: cut a buffer into messages by their length prefixes. *)
Fixpoint unframe (fuel : nat) (b : bytes) : option (list bytes) :=
  match b with
  | [] => Some []
  | b0 :: b1 :: b2 :: b3 :: r =>
      match fuel with
      | O => None
      | S fuel =>
          let n := Z.to_nat (le_value [b0; b1; b2; b3]) in
          if bool_decide (n <= length r) then cons (take n r) <$> unframe fuel (drop n r) else None
      end
  | _ => None
  end.

Definition decode_batch (b : bytes) : option (list bytes) := unframe (length b) b.

(** ** State *)

Record messageBuffer : Type := mkBuffer { buffer : bytes; messages : Z }.

Definition buffer_Write (b : messageBuffer) (msg : bytes) : messageBuffer :=
  mkBuffer (buffer b ++ msg) (Words.add 64 (messages b) 1).

Definition buffer_Reset (b : messageBuffer) : messageBuffer := mkBuffer [] 0.

(** A goroutine inside [retryWrites]: its batch and the attempts it has made. *)
Record retrying : Type := mkRetrying {
  r_bytes : bytes; r_count : Z; r_chainers : list string; r_tries : nat }.

Record Writer : Type := mkWriter {
  capacity : nat;
  msgBuffer : messageBuffer;
  chainers : list string;
  timer : Timer.t;
  overflow : list retrying;
  flushed : list (bytes * list string);  (* the writes [outWriter] accepted, in order *)
  dropped : list Z;                      (* the calls of [droppedCounter.Drop] *)
  batched : list (string * Z)            (* the calls of the metric batcher *)
}.

Definition NewWriter (bufferCapacity : nat) : result Writer :=
  if bool_decide (bufferCapacity < minBufferCapacity)
  then Err "batch.Writer requires a buffer of at least 1024 bytes"
  else Ok (mkWriter bufferCapacity (mkBuffer [] 0) [] (fst (Timer.Stop Timer.NewTimer)) [] [] [] []).

(** ** Operations *)

Definition Write (msgBytes : bytes) (cs : list string) (w : Writer) : Writer :=
  let chs := chainers w ++ cs in
  let prefixedBytes := prefixMessage msgBytes in
  if bool_decide (capacity w < length (buffer (msgBuffer w)) + length prefixedBytes) then
    let count := Words.add 64 (messages (msgBuffer w)) 1 in
    mkWriter (capacity w) (buffer_Reset (msgBuffer w)) [] (timer w)
      (overflow w ++ [mkRetrying (buffer (msgBuffer w) ++ prefixedBytes) count chs 0])
      (flushed w) (dropped w) (batched w)
  else
    let t := if bool_decide (messages (msgBuffer w) = 0%Z) then Timer.Reset (timer w) else timer w in
    mkWriter (capacity w) (buffer_Write (msgBuffer w) prefixedBytes) chs t
      (overflow w) (flushed w) (dropped w) (batched w).

(** [flushWrite]: the answer of [outWriter] decides. *)
Definition flushWrite (ok : bool) (toWrite : bytes) (count : Z) (cs : list string) (w : Writer) : Writer :=
  if ok then
    mkWriter (capacity w) (msgBuffer w) (chainers w) (timer w) (overflow w) (flushed w ++ [(toWrite, cs)])
      (dropped w) (batched w ++ [("DopplerForwarder.sentMessages"%string, count);
                                 ("grpc.sentMessageCount"%string, count)])
  else w.

Definition with_batched (w : Writer) (calls : list (string * Z)) : Writer :=
  mkWriter (capacity w) (msgBuffer w) (chainers w) (timer w) (overflow w) (flushed w) (dropped w)
    (batched w ++ calls).

Definition flushBuffer (ok : bool) (w : Writer) : Writer :=
  if bool_decide (messages (msgBuffer w) = 0%Z) then w
  else
    let w := flushWrite ok (buffer (msgBuffer w)) (messages (msgBuffer w)) (chainers w) w in
    if ok then
      mkWriter (capacity w) (buffer_Reset (msgBuffer w)) [] (timer w) (overflow w) (flushed w) (dropped w) (batched w)
    else
      let w := with_batched w [("DopplerForwarder.retryCount"%string, 1%Z)] in
      mkWriter (capacity w) (msgBuffer w) (chainers w) (Timer.Reset (timer w)) (overflow w) (flushed w)
        (dropped w) (batched w).

(** One turn of [flushOnTimer]. *)
Definition flushOnTimer (ok : bool) (w : Writer) : Writer :=
  match Timer.recv (timer w) with
  | None => w
  | Some t =>
      flushBuffer ok (mkWriter (capacity w) (msgBuffer w) (chainers w) t (overflow w) (flushed w) (dropped w)
                        (batched w))
  end.

(** One turn of the loop of [retryWrites] in the [i]-th overflow goroutine, with what
    follows when it returns. *)
Definition retryWrites (i : nat) (ok : bool) (w : Writer) : Writer :=
  match overflow w !! i with
  | None => w
  | Some r =>
      let w := if bool_decide (0 < r_tries r)
               then with_batched w [("DopplerForwarder.retryCount"%string, 1%Z)] else w in
      let w := flushWrite ok (r_bytes r) (r_count r) (r_chainers r) w in
      let set l d :=
        mkWriter (capacity w) (msgBuffer w) (chainers w) (timer w) l (flushed w) d (batched w) in
      if ok then set (delete i (overflow w)) (dropped w)
      else if bool_decide (S (r_tries r) < maxOverflowTries)
      then set (<[i := mkRetrying (r_bytes r) (r_count r) (r_chainers r) (S (r_tries r))]> (overflow w)) (dropped w)
      else set (delete i (overflow w)) (dropped w ++ [Words.uint32 (r_count r)])
  end.

(** [Stop]; the timer no longer fires. *)
Definition Stop (w : Writer) : Writer :=
  mkWriter (capacity w) (msgBuffer w) (chainers w) (fst (Timer.Stop (timer w))) (overflow w) (flushed w)
    (dropped w) (batched w).

Inductive step : Type :=
| SWrite (msg : bytes) (cs : list string)
| SExpire
| SFlush (ok : bool)
| SRetry (i : nat) (ok : bool)
| SStop.

Definition do_step (w : Writer) (s : step) : Writer :=
  match s with
  | SWrite msg cs => Write msg cs w
  | SExpire => mkWriter (capacity w) (msgBuffer w) (chainers w) (Timer.expire (timer w)) (overflow w)
                 (flushed w) (dropped w) (batched w)
  | SFlush ok => flushOnTimer ok w
  | SRetry i ok => retryWrites i ok w
  | SStop => Stop w
  end.

Definition written (l : list step) : list bytes :=
  omap (fun s => match s with SWrite msg _ => Some msg | _ => None end) l.

(** ** Framing lemmas *)

Definition frame (l : list bytes) : bytes := l ≫= prefixMessage.

Definition small (msg : bytes) : Prop := (Z.of_nat (length msg) < 2 ^ 32)%Z.

Lemma prefixMessage_length msg : length (prefixMessage msg) = 4 + length msg.
Proof. unfold prefixMessage. by rewrite length_app, le_bytes_length. Qed.

Lemma unframe_frame l fuel : Forall small l -> length (frame l) <= fuel -> unframe fuel (frame l) = Some l.
Proof.
  revert fuel. induction l as [|msg l IH]; intros fuel Hl Hf; [by destruct fuel|].
  apply Forall_cons in Hl as [Hm Hl]. cbn [frame mbind list_bind] in *. fold (frame l) in *.
  rewrite length_app, prefixMessage_length in Hf. unfold prefixMessage. unfold small in Hm.
  pose proof (le_round_trip 4 (Words.uint32 (Z.of_nat (length msg)))) as R.
  rewrite (Words.wrap_small 32) in R |- * by lia. specialize (R ltac:(change (256 ^ Z.of_nat 4)%Z with (2 ^ 32)%Z; lia)).
  pose proof (le_bytes_length 4 (Z.of_nat (length msg))) as L.
  destruct (le_bytes 4 (Z.of_nat (length msg))) as [|b0 [|b1 [|b2 [|b3 [|]]]]]; try done.
  destruct fuel as [|fuel]; [lia|]. cbn [app unframe]. fold (frame l). rewrite R, Nat2Z.id.
  rewrite bool_decide_eq_true_2 by (rewrite length_app; lia).
  rewrite take_app_length, drop_app_length. rewrite IH by (done || lia). done.
Qed.

Lemma decode_frame l : Forall small l -> decode_batch (frame l) = Some l.
Proof. intros H. by apply unframe_frame. Qed.

Lemma frame_snoc l msg : frame (l ++ [msg]) = frame l ++ prefixMessage msg.
Proof. unfold frame. rewrite bind_app. simpl. by rewrite app_nil_r. Qed.

Lemma frame_length l : 4 * length l <= length (frame l).
Proof.
  induction l as [|m l IH]; [simpl; lia|]. change (frame (m :: l)) with (prefixMessage m ++ frame l).
  rewrite length_app, prefixMessage_length. simpl. lia.
Qed.

(** ** Invariant

    The messages of the buffer, of each goroutine, of each accepted write and of each
    dropped batch, as lists. *)

Record batches : Type := mkBatches {
  b_buffer : list bytes; b_overflow : list (list bytes); b_flushed : list (list bytes);
  b_dropped : list (list bytes) }.

Definition all_messages (b : batches) : list bytes :=
  concat (b_flushed b) ++ b_buffer b ++ concat (b_overflow b) ++ concat (b_dropped b).

Record accounts (w : Writer) (b : batches) : Prop := {
  acc_buffer : buffer (msgBuffer w) = frame (b_buffer b);
  acc_messages : messages (msgBuffer w) = Z.of_nat (length (b_buffer b));
  acc_capacity : length (buffer (msgBuffer w)) <= capacity w;
  acc_bound : (Z.of_nat (capacity w) < 2 ^ 64)%Z;
  acc_overflow : Forall2 (fun r l => r_bytes r = frame l /\ r_count r = Z.of_nat (length l) /\
                   r_tries r < maxOverflowTries /\ l <> []) (overflow w) (b_overflow b);
  acc_flushed : (flushed w).*1 = frame <$> b_flushed b;
  acc_dropped : dropped w = (fun l => Words.uint32 (Z.of_nat (length (l : list bytes)))) <$> b_dropped b
}.

Lemma buffer_count w b : accounts w b -> (Z.of_nat (length (b_buffer b)) + 1 < 2 ^ 64)%Z.
Proof.
  intros []. pose proof (frame_length (b_buffer b)) as F. rewrite <- acc_buffer0 in F. lia.
Qed.

Lemma concat_snoc {A} (l : list (list A)) x : concat (l ++ [x]) = concat l ++ x.
Proof. rewrite concat_app. simpl. by rewrite app_nil_r. Qed.

Lemma concat_delete {A} (l : list (list A)) i x :
  l !! i = Some x -> concat l ≡ₚ x ++ concat (delete i l).
Proof.
  intros H. rewrite <- (take_drop_middle l i x H) at 1. rewrite delete_take_drop, !concat_app. simpl.
  solve_Permutation.
Qed.

Lemma Write_accounts msg cs w b :
  accounts w b -> exists b', accounts (Write msg cs w) b' /\ all_messages b' ≡ₚ all_messages b ++ [msg].
Proof.
  intros H. pose proof (buffer_count w b H) as Hcnt. destruct H. unfold Write. case_bool_decide as Hc.
  - exists (mkBatches [] (b_overflow b ++ [b_buffer b ++ [msg]]) (b_flushed b) (b_dropped b)). split.
    + split; simpl; try done; [lia|]. apply Forall2_app; [done|]. constructor; [|constructor]. simpl.
      rewrite acc_buffer0, frame_snoc, acc_messages0, length_app. simpl.
      split_and!; [done|word_lia|unfold maxOverflowTries; lia|by destruct (b_buffer b)].
    + unfold all_messages. simpl. rewrite concat_snoc. solve_Permutation.
  - exists (mkBatches (b_buffer b ++ [msg]) (b_overflow b) (b_flushed b) (b_dropped b)). split.
    + split; simpl; try done.
      * by rewrite acc_buffer0, frame_snoc.
      * rewrite acc_messages0, length_app. simpl. word_lia.
      * rewrite length_app. lia.
    + unfold all_messages. simpl. solve_Permutation.
Qed.

Lemma timer_accounts t w b :
  accounts w b -> accounts (mkWriter (capacity w) (msgBuffer w) (chainers w) t (overflow w) (flushed w) (dropped w)
    (batched w)) b.
Proof. by intros []. Qed.

Lemma flushBuffer_accounts ok w b :
  accounts w b -> exists b', accounts (flushBuffer ok w) b' /\ all_messages b' ≡ₚ all_messages b.
Proof.
  intros H. unfold flushBuffer. case_bool_decide as Hz; [by exists b|]. destruct ok; simpl.
  - exists (mkBatches [] (b_overflow b) (b_flushed b ++ [b_buffer b]) (b_dropped b)). destruct H. split.
    + split; simpl; try done; [lia|]. by rewrite !fmap_app, acc_flushed0, acc_buffer0.
    + unfold all_messages. simpl. rewrite concat_snoc. solve_Permutation.
  - exists b. by destruct H.
Qed.

Lemma retryWrites_accounts i ok w b :
  accounts w b -> exists b', accounts (retryWrites i ok w) b' /\ all_messages b' ≡ₚ all_messages b.
Proof.
  intros H. unfold retryWrites. destruct (overflow w !! i) as [r|] eqn:Hi; [|by exists b].
  pose proof (acc_overflow _ _ H) as Ho. pose proof (concat_delete (b_overflow b) i) as Hd.
  destruct (Forall2_lookup_l _ _ _ _ _ Ho Hi) as (l & Hl & Hr & Hcnt & Ht & Hne). specialize (Hd l Hl).
  destruct H. destruct ok; [|case_bool_decide as Hlast].
  - exists (mkBatches (b_buffer b) (delete i (b_overflow b)) (b_flushed b ++ [l]) (b_dropped b)). split.
    + destruct (bool_decide (0 < r_tries r)); split; simpl; try done;
        (by apply Forall2_delete) || by rewrite !fmap_app, acc_flushed0, Hr.
    + unfold all_messages. simpl. rewrite concat_snoc, Hd. solve_Permutation.
  - exists b. split; [|done].
    destruct (bool_decide (0 < r_tries r)); split; simpl; try done;
      rewrite <- (list_insert_id _ _ _ Hl); by apply Forall2_insert.
  - exists (mkBatches (b_buffer b) (delete i (b_overflow b)) (b_flushed b) (b_dropped b ++ [l])). split.
    + destruct (bool_decide (0 < r_tries r)); split; simpl; try done;
        (by apply Forall2_delete) || by rewrite fmap_app, acc_dropped0, Hcnt.
    + unfold all_messages. simpl. rewrite concat_snoc, Hd. solve_Permutation.
Qed.

Lemma step_accounts w b s :
  accounts w b -> exists b', accounts (do_step w s) b' /\ all_messages b' ≡ₚ all_messages b ++ written [s].
Proof.
  intros H. destruct s; simpl; rewrite ?app_nil_r.
  - by apply Write_accounts.
  - exists b. split; [by apply timer_accounts|done].
  - unfold flushOnTimer. destruct (Timer.recv (timer w)); [|by exists b].
    by apply flushBuffer_accounts, timer_accounts.
  - by apply retryWrites_accounts.
  - exists b. split; [by apply timer_accounts|done].
Qed.

Lemma run_accounts l w b :
  accounts w b -> exists b', accounts (foldl do_step w l) b' /\ all_messages b' ≡ₚ all_messages b ++ written l.
Proof.
  revert w b. induction l as [|s l IH]; intros w b H.
  { exists b. split; [done|]. simpl. by rewrite app_nil_r. }
  destruct (step_accounts w b s H) as (b1 & H1 & P1). destruct (IH _ _ H1) as (b2 & H2 & P2).
  exists b2. split; [done|]. rewrite P2, P1, <- app_assoc. f_equiv. by destruct s.
Qed.

Lemma NewWriter_accounts n w :
  NewWriter n = Ok w -> (Z.of_nat n < 2 ^ 64)%Z -> accounts w (mkBatches [] [] [] []).
Proof.
  unfold NewWriter. case_bool_decide; [done|]. intros [= <-] Hn. split; simpl; (done || lia || constructor).
Qed.

(** ** Properties *)

(** C17: the batch writer loses nothing silently and frames what it sends.  Under any
    interleaving of writes, timer flushes and overflow attempts, with whatever answers of
    the output writer, every accepted write decodes to messages, and these, the messages in
    the buffer, those of the pending overflow batches and those of the batches reported to
    [Drop] are together exactly the messages written; [Drop] is called with the sizes of
    the dropped batches, and the buffer never exceeds its capacity. *)
Theorem batch_writer_accounts n w l :
  NewWriter n = Ok w -> (Z.of_nat n < 2 ^ 64)%Z -> Forall small (written l) ->
  let w' := foldl do_step w l in
  exists flush_msgs buffer_msgs overflow_msgs dropped_msgs,
    Forall2 (fun p l => decode_batch (p : bytes * list string).1 = Some l) (flushed w') flush_msgs /\
    decode_batch (buffer (msgBuffer w')) = Some buffer_msgs /\
    Forall2 (fun r l => decode_batch (r_bytes r) = Some l) (overflow w') overflow_msgs /\
    dropped w' = (fun b => Words.uint32 (Z.of_nat (length (b : list bytes)))) <$> dropped_msgs /\
    concat flush_msgs ++ buffer_msgs ++ concat overflow_msgs ++ concat dropped_msgs ≡ₚ written l /\
    length (buffer (msgBuffer w')) <= capacity w'.
Proof.
  intros Hw Hn Hs w'. destruct (run_accounts l w _ (NewWriter_accounts n w Hw Hn)) as (b & H & P).
  fold w' in H. change (all_messages _ ++ written l) with (written l) in P.
  assert (Forall small (all_messages b)) as Hall by (by rewrite P).
  unfold all_messages in Hall. rewrite !Forall_app in Hall. destruct Hall as (Hf & Hb & Ho & _).
  rewrite Forall_concat in Hf, Ho. exists (b_flushed b), (b_buffer b), (b_overflow b), (b_dropped b).
  split_and!; try by apply H.
  - assert (Forall2 (fun p ms => decode_batch p = Some ms) (flushed w').*1 (b_flushed b)) as HF.
    { rewrite (acc_flushed _ _ H). apply Forall2_fmap_l, Forall_Forall2_diag. eapply Forall_impl; [exact Hf|].
      intros. by apply decode_frame. }
    by apply Forall2_fmap_l in HF.
  - rewrite (acc_buffer _ _ H). by apply decode_frame.
  - pose proof (acc_overflow _ _ H) as Hov. revert Ho. induction Hov as [|r ms rs mss (Hr & _) Hov IH]; [constructor|].
    intros [Hms Hmss]%Forall_cons. constructor; [|by apply IH]. rewrite Hr. by apply decode_frame.
  - exact P.
Qed.

Definition example_writer : Writer :=
  mkWriter 1024 (mkBuffer [] 0) [] (fst (Timer.Stop Timer.NewTimer)) [] [] [] [].

Definition example_steps : list step :=
  [SWrite [1; 2; 3]%Z ["sent"%string]; SWrite (replicate 1015 7%Z) []; SWrite [4]%Z []; SRetry 0 false; SExpire;
   SFlush false; SExpire; SFlush true; SRetry 0 true; SWrite [5]%Z []].

Lemma batch_writer_accounts_witness :
  let w' := foldl do_step example_writer example_steps in
  exists flush_msgs buffer_msgs overflow_msgs dropped_msgs,
    Forall2 (fun p l => decode_batch (p : bytes * list string).1 = Some l) (flushed w') flush_msgs /\
    decode_batch (buffer (msgBuffer w')) = Some buffer_msgs /\
    Forall2 (fun r l => decode_batch (r_bytes r) = Some l) (overflow w') overflow_msgs /\
    dropped w' = (fun b => Words.uint32 (Z.of_nat (length (b : list bytes)))) <$> dropped_msgs /\
    concat flush_msgs ++ buffer_msgs ++ concat overflow_msgs ++ concat dropped_msgs ≡ₚ written example_steps /\
    length (buffer (msgBuffer w')) <= capacity w'.
Proof.
  apply (batch_writer_accounts 1024).
  - reflexivity.
  - vm_compute. reflexivity.
  - repeat (constructor; [vm_compute; reflexivity|]). constructor.
Defined.

(** While the writer is not stopped, a non-empty buffer has its timer running or its flush
    waiting in the timer's channel. *)
Definition armed (w : Writer) : Prop :=
  messages (msgBuffer w) <> 0%Z -> Timer.active (timer w) = true \/ Timer.fired (timer w) = true.

Lemma step_armed w s : s <> SStop -> armed w -> armed (do_step w s).
Proof.
  intros Hs Hw. destruct s as [msg cs| |ok|i ok|]; simpl; [| | | |done].
  - unfold Write. case_bool_decide; [by intros []|]. case_bool_decide as Hz; intros _; simpl; [by left|]. by apply Hw.
  - unfold armed, Timer.expire in *. simpl. intros Hm. specialize (Hw Hm).
    destruct (Timer.active (timer w)) eqn:E; simpl; [by right|]. rewrite E. naive_solver.
  - unfold flushOnTimer. destruct (Timer.recv (timer w)) as [t|]; [|done].
    unfold flushBuffer. case_bool_decide as Hz; [intros Hm; simpl in *; congruence|]. destruct ok; [by intros []|]. intros _. by left.
  - unfold retryWrites. destruct (overflow w !! i); [|done].
    repeat case_bool_decide; destruct ok; exact Hw.
Qed.

Lemma run_armed l w : SStop ∉ l -> armed w -> armed (foldl do_step w l).
Proof.
  revert w. induction l as [|s l IH]; intros w Hl Hw; simpl; [done|].
  apply IH; [set_solver|]. apply step_armed; [set_solver|done].
Qed.
