(* ===== verification/MetronV2.v ===== *)
(** * metron, v2: from the ingress stream to the client pool, and doppler's v2 ingress

    app_v2.go: the [Receiver] puts envelopes into a buffer, the [Transponder] takes them out,
    tags them and writes them in batches through the [CounterAggregator] to the client pool.
    [Ingress] is the receiving side in doppler (grpcmanager/v2/ingress_server.go), which
    converts every envelope to v1. *)

From S2P Require Import Prelude Go Events Conversion ConversionRoundTrip MetronV1.

Abbreviation envelope := (V2.EnvelopeOf (gmap string string)).

(** ** metron/internal/ingress/v2/receiver.go *)

Record Receiver : Type := mkReceiver { set_calls : list envelope; ingressMetric : Z }.

(** One answer of [Recv] in [Sender] and in [BatchSender]; an error ends the call. *)
Definition Sender_recv (r : Receiver) (e : envelope) : Receiver :=
  mkReceiver (set_calls r ++ [e]) (Words.add 64 (ingressMetric r) 1).

Definition BatchSender_recv (r : Receiver) (batch : list envelope) : Receiver :=
  mkReceiver (foldl (fun l e => l ++ [e]) (set_calls r) batch)
    (Words.add 64 (ingressMetric r) (Words.uint64 (Z.of_nat (length batch)))).

(** ** metron/internal/egress/v2/counteraggregator.go *)

Abbreviation counter_id := (string * string)%type.

Section Aggregate.
(** SHA-1 in hexadecimal, [Value.String] of the generated code, the iteration order. *)
Context (sha1 : string -> string) (value_String : option V2.Value -> string) (ord : RangeOrder string).

Definition hashTags (tags : gmap string (option V2.Value)) : string :=
  Aggregator.hash_elements sha1
    (Aggregator.sort_elements ((fun kv => (kv.1, value_String kv.2)) <$> range_map ord tags)).

Definition counter_of (e : envelope) : option V2.Counter :=
  match V2.Message_ e with Some (V2.Envelope_Counter c) => Some c | _ => None end.

Definition idOf (e : envelope) (c : V2.Counter) : counter_id := (V2.c_Name c, hashTags (V2.DeprecatedTags e)).

Definition with_counter (e : envelope) (c : V2.Counter) : envelope :=
  V2.mkEnvelope (V2.Timestamp e) (V2.SourceId e) (V2.InstanceId e) (V2.DeprecatedTags e) (V2.Tags e)
    (Some (V2.Envelope_Counter c)).

Definition maxCounters : nat := N.to_nat 10000.

(** One turn of the loop of [Write]. *)
Definition aggregate (totals : gmap counter_id Z) (e : envelope) : gmap counter_id Z * envelope :=
  match counter_of e with
  | None => (totals, e)
  | Some c =>
      let totals := if bool_decide (maxCounters < size totals) then ∅ else totals in
      let id := idOf e c in
      let total := Words.add 64 (default 0%Z (totals !! id)) (V2.GetDelta c) in
      (<[id := total]> totals, with_counter e (V2.mkCounter (V2.c_Name c) (V2.Counter_Total total)))
  end.

Fixpoint CounterAggregator_Write (totals : gmap counter_id Z) (msgs : list envelope)
  : gmap counter_id Z * list envelope :=
  match msgs with
  | [] => (totals, [])
  | e :: msgs =>
      let '(totals, e) := aggregate totals e in
      let '(totals, msgs) := CounterAggregator_Write totals msgs in
      (totals, e :: msgs)
  end.

(** ** metron/internal/egress/v2/transponder.go *)

Definition with_tags (e : envelope) (m : gmap string (option V2.Value)) : envelope :=
  V2.mkEnvelope (V2.Timestamp e) (V2.SourceId e) (V2.InstanceId e) m (V2.Tags e) (V2.Message_ e).

Definition addTags (tags : gmap string string) (e : envelope) : envelope :=
  let m := foldl (fun m kv => <[kv.1 := Some (V2.Value_Text kv.2)]> m) (V2.DeprecatedTags e)
             (range_map ord (V2.Tags e)) in
  with_tags e (foldl (fun m kv => match m !! (kv : string * string).1 with
                                  | Some _ => m
                                  | None => <[kv.1 := Some (V2.Value_Text kv.2)]> m
                                  end) m (range_map ord tags)).

Record Transponder : Type := mkTransponder {
  batch : list envelope;
  counterTotals : gmap counter_id Z;
  pooled : list (list envelope * bool);  (* the batches written to the pool and its answers *)
  droppedMetric : Z;
  egressMetric : Z
}.

Definition NewTransponder : Transponder := mkTransponder [] ∅ [] 0 0.

Section Turn.
Context (tags : gmap string string) (batchSize : Z).

Definition batchReady (b : list envelope) (elapsed : bool) : bool :=
  match b with
  | [] => false
  | _ => bool_decide (batchSize <= Z.of_nat (length b))%Z || elapsed
  end.

(** [write], through the aggregator to the pool. *)
Definition write (ok : bool) (t : Transponder) : Transponder :=
  let '(totals, msgs) := CounterAggregator_Write (counterTotals t) (batch t) in
  let n := Words.uint64 (Z.of_nat (length (batch t))) in
  if ok
  then mkTransponder [] totals (pooled t ++ [(msgs, true)]) (droppedMetric t) (Words.add 64 (egressMetric t) n)
  else mkTransponder [] totals (pooled t ++ [(msgs, false)]) (Words.add 64 (droppedMetric t) n) (egressMetric t).

(** One turn of the loop of [Start]: what [TryNext] returns, whether the interval has elapsed
    at the first and at the second check, and the answer of the pool. *)
Record turn : Type := mkTurn { next : option envelope; elapsed1 : bool; elapsed2 : bool; pool_ok : bool }.

Definition Start_turn (t : Transponder) (u : turn) : Transponder :=
  if (match next u with None => true | Some _ => false end) && negb (batchReady (batch t) (elapsed1 u)) then t
  else
    let b := match next u with Some e => batch t ++ [addTags tags e] | None => batch t end in
    let t := mkTransponder b (counterTotals t) (pooled t) (droppedMetric t) (egressMetric t) in
    if batchReady b (elapsed2 u) then write (pool_ok u) t else t.
End Turn.
End Aggregate.

(** ** doppler/internal/grpcmanager/v2/ingress_server.go *)

Module Ingress.

Record IngressServer : Type := mkServer {
  heap : Heap; envelopeBuffer : list env1; totalReceived : Z; ingress : Z; streams : Z; open_ : bool }.

Section Stream.
Context (sprintf_f : float64 -> string) (Method_value PeerType_value : string -> Z) (ord : RangeOrder string).

Definition Sender_start (s : IngressServer) : IngressServer :=
  mkServer (heap s) (envelopeBuffer s) (totalReceived s) (ingress s) (streams s + 1) true.

Definition set_v1 (s : IngressServer) (v1e : env1) : IngressServer :=
  match V1.EventTypeF v1e with
  | None => s
  | Some _ => mkServer (heap s) (envelopeBuffer s ++ [v1e]) (totalReceived s + 1) (Words.add 64 (ingress s) 1)
                (streams s) (open_ s)
  end.

Definition receive (s : IngressServer) (e : env2) : IngressServer :=
  let '(h, l) := ToV1 sprintf_f Method_value PeerType_value ord (heap s) e in
  foldl set_v1 (mkServer h (envelopeBuffer s) (totalReceived s) (ingress s) (streams s) (open_ s)) l.

(** An answer of [Recv]: a batch ([Sender] receives batches of one), or the error that
    ends the stream. *)
Definition BatchSender_turn (s : IngressServer) (r : option (list env2)) : IngressServer :=
  if open_ s then
    match r with
    | None => mkServer (heap s) (envelopeBuffer s) (totalReceived s) (ingress s) (streams s - 1) false
    | Some b => foldl receive s b
    end
  else s.
End Stream.
End Ingress.

(** ** Tags *)

Lemma set_text_perm (l : list (string * string)) (T : gmap string string) (m : gmap string (option V2.Value)) :
  l ≡ₚ map_to_list T ->
  foldl (fun m kv => <[kv.1 := Some (V2.Value_Text kv.2)]> m) m l = text_map T ∪ m.
Proof.
  intros HP. rewrite <- (set_all_perm (prod_map id (fun s => Some (V2.Value_Text s)) <$> l)).
  - unfold set_all. clear HP. revert m. induction l as [|[k v] l IH]; intros m; [done|]. apply IH.
  - rewrite HP. unfold text_map. by rewrite map_to_list_fmap.
Qed.

Lemma fill_text_lookup (l : list (string * string)) (m : gmap string (option V2.Value)) k :
  foldl (fun m kv => match m !! (kv : string * string).1 with
                     | Some _ => m
                     | None => <[kv.1 := Some (V2.Value_Text kv.2)]> m
                     end) m l !! k =
  match m !! k with
  | Some v => Some v
  | None => (fun s => Some (V2.Value_Text s)) <$> (list_to_map l : gmap string string) !! k
  end.
Proof.
  revert m. induction l as [|[a v] l IH]; intros m; cbn [foldl fst snd list_to_map foldr uncurry].
  - rewrite lookup_empty. by destruct (m !! k).
  - rewrite IH. destruct (m !! a) as [x|] eqn:Ea; destruct (decide (a = k)) as [->|Hne].
    + by rewrite Ea.
    + by rewrite lookup_insert_ne.
    + by rewrite Ea, !lookup_insert_eq.
    + by rewrite !lookup_insert_ne by done.
Qed.

(** An envelope's own tags win over its deprecated tags, and both over the agent's. *)
Definition tagged (tags : gmap string string) (e : envelope) : envelope :=
  with_tags e (text_map (V2.Tags e) ∪ V2.DeprecatedTags e ∪ text_map tags).

Lemma addTags_tagged ord tags e : addTags ord tags e = tagged tags e.
Proof.
  unfold addTags, tagged. f_equal. rewrite (set_text_perm _ (V2.Tags e)) by apply range_perm.
  apply map_eq. intros k. rewrite fill_text_lookup, (lookup_union _ (text_map tags)).
  rewrite (list_to_map_proper _ (map_to_list tags)); [|apply range_keys_NoDup|apply range_perm].
  rewrite list_to_map_to_list. 
  assert (text_map tags !! k = (fun s => Some (V2.Value_Text s)) <$> tags !! k) as -> by apply lookup_fmap.
  by destruct ((text_map (V2.Tags e) ∪ V2.DeprecatedTags e) !! k), (tags !! k).
Qed.

(** ** Counter totals *)

Section Totals.
Context (sha1 : string -> string) (value_String : option V2.Value -> string) (ord : RangeOrder string).

Definition sum_of (id : counter_id) (hist : list (counter_id * Z)) : Z :=
  foldr (fun p n => (if bool_decide (p.1 = id) then p.2 else 0) + n)%Z 0%Z hist.

(** What the aggregator promises: the total of a counter is the sum of its deltas since the
    last reset, and there is a reset whenever more than [maxCounters] counters are known. *)
Fixpoint totals_from (hist : list (counter_id * Z)) (msgs : list envelope) : list envelope :=
  match msgs with
  | [] => []
  | e :: msgs =>
      match counter_of e with
      | None => e :: totals_from hist msgs
      | Some c =>
          let hist := if bool_decide (maxCounters < size (list_to_set hist.*1 : gset counter_id)) then [] else hist in
          let id := idOf sha1 value_String ord e c in
          with_counter e (V2.mkCounter (V2.c_Name c)
            (V2.Counter_Total (Words.wrap 64 (sum_of id hist + V2.GetDelta c)))) ::
          totals_from (hist ++ [(id, V2.GetDelta c)]) msgs
      end
  end.

Definition represents (hist : list (counter_id * Z)) (totals : gmap counter_id Z) : Prop :=
  dom totals = list_to_set hist.*1 /\
  forall id, default 0%Z (totals !! id) = Words.wrap 64 (sum_of id hist).

Lemma represents_nil : represents [] ∅.
Proof. split; [by rewrite dom_empty_L|]. intros id. by rewrite lookup_empty. Qed.

Lemma sum_of_snoc id hist p : sum_of id (hist ++ [p]) = (sum_of id hist + if bool_decide (p.1 = id) then p.2 else 0)%Z.
Proof. induction hist as [|q hist IH]; simpl; [lia|]. rewrite IH. lia. Qed.

Lemma represents_snoc hist totals id d :
  represents hist totals ->
  represents (hist ++ [(id, d)]) (<[id := Words.add 64 (default 0%Z (totals !! id)) d]> totals).
Proof.
  intros [Hd Ht]. split.
  - rewrite dom_insert_L, Hd, fmap_app, list_to_set_app_L. simpl. set_solver.
  - intros i. rewrite sum_of_snoc. simpl. destruct (decide (id = i)) as [<-|Hne].
    + rewrite lookup_insert_eq, bool_decide_eq_true_2 by done. simpl. rewrite Ht. unfold Words.add.
      by rewrite Words.wrap_add_l by lia.
    + rewrite lookup_insert_ne, bool_decide_eq_false_2 by done. by rewrite Ht, Z.add_0_r.
Qed.

(** The history [hist] after the messages [msgs]. *)
Fixpoint history (hist : list (counter_id * Z)) (msgs : list envelope) : list (counter_id * Z) :=
  match msgs with
  | [] => hist
  | e :: msgs =>
      history (match counter_of e with
               | None => hist
               | Some c =>
                   (if bool_decide (maxCounters < size (list_to_set hist.*1 : gset counter_id)) then [] else hist)
                     ++ [(idOf sha1 value_String ord e c, V2.GetDelta c)]
               end) msgs
  end.

Lemma aggregator_refines msgs hist totals :
  represents hist totals ->
  let '(totals', msgs') := CounterAggregator_Write sha1 value_String ord totals msgs in
  msgs' = totals_from hist msgs /\ represents (history hist msgs) totals'.
Proof.
  revert hist totals. induction msgs as [|e msgs IH]; intros hist totals H; [done|].
  cbn [CounterAggregator_Write totals_from history]. unfold aggregate.
  destruct (counter_of e) as [c|].
  - assert (size totals = size (list_to_set hist.*1 : gset counter_id)) as ->.
    { rewrite <- size_dom. by destruct H as [-> _]. }
    set (b := bool_decide _). set (id := idOf _ _ _ e c).
    assert (represents (if b then [] else hist) (if b then ∅ else totals)) as H' by (destruct b; [apply represents_nil|done]).
    specialize (IH _ _ (represents_snoc _ _ id (V2.GetDelta c) H')).
    destruct (CounterAggregator_Write _ _ _ _ msgs) as [totals' msgs']. destruct IH as [-> IH].
    split; [|done]. do 4 f_equal. destruct H' as [_ ->]. unfold Words.add. by rewrite Words.wrap_add_l by lia.
  - specialize (IH _ _ H). destruct (CounterAggregator_Write _ _ _ totals msgs). destruct IH as [-> IH]. done.
Qed.

Lemma totals_from_app hist a b :
  totals_from hist (a ++ b) = totals_from hist a ++ totals_from (history hist a) b.
Proof.
  revert hist. induction a as [|e a IH]; intros hist; [done|]. cbn [totals_from history app].
  destruct (counter_of e); by rewrite IH.
Qed.

Lemma history_app hist a b : history hist (a ++ b) = history (history hist a) b.
Proof. revert hist. induction a as [|e a IH]; intros hist; [done|]. apply IH. Qed.

Lemma totals_from_length hist l : length (totals_from hist l) = length l.
Proof. revert hist. induction l as [|e l IH]; intros hist; [done|]. simpl. destruct (counter_of e); simpl; by rewrite IH. Qed.
End Totals.

(** ** The transponder *)

Section Transponding.
Context (sha1 : string -> string) (value_String : option V2.Value -> string) (ord : RangeOrder string).
Context (tags : gmap string string) (batchSize : Z).

Definition sizes (ok : bool) (l : list (list envelope * bool)) : Z :=
  foldr (fun p n => (if bool_decide (p.2 = ok) then Z.of_nat (length p.1) else 0) + n)%Z 0%Z l.

Definition limit : Z := Z.max 1 batchSize.

Record transponded (es : list envelope) (t : Transponder) : Prop := {
  t_split : exists done_, es = done_ ++ batch t /\
    concat (pooled t).*1 = totals_from sha1 value_String ord [] done_ /\
    represents (history sha1 value_String ord [] done_) (counterTotals t);
  t_batches : Forall (fun p => 0 < length p.1 /\ (Z.of_nat (length p.1) <= limit)%Z) (pooled t);
  t_batch : (Z.of_nat (length (batch t)) < limit)%Z;
  t_egress : egressMetric t = Words.wrap 64 (sizes true (pooled t));
  t_dropped : droppedMetric t = Words.wrap 64 (sizes false (pooled t))
}.

Lemma sizes_snoc ok l p :
  sizes ok (l ++ [p]) = (sizes ok l + if bool_decide (p.2 = ok) then Z.of_nat (length p.1) else 0)%Z.
Proof. induction l as [|q l IH]; simpl; [lia|]. rewrite IH. lia. Qed.

Lemma write_transponded ok es b t :
  (exists done_, es = done_ ++ b /\ concat (pooled t).*1 = totals_from sha1 value_String ord [] done_ /\
    represents (history sha1 value_String ord [] done_) (counterTotals t)) ->
  Forall (fun p => 0 < length p.1 /\ (Z.of_nat (length p.1) <= limit)%Z) (pooled t) ->
  b <> [] -> (Z.of_nat (length b) <= limit)%Z ->
  egressMetric t = Words.wrap 64 (sizes true (pooled t)) ->
  droppedMetric t = Words.wrap 64 (sizes false (pooled t)) ->
  transponded es (write sha1 value_String ord ok
    (mkTransponder b (counterTotals t) (pooled t) (droppedMetric t) (egressMetric t))).
Proof.
  intros (d & -> & Hc & Hr) Hb Hne Hlen He Hd. unfold write. cbn [counterTotals batch].
  pose proof (aggregator_refines sha1 value_String ord b _ _ Hr) as Hag.
  destruct (CounterAggregator_Write _ _ _ _ b) as [totals msgs]. destruct Hag as [-> Hr'].
  assert (length (totals_from sha1 value_String ord (history sha1 value_String ord [] d) b) = length b) as Hl
    by apply totals_from_length.
  assert (0 < length b) as Hpos by (destruct b; [done|simpl; lia]).
  set (out := totals_from _ _ _ _ b) in *.
  assert (forall ok', exists done_, d ++ b = done_ ++ [] /\
    concat (pooled t ++ [(out, ok')]).*1 = totals_from sha1 value_String ord [] done_ /\
    represents (history sha1 value_String ord [] done_) totals) as Hsplit.
  { intros ok'. exists (d ++ b). split; [by rewrite app_nil_r|]. split; [|by rewrite history_app].
    rewrite fmap_app, concat_app, Hc, totals_from_app. cbn. by rewrite app_nil_r. }
  assert (forall x n, Words.add 64 (Words.wrap 64 x) (Words.uint64 n) = Words.wrap 64 (x + n)) as Hadd.
  { intros x n. unfold Words.add. by rewrite Words.wrap_add_l, Words.wrap_add_r by lia. }
  destruct ok; split; cbn [pooled batch egressMetric droppedMetric counterTotals length];
    rewrite ?sizes_snoc, ?He, ?Hd, ?Hadd; cbn [fst snd]; try apply Hsplit; try (apply Forall_app; split; [done|]);
    try (constructor; [simpl; rewrite Hl; lia|constructor]); try (unfold limit; lia).
  - by rewrite bool_decide_eq_true_2, Hl.
  - by rewrite bool_decide_eq_false_2, Z.add_0_r.
  - by rewrite bool_decide_eq_false_2, Z.add_0_r.
  - by rewrite bool_decide_eq_true_2, Hl.
Qed.

Lemma turn_transponded es t u :
  transponded es t ->
  transponded (es ++ (tagged tags <$> option_list (next u)))
    (Start_turn sha1 value_String ord tags batchSize t u).
Proof.
  intros H. unfold Start_turn. set (ready1 := batchReady batchSize (batch t) (elapsed1 u)).
  destruct (next u) as [e|] eqn:En; cbn [andb option_list fmap list_fmap].
  - rewrite addTags_tagged. destruct H as [(d & -> & Hc & Hr) Hb Hl He Hd].
    assert (exists done_, (d ++ batch t) ++ [tagged tags e] = done_ ++ (batch t ++ [tagged tags e]) /\
      concat (pooled t).*1 = totals_from sha1 value_String ord [] done_ /\
      represents (history sha1 value_String ord [] done_) (counterTotals t)) as Hs.
    { exists d. by rewrite app_assoc. }
    assert (batch t ++ [tagged tags e] <> []) as Hne by (by destruct (batch t)).
    assert (Z.of_nat (length (batch t ++ [tagged tags e])) <= limit)%Z as Hlen by (rewrite length_app; simpl; lia).
    destruct (batchReady batchSize (batch t ++ [tagged tags e]) (elapsed2 u)) eqn:Er; [by apply write_transponded|].
    split; try done. cbn [batch]. destruct (batch t ++ [tagged tags e]) as [|x l] eqn:Eb; [done|].
    unfold batchReady in Er. apply orb_false_iff in Er as [Er%bool_decide_eq_false_1 _]. unfold limit. lia.
  - rewrite app_nil_r. destruct ready1 eqn:Er1; cbn [negb]; [|done].
    destruct H as [Hs Hb Hl He Hd].
    assert (batch t <> []) as Hne by (intros E; unfold ready1 in Er1; by rewrite E in Er1).
    destruct (batchReady batchSize (batch t) (elapsed2 u)) eqn:Er; [|by split].
    apply write_transponded; try done. lia.
Qed.

(** Any sequence of turns keeps the account of the envelopes. *)
Lemma turns_transponded us :
  transponded (tagged tags <$> omap next us) (foldl (Start_turn sha1 value_String ord tags batchSize) NewTransponder us).
Proof.
  assert (transponded [] NewTransponder) as H0.
  { split; simpl; try done; [|unfold limit; lia]. exists []. split; [done|]. split; [done|]. apply represents_nil. }
  assert (forall es t, transponded es t -> transponded (es ++ (tagged tags <$> omap next us))
    (foldl (Start_turn sha1 value_String ord tags batchSize) t us)) as G; [|by apply (G [] NewTransponder H0)].
  induction us as [|u us IH]; intros es t Ht; [by rewrite app_nil_r|].
  specialize (IH _ _ (turn_transponded es t u Ht)). rewrite <- app_assoc in IH. cbn [foldl].
  replace (tagged tags <$> omap next (u :: us)) with
    ((tagged tags <$> option_list (next u)) ++ (tagged tags <$> omap next us)); [done|].
  cbn [omap list_omap]. by destruct (next u).
Qed.

(** The metron v2 pipeline.  For any sequence of buffered envelopes, clock readings and
    answers of the pool: the batches written to the pool, joined, and the batch being
    collected are the received envelopes in order, each once, tagged (own tags over
    deprecated tags over the agent's), counters carrying the sum of their deltas since the
    last reset; no batch is empty or longer than the batch size, a full batch does not
    stay behind, and the egress and dropped counters count the envelopes of the accepted
    and of the refused batches. *)
Theorem metron_v2_forwards us :
  let t := foldl (Start_turn sha1 value_String ord tags batchSize) NewTransponder us in
  let es := tagged tags <$> omap next us in
  (exists done_, es = done_ ++ batch t /\ concat (pooled t).*1 = totals_from sha1 value_String ord [] done_) /\
  Forall (fun p => 0 < length p.1 /\ (Z.of_nat (length p.1) <= Z.max 1 batchSize)%Z) (pooled t) /\
  (Z.of_nat (length (batch t)) < Z.max 1 batchSize)%Z /\
  egressMetric t = Words.wrap 64 (sizes true (pooled t)) /\
  droppedMetric t = Words.wrap 64 (sizes false (pooled t)).
Proof.
  destruct (turns_transponded us) as [(d & Hd & Hc & _) Hb Hl He Hdr]. split_and!; try done. by exists d.
Qed.
End Transponding.
