(* ===== verification/ClientPool.v ===== *)
(** * metron/internal/clientpool: the connections to the dopplers

    [ClientPool] tries its connections from a random one on.  Each is a [ConnManager]: a
    pointer to the current connection, writers that load it and send on it, and one
    maintaining goroutine that reconnects when the pointer is nil.  Loads, stores,
    compare-and-swaps, sends and closes are the atomic steps of the model and interleave
    freely.  [GRPCConnector], [Balancer] and [PusherFetcher] say where a connection comes
    from and what the health gauges count.  The packages v1 and v2 differ in the recycling
    of a connection only. *)

From S2P Require Import Prelude Go.

(** ** client_pool.go *)

(** [rand.Int] is not negative; the index is computed with 64-bit integers. *)
Definition pool_index (i : nat) (seed : Z) (n : nat) : outcome nat :=
  let idx := Z.rem (Words.int64 (Z.of_nat i + seed)) (Z.of_nat n) in
  if bool_decide (0 <= idx)%Z then Returns (Z.to_nat idx) else Panics "index out of range".

(** [Write]: the indices tried, in order, and whether one accepted; [accepts i] is the answer
    of the connection [i]. *)
Fixpoint pool_loop (accepts : nat -> bool) (seed : Z) (n : nat) (js tried : list nat)
  : outcome (list nat * option string) :=
  match js with
  | [] => Returns (tried, Some "unable to write to any dopplers"%string)
  | i :: js =>
      (let! idx := pool_index i seed n in
       if accepts idx then Returns (tried ++ [idx], None)
       else pool_loop accepts seed n js (tried ++ [idx]))%go
  end.

Definition pool_Write (accepts : nat -> bool) (seed : Z) (n : nat) : outcome (list nat * option string) :=
  pool_loop accepts seed n (seq 0 n) [].

(** ** balancer.go, grpc_connector.go *)

Section Connect.
(** [net.SplitHostPort], the lookup, [rand.Int] and [net.JoinHostPort]. *)
Context (SplitHostPort : string -> option (string * string)) (lookup : string -> option (list string)).
Context (JoinHostPort : string -> string -> string) (rand : nat).

Definition NextHostPort (addr : string) : result string :=
  match SplitHostPort addr with
  | None => Err "address error"
  | Some (host, port) =>
      match lookup host with
      | None => Err "lookup error"
      | Some [] => Err ("lookup failed with addr " +:+ addr)
      | Some (ip :: ips) =>
          Ok (JoinHostPort (default EmptyString ((ip :: ips) !! (rand mod length (ip :: ips)))) port)
      end
  end.

(** [Connect]: the address fetched, the first that a balancer resolves. *)
Fixpoint Connect (balancers : list string) : result string :=
  match balancers with
  | [] => Err "unable to lookup a log consumer"
  | b :: bs => match NextHostPort b with Ok hostPort => Ok hostPort | Err _ => Connect bs end
  end.
End Connect.

(** ** pusher_fetcher.go: what [Fetch] does to the gauges *)

Inductive fetch : Type := NoAddress | DialError | StreamError | Established.

Record gauges : Type := mkGauges { dopplerConnections : Z; dopplerStreams : Z }.

Definition Fetch (f : fetch) (g : gauges) : gauges * bool :=
  match f with
  | NoAddress | DialError => (g, false)
  | StreamError => (mkGauges (dopplerConnections g + 1) (dopplerStreams g), false)
  | Established => (mkGauges (dopplerConnections g + 1) (dopplerStreams g + 1), true)
  end.

Definition decrementingCloser_Close (g : gauges) : gauges :=
  mkGauges (dopplerConnections g - 1) (dopplerStreams g - 1).

(** ** stats_handler.go *)

Inductive payload : Type :=
| EnvelopeData (data : string)
| Envelope (length : Z)
| EnvelopeBatch (n : nat) (length : Z)
| OtherPayload.

(** The arguments of [Track]; [None] for anything but an [OutPayload]. *)
Definition HandleRPC (out : option payload) : option (Z * Z) :=
  match out with
  | Some (EnvelopeData data) => Some (1, Z.of_nat (String.length data))%Z
  | Some (Envelope len) => Some (1, len)%Z
  | Some (EnvelopeBatch n len) => Some (Z.of_nat n, len)
  | _ => None
  end.

(** ** The pool's loop *)

Lemma pool_index_rotates i seed n :
  i < n -> (0 <= seed)%Z -> (seed + Z.of_nat n <= 2 ^ 63)%Z ->
  pool_index i seed n = Returns (Z.to_nat ((Z.of_nat i + seed) mod Z.of_nat n)).
Proof.
  intros Hi Hs Hn. unfold pool_index. rewrite Words.swrap_small by lia. rewrite Z.rem_mod_nonneg by lia.
  rewrite bool_decide_eq_true_2; [done|]. apply Z.mod_pos_bound. lia.
Qed.

(** The rotation of the indices that starts at [seed]. *)
Definition rotation (seed : Z) (n : nat) : list nat :=
  (fun i => Z.to_nat ((Z.of_nat i + seed) mod Z.of_nat n)) <$> seq 0 n.

(** Elements up to the first that satisfies [f]. *)
Fixpoint until (f : nat -> bool) (l : list nat) : list nat :=
  match l with [] => [] | x :: l => if f x then [x] else x :: until f l end.

Lemma pool_loop_until accepts seed n js tried :
  Forall (fun i => i < n) js -> (0 <= seed)%Z -> (seed + Z.of_nat n <= 2 ^ 63)%Z ->
  let r := (fun i => Z.to_nat ((Z.of_nat i + seed) mod Z.of_nat n)) <$> js in
  pool_loop accepts seed n js tried =
    Returns (tried ++ until accepts r,
      if existsb accepts r then None else Some "unable to write to any dopplers"%string).
Proof.
  intros His Hs Hn. revert tried. induction His as [|i js Hi His IH]; intros tried r.
  - simpl. by rewrite app_nil_r.
  - cbn [pool_loop]. rewrite pool_index_rotates by done. cbn [obind]. subst r. cbn [fmap list_fmap until existsb].
    destruct (accepts (Z.to_nat _)); [done|]. rewrite IH. by rewrite <- app_assoc.
Qed.

Lemma rotation_perm seed n : (0 <= seed)%Z -> rotation seed n ≡ₚ seq 0 n.
Proof.
  intros Hs. destruct (decide (n = 0)) as [->|Hn]; [done|].
  apply submseteq_length_Permutation; [|unfold rotation; by rewrite length_fmap].
  apply NoDup_submseteq.
  - unfold rotation. apply NoDup_fmap_2_strong; [|apply NoDup_seq].
    intros i j Hi%elem_of_seq Hj%elem_of_seq E.
    pose proof (Z.mod_pos_bound (Z.of_nat i + seed) (Z.of_nat n)).
    pose proof (Z.mod_pos_bound (Z.of_nat j + seed) (Z.of_nat n)).
    assert ((Z.of_nat i + seed) mod Z.of_nat n = (Z.of_nat j + seed) mod Z.of_nat n)%Z as E' by lia.
    assert ((Z.of_nat i - Z.of_nat j) mod Z.of_nat n = 0)%Z as Hdiv.
    { replace (Z.of_nat i - Z.of_nat j)%Z with ((Z.of_nat i + seed) - (Z.of_nat j + seed))%Z by lia.
      by rewrite Zminus_mod, E', Z.sub_diag, Z.mod_0_l by lia. }
    apply Z.mod_divide in Hdiv as [k Hk]; [|lia]. destruct (Z.lt_trichotomy k 0) as [?|[->|?]]; [exfalso; nia|lia|exfalso; nia].
  - intros x (i & -> & Hi%elem_of_seq)%list_elem_of_fmap. apply elem_of_seq.
    pose proof (Z.mod_pos_bound (Z.of_nat i + seed) (Z.of_nat n)). lia.
Qed.

(** The client pool tries every connection once, from a random one on, until one
    accepts.  The indices tried are the rotation of 0 .. n-1 that starts at the seed, up to
    and including the first connection that accepts, and the pool fails exactly when none
    does.  (A seed within n of 2^63 would overflow to a negative index.) *)
Theorem client_pool_write accepts seed n :
  (0 <= seed)%Z -> (seed + Z.of_nat n <= 2 ^ 63)%Z ->
  rotation seed n ≡ₚ seq 0 n /\
  pool_Write accepts seed n =
    Returns (until accepts (rotation seed n),
      if existsb accepts (seq 0 n) then None else Some "unable to write to any dopplers"%string).
Proof.
  intros Hs Hn. pose proof (rotation_perm seed n Hs) as HP. split; [done|]. unfold pool_Write.
  rewrite pool_loop_until by (done || by apply Forall_forall; intros i Hi%elem_of_seq; lia).
  change ((fun i => Z.to_nat ((Z.of_nat i + seed) mod Z.of_nat n)) <$> seq 0 n) with (rotation seed n).
  assert (existsb accepts (rotation seed n) = existsb accepts (seq 0 n)) as ->; [|done].
  apply eq_true_iff_eq. rewrite !existsb_exists.
  assert (forall x, In x (rotation seed n) <-> In x (seq 0 n)) as HI; [|by setoid_rewrite HI].
  intros x. by rewrite <- !list_elem_of_In, HP.
Qed.

Lemma client_pool_write_witness :
  rotation 8 5 ≡ₚ seq 0 5 /\ pool_Write (fun i => bool_decide (i = 0)) 8 5 = Returns ([3; 4; 0], None).
Proof.
  destruct (client_pool_write (fun i => bool_decide (i = 0)) 8 5) as [HP HW]; [lia|lia|].
  split; [exact HP|]. rewrite HW. vm_compute. reflexivity.
Defined.

(** ** conn_manager.go *)

Inductive version : Type := V1Manager | V2Manager.

Record grpcConn : Type := mkConn { writes : Z; closes : nat }.

(** [maintainConn] between two of its atomic steps. *)
Inductive maintaining : Type :=
| MStart
| MSelect
| MLoad
| MConnect
| MStore (c : nat).

#[global] Instance maintaining_eq_dec : EqDecision maintaining.
Proof. solve_decision. Defined.

Section Manager.
(** What is written: bytes in v1, batches of envelopes in v2. *)
Context {A : Type}.

(** A call of [Write] between two of its atomic steps. *)
Inductive writing : Type :=
| Loaded (c : nat) (data : A)
| SendFailed (c : nat) (err : string)
| SendDone (c : nat)
| Recycling (c : nat)
| Closing (c : nat) (err : option string)
| Resetting (err : option string).

Record ConnManager : Type := mkManager {
  conn : option nat;
  conns : list grpcConn;
  reset : nat;
  writers : gmap nat writing;
  maintainer : maintaining;
  health : gauges;
  streamErrors : nat;
  sent : list (nat * A);
  returned : list (nat * option string)
}.

Definition NewConnManager : ConnManager := mkManager None [] 0 ∅ MStart (mkGauges 0 0) 0 [] [].

Section Steps.
Context (ver : version) (maxWrites : Z).

Definition set_writer (m : ConnManager) (w : nat) (o : option writing) : ConnManager :=
  mkManager (conn m) (conns m) (reset m) (partial_alter (fun _ => o) w (writers m)) (maintainer m) (health m)
    (streamErrors m) (sent m) (returned m).

Definition return_ (m : ConnManager) (w : nat) (err : option string) : ConnManager :=
  let m := set_writer m w None in
  mkManager (conn m) (conns m) (reset m) (writers m) (maintainer m) (health m) (streamErrors m) (sent m)
    (returned m ++ [(w, err)]).

Definition store (m : ConnManager) (o : option nat) : ConnManager :=
  mkManager o (conns m) (reset m) (writers m) (maintainer m) (health m) (streamErrors m) (sent m) (returned m).

Definition set_conns (m : ConnManager) (l : list grpcConn) (g : gauges) : ConnManager :=
  mkManager (conn m) l (reset m) (writers m) (maintainer m) g (streamErrors m) (sent m) (returned m).

Definition set_reset (m : ConnManager) (n : nat) : ConnManager :=
  mkManager (conn m) (conns m) n (writers m) (maintainer m) (health m) (streamErrors m) (sent m) (returned m).

Definition set_maintainer (m : ConnManager) (s : maintaining) : ConnManager :=
  mkManager (conn m) (conns m) (reset m) (writers m) s (health m) (streamErrors m) (sent m) (returned m).

(** The call of [Write] and its load of the pointer. *)
Definition Write_load (w : nat) (data : A) (m : ConnManager) : ConnManager :=
  match writers m !! w with
  | Some _ => m
  | None =>
      match conn m with
      | None => return_ m w (Some "no connection to doppler present"%string)
      | Some c => set_writer m w (Some (Loaded c data))
      end
  end.

(** [client.Send] answers. *)
Definition Write_send (w : nat) (err : option string) (m : ConnManager) : ConnManager :=
  match writers m !! w with
  | Some (Loaded c data) =>
      match err with
      | Some e => set_writer m w (Some (SendFailed c e))
      | None =>
          let m := set_writer m w (Some (SendDone c)) in
          mkManager (conn m) (conns m) (reset m) (writers m) (maintainer m) (health m) (streamErrors m)
            (sent m ++ [(c, data)]) (returned m)
      end
  | _ => m
  end.

(** The next atomic step of a call of [Write] after the send. *)
Definition Write_next (w : nat) (m : ConnManager) : ConnManager :=
  match writers m !! w with
  | Some (SendFailed c err) => set_writer (store m None) w (Some (Closing c (Some err)))
  | Some (SendDone c) =>
      let l := alter (fun g => mkConn (Words.int64 (writes g + 1)) (closes g)) c (conns m) in
      let m := set_conns m l (health m) in
      if bool_decide (maxWrites <= default 0 (writes <$> l !! c))%Z
      then set_writer m w (Some (Recycling c)) else return_ m w None
  | Some (Recycling c) =>
      match ver with
      | V1Manager =>
          if bool_decide (conn m = Some c)
          then set_writer (store m None) w (Some (Closing c None)) else return_ m w None
      | V2Manager => set_writer (store m None) w (Some (Closing c None))
      end
  | Some (Closing c err) =>
      let m := set_conns m (alter (fun g => mkConn (writes g) (S (closes g))) c (conns m))
                 (decrementingCloser_Close (health m)) in
      set_writer m w (Some (Resetting err))
  | Some (Resetting err) =>
      if bool_decide (reset m < 100) then return_ (set_reset m (S (reset m))) w err else m
  | _ => m
  end.

(** The next atomic step of [maintainConn]: [tick] chooses the ticker, [f] is what
    [connector.Connect] meets. *)
Definition maintainConn (tick : bool) (f : fetch) (m : ConnManager) : ConnManager :=
  match maintainer m with
  | MStart => set_maintainer (set_reset m (S (reset m))) MSelect
  | MSelect =>
      if tick then set_maintainer m MLoad
      else match reset m with
           | O => m
           | S n => set_maintainer (set_reset m n) MLoad
           end
  | MLoad => set_maintainer m (match conn m with None => MConnect | Some _ => MSelect end)
  | MConnect =>
      let '(g, ok) := Fetch f (health m) in
      if ok then set_maintainer (set_conns m (conns m ++ [mkConn 0 0]) g) (MStore (length (conns m)))
      else
        let m := set_conns m (conns m) g in
        mkManager (conn m) (conns m) (reset m) (writers m) MSelect (health m)
          (match f with StreamError => S (streamErrors m) | _ => streamErrors m end) (sent m) (returned m)
  | MStore c => set_maintainer (store m (Some c)) MSelect
  end.

Inductive step : Type :=
| WriteLoad (w : nat) (data : A)
| WriteSend (w : nat) (err : option string)
| WriteNext (w : nat)
| Maintain (tick : bool) (f : fetch).

Definition do_step (m : ConnManager) (s : step) : ConnManager :=
  match s with
  | WriteLoad w data => Write_load w data m
  | WriteSend w err => Write_send w err m
  | WriteNext w => Write_next w m
  | Maintain tick f => maintainConn tick f m
  end.

Definition run (l : list step) : ConnManager := foldl do_step NewConnManager l.
End Steps.

(** ** The connection manager *)

Fixpoint total_closes (l : list grpcConn) : Z :=
  match l with [] => 0 | g :: l => Z.of_nat (closes g) + total_closes l end.

(** The gauges count established minus closed connections; a stream that cannot be
    established leaves the connection gauge one too high for good. *)
Definition gauges_ok (m : ConnManager) : Prop :=
  dopplerStreams (health m) = (Z.of_nat (length (conns m)) - total_closes (conns m))%Z /\
  dopplerConnections (health m) = (dopplerStreams (health m) + Z.of_nat (streamErrors m))%Z.

Lemma total_closes_alter_writes f l c :
  (forall g, closes (f g) = closes g) -> total_closes (alter f c l) = total_closes l.
Proof.
  intros Hf. revert c. induction l as [|g l IH]; intros [|c]; cbn [alter list_alter total_closes]; [done..|by rewrite Hf|].
  f_equal. apply IH.
Qed.

Lemma total_closes_alter_close l c :
  c < length l -> total_closes (alter (fun g => mkConn (writes g) (S (closes g))) c l) = (total_closes l + 1)%Z.
Proof.
  revert c. induction l as [|g l IH]; intros [|c] Hc; cbn [alter list_alter total_closes length closes] in *; [lia..|].
  specialize (IH c ltac:(lia)). unfold alter in IH. etrans; [apply (f_equal (Z.add _)), IH|]. lia.
Qed.

Lemma total_closes_snoc l : total_closes (l ++ [mkConn 0 0]) = total_closes l.
Proof. induction l as [|g l IH]; simpl; [done|]. by rewrite IH. Qed.

(** A connection some step still refers to exists. *)
Definition writing_conn (s : writing) : option nat :=
  match s with
  | Loaded c _ | SendFailed c _ | SendDone c | Recycling c | Closing c _ => Some c
  | Resetting _ => None
  end.

Definition refs_ok (m : ConnManager) : Prop :=
  (forall c, conn m = Some c -> c < length (conns m)) /\
  (forall c, maintainer m = MStore c -> c < length (conns m)) /\
  (forall w s c, writers m !! w = Some s -> writing_conn s = Some c -> c < length (conns m)).

Lemma set_writer_refs m w o :
  refs_ok m -> (forall s c, o = Some s -> writing_conn s = Some c -> c < length (conns m)) ->
  refs_ok (set_writer m w o).
Proof.
  intros (H1 & H2 & H3) Ho. split_and!; [done..|]. intros w' s c. simpl.
  destruct (decide (w' = w)) as [->|Hw].
  - rewrite lookup_partial_alter_eq. intros ->. by apply Ho.
  - rewrite lookup_partial_alter_ne by done. apply H3.
Qed.

Lemma return_refs m w err : refs_ok m -> refs_ok (return_ m w err).
Proof. intros H. by apply (set_writer_refs m w None H). Qed.

Lemma next_general ver max w m :
  refs_ok m /\ gauges_ok m -> refs_ok (Write_next ver max w m) /\ gauges_ok (Write_next ver max w m).
Proof.
  intros [HR HG]. pose proof HR as (H1 & H2 & H3).
  unfold Write_next. destruct (writers m !! w) as [st|] eqn:Ew; [|done]. assert (forall c, writing_conn st = Some c -> c < length (conns m)) as H3' by eauto.
  destruct st as [c data|c err|c|c|c err|err]; simpl in H3'; try specialize (H3' c eq_refl).
  - done.
  - split; [|done]. apply set_writer_refs; [by split_and!|]. by intros s c' [= <-] [= <-].
  - set (l := alter _ c (conns m)).
    assert (length l = length (conns m)) as Hl by apply length_alter.
    assert (refs_ok (set_conns m l (health m))) as HR' by (unfold refs_ok; simpl; rewrite Hl; by split_and!).
    assert (gauges_ok (set_conns m l (health m))) as HG'.
    { unfold gauges_ok. simpl. rewrite Hl. unfold l. by rewrite total_closes_alter_writes. }
    case_bool_decide; (split; [|exact HG']).
    + apply set_writer_refs; [done|]. simpl. rewrite Hl. by intros s c' [= <-] [= <-].
    + by apply return_refs.
  - assert (refs_ok (set_writer (store m None) w (Some (Closing c None)))) as HR'.
    { apply set_writer_refs; [by split_and!|]. by intros s c' [= <-] [= <-]. }
    destruct ver; [case_bool_decide|]; (split; [|exact HG]); [done|by apply return_refs|done].
  - set (l := alter _ c (conns m)).
    assert (length l = length (conns m)) as Hl by apply length_alter. split.
    + apply set_writer_refs; [|by intros s c' [= <-]]. unfold refs_ok; simpl; rewrite Hl; by split_and!.
    + unfold gauges_ok. simpl. rewrite Hl. unfold l. rewrite total_closes_alter_close by done.
      destruct HG. split; simpl; lia.
  - case_bool_decide; [|done]. split; [by apply return_refs|done].
Qed.

Lemma maintain_general tick f m :
  refs_ok m /\ gauges_ok m -> refs_ok (maintainConn tick f m) /\ gauges_ok (maintainConn tick f m).
Proof.
  intros [HR HG]. pose proof HR as (H1 & H2 & H3).
  unfold maintainConn. destruct (maintainer m) as [| | | |c] eqn:Em.
  - split; [by split_and!|done].
  - destruct tick; [split; [by split_and!|done]|]. destruct (reset m); [done|]. split; [by split_and!|done].
  - destruct (conn m) eqn:Ec; (split; [|done]); split_and!; simpl; rewrite ?Ec; done || naive_solver.
  - destruct f; cbn [Fetch]; (split; [|]); try (by split_and!);
      try (destruct HG; split; simpl; lia).
    + split_and!; simpl; rewrite length_app; simpl; try (intros c [= <-]; lia); intros; [|].
      * apply Nat.lt_lt_add_r. naive_solver.
      * apply Nat.lt_lt_add_r. naive_solver.
    + unfold gauges_ok in *. simpl. rewrite length_app, total_closes_snoc. simpl. lia.
  - split; [|done]. split_and!; simpl; [|done|done]. intros c' [= <-]. auto.
Qed.

Lemma step_general ver max m s :
  refs_ok m /\ gauges_ok m -> refs_ok (do_step ver max m s) /\ gauges_ok (do_step ver max m s).
Proof.
  intros [HR HG]. pose proof HR as (H1 & H2 & H3).
  assert (forall w st, writers m !! w = Some st -> forall c, writing_conn st = Some c -> c < length (conns m)) as H3'
    by eauto.
  destruct s as [w data|w err|w|tick f]; simpl.
  - unfold Write_load. destruct (writers m !! w); [done|]. destruct (conn m) as [c|] eqn:Ec.
    + split; [|done]. apply set_writer_refs; [done|]. intros s c' [= <-] [= <-]. auto.
    + split; [by apply return_refs|done].
  - unfold Write_send. destruct (writers m !! w) as [[c data| | | | |]|] eqn:Ew; try done.
    specialize (H3' _ _ Ew c eq_refl). destruct err as [e|]; (split; [|done]).
    + apply set_writer_refs; [done|]. by intros s c' [= <-] [= <-].
    + assert (refs_ok (set_writer m w (Some (SendDone c)))) as HR' by
        (apply set_writer_refs; [done|]; by intros s c' [= <-] [= <-]). exact HR'.
  - by apply next_general.
  - by apply maintain_general.
Qed.

(** *** One writer

    With a single writing goroutine a connection in use is never replaced under it. *)

Definition closing (s : option writing) (id : nat) : bool :=
  match s with Some (Closing c _) => bool_decide (c = id) | _ => false end.

(** Connections that have been established and not yet closed: the current one, the one
    about to be stored, the one about to be closed. *)
Definition live (m : ConnManager) (id : nat) : bool :=
  bool_decide (conn m = Some id) || bool_decide (maintainer m = MStore id) || closing (writers m !! 0) id.

Definition holds (m : ConnManager) : Prop :=
  match writers m !! 0 with
  | Some (Loaded c _) | Some (SendFailed c _) | Some (SendDone c) | Some (Recycling c) => conn m = Some c
  | Some (Closing c _) => conn m <> Some c /\ maintainer m <> MStore c
  | _ => True
  end.

Definition write_limit (maxWrites : Z) : Z := Z.max maxWrites 1.

Record single (maxWrites : Z) (m : ConnManager) : Prop := {
  s_holds : holds m;
  s_maintainer : match maintainer m with MConnect | MStore _ => conn m = None | _ => True end;
  s_closes : forall id g, conns m !! id = Some g -> closes g = if live m id then 0 else 1;
  s_writes : forall id g, conns m !! id = Some g -> (0 <= writes g <= write_limit maxWrites)%Z;
  s_room : forall id g, conns m !! id = Some g -> (conn m = Some id \/ maintainer m = MStore id) ->
    (match writers m !! 0 with Some (Recycling _) => False | _ => True end) ->
    (writes g < write_limit maxWrites)%Z
}.

Definition by_writer0 (s : step) : Prop :=
  match s with WriteLoad w _ | WriteSend w _ | WriteNext w => w = 0 | Maintain _ _ => True end.

Ltac single_simpl :=
  unfold holds, live, closing in *; simpl in *;
  repeat rewrite ?lookup_partial_alter_eq in *; simpl in *.

Lemma single_writer_step max m w o :
  single max m -> w = 0 -> (holds (set_writer m w o)) ->
  (forall id, closing o id = closing (writers m !! 0) id) ->
  (match o with Some (Recycling _) => True | _ =>
     match writers m !! 0 with Some (Recycling _) => False | _ => True end end) ->
  single max (set_writer m w o).
Proof.
  intros [] -> Ho Hc Hr. split; [done|done| |done|].
  - intros id g Hg. rewrite (s_closes0 id g Hg). unfold live. simpl. rewrite lookup_partial_alter_eq, Hc. done.
  - intros id g Hg Hid Hro. eapply s_room0; [done..|]. simpl in Hro. rewrite lookup_partial_alter_eq in Hro.
    destruct (writers m !! 0) as [[]|], o as [[]|]; done.
Qed.

Lemma write_load_single max data m : single max m -> single max (Write_load 0 data m).
Proof.
  intros H. unfold Write_load. destruct (writers m !! 0) eqn:Ew; [done|]. destruct (conn m) as [c|] eqn:Ec.
  - apply single_writer_step; [done..| |by rewrite Ew|by rewrite Ew]. single_simpl. done.
  - assert (single max (set_writer m 0 None)) as H'; [|by destruct H'; split].
    apply single_writer_step; [done..| |by rewrite Ew|by rewrite Ew]. by single_simpl.
Qed.

Lemma write_send_single max err m : single max m -> single max (Write_send 0 err m).
Proof.
  intros H. unfold Write_send. destruct (writers m !! 0) as [[c data| | | | |]|] eqn:Ew; try done.
  pose proof (s_holds _ _ H) as Hh. unfold holds in Hh. rewrite Ew in Hh. destruct err as [e|].
  - apply single_writer_step; [done..| |by rewrite Ew|by rewrite Ew]. by single_simpl.
  - assert (single max (set_writer m 0 (Some (SendDone c)))) as H'; [|by destruct H'; split].
    apply single_writer_step; [done..| |by rewrite Ew|by rewrite Ew]. by single_simpl.
Qed.

(** Taking the current connection out of the pointer, to close it. *)
Lemma store_nil_single max c err m :
  single max m -> conn m = Some c -> (forall id, closing (writers m !! 0) id = false) ->
  single max (set_writer (store m None) 0 (Some (Closing c err))).
Proof.
  intros [] Hc Hn. rewrite Hc in s_maintainer0.
  assert (forall id, maintainer m <> MStore id) as Hm by (intros id E; by rewrite E in s_maintainer0).
  split.
  - unfold holds. simpl. rewrite lookup_partial_alter_eq. split; [done|apply Hm].
  - simpl. by destruct (maintainer m).
  - intros id g Hg. rewrite (s_closes0 id g Hg). unfold live. simpl. rewrite lookup_partial_alter_eq, Hn, Hc. simpl.
    rewrite !(bool_decide_eq_false_2 (maintainer m = _)) by apply Hm. rewrite !orb_false_r. simpl.
    by rewrite (bool_decide_ext (Some c = Some id) (c = id)) by naive_solver.
  - done.
  - intros id g Hg [E|E]; [done|]. by destruct (Hm id).
Qed.

(** Counting a write on the current connection. *)
Lemma count_write_single max c m o :
  let l := alter (fun g => mkConn (Words.int64 (writes g + 1)) (closes g)) c (conns m) in
  (max < 2 ^ 63)%Z -> single max m -> conn m = Some c -> writers m !! 0 = Some (SendDone c) ->
  (o = Some (Recycling c) /\ (max <= default 0 (writes <$> l !! c))%Z \/
   o = None /\ ~ (max <= default 0 (writes <$> l !! c))%Z) ->
  single max (set_writer (set_conns m l (health m)) 0 o).
Proof.
  intros l Hmax [] Hc Ew Ho.
  assert (forall id g, l !! id = Some g -> exists g0, conns m !! id = Some g0 /\ closes g = closes g0 /\
    (0 <= writes g <= write_limit max)%Z /\ (c <> id -> writes g = writes g0)) as Hl.
  { intros id g Hg. unfold l in Hg. destruct (decide (c = id)) as [<-|Hne].
    - rewrite list_lookup_alter_eq in Hg. destruct (conns m !! c) as [g0|] eqn:E; simpl in Hg; [|done].
      injection Hg as <-. exists g0. split_and!; try done; simpl;
        specialize (s_room0 c g0 E (or_introl Hc)); rewrite Ew in s_room0; specialize (s_room0 I);
        specialize (s_writes0 c g0 E); unfold write_limit in *; rewrite Words.swrap_small by lia; lia.
    - rewrite list_lookup_alter_ne in Hg by done. exists g. split_and!; try done; by apply (s_writes0 id). }
  assert (forall id, closing o id = false) as Hcl by (intros id; by destruct Ho as [[-> _]|[-> _]]).
  split.
  - unfold holds. simpl. rewrite lookup_partial_alter_eq. by destruct Ho as [[-> _]|[-> _]].
  - done.
  - intros id g (g0 & Hg0 & -> & _)%Hl. rewrite (s_closes0 id g0 Hg0). unfold live. simpl.
    rewrite lookup_partial_alter_eq, Ew, Hcl. done.
  - intros id g (g0 & Hg0 & _ & Hw & _)%Hl. done.
  - intros id g Hg Hid. simpl. rewrite lookup_partial_alter_eq. destruct Ho as [[-> _]|[-> Hlt]]; [done|]. intros _.
    simpl in Hid. destruct (decide (c = id)) as [<-|Hne].
    + simpl in Hg. fold l in Hg. rewrite Hg in Hlt. simpl in Hlt. unfold write_limit. lia.
    + destruct (Hl id g Hg) as (g0 & Hg0 & _ & _ & Hw). rewrite Hw by done. apply (s_room0 id g0 Hg0 Hid). by rewrite Ew.
Qed.

Lemma close_single max c err m :
  single max m -> writers m !! 0 = Some (Closing c err) ->
  single max (set_writer (set_conns m (alter (fun g => mkConn (writes g) (S (closes g))) c (conns m))
    (decrementingCloser_Close (health m))) 0 (Some (Resetting err))).
Proof.
  intros [] Ew. unfold holds in s_holds0. rewrite Ew in s_holds0. destruct s_holds0 as [Hc Hm].
  assert (forall id g, alter (fun g => mkConn (writes g) (S (closes g))) c (conns m) !! id = Some g ->
    exists g0, conns m !! id = Some g0 /\ writes g = writes g0 /\
      closes g = if decide (c = id) then S (closes g0) else closes g0) as Hl.
  { intros id g Hg. destruct (decide (c = id)) as [<-|Hne].
    - rewrite list_lookup_alter_eq in Hg. destruct (conns m !! c) as [g0|] eqn:E; simpl in Hg; [|done].
      injection Hg as <-. by exists g0.
    - rewrite list_lookup_alter_ne in Hg by done. by exists g. }
  split.
  - unfold holds. simpl. by rewrite lookup_partial_alter_eq.
  - done.
  - intros id g (g0 & Hg0 & _ & ->)%Hl. rewrite (s_closes0 id g0 Hg0). unfold live. simpl.
    rewrite lookup_partial_alter_eq, Ew. simpl. case_decide as E.
    + subst id. rewrite (bool_decide_eq_false_2 (conn m = _)), (bool_decide_eq_false_2 (maintainer m = _)) by done.
      by rewrite (bool_decide_eq_true_2 (c = c)).
    + by rewrite (bool_decide_eq_false_2 (c = id)).
  - intros id g (g0 & Hg0 & -> & _)%Hl. by apply (s_writes0 id).
  - intros id g (g0 & Hg0 & -> & _)%Hl Hid _. apply (s_room0 id g0 Hg0 Hid). by rewrite Ew.
Qed.

Lemma write_next_single ver max m : (max < 2 ^ 63)%Z -> single max m -> single max (Write_next ver max 0 m).
Proof.
  intros Hmax H. pose proof (s_holds _ _ H) as Hh. unfold Write_next, holds in *.
  destruct (writers m !! 0) as [[c data|c err|c|c|c err|err]|] eqn:Ew; try done.
  - apply store_nil_single; [done..|]. intros id. by rewrite Ew.
  - case_bool_decide as Hb.
    + apply count_write_single; auto.
    + set (m' := set_conns m _ _). assert (single max (set_writer m' 0 None)) as H'; [|by destruct H'; split].
      apply count_write_single; auto.
  - assert (single max (set_writer (store m None) 0 (Some (Closing c None)))) as H'.
    { apply store_nil_single; [done..|]. intros id. by rewrite Ew. }
    destruct ver; [|done]. by rewrite bool_decide_eq_true_2.
  - by apply close_single.
  - case_bool_decide; [|done].
    assert (single max (set_writer m 0 None)) as H'; [|by destruct H'; split].
    apply single_writer_step; [done..| |by rewrite Ew|by rewrite Ew]. by single_simpl.
Qed.

Lemma set_maintainer_single max m s :
  single max m -> (forall id, s = MStore id <-> maintainer m = MStore id) ->
  (match s with MConnect | MStore _ => conn m = None | _ => True end) -> single max (set_maintainer m s).
Proof.
  intros [] Hs Hn. split; [|done| |done|].
  - unfold holds in *. simpl. destruct (writers m !! 0) as [[]|]; try done. by rewrite Hs.
  - intros id g Hg. rewrite (s_closes0 id g Hg). unfold live. simpl.
    by rewrite (bool_decide_ext _ _ (Hs id)).
  - intros id g Hg Hid. apply (s_room0 id g Hg). simpl in Hid. by rewrite Hs in Hid.
Qed.

Lemma new_conn_single max m g :
  refs_ok m -> single max m -> maintainer m = MConnect ->
  single max (set_maintainer (set_conns m (conns m ++ [mkConn 0 0]) g) (MStore (length (conns m)))).
Proof.
  intros (_ & _ & R3) [] Em. rewrite Em in s_maintainer0.
  assert (forall id g0, (conns m ++ [mkConn 0 0]) !! id = Some g0 ->
    conns m !! id = Some g0 /\ id <> length (conns m) \/ id = length (conns m) /\ g0 = mkConn 0 0) as Hl.
  { intros id g0 [Hg|[Hle Hg]]%lookup_app_Some.
    - left. split; [done|]. apply lookup_lt_Some in Hg. lia.
    - right. apply list_lookup_singleton_Some in Hg as [? <-]. split; [lia|done]. }
  split.
  - unfold holds in *. simpl. destruct (writers m !! 0) as [[]|] eqn:Ew; try done.
    split; [by destruct s_holds0|]. intros [= E]. specialize (R3 _ _ _ Ew eq_refl). lia.
  - done.
  - intros id g0 [[Hg Hne]|[-> ->]]%Hl.
    + rewrite (s_closes0 id g0 Hg). unfold live. simpl. rewrite Em.
      by rewrite (bool_decide_eq_false_2 (MStore _ = _)) by congruence.
    + unfold live. simpl. rewrite (bool_decide_eq_true_2 (MStore _ = _)) by done. by rewrite orb_true_r.
  - intros id g0 [[Hg Hne]|[-> ->]]%Hl; [by apply (s_writes0 id)|]. unfold write_limit. simpl. lia.
  - intros id g0 [[Hg Hne]|[-> ->]]%Hl Hid Hr; [|unfold write_limit; simpl; lia].
    apply (s_room0 id g0 Hg); [|done]. simpl in Hid. destruct Hid as [Hid|[= E]]; [by left|done].
Qed.

Lemma store_conn_single max m c :
  single max m -> maintainer m = MStore c -> single max (set_maintainer (store m (Some c)) MSelect).
Proof.
  intros [] Em. rewrite Em in s_maintainer0. split.
  - unfold holds in *. simpl. rewrite Em, s_maintainer0 in s_holds0.
    destruct (writers m !! 0) as [[]|]; try done. split; [|done]. naive_solver.
  - done.
  - intros id g Hg. rewrite (s_closes0 id g Hg). unfold live. simpl. rewrite Em, s_maintainer0.
    rewrite (bool_decide_ext (Some c = Some id) (MStore c = MStore id)) by naive_solver. simpl.
    by rewrite orb_false_r.
  - done.
  - intros id g Hg Hid. apply (s_room0 id g Hg). simpl in Hid. right. rewrite Em. naive_solver.
Qed.

Lemma maintain_single max tick f m :
  refs_ok m -> single max m -> single max (maintainConn tick f m).
Proof.
  intros HR H. unfold maintainConn. destruct (maintainer m) as [| | | |c] eqn:Em.
  - assert (single max (set_maintainer m MSelect)) as H' by (apply set_maintainer_single; [done|by rewrite Em|done]).
    by destruct H'; split.
  - assert (single max (set_maintainer m MLoad)) as H' by (apply set_maintainer_single; [done|by rewrite Em|done]).
    destruct tick; [done|]. destruct (reset m); [done|]. by destruct H'; split.
  - apply set_maintainer_single; [done|rewrite Em; by destruct (conn m)|by destruct (conn m)].
  - assert (single max (set_maintainer m MSelect)) as H' by (apply set_maintainer_single; [done|by rewrite Em|done]).
    destruct f; cbn [Fetch]; [by destruct H'; split..|]. by apply new_conn_single.
  - by apply store_conn_single.
Qed.

Lemma run_invariants ver max l :
  refs_ok (run ver max l) /\ gauges_ok (run ver max l).
Proof.
  unfold run. assert (refs_ok NewConnManager /\ gauges_ok NewConnManager) as H0 by done.
  revert H0. generalize NewConnManager. induction l as [|s l IH]; intros m Hm; simpl; [done|].
  by apply IH, step_general.
Qed.

Lemma run_single ver max l :
  (max < 2 ^ 63)%Z -> Forall by_writer0 l -> single max (run ver max l).
Proof.
  intros Hmax Hl. unfold run.
  assert (refs_ok NewConnManager /\ gauges_ok NewConnManager) as H0 by done.
  assert (single max NewConnManager) as H1 by (split; done).
  revert H0 H1. generalize NewConnManager. induction Hl as [|s l Hs Hl IH]; intros m H0 H1; simpl; [done|].
  apply IH; [by apply step_general|]. destruct s; simpl in *; subst.
  - by apply write_load_single.
  - by apply write_send_single.
  - by apply write_next_single.
  - apply maintain_single; [by apply H0|done].
Qed.

(** The facts about one writer, for clients of this file. *)
Lemma single_writer_facts ver maxWrites l :
  (maxWrites < 2 ^ 63)%Z -> Forall by_writer0 l ->
  let m := run ver maxWrites l in
  (forall id g, conns m !! id = Some g ->
    closes g = (if live m id then 0 else 1) /\ (0 <= writes g <= Z.max maxWrites 1)%Z) /\
  dopplerStreams (health m) = Z.of_nat (length (filter (fun g => closes g = 0) (conns m))) /\
  dopplerConnections (health m) = (dopplerStreams (health m) + Z.of_nat (streamErrors m))%Z.
Proof.
  intros Hmax Hl m. pose proof (run_single ver maxWrites l Hmax Hl) as []. fold m in s_closes0, s_writes0.
  destruct (run_invariants ver maxWrites l) as [_ [Hs Hc]]. fold m in Hs, Hc.
  split; [|split; [|done]].
  - intros id g Hg. split; [by apply (s_closes0 id)|by apply (s_writes0 id)].
  - assert (forall g, g ∈ conns m -> closes g <= 1) as Hle.
    { intros g [id Hg]%list_elem_of_lookup. rewrite (s_closes0 id g Hg). destruct (live m id); lia. }
    rewrite Hs. revert Hle. generalize (conns m). clear. intros l Hle. induction l as [|g l IH]; [done|].
    rewrite filter_cons. cbn [length total_closes]. specialize (IH ltac:(set_solver)).
    specialize (Hle g ltac:(set_solver)). case_decide; cbn [length]; lia.
Qed.

(** A connection manager with one writer.  Under every interleaving of the writer and
    the maintaining goroutine, each established connection is closed at most once, and is
    open exactly while it is the current one, about to become it or about to be closed; no
    connection carries more than the maximal number of writes; the stream gauge is the
    number of open connections, and the connection gauge exceeds it by the number of
    streams that could not be established. *)
Theorem conn_manager_single_writer ver maxWrites l :
  (maxWrites < 2 ^ 63)%Z -> Forall by_writer0 l ->
  let m := run ver maxWrites l in
  (forall id g, conns m !! id = Some g ->
    closes g = (if live m id then 0 else 1) /\ (0 <= writes g <= Z.max maxWrites 1)%Z) /\
  dopplerStreams (health m) = Z.of_nat (length (filter (fun g => closes g = 0) (conns m))) /\
  dopplerConnections (health m) = (dopplerStreams (health m) + Z.of_nat (streamErrors m))%Z.
Proof. apply single_writer_facts. Qed.

End Manager.

Arguments writing : clear implicits.
Arguments ConnManager : clear implicits.
Arguments step : clear implicits.

Definition example_run : list (step string) :=
  [Maintain false NoAddress; Maintain false NoAddress; Maintain false NoAddress; Maintain false StreamError;
   Maintain true NoAddress; Maintain true NoAddress; Maintain true Established; WriteLoad 0 "early";
   Maintain true NoAddress; WriteLoad 0 "a"; WriteSend 0 None; WriteNext 0; WriteLoad 0 "b";
   WriteSend 0 None; WriteNext 0; WriteNext 0; WriteNext 0; WriteNext 0].

Lemma conn_manager_single_writer_witness :
  let m := run V1Manager 2 example_run in
  (forall id g, conns m !! id = Some g ->
    closes g = (if live m id then 0 else 1) /\ (0 <= writes g <= 2)%Z) /\
  dopplerStreams (health m) = 0%Z /\ dopplerConnections (health m) = 1%Z.
Proof.
  destruct (conn_manager_single_writer V1Manager 2 example_run) as (H1 & H2 & H3).
  - lia.
  - repeat (constructor; [cbn; first [exact I|reflexivity]|]). constructor.
  - split; [exact H1|]. split; [exact H2|]. exact (eq_trans H3 eq_refl).
Defined.

(** Two writers load the same connection; both sends fail.  The first takes the connection
    out and the maintaining goroutine stores a new one before the second writer stores nil
    and closes the old connection again. *)
Definition two_writers : list (step string) :=
  [Maintain false NoAddress; Maintain false NoAddress; Maintain false NoAddress; Maintain false Established;
   Maintain false NoAddress;
   WriteLoad 0 "a"; WriteLoad 1 "b"; WriteSend 0 (Some "broken"%string); WriteSend 1 (Some "broken"%string);
   WriteNext 0; WriteNext 0; WriteNext 0;
   Maintain false NoAddress; Maintain false NoAddress; Maintain false Established; Maintain false NoAddress;
   WriteNext 1; WriteNext 1; WriteNext 1].

(** Two concurrent writers can leak a connection.  After both fail on the same
    connection, the second replaces the new connection in the pointer by nil without
    closing it: when all goroutines are done, connection 1 has been established, was never
    closed and is no longer referenced, while connection 0 was closed twice.  This holds
    for v1 and v2. *)
Theorem conn_manager_leaks ver maxWrites :
  let m := run ver maxWrites two_writers in
  conn m = None /\ writers m = ∅ /\ maintainer m = MSelect /\
  closes <$> conns m = [2; 0] /\ returned m = [(0, Some "broken"%string); (1, Some "broken"%string)].
Proof. destruct ver; vm_compute; repeat split. Qed.
