(* ===== verification/GrpcConnector.v ===== *)
(** * plumbing/grpc_connector.go and pool.go: the traffic controller's and the reverse log
      proxy's connections to the dopplers

    The finder announces the dopplers; the connector keeps one client per doppler, registered
    in the connection pool, and for every subscription one goroutine per client.  A client
    that is no longer announced stays until its last goroutine returns.  Clients are objects
    the goroutines keep pointers to, so they live in a heap. *)

From S2P Require Import Prelude Go ClientPool.

(** ** pool.go *)

(** [fetchClient]: the first connected slot of the rotation that starts at the seed. *)
Fixpoint fetch_loop (clients : list (option nat)) (seed : Z) (size : nat) (js : list nat) : outcome (option nat) :=
  match js with
  | [] => Returns None
  | i :: js =>
      (let! idx := pool_index i seed size in
       match clients !! idx with
       | None => Panics "index out of range"
       | Some None => fetch_loop clients seed size js
       | Some (Some c) => Returns (Some c)
       end)%go
  end.

Definition fetchClient (clients : list (option nat)) (seed : Z) (size : nat) : outcome (option nat) :=
  fetch_loop clients seed size (seq 0 (length clients)).

Lemma fetchClient_rotation clients seed size :
  length clients = size -> (0 <= seed)%Z -> (seed + Z.of_nat size <= 2 ^ 63)%Z ->
  fetchClient clients seed size = Returns (head (omap (fun i => mjoin (clients !! i)) (rotation seed size))).
Proof.
  intros Hl Hs Hn. unfold fetchClient, rotation. rewrite Hl.
  assert (Forall (fun i => i < size) (seq 0 size)) as Hi by (apply Forall_forall; intros i Hi%elem_of_seq; lia).
  induction Hi as [|i js Hi _ IH]; [done|]. cbn [fetch_loop fmap list_fmap omap list_omap].
  rewrite pool_index_rotates by done. cbn [obind]. set (x := Z.to_nat _).
  assert (x < length clients) as Hx.
  { unfold x. pose proof (Z.mod_pos_bound (Z.of_nat i + seed) (Z.of_nat size)). lia. }
  destruct (lookup_lt_is_Some_2 clients x Hx) as [[c|] E]; rewrite E; [done|]. exact IH.
Qed.

(** ** grpc_connector.go: state *)

Record dopplerClientInfo : Type := mkInfo { uri : string; disconnect : bool; refCount : Z }.

Record consumerState : Type := mkConsumer { dead : bool; dopplers : gset string }.

(** A goroutine running [consumeSubscription], before or after [tryAddDoppler]. *)
Record goroutine : Type := mkGoroutine { g_consumer : nat; g_client : nat; g_running : bool }.

Record GRPCConnector : Type := mkConnector {
  infos : gmap nat dopplerClientInfo;
  clients : list nat;
  pool : gset string;                   (* the addresses the pool has connections for *)
  consumerStates : list (option nat);
  consumers : gmap nat consumerState;
  goroutines : list goroutine
}.

Definition maxConnections : nat := N.to_nat 2000.

Definition NewGRPCConnector : GRPCConnector :=
  mkConnector ∅ [] ∅ (replicate maxConnections None) ∅ [].

Definition info (c : GRPCConnector) (i : nat) : dopplerClientInfo := default (mkInfo EmptyString false 0) (infos c !! i).

Definition set_info (c : GRPCConnector) (i : nat) (x : dopplerClientInfo) : GRPCConnector :=
  mkConnector (<[i := x]> (infos c)) (clients c) (pool c) (consumerStates c) (consumers c) (goroutines c).

Definition set_pool (c : GRPCConnector) (p : gset string) : GRPCConnector :=
  mkConnector (infos c) (clients c) p (consumerStates c) (consumers c) (goroutines c).

Definition set_clients (c : GRPCConnector) (l : list nat) : GRPCConnector :=
  mkConnector (infos c) l (pool c) (consumerStates c) (consumers c) (goroutines c).

Definition set_goroutines (c : GRPCConnector) (l : list goroutine) : GRPCConnector :=
  mkConnector (infos c) (clients c) (pool c) (consumerStates c) (consumers c) l.

Definition set_consumer (c : GRPCConnector) (i : nat) (x : consumerState) : GRPCConnector :=
  mkConnector (infos c) (clients c) (pool c) (consumerStates c) (<[i := x]> (consumers c)) (goroutines c).

(** ** Operations *)

Definition consumer (c : GRPCConnector) (i : nat) : consumerState := default (mkConsumer true ∅) (consumers c !! i).

(** [close] *)
Definition close (i : nat) (c : GRPCConnector) : GRPCConnector :=
  set_clients c (filter (fun j => j <> i) (clients c)).

Definition set_disconnect (b : bool) (i : nat) (c : GRPCConnector) : GRPCConnector :=
  set_info c i (mkInfo (uri (info c i)) b (refCount (info c i))).

(** [subtractClient]: the client found and those that remain. *)
Fixpoint subtractClient (c : GRPCConnector) (remaining : list nat) (u : string) : option (nat * list nat) :=
  match remaining with
  | [] => None
  | i :: remaining =>
      if bool_decide (u = uri (info c i)) then Some (i, remaining)
      else match subtractClient c remaining u with
           | Some (j, r) => Some (j, i :: r)
           | None => None
           end
  end.

Definition delta (uris : list string) (c : GRPCConnector) : GRPCConnector * list string * list nat :=
  foldl (fun '(c, add, dead) newURI =>
    match subtractClient c dead newURI with
    | Some (i, dead) => (set_disconnect false i c, add, dead)
    | None => (c, add ++ [newURI], dead)
    end) (c, [], clients c) uris.

(** The live consumers, in the order of their slots. *)
Definition live_consumers (c : GRPCConnector) : list nat :=
  omap (fun o => match o with
                 | Some i => if dead (consumer c i) then None else Some i
                 | None => None
                 end) (consumerStates c).

Definition add_client (c : GRPCConnector) (addr : string) : GRPCConnector :=
  let i := fresh (dom (infos c)) in
  let c := set_pool c (pool c ∪ {[addr]}) in
  let c := set_info c i (mkInfo addr false 0) in
  let c := set_clients c (clients c ++ [i]) in
  set_goroutines c (goroutines c ++ ((fun k => mkGoroutine k i false) <$> live_consumers c)).

Definition drop_client (c : GRPCConnector) (i : nat) : GRPCConnector :=
  let c := set_disconnect true i c in
  if bool_decide (refCount (info c i) = 0%Z)
  then close i (set_pool c (pool c ∖ {[uri (info c i)]})) else c.

Definition handleFinderEvent (uris : list string) (c : GRPCConnector) : GRPCConnector :=
  let '(c, add, dead) := delta uris c in
  foldl drop_client (foldl add_client c add) dead.

(** [addConsumerState]: the first slot that is empty or whose consumer is dead. *)
Fixpoint addConsumerState (c : GRPCConnector) (k : nat) (slots : list (option nat)) : option (list (option nat)) :=
  match slots with
  | [] => None
  | o :: slots =>
      if match o with None => true | Some i => dead (consumer c i) end then Some (Some k :: slots)
      else cons o <$> addConsumerState c k slots
  end.

(** [Subscribe] of a new consumer; the error is the connection limit. *)
Definition Subscribe (c : GRPCConnector) : result (nat * GRPCConnector) :=
  let k := fresh (dom (consumers c)) in
  match addConsumerState c k (consumerStates c) with
  | None => Err "at connection limit: 2000"
  | Some slots =>
      Ok (k, mkConnector (infos c) (clients c) (pool c) slots (<[k := mkConsumer false ∅]> (consumers c))
               (goroutines c ++ ((fun i => mkGoroutine k i false) <$> clients c)))
  end.

(** The context of a consumer is done. *)
Definition context_done (k : nat) (c : GRPCConnector) : GRPCConnector :=
  set_consumer c k (mkConsumer true (dopplers (consumer c k))).

Definition tryAddDoppler (doppler : string) (cs : consumerState) : bool * consumerState :=
  if bool_decide (doppler ∈ dopplers cs) then (false, cs)
  else (true, mkConsumer (dead cs) (dopplers cs ∪ {[doppler]})).

Definition forgetDoppler (doppler : string) (cs : consumerState) : consumerState :=
  mkConsumer (dead cs) (dopplers cs ∖ {[doppler]}).

(** A goroutine enters [consumeSubscription]: [tryAddDoppler], then the reference count. *)
Definition consumeSubscription (n : nat) (c : GRPCConnector) : GRPCConnector :=
  match goroutines c !! n with
  | Some (mkGoroutine k i false) =>
      let u := uri (info c i) in
      match tryAddDoppler u (consumer c k) with
      | (false, _) => set_goroutines c (delete n (goroutines c))
      | (true, cs) =>
          let c := set_consumer c k cs in
          let c := set_info c i (mkInfo u (disconnect (info c i)) (refCount (info c i) + 1)) in
          set_goroutines c (<[n := mkGoroutine k i true]> (goroutines c))
      end
  | _ => c
  end.

(** A goroutine leaves its loop, when its consumer is dead or its doppler disconnected, and
    runs its deferred function. *)
Definition consume_return (n : nat) (c : GRPCConnector) : GRPCConnector :=
  match goroutines c !! n with
  | Some (mkGoroutine k i true) =>
      if dead (consumer c k) || disconnect (info c i) then
        let x := mkInfo (uri (info c i)) (disconnect (info c i)) (refCount (info c i) - 1) in
        let c := set_info c i x in
        let c := if bool_decide (refCount x <= 0)%Z && disconnect x
                 then close i (set_pool c (pool c ∖ {[uri x]})) else c in
        let c := set_consumer c k (forgetDoppler (uri x) (consumer c k)) in
        set_goroutines c (delete n (goroutines c))
      else c
  | _ => c
  end.

(** [ContainerMetrics] and [RecentLogs]: the answers of the clients in the order they arrive,
    [None] for an error, which counts as a timeout when the deadline has passed. *)
Definition query (deadline : bool) (answers : list (option (list string))) : list string * nat :=
  (foldl (fun resp a => resp ++ default [] a) [] answers,
   if deadline then length (filter (fun a => a = None) answers) else 0).

(** One turn of [readStream]: the answer of [Recv], and the [select] between the consumer's
    channel and its context, which may choose either when both are ready; the result is the
    channel, the calls counted and whether the function returned.  [None] waits. *)
Definition readStream_turn (data : Chan.t string) (ctxDone chooseCtx : bool) (resp : option string)
  : option (Chan.t string * nat * bool) :=
  match resp with
  | None => Some (data, 0, true)
  | Some payload =>
      if ctxDone && chooseCtx then Some (data, 0, true)
      else match Chan.try_send data payload with
           | Chan.Sent data => Some (data, 1, false)
           | _ => if ctxDone then Some (data, 0, true) else None
           end
  end.

(** ** Executions *)

(** No goroutine is still before its first step. *)
Definition settled (c : GRPCConnector) : Prop := Forall (fun g => g_running g = true) (goroutines c).

(** The states reachable when goroutines take their first step before the next finder event
    and before another goroutine returns; [last] is the last announcement. *)
Inductive prompt : list string -> GRPCConnector -> Prop :=
| prompt_new : prompt [] NewGRPCConnector
| prompt_event last uris c :
    prompt last c -> settled c -> NoDup uris -> prompt uris (handleFinderEvent uris c)
| prompt_subscribe last c k c' : prompt last c -> Subscribe c = Ok (k, c') -> prompt last c'
| prompt_done last k c : prompt last c -> prompt last (context_done k c)
| prompt_start last n c : prompt last c -> prompt last (consumeSubscription n c)
| prompt_return last n c : prompt last c -> settled c -> prompt last (consume_return n c).

Fixpoint running_on (i : nat) (l : list goroutine) : Z :=
  match l with
  | [] => 0
  | g :: l => (if bool_decide (g_client g = i) && g_running g then 1 else 0) + running_on i l
  end.

(** What holds of the clients, the pool and the goroutines at every step. *)
Record consistent (c : GRPCConnector) : Prop := {
  c_nodup : NoDup (clients c);
  c_known : forall i, i ∈ clients c -> is_Some (infos c !! i);
  c_uris : forall i j, i ∈ clients c -> j ∈ clients c -> uri (info c i) = uri (info c j) -> i = j;
  c_pool : forall u, u ∈ pool c <-> exists i, i ∈ clients c /\ uri (info c i) = u;
  c_refs : forall g, g ∈ goroutines c -> g_client g ∈ clients c;
  c_count : forall i, i ∈ clients c -> refCount (info c i) = running_on i (goroutines c)
}.

Lemma running_on_app i l k : running_on i (l ++ k) = (running_on i l + running_on i k)%Z.
Proof. induction l as [|g l IH]; simpl; [done|]. rewrite IH. lia. Qed.

Lemma running_on_starting i l : Forall (fun g => g_running g = false) l -> running_on i l = 0%Z.
Proof. induction 1 as [|g l Hg _ IH]; simpl; [done|]. rewrite IH, Hg, andb_false_r. done. Qed.

Lemma running_on_nonneg i l : (0 <= running_on i l)%Z.
Proof. induction l as [|g l IH]; simpl; [done|]. destruct (_ && _); lia. Qed.

Lemma running_on_elem i l g : g ∈ l -> g_client g = i -> g_running g = true -> (0 < running_on i l)%Z.
Proof.
  intros Hg Hi Hr. induction Hg as [g l|g h l Hg IH]; simpl.
  - rewrite bool_decide_eq_true_2, Hr by done. simpl. pose proof (running_on_nonneg i l). lia.
  - specialize (IH Hi Hr). destruct (_ && _); lia.
Qed.

Lemma running_on_lookup i l n g :
  l !! n = Some g ->
  running_on i l = ((if bool_decide (g_client g = i) && g_running g then 1 else 0) + running_on i (delete n l))%Z.
Proof.
  revert n. induction l as [|h l IH]; intros [|n] Hn; [done..|by injection Hn as ->|].
  change (delete (S n) (h :: l)) with (h :: delete n l). cbn [running_on]. rewrite (IH n Hn). lia.
Qed.

Lemma running_on_insert i l n g h :
  l !! n = Some g ->
  running_on i (<[n := h]> l) =
    ((if bool_decide (g_client h = i) && g_running h then 1 else 0) + running_on i (delete n l))%Z.
Proof.
  revert n. induction l as [|x l IH]; intros [|n] Hn; [done..|].
  change (<[S n := h]> (x :: l)) with (x :: <[n := h]> l). change (delete (S n) (x :: l)) with (x :: delete n l).
  cbn [running_on]. rewrite (IH n Hn). lia.
Qed.

Lemma info_set_info c i j x : info (set_info c i x) j = if decide (i = j) then x else info c j.
Proof.
  unfold info. simpl. case_decide as E; [subst; by rewrite lookup_insert_eq|by rewrite lookup_insert_ne].
Qed.

(** Changing only the flag of a client. *)
Lemma set_disconnect_consistent b i c : i ∈ clients c -> consistent c -> consistent (set_disconnect b i c).
Proof.
  intros Hi [].
  assert (forall j, uri (info (set_disconnect b i c) j) = uri (info c j) /\
    refCount (info (set_disconnect b i c) j) = refCount (info c j)) as Hsame.
  { intros j. unfold set_disconnect. rewrite info_set_info. by case_decide as E; [subst|]. }
  split; simpl; try done.
  - intros j Hj. destruct (decide (i = j)) as [<-|Hne]; [by rewrite lookup_insert_eq|].
    rewrite lookup_insert_ne by done. auto.
  - intros j k Hj Hk. destruct (Hsame j) as [-> _], (Hsame k) as [-> _]. auto.
  - intros u. rewrite c_pool0. split; intros (j & Hj & Hu); exists j; (split; [done|]);
      destruct (Hsame j) as [E _]; congruence.
  - intros j Hj. destruct (Hsame j) as [_ ->]. auto.
Qed.

Lemma add_client_consistent c addr :
  (forall i, i ∈ clients c -> uri (info c i) <> addr) -> consistent c -> consistent (add_client c addr).
Proof.
  intros Hnew []. unfold add_client. set (n := fresh (dom (infos c))).
  assert (infos c !! n = None) as Hn by (apply not_elem_of_dom, is_fresh).
  assert (n ∉ clients c) as Hnc by (intros H; destruct (c_known0 n H); congruence).
  assert (forall l : list nat, Forall (fun g => g_running g = false) ((fun k => mkGoroutine k n false) <$> l)) as Hst.
  { intros l. by apply Forall_fmap, Forall_true. }
  assert (forall i, i ∈ clients c -> info (set_info c n (mkInfo addr false 0)) i = info c i) as Hold.
  { intros i Hi. rewrite info_set_info. rewrite decide_False by congruence. done. }
  assert (info (set_info c n (mkInfo addr false 0)) n = mkInfo addr false 0) as Hnn.
  { rewrite info_set_info. by rewrite decide_True. }
  unfold info in Hold, Hnn. simpl in Hold, Hnn.
  split; simpl.
  - apply NoDup_app. split_and!; [done|set_solver|apply NoDup_singleton].
  - intros i [Hi| ->%list_elem_of_singleton]%elem_of_app; [|by rewrite lookup_insert_eq].
    rewrite lookup_insert_ne by congruence. auto.
  - unfold info. simpl. intros i j [Hi| ->%list_elem_of_singleton]%elem_of_app [Hj| ->%list_elem_of_singleton]%elem_of_app; try done.
    + rewrite !Hold by done. by apply c_uris0.
    + rewrite (Hold i), Hnn by done. intros E. by destruct (Hnew i).
    + rewrite (Hold j), Hnn by done. intros E. by destruct (Hnew j).
  - intros u. unfold info. simpl. rewrite elem_of_union, c_pool0, elem_of_singleton. split.
    + intros [(i & Hi & <-)| ->].
      * exists i. split; [set_solver|]. by rewrite Hold.
      * exists n. split; [set_solver|]. by rewrite Hnn.
    + intros (i & [Hi| ->%list_elem_of_singleton]%elem_of_app & <-).
      * left. exists i. split; [done|]. by rewrite Hold.
      * right. by rewrite Hnn.
  - intros g [Hg|(k & -> & _)%list_elem_of_fmap]%elem_of_app; [apply elem_of_app; auto|set_solver].
  - unfold info. simpl. intros i [Hi| ->%list_elem_of_singleton]%elem_of_app; rewrite running_on_app, (running_on_starting _ (_ <$> _)), Z.add_0_r by apply Hst.
    + rewrite Hold by done. by apply c_count0.
    + rewrite Hnn. simpl. symmetry. assert (forall g, g ∈ goroutines c -> g_client g <> n) as Hg.
      { intros g Hg E. apply Hnc. rewrite <- E. auto. }
      clear -Hg. induction (goroutines c) as [|g l IH]; [done|]. simpl.
      rewrite bool_decide_eq_false_2 by (apply Hg; set_solver). simpl. rewrite IH; [done|]. set_solver.
Qed.

Lemma close_consistent c i :
  i ∈ clients c -> (forall g, g ∈ goroutines c -> g_client g <> i) -> consistent c ->
  consistent (close i (set_pool c (pool c ∖ {[uri (info c i)]}))).
Proof.
  intros Hi Hg []. split; simpl.
  - by apply NoDup_filter.
  - intros j [_ Hj]%list_elem_of_filter. auto.
  - intros j k [_ Hj]%list_elem_of_filter [_ Hk]%list_elem_of_filter. by apply c_uris0.
  - intros u. rewrite elem_of_difference, c_pool0, elem_of_singleton. split.
    + intros [(j & Hj & Hu) Hne]. exists j. split; [|done]. apply list_elem_of_filter. split; [|done]. by intros ->.
    + intros (j & [Hji Hj]%list_elem_of_filter & Hu). split; [by exists j|]. intros E. apply Hji, c_uris0; try done.
      by unfold info in *; simpl in *; rewrite Hu, E.
  - intros g Hin. apply list_elem_of_filter. split; [by apply Hg|auto].
  - intros j [_ Hj]%list_elem_of_filter. by apply c_count0.
Qed.

Lemma no_goroutine_on c i :
  consistent c -> i ∈ clients c -> (forall g, g ∈ goroutines c -> g_client g = i -> g_running g = true) ->
  (refCount (info c i) <= 0)%Z -> forall g, g ∈ goroutines c -> g_client g <> i.
Proof.
  intros [] Hi Hrun Hz g Hg E. pose proof (running_on_elem i _ g Hg E (Hrun g Hg E)). rewrite <- c_count0 in H by done. lia.
Qed.

Lemma drop_client_consistent c i :
  i ∈ clients c -> (forall g, g ∈ goroutines c -> g_client g = i -> g_running g = true) -> consistent c ->
  consistent (drop_client c i).
Proof.
  intros Hi Hrun Hc. unfold drop_client. pose proof (set_disconnect_consistent true i c Hi Hc) as Hd.
  case_bool_decide as Hz; [|done]. apply close_consistent; [done| |done].
  apply no_goroutine_on; try done. lia.
Qed.

(** *** The difference between the announcement and the clients *)

Lemma subtractClient_Some c l u i r :
  subtractClient c l u = Some (i, r) -> uri (info c i) = u /\ l ≡ₚ i :: r.
Proof.
  revert r. induction l as [|j l IH]; intros r; [done|]. simpl. case_bool_decide as E.
  - intros [= -> ->]. done.
  - destruct (subtractClient c l u) as [[k r']|]; [|done]. intros [= -> <-]. destruct (IH r' eq_refl) as [? HP].
    split; [done|]. rewrite HP. apply Permutation_swap.
Qed.

Lemma subtractClient_None c l u : subtractClient c l u = None -> forall i, i ∈ l -> uri (info c i) <> u.
Proof.
  induction l as [|j l IH]; simpl; [set_solver|]. case_bool_decide as E; [done|].
  destruct (subtractClient c l u) as [[]|]; [done|]. intros _ i [->|Hi]%elem_of_cons; [congruence|by apply IH].
Qed.

Record delta_ok (uris : list string) (c c1 : GRPCConnector) (add : list string) (dead : list nat) : Prop := {
  d_consistent : consistent c1;
  d_clients : clients c1 = clients c;
  d_goroutines : goroutines c1 = goroutines c;
  d_info : forall i, uri (info c1 i) = uri (info c i) /\ refCount (info c1 i) = refCount (info c i);
  d_disconnect : forall i, i ∈ clients c ->
    disconnect (info c1 i) = if bool_decide (uri (info c i) ∈ uris) then false else disconnect (info c i);
  d_add : forall u, u ∈ add <-> u ∈ uris /\ forall i, i ∈ clients c -> uri (info c i) <> u;
  d_add_nodup : NoDup add;
  d_dead : forall i, i ∈ dead <-> i ∈ clients c /\ uri (info c i) ∉ uris;
  d_dead_nodup : NoDup dead
}.

Lemma delta_snoc uris u c :
  delta (uris ++ [u]) c =
  let '(c1, add, dead) := delta uris c in
  match subtractClient c1 dead u with
  | Some (i, dead) => (set_disconnect false i c1, add, dead)
  | None => (c1, add ++ [u], dead)
  end.
Proof. unfold delta. rewrite foldl_app. simpl. by destruct (foldl _ _ uris) as [[c1 add] dead']. Qed.

(** A doppler announced again: its client is kept and its flag cleared. *)
Lemma delta_known uris u c c1 add dead_ i r :
  delta_ok uris c c1 add dead_ -> u ∉ uris -> subtractClient c1 dead_ u = Some (i, r) ->
  delta_ok (uris ++ [u]) c (set_disconnect false i c1) add r.
Proof.
  intros [] Hnu Es.
  apply subtractClient_Some in Es as [Eu HP].
  assert (i ∈ dead_) as Hid by (rewrite HP; left). pose proof Hid as Hid'. apply d_dead0 in Hid' as [Hic Hiu].
  pose proof (proj1 (d_info0 i)) as Ei.
  assert (forall j, uri (info (set_disconnect false i c1) j) = uri (info c j) /\
    refCount (info (set_disconnect false i c1) j) = refCount (info c j)) as Hinfo.
  { intros j. unfold set_disconnect. rewrite info_set_info. case_decide as E; [subst j|]; simpl; apply d_info0. }
  rewrite HP in d_dead_nodup0. apply NoDup_cons in d_dead_nodup0 as [Hir Hr].
  split; try done.
  - apply set_disconnect_consistent; [by rewrite d_clients0|done].
  - intros j Hj. unfold set_disconnect. rewrite info_set_info. case_decide as E.
    + subst j. simpl. rewrite bool_decide_eq_true_2; [done|]. rewrite <- Ei, Eu. set_solver.
    + rewrite d_disconnect0 by done. apply (f_equal (fun b : bool => if b then _ else _)).
      apply bool_decide_ext. rewrite elem_of_app, list_elem_of_singleton. split; [auto|]. intros [?|E']; [done|].
      destruct E. apply (c_uris _ d_consistent0); rewrite ?d_clients0; try done.
      rewrite Eu, (proj1 (d_info0 j)), E'. done.
  - intros v. rewrite d_add0, elem_of_app, list_elem_of_singleton. split; [naive_solver|].
    intros [[Hv| ->] Hall]; [done|]. destruct (Hall i Hic). by rewrite <- Ei.
  - intros j. split.
    + intros Hj. assert (j ∈ dead_) as Hjd by (rewrite HP; by right). apply d_dead0 in Hjd as [Hjc Hju].
      split; [done|]. rewrite not_elem_of_app, list_elem_of_singleton. split; [done|]. intros E.
      assert (j = i) as ->; [|done]. apply (c_uris _ d_consistent0); rewrite ?d_clients0; try done.
      by rewrite (proj1 (d_info0 j)), E, Eu.
    + intros [Hjc Hju]. rewrite not_elem_of_app, list_elem_of_singleton in Hju. destruct Hju as [Hju Hne].
      assert (j ∈ dead_) as Hjd by (by apply d_dead0). rewrite HP, elem_of_cons in Hjd. destruct Hjd as [->|]; [|done].
      by rewrite <- Ei in Hne.
Qed.

(** A doppler announced for the first time: no client has its address. *)
Lemma delta_unknown uris u c c1 add dead_ :
  delta_ok uris c c1 add dead_ -> u ∉ uris -> subtractClient c1 dead_ u = None ->
  delta_ok (uris ++ [u]) c c1 (add ++ [u]) dead_.
Proof.
  intros [] Hnu Es.
  pose proof (subtractClient_None _ _ _ Es) as Hn.
  assert (forall i, i ∈ clients c -> uri (info c i) <> u) as Hno.
  { intros i Hi E. destruct (decide (i ∈ dead_)) as [Hd|Hd].
    + apply (Hn i Hd). by rewrite (proj1 (d_info0 i)).
    + assert (uri (info c i) ∈ uris) as Hin; [|by rewrite E in Hin].
      destruct (decide (uri (info c i) ∈ uris)); [done|]. destruct Hd. by apply d_dead0. }
  split; try done.
  - intros i Hi. rewrite d_disconnect0 by done. apply (f_equal (fun b : bool => if b then _ else _)).
    apply bool_decide_ext. rewrite elem_of_app, list_elem_of_singleton. specialize (Hno i Hi). naive_solver.
  - intros v. rewrite !elem_of_app, !list_elem_of_singleton, d_add0. split; [|naive_solver].
    intros [[Hv Hall]| ->]; split; auto.
  - apply NoDup_app. split_and!; [done| |apply NoDup_singleton]. intros x Hx. rewrite list_elem_of_singleton.
    intros ->. apply d_add0 in Hx as [? _]. done.
  - intros i. rewrite d_dead0, not_elem_of_app, list_elem_of_singleton. split; [|naive_solver].
    intros [Hi Hiu]. split; [done|]. split; [done|]. by apply Hno.
Qed.

Lemma delta_spec uris c :
  consistent c -> NoDup uris -> let '(c1, add, dead) := delta uris c in delta_ok uris c c1 add dead.
Proof.
  intros Hc. induction uris as [|u uris IH] using rev_ind; intros Hnd.
  { split; simpl; try done; try (by apply Hc); try constructor; set_solver. }
  apply NoDup_app in Hnd as (Hnd & Hu & _). specialize (IH Hnd). rewrite delta_snoc.
  destruct (delta uris c) as [[c1 add] dead'].
  assert (u ∉ uris) as Hnu by (intros H; by apply (Hu u H), list_elem_of_here).
  destruct (subtractClient c1 dead' u) as [[i r]|] eqn:Es; [by eapply delta_known|by apply delta_unknown].
Qed.

(** *** New and dead clients *)

Record adds_ok (add : list string) (c c2 : GRPCConnector) : Prop := {
  a_consistent : consistent c2;
  a_old : forall i, i ∈ clients c -> i ∈ clients c2 /\ info c2 i = info c i;
  a_new : forall i, i ∈ clients c2 -> i ∈ clients c \/ uri (info c2 i) ∈ add /\ disconnect (info c2 i) = false;
  a_all : forall u, u ∈ add -> exists i, i ∈ clients c2 /\ uri (info c2 i) = u;
  a_goroutines : forall g, g ∈ goroutines c2 -> g ∈ goroutines c \/ g_client g ∉ clients c
}.

Lemma adds_spec add c :
  consistent c -> NoDup add -> (forall u i, u ∈ add -> i ∈ clients c -> uri (info c i) <> u) ->
  adds_ok add c (foldl add_client c add).
Proof.
  revert c. induction add as [|u add IH]; intros c Hc Hnd Hnew.
  { split; simpl; try done; [by left|set_solver|by left]. }
  apply NoDup_cons in Hnd as [Hu Hnd].
  pose proof (add_client_consistent c u (fun i => Hnew u i (list_elem_of_here _ _)) Hc) as Hc1.
  set (n := fresh (dom (infos c))). assert (infos c !! n = None) as Hn by (apply not_elem_of_dom, is_fresh).
  assert (n ∉ clients c) as Hnc by (intros H; destruct (c_known _ Hc n H); congruence).
  assert (clients (add_client c u) = clients c ++ [n]) as Ec by done.
  assert (forall i, i ∈ clients c -> info (add_client c u) i = info c i) as Hold.
  { intros i Hi. unfold info. simpl. rewrite lookup_insert_ne; [done|]. intros E. apply Hnc. unfold n. by rewrite E. }
  assert (info (add_client c u) n = mkInfo u false 0) as Hnn by (unfold info; simpl; by rewrite lookup_insert_eq).
  specialize (IH (add_client c u) Hc1 Hnd). destruct IH.
  { intros v i Hv. rewrite Ec. intros [Hi| ->%list_elem_of_singleton]%elem_of_app.
    - rewrite Hold by done. apply Hnew; [by right|done].
    - rewrite Hnn. simpl. by intros ->. }
  rewrite Ec in a_old0, a_new0. split; simpl; try done.
  - intros i Hi. destruct (a_old0 i) as [H1 H2]; [set_solver|]. split; [done|]. rewrite H2. by apply Hold.
  - intros i Hi. destruct (a_new0 i Hi) as [[?| ->%list_elem_of_singleton]%elem_of_app|[? ?]]; [by left| |right; set_solver].
    right. destruct (a_old0 n) as [_ ->]; [set_solver|]. rewrite Hnn. simpl. set_solver.
  - intros v [->|Hv]%elem_of_cons; [|by apply a_all0]. exists n. destruct (a_old0 n) as [? ->]; [set_solver|].
    by rewrite Hnn.
  - intros g Hg. destruct (a_goroutines0 g Hg) as [[?|(k & -> & _)%list_elem_of_fmap]%elem_of_app|Hx].
    + by left.
    + right. done.
    + right. rewrite Ec in Hx. set_solver.
Qed.

Record drops_ok (dead_ : list nat) (c c3 : GRPCConnector) : Prop := {
  r_consistent : consistent c3;
  r_clients : forall i, i ∈ clients c3 <-> i ∈ clients c /\ (i ∈ dead_ -> refCount (info c i) <> 0%Z);
  r_info : forall i, i ∈ clients c -> uri (info c3 i) = uri (info c i) /\ refCount (info c3 i) = refCount (info c i) /\
    disconnect (info c3 i) = if bool_decide (i ∈ dead_) then true else disconnect (info c i)
}.

Lemma drops_spec dead_ c :
  consistent c -> NoDup dead_ -> (forall i, i ∈ dead_ -> i ∈ clients c) ->
  (forall g i, g ∈ goroutines c -> i ∈ dead_ -> g_client g = i -> g_running g = true) ->
  drops_ok dead_ c (foldl drop_client c dead_).
Proof.
  revert c. induction dead_ as [|d l IH]; intros c Hc Hnd Hin Hrun.
  { split; simpl; try done; set_solver. }
  apply NoDup_cons in Hnd as [Hd Hnd].
  assert (d ∈ clients c) as Hdc by (apply Hin; left).
  pose proof (drop_client_consistent c d Hdc (fun g Hg => Hrun g d Hg (list_elem_of_here _ _)) Hc) as Hc1.
  assert (forall i, info (drop_client c d) i =
    if decide (d = i) then mkInfo (uri (info c d)) true (refCount (info c d)) else info c i) as Hinfo.
  { intros i. unfold drop_client. transitivity (info (set_disconnect true d c) i); [by case_bool_decide|].
    unfold set_disconnect. by rewrite info_set_info. }
  assert (forall i, i ∈ clients (drop_client c d) <-> i ∈ clients c /\ (i = d -> refCount (info c d) <> 0%Z)) as Hcl.
  { intros i. unfold drop_client. assert (refCount (info (set_disconnect true d c) d) = refCount (info c d)) as ->.
    { unfold set_disconnect. rewrite info_set_info. by rewrite decide_True. }
    case_bool_decide as Hz; simpl; [rewrite list_elem_of_filter|]; naive_solver. }
  assert (goroutines (drop_client c d) = goroutines c) as Hg by (unfold drop_client; by case_bool_decide).
  destruct (IH (drop_client c d) Hc1 Hnd) as [Hr1 Hr2 Hr3].
  - intros i Hi. apply Hcl. split; [apply Hin; by right|]. intros ->. done.
  - intros g i. rewrite Hg. intros Hg' Hi. apply (Hrun g i Hg'). by right.
  - split; [done| |].
    + intros i. simpl. rewrite Hr2, Hcl, Hinfo, elem_of_cons. case_decide as E; simpl; [subst i|]; naive_solver.
    + intros i Hi. simpl. destruct (decide (i = d)) as [->|Hne].
      * rewrite bool_decide_eq_true_2 by left. destruct (decide (d ∈ clients (drop_client c d))) as [Hdd|Hdd].
        -- destruct (Hr3 d Hdd) as (-> & -> & ->). rewrite Hinfo, decide_True by done. simpl.
           by rewrite bool_decide_eq_false_2.
        -- assert (forall l c, d ∉ l -> info (foldl drop_client c l) d = info c d) as Hkeep.
           { clear. induction l as [|x l IH]; intros c Hl; [done|]. simpl. rewrite IH by set_solver.
             unfold drop_client. transitivity (info (set_disconnect true x c) d); [by case_bool_decide|].
             unfold set_disconnect. rewrite info_set_info. rewrite decide_False by set_solver. done. }
           rewrite Hkeep, Hinfo, decide_True by done. done.
      * destruct (Hr3 i) as (-> & -> & ->); [apply Hcl; naive_solver|]. rewrite Hinfo, decide_False by congruence.
        split; [done|]. split; [done|]. by rewrite (bool_decide_ext (i ∈ d :: l) (i ∈ l)) by set_solver.
Qed.

(** ** The clients follow the finder *)

Record follows (last : list string) (c : GRPCConnector) : Prop := {
  f_consistent : consistent c;
  f_flag : forall i, i ∈ clients c -> disconnect (info c i) = negb (bool_decide (uri (info c i) ∈ last));
  f_all : forall u, u ∈ last -> exists i, i ∈ clients c /\ uri (info c i) = u;
  f_used : forall i, i ∈ clients c -> disconnect (info c i) = true -> (0 < refCount (info c i))%Z
}.

Lemma event_follows last uris c :
  follows last c -> settled c -> NoDup uris -> follows uris (handleFinderEvent uris c).
Proof.
  intros [] Hs Hnd. unfold handleFinderEvent. pose proof (delta_spec uris c f_consistent0 Hnd) as HD.
  destruct (delta uris c) as [[c1 add] dead_]. destruct HD.
  pose proof (adds_spec add c1 d_consistent0 d_add_nodup0) as HA. destruct HA.
  { intros u i Hu. rewrite d_clients0. intros Hi. rewrite (proj1 (d_info0 i)). by apply d_add0. }
  set (c2 := foldl add_client c1 add) in *.
  assert (forall i, i ∈ dead_ -> i ∈ clients c1) as Hdc by (intros i [? _]%d_dead0; by rewrite d_clients0).
  pose proof (drops_spec dead_ c2 a_consistent0 d_dead_nodup0) as HR. destruct HR.
  { intros i Hi. by apply a_old0, Hdc. }
  { intros g i Hg Hi E. destruct (a_goroutines0 g Hg) as [Hg'|Hg'].
    - rewrite d_goroutines0 in Hg'. by eapply Forall_forall in Hs.
    - subst i. by destruct Hg'; apply Hdc. }
  split; [done| | |].
  - intros i [Hi2 Hi]%r_clients0. destruct (r_info0 i Hi2) as (-> & _ & ->).
    case_bool_decide as Ed; [apply d_dead0 in Ed as [Hic Hiu]|].
    + destruct (a_old0 i) as [_ ->]; [by rewrite d_clients0|]. rewrite (proj1 (d_info0 i)).
      by rewrite bool_decide_eq_false_2.
    + destruct (a_new0 i Hi2) as [Hi1|[Hu ->]].
      * destruct (a_old0 i Hi1) as [_ ->]. rewrite d_clients0 in Hi1. rewrite (proj1 (d_info0 i)), d_disconnect0 by done.
        assert (uri (info c i) ∈ uris) as Hin.
        { destruct (decide (uri (info c i) ∈ uris)); [done|]. destruct Ed. by apply d_dead0. }
        by rewrite !bool_decide_eq_true_2.
      * apply d_add0 in Hu as [Hu _]. by rewrite bool_decide_eq_true_2.
  - intros u Hu. assert (exists i, i ∈ clients c2 /\ uri (info c2 i) = u /\ i ∉ dead_) as (i & Hi & Eu & Hid).
    { destruct (decide (u ∈ add)) as [Ha|Ha].
      - destruct (a_all0 u Ha) as (i & Hi & Eu). exists i. split_and!; [done..|]. intros [Hic Hiu]%d_dead0.
        destruct (a_old0 i) as [_ E]; [by rewrite d_clients0|]. rewrite E, (proj1 (d_info0 i)) in Eu. by subst u.
      - assert (~ (forall i, i ∈ clients c -> uri (info c i) <> u)) as Hex by (intros H; by apply Ha, d_add0).
        destruct (decide (Exists (fun i => uri (info c i) = u) (clients c))) as [He|He].
        + apply Exists_exists in He as (i & Hi & Eu). exists i. destruct (a_old0 i) as [? ->]; [by rewrite d_clients0|].
          rewrite (proj1 (d_info0 i)). split_and!; [done..|]. intros [_ Hiu]%d_dead0. by subst u.
        + destruct Hex. intros i Hi E. apply He, Exists_exists. eauto. }
    exists i. destruct (r_info0 i Hi) as (-> & _). split; [|done]. by apply r_clients0.
  - intros i [Hi2 Hi]%r_clients0. destruct (r_info0 i Hi2) as (_ & -> & ->).
    pose proof (c_count _ a_consistent0 i Hi2) as Hcnt. pose proof (running_on_nonneg i (goroutines c2)).
    case_bool_decide as Ed; [intros _; specialize (Hi Ed); lia|]. intros Hdis.
    destruct (a_new0 i Hi2) as [Hi1|[_ E]]; [|congruence]. exfalso.
    destruct (a_old0 i Hi1) as [_ E]. rewrite E in Hdis. rewrite d_clients0 in Hi1. rewrite d_disconnect0 in Hdis by done.
    case_bool_decide as Eu; [done|]. destruct Ed. by apply d_dead0.
Qed.

Lemma subscribe_follows last c k c' : follows last c -> Subscribe c = Ok (k, c') -> follows last c'.
Proof.
  intros [[] Hf Ha Hu]. unfold Subscribe. destruct (addConsumerState _ _ _) as [slots|]; [|done]. intros [= <- <-].
  split; [|done..]. split; simpl; try done.
  - intros g [Hg|(i & -> & Hi)%list_elem_of_fmap]%elem_of_app; [by apply c_refs0|done].
  - intros i Hi. rewrite running_on_app, (running_on_starting _ (_ <$> _)), Z.add_0_r by (by apply Forall_fmap, Forall_true).
    by apply c_count0.
Qed.

Lemma start_follows last n c : follows last c -> follows last (consumeSubscription n c).
Proof.
  intros H. pose proof H as [Hc Hf Ha Hu]. unfold consumeSubscription.
  destruct (goroutines c !! n) as [[k i [|]]|] eqn:En; [done| |done].
  assert (i ∈ clients c) as Hi.
  { destruct Hc. specialize (c_refs0 (mkGoroutine k i false)). apply c_refs0. by eapply list_elem_of_lookup_2. }
  assert (forall g, g ∈ delete n (goroutines c) -> g ∈ goroutines c) as Hsub.
  { intros g Hg. rewrite (delete_Permutation _ _ _ En). by right. }
  unfold tryAddDoppler. case_bool_decide.
  - split; [|done..]. destruct Hc. split; simpl; try done.
    + intros g Hg. by apply c_refs0, Hsub.
    + intros j Hj. etrans; [by apply c_count0|]. rewrite (running_on_lookup j _ n _ En). simpl. by rewrite andb_false_r.
  - set (x := mkInfo (uri (info c i)) (disconnect (info c i)) (refCount (info c i) + 1)).
    set (c1 := set_goroutines (set_info c i x) (<[n := mkGoroutine k i true]> (goroutines c))).
    assert (forall j, info c1 j = if decide (i = j) then x else info c j) as Hi1 by (intros j; apply (info_set_info c)).
    assert (forall j, uri (info c1 j) = uri (info c j) /\ disconnect (info c1 j) = disconnect (info c j) /\
      refCount (info c1 j) = (refCount (info c j) + if decide (i = j) then 1 else 0)%Z) as Hx.
    { intros j. rewrite Hi1. case_decide as E; [by subst|]. by rewrite Z.add_0_r. }
    assert (follows last c1) as Hc1; [|by destruct Hc1 as [[] ? ? ?]; split; [split|..]].
    destruct Hc. split; [split|..]; simpl; try done.
    + intros j Hj. destruct (decide (i = j)) as [<-|Hne]; [by rewrite lookup_insert_eq|].
      rewrite lookup_insert_ne by done. auto.
    + intros j j' Hj Hj'. destruct (Hx j) as (-> & _), (Hx j') as (-> & _). by apply c_uris0.
    + intros u. rewrite c_pool0. split; intros (j & Hj & Eu); exists j; (split; [done|]);
        destruct (Hx j) as (E & _); congruence.
    + intros g Hg. apply list_elem_of_lookup in Hg as [m Hm]. destruct (decide (m = n)) as [->|Hne].
      * rewrite list_lookup_insert_eq in Hm by (by eapply lookup_lt_Some). by injection Hm as <-.
      * rewrite list_lookup_insert_ne in Hm by done. apply c_refs0. by eapply list_elem_of_lookup_2.
    + intros j Hj. destruct (Hx j) as (_ & _ & ->). rewrite (running_on_insert j _ n _ _ En).
      specialize (c_count0 j Hj). rewrite (running_on_lookup j _ n _ En) in c_count0. rewrite c_count0.
      cbn [g_client g_running]. rewrite andb_false_r, andb_true_r.
      destruct (decide (i = j)); [rewrite bool_decide_eq_true_2 by done|rewrite bool_decide_eq_false_2 by done]; lia.
    + intros j Hj. destruct (Hx j) as (-> & -> & _). by apply Hf.
    + intros u Huu. destruct (Ha u Huu) as (j & Hj & Eu). exists j. by destruct (Hx j) as (-> & _).
    + intros j Hj. destruct (Hx j) as (_ & -> & ->). intros Hd. specialize (Hu j Hj Hd). case_decide; lia.
Qed.

(** A goroutine that ends gives back its reference. *)
Lemma release_consistent n k i c :
  consistent c -> goroutines c !! n = Some (mkGoroutine k i true) ->
  consistent (set_goroutines
    (set_info c i (mkInfo (uri (info c i)) (disconnect (info c i)) (refCount (info c i) - 1))) (delete n (goroutines c))).
Proof.
  intros Hc En.
  assert (forall g, g ∈ delete n (goroutines c) -> g ∈ goroutines c) as Hsub.
  { intros g Hg. rewrite (delete_Permutation _ _ _ En). by right. }
  set (x := mkInfo (uri (info c i)) (disconnect (info c i)) (refCount (info c i) - 1)).
  set (c1 := set_goroutines (set_info c i x) (delete n (goroutines c))).
  assert (forall j, info c1 j = if decide (i = j) then x else info c j) as Hx by (intros j; apply (info_set_info c)).
  assert (forall j, uri (info c1 j) = uri (info c j)) as Hsame.
  { intros j. rewrite Hx. by case_decide as E; [subst|]. }
  destruct Hc. split; simpl; try done.
  - intros j Hj. destruct (decide (i = j)) as [<-|Hne]; [by rewrite lookup_insert_eq|].
    rewrite lookup_insert_ne by done. auto.
  - intros j j' Hj Hj'. rewrite (Hsame j), (Hsame j'). by apply c_uris0.
  - intros u. rewrite c_pool0. split; intros (j & Hj & Eu); exists j; (split; [done|]);
      by rewrite <- ?Eu, ?Hsame in *; rewrite ?Hsame.
  - intros g Hg. by apply c_refs0, Hsub.
  - intros j Hj. rewrite Hx. specialize (c_count0 j Hj). rewrite (running_on_lookup j _ n _ En) in c_count0.
    cbn [g_client g_running] in c_count0. rewrite andb_true_r in c_count0. destruct (decide (i = j)) as [E|E].
    + subst j. rewrite bool_decide_eq_true_2 in c_count0 by done. cbv iota in c_count0. change (goroutines c1) with (delete n (goroutines c)). unfold x. cbn [refCount]. lia.
    + rewrite bool_decide_eq_false_2 in c_count0 by done. cbv iota in c_count0. change (goroutines c1) with (delete n (goroutines c)). lia.
Qed.

Lemma return_follows last n c : follows last c -> settled c -> follows last (consume_return n c).
Proof.
  intros H Hs. pose proof H as [Hc Hf Ha Hu]. unfold consume_return.
  destruct (goroutines c !! n) as [[k i [|]]|] eqn:En; [|done|done].
  destruct (dead _ || _); [|done].
  assert (i ∈ clients c) as Hi.
  { destruct Hc. specialize (c_refs0 (mkGoroutine k i true)). apply c_refs0. by eapply list_elem_of_lookup_2. }
  assert (forall g, g ∈ delete n (goroutines c) -> g ∈ goroutines c) as Hsub.
  { intros g Hg. rewrite (delete_Permutation _ _ _ En). by right. }
  set (x := mkInfo (uri (info c i)) (disconnect (info c i)) (refCount (info c i) - 1)).
  set (c1 := set_goroutines (set_info c i x) (delete n (goroutines c))).
  assert (forall j, info c1 j = if decide (i = j) then x else info c j) as Hx by (intros j; apply (info_set_info c)).
  assert (forall j, uri (info c1 j) = uri (info c j) /\ disconnect (info c1 j) = disconnect (info c j)) as Hsame.
  { intros j. rewrite Hx. by case_decide as E; [subst|]. }
  assert (consistent c1) as Hc1 by (by apply (release_consistent n k)).
  assert (forall c', consistent c' -> infos c' = infos c1 -> (forall j, j ∈ clients c' <-> j ∈ clients c /\
    (j = i -> refCount x <= 0 /\ disconnect x = true -> False)%Z) -> follows last c') as Hfin.
  { intros c' Hc' Hinf Hcl. assert (forall j, info c' j = info c1 j) as Hi' by (intros j; unfold info; by rewrite Hinf).
    split; [done| | |].
    - intros j [Hj _]%Hcl. rewrite Hi'. destruct (Hsame j) as [-> ->]. by apply Hf.
    - intros u Huu. destruct (Ha u Huu) as (j & Hj & Eu). exists j. rewrite Hi'. destruct (Hsame j) as [-> _].
      split; [|done]. apply Hcl. split; [done|]. intros -> [_ Hd]. simpl in Hd. rewrite Hf in Hd by done.
      rewrite Eu, bool_decide_eq_true_2 in Hd by done. done.
    - intros j [Hj Hne]%Hcl. rewrite Hi', Hx. case_decide as E; [|by apply Hu].
      intros Hd. destruct (decide (refCount x <= 0)%Z); [|lia]. destruct Hne; [done|by split]. }
  destruct (bool_decide (refCount x <= 0)%Z && disconnect x) eqn:Eb.
  - apply andb_true_iff in Eb as [Hz%bool_decide_eq_true_1 Hd].
    apply (Hfin _); [|done|].
    + pose proof (close_consistent c1 i Hi) as Hcl. rewrite (Hx i), decide_True in Hcl by done.
      destruct Hcl; [|done|by split].
      apply no_goroutine_on; [done..| |by rewrite Hx, decide_True]. intros g Hg _. by eapply Forall_forall in Hs; [|apply Hsub].
    + intros j. simpl. rewrite list_elem_of_filter. naive_solver.
  - apply (Hfin _); [|done|].
    + by destruct Hc1; split.
    + intros j. simpl. split; [|naive_solver]. intros Hj. split; [done|]. intros -> [Hz Hd].
      apply andb_false_iff in Eb as [Eb%bool_decide_eq_false_1|Eb]; [done|]. simpl in *. congruence.
Qed.

Lemma prompt_follows last c : prompt last c -> follows last c.
Proof.
  induction 1 as [|last uris c _ IH Hs Hnd|last c k c' _ IH E|last k c _ IH|last n c _ IH|last n c _ IH Hs].
  - split; [split|..]; simpl; try done; try constructor; set_solver.
  - by eapply event_follows.
  - by eapply subscribe_follows.
  - by destruct IH as [[] ? ? ?]; split; [split|..].
  - by apply start_follows.
  - by apply return_follows.
Qed.

Lemma prompt_nodup last c : prompt last c -> NoDup last.
Proof. induction 1; try done. constructor. Qed.

(** C40: the connector's clients follow the finder.  When goroutines take their first step
    before the next event and before another goroutine returns, then after any
    announcements, subscriptions and disconnections: the clients in use are exactly the
    dopplers of the last announcement, one each; every other client is still being consumed
    by some goroutine; and the pool holds connections to exactly the clients' addresses. *)
Theorem connector_follows_finder last c :
  prompt last c ->
  (fun i => uri (info c i)) <$> filter (fun i => disconnect (info c i) = false) (clients c) ≡ₚ last /\
  (forall i, i ∈ clients c -> disconnect (info c i) = true ->
    exists g, g ∈ goroutines c /\ g_client g = i /\ g_running g = true) /\
  (forall u, u ∈ pool c <-> u ∈ (fun i => uri (info c i)) <$> clients c).
Proof.
  intros HP. pose proof (prompt_nodup last c HP) as Hnd. destruct (prompt_follows last c HP) as [[] Hf Ha Hu].
  split_and!.
  - apply NoDup_Permutation; [|done|].
    + apply NoDup_fmap_2_strong; [|by apply NoDup_filter].
      intros i j [_ Hi]%list_elem_of_filter [_ Hj]%list_elem_of_filter. by apply c_uris0.
    + intros u. rewrite list_elem_of_fmap. split.
      * intros (i & -> & [Hd Hi]%list_elem_of_filter). rewrite Hf in Hd by done. by case_bool_decide.
      * intros Hin. destruct (Ha u Hin) as (i & Hi & <-). exists i. split; [done|]. apply list_elem_of_filter.
        rewrite Hf by done. by rewrite bool_decide_eq_true_2.
  - intros i Hi Hd. specialize (Hu i Hi Hd). rewrite c_count0 in Hu by done.
    clear -Hu. induction (goroutines c) as [|g l IH]; [done|]. simpl in Hu.
    destruct (bool_decide (g_client g = i)) eqn:E1; simpl in Hu.
    + destruct (g_running g) eqn:E2; [exists g; apply bool_decide_eq_true_1 in E1; set_solver|].
      destruct (IH Hu) as (h & ? & ?). exists h. set_solver.
    + destruct (IH Hu) as (h & ? & ?). exists h. set_solver.
  - intros u. rewrite c_pool0, list_elem_of_fmap. naive_solver.
Qed.

Definition subscribe_of (c : GRPCConnector) : GRPCConnector :=
  match Subscribe c with Ok (_, c') => c' | Err _ => c end.

Definition before_event : GRPCConnector :=
  consumeSubscription 1 (consumeSubscription 0 (subscribe_of (handleFinderEvent ["a"; "b"]%string NewGRPCConnector))).

Definition after_event : GRPCConnector :=
  consumeSubscription 2 (handleFinderEvent ["b"; "c"]%string before_event).

Lemma connector_follows_finder_witness :
  (fun i => uri (info after_event i)) <$> filter (fun i => disconnect (info after_event i) = false) (clients after_event)
    ≡ₚ ["b"; "c"]%string /\
  (forall i, i ∈ clients after_event -> disconnect (info after_event i) = true ->
    exists g, g ∈ goroutines after_event /\ g_client g = i /\ g_running g = true) /\
  (forall u, u ∈ pool after_event <-> u ∈ (fun i => uri (info after_event i)) <$> clients after_event).
Proof.
  apply (connector_follows_finder ["b"; "c"]%string after_event).
  apply prompt_start, (prompt_event ["a"; "b"]%string).
  - apply prompt_start, prompt_start, (prompt_subscribe _ (handleFinderEvent ["a"; "b"]%string NewGRPCConnector) 0).
    + apply (prompt_event []); [apply prompt_new|constructor|]. apply (bool_decide_unpack _). vm_compute. exact I.
    + vm_compute. reflexivity.
  - assert (forallb g_running (goroutines before_event) = true) as H by (vm_compute; reflexivity).
    apply Forall_forall. intros g Hg. apply forallb_forall with (x := g) in H; [done|]. by apply list_elem_of_In.
  - apply (bool_decide_unpack _). vm_compute. exact I.
Defined.

(** A goroutine started for a client takes its first step only after the client was removed
    and its address announced again. *)
Definition late_goroutine : GRPCConnector :=
  let c := subscribe_of (handleFinderEvent ["a"]%string NewGRPCConnector) in
  let c := handleFinderEvent ["a"]%string (handleFinderEvent [] c) in
  consume_return 0 (consumeSubscription 1 (consumeSubscription 0 c)).

(** A late goroutine disconnects a doppler for good.  When the first step of a
    subscription's goroutine comes after its client was removed and the same address was
    announced again, its deferred function closes the new client's connections: the doppler
    is a client in use, the pool has no connection to it, the live consumer has no goroutine
    for it, and announcing the address again changes nothing. *)
Theorem connector_late_goroutine :
  let c := late_goroutine in
  (fun i => (uri (info c i), disconnect (info c i))) <$> clients c = [("a"%string, false)] /\
  pool c = ∅ /\ live_consumers c = [0] /\ goroutines c = [] /\
  pool (handleFinderEvent ["a"]%string c) = ∅ /\ goroutines (handleFinderEvent ["a"]%string c) = [].
Proof. vm_compute. repeat split. Qed.
