(* ===== verification/DopplerStreams.v ===== *)
(** * plumbing/pool.go and the streams of plumbing/grpc_connector.go

    [Pool] keeps slots of connections per doppler, which goroutines fill while the doppler
    is registered, or later.  [Reconnect] is the loop of [consumeSubscription] with its
    delays.  [Streams] is the channel between the goroutines that read the dopplers and the
    subscriber's [Recv]. *)

From S2P Require Import Prelude Go ClientPool GrpcConnector.

(** ** pool.go *)

Module Pool.

(** A gRPC connection, with the calls of its [Close]. *)
Record connection : Type := mkConnection { c_addr : string; c_closed : nat }.

(** A goroutine running [connectToDoppler]; slices of slots are shared by reference. *)
Record dialer : Type := mkDialer { d_addr : string; d_slice : nat; d_idx : nat }.

Record Pool : Type := mkPool {
  size : nat;
  dopplers : gmap string nat;
  slices : list (list (option nat));
  conns : list connection;
  dialers : list dialer
}.

Definition NewPool (size : nat) : Pool := mkPool size ∅ [] [] [].

Definition RegisterDoppler (addr : string) (p : Pool) : Pool :=
  let clients := length (slices p) in
  mkPool (size p) (<[addr := clients]> (dopplers p)) (slices p ++ [replicate (size p) None]) (conns p)
    (dialers p ++ (mkDialer addr clients <$> seq 0 (size p))).

(** One turn of [connectToDoppler]: a failed dial is tried again later. *)
Definition connectToDoppler (n : nat) (dialled : bool) (p : Pool) : Pool :=
  match dialers p !! n with
  | None => p
  | Some d =>
      if dialled then
        mkPool (size p) (dopplers p)
          (alter (fun l => <[d_idx d := Some (length (conns p))]> l) (d_slice d) (slices p))
          (conns p ++ [mkConnection (d_addr d) 0]) (delete n (dialers p))
      else p
  end.

(** The slots of an address; a missing entry is a nil slice. *)
Definition clients_of (p : Pool) (addr : string) : list (option nat) :=
  default [] (dopplers p !! addr ≫= fun s => slices p !! s).

Definition pick (why : string) (p : Pool) (addr : string) (seed : Z) : outcome (result nat) :=
  match fetchClient (clients_of p addr) seed (size p) with
  | Panics w => Panics w
  | Returns None => Returns (Err why)
  | Returns (Some c) => Returns (Ok c)
  end.

(** The connection each call is made on. *)
Definition Subscribe : Pool -> string -> Z -> outcome (result nat) :=
  pick "no connections available for subscription".
Definition ContainerMetrics : Pool -> string -> Z -> outcome (result nat) :=
  pick "no connections available for container metrics".
Definition RecentLogs : Pool -> string -> Z -> outcome (result nat) :=
  pick "no connections available for recent logs".

Definition closed_again (k : connection) : connection := mkConnection (c_addr k) (S (c_closed k)).

Definition close_slot (l : list connection) (slot : option nat) : list connection :=
  match slot with
  | None => l
  | Some c => alter closed_again c l
  end.

Definition Close (addr : string) (p : Pool) : Pool :=
  mkPool (size p) (delete addr (dopplers p)) (slices p) (foldl close_slot (conns p) (clients_of p addr))
    (dialers p).

Inductive op : Type := OpRegister (addr : string) | OpClose (addr : string) | OpDial (n : nat) (dialled : bool).

Definition step (p : Pool) (o : op) : Pool :=
  match o with
  | OpRegister a => RegisterDoppler a p
  | OpClose a => Close a p
  | OpDial n ok => connectToDoppler n ok p
  end.

(** *** Invariant *)

Definition slot (p : Pool) (s i : nat) : option (option nat) := slices p !! s ≫= fun l => l !! i.

Definition stored (p : Pool) (s i c : nat) : Prop := slot p s i = Some (Some c).

Record Inv (p : Pool) : Prop := mkInv {
  g_len : forall s l, slices p !! s = Some l -> length l = size p;
  g_reg : forall a s, dopplers p !! a = Some s -> s < length (slices p);
  g_reg_inj : forall a b s, dopplers p !! a = Some s -> dopplers p !! b = Some s -> a = b;
  g_slot : forall s i c, stored p s i c -> exists k, conns p !! c = Some k /\ c_closed k <= 1 /\
    forall a, dopplers p !! a = Some s -> c_addr k = a /\ c_closed k = 0;
  g_inj : forall s i s' i' c, stored p s i c -> stored p s' i' c -> s = s' /\ i = i';
  g_all : forall c, c < length (conns p) -> exists s i, stored p s i c;
  g_dial : forall d, d ∈ dialers p -> slot p (d_slice d) (d_idx d) = Some None /\
    forall a, dopplers p !! a = Some (d_slice d) -> a = d_addr d;
  g_nodup : NoDup ((fun d => (d_slice d, d_idx d)) <$> dialers p)
}.

Lemma slot_lt p s i o : slot p s i = Some o -> s < length (slices p).
Proof. unfold slot. intros (l & Hl & _)%bind_Some. by apply lookup_lt_Some in Hl. Qed.

Lemma slot_register a p s i o :
  slot (RegisterDoppler a p) s i = Some o <->
  slot p s i = Some o \/ (s = length (slices p) /\ i < size p /\ o = None).
Proof.
  unfold slot. cbn [RegisterDoppler slices].
  destruct (decide (s < length (slices p))) as [Hs|Hs].
  - rewrite lookup_app_l by done. split; [by left|]. intros [H|[-> _]]; [done|lia].
  - destruct (decide (s = length (slices p))) as [->|Hne].
    + rewrite lookup_app_r, Nat.sub_diag by lia. cbn [lookup list_lookup mbind option_bind].
      rewrite (lookup_ge_None_2 (slices p)) by lia. rewrite lookup_replicate. cbn [mbind option_bind]. naive_solver.
    + rewrite !lookup_ge_None_2 by (rewrite ?length_app; simpl; lia). cbn [mbind option_bind].
      split; [done|]. by intros [?|[? _]].
Qed.

Lemma slot_fill p s i c s' i' :
  slot p s i = Some None ->
  (alter (fun l => <[i := Some c]> l) s (slices p) !! s' ≫= fun l => l !! i') =
    if decide (s = s' /\ i = i') then Some (Some c) else slot p s' i'.
Proof.
  intros Hn. unfold slot in *. apply bind_Some in Hn as (l & Hl & Hi).
  destruct (decide (s = s')) as [<-|Hs].
  - rewrite list_lookup_alter_eq, Hl. cbn [fmap option_fmap option_map mbind option_bind].
    destruct (decide (i = i')) as [<-|Hne].
    + rewrite list_lookup_insert_eq by (by eapply lookup_lt_Some). case_decide; naive_solver.
    + rewrite list_lookup_insert_ne by done. case_decide; naive_solver.
  - rewrite list_lookup_alter_ne by done. case_decide; naive_solver.
Qed.

Lemma close_all_lookup l ks c :
  NoDup (omap id l) ->
  foldl close_slot ks l !! c = (if decide (Some c ∈ l) then closed_again else id) <$> ks !! c.
Proof.
  revert ks. induction l as [|o l IH]; intros ks Hnd; cbn [foldl].
  - rewrite decide_False by set_solver. by rewrite option_fmap_id.
  - destruct o as [x|]; cbn [omap list_omap close_slot id] in *.
    + inversion Hnd as [|? ? Hx Hl]; subst. rewrite IH by done. destruct (decide (x = c)) as [->|Hne].
      * rewrite list_lookup_alter_eq. rewrite (decide_True (P := Some c ∈ Some c :: l)) by set_solver.
        rewrite decide_False; [by rewrite option_fmap_id|].
        intros Hin. apply Hx, list_elem_of_omap. by exists (Some c).
      * rewrite list_lookup_alter_ne by done. by do 2 case_decide; set_solver.
    + rewrite IH by done. by do 2 case_decide; set_solver.
Qed.

Lemma NoDup_omap_id (l : list (option nat)) :
  (forall i j c, l !! i = Some (Some c) -> l !! j = Some (Some c) -> i = j) -> NoDup (omap id l).
Proof.
  induction l as [|o l IH]; intros Hl; cbn [omap list_omap id]; [constructor|].
  assert (NoDup (omap id l)) as Hnd.
  { apply IH. intros i j c Hi Hj. specialize (Hl (S i) (S j) c Hi Hj). lia. }
  destruct o as [x|]; [|done]. cbn [id]. constructor; [|done].
  intros (o & Ho & [= ->])%list_elem_of_omap. apply list_elem_of_lookup in Ho as [j Hj].
  by specialize (Hl 0 (S j) x eq_refl Hj).
Qed.

Lemma slots_NoDup p s l : Inv p -> slices p !! s = Some l -> NoDup (omap id l).
Proof.
  intros H Hl. apply NoDup_omap_id. intros i j c Hi Hj.
  destruct (g_inj p H s i s j c) as [_ ?]; [unfold stored, slot; by rewrite Hl..|done].
Qed.

Lemma NewPool_Inv n : Inv (NewPool n).
Proof.
  split; simpl; try done; try (intros; lia).
  - intros d Hd. by apply elem_of_nil in Hd.
  - constructor.
Qed.

Lemma stored_register a p s i c : stored (RegisterDoppler a p) s i c <-> stored p s i c.
Proof. unfold stored. rewrite slot_register. naive_solver. Qed.

Lemma register_Inv a p : Inv p -> Inv (RegisterDoppler a p).
Proof.
  intros H. split.
  - intros s l Hl. cbn [RegisterDoppler slices size] in *. apply lookup_app_Some in Hl as [Hl|[_ Hl]].
    + by eapply g_len.
    + apply list_lookup_singleton_Some in Hl as [_ <-]. apply length_replicate.
  - intros b s. cbn [RegisterDoppler dopplers slices]. rewrite length_app. simpl.
    intros [[_ <-]|[_ Hb]]%lookup_insert_Some; [lia|]. apply (g_reg p H) in Hb. lia.
  - intros b b' s. cbn [RegisterDoppler dopplers].
    intros [[<- <-]|[Hb Hs]]%lookup_insert_Some [[<- Hs']|[Hb' Hs']]%lookup_insert_Some; try done.
    + apply (g_reg p H) in Hs'. lia.
    + apply (g_reg p H) in Hs. lia.
    + by eapply (g_reg_inj p H).
  - intros s i c Hst%stored_register. destruct (g_slot p H s i c Hst) as (k & Hk & Hle & Ha).
    exists k. split; [done|]. split; [done|]. intros b. cbn [RegisterDoppler dopplers].
    intros [[<- <-]|[_ Hb]]%lookup_insert_Some; [|by apply Ha]. apply slot_lt in Hst. lia.
  - intros s i s' i' c ?%stored_register ?%stored_register. by eapply (g_inj p H).
  - intros c Hc. destruct (g_all p H c Hc) as (s & i & Hst). exists s, i. by apply stored_register.
  - intros d. cbn [RegisterDoppler dialers]. intros [Hd|(i & -> & Hi%elem_of_seq)%list_elem_of_fmap]%elem_of_app.
    + destruct (g_dial p H d Hd) as [Hs Ha]. split; [apply slot_register; by left|].
      intros b. cbn [RegisterDoppler dopplers]. intros [[<- Hb]|[_ Hb]]%lookup_insert_Some; [|by apply Ha].
      apply slot_lt in Hs. lia.
    + cbn [d_slice d_idx d_addr]. split; [apply slot_register; right; split_and!; [done|lia|done]|].
      intros b. cbn [RegisterDoppler dopplers]. intros [[<- _]|[_ Hb]]%lookup_insert_Some; [done|].
      apply (g_reg p H) in Hb. lia.
  - cbn [RegisterDoppler dialers]. rewrite fmap_app, <- list_fmap_compose. apply NoDup_app.
    split; [apply H|]. split.
    + intros x (d & -> & Hd)%list_elem_of_fmap (i & E & _)%list_elem_of_fmap. injection E as E _.
      destruct (g_dial p H d Hd) as [Hs _]. apply slot_lt in Hs. lia.
    + apply NoDup_fmap_2; [|apply NoDup_seq]. by intros i j [= ->].
Qed.

Lemma dial_Inv n ok p : Inv p -> Inv (connectToDoppler n ok p).
Proof.
  intros H. unfold connectToDoppler. destruct (dialers p !! n) as [d|] eqn:En; [|done]. destruct ok; [|done].
  set (c := length (conns p)). set (q := mkPool _ _ _ _ _).
  assert (d ∈ dialers p) as Hd by (by eapply list_elem_of_lookup_2).
  destruct (g_dial p H d Hd) as [Hempty Hown].
  assert (forall s i, slot q s i = if decide (d_slice d = s /\ d_idx d = i) then Some (Some c) else slot p s i) as Hslot.
  { intros s i. unfold slot at 1. by apply slot_fill. }
  assert (forall s i x, stored q s i x -> (d_slice d = s /\ d_idx d = i /\ x = c) \/ stored p s i x) as Hst.
  { intros s i x. unfold stored. rewrite Hslot. case_decide; naive_solver. }
  assert (forall s i x, stored p s i x -> x < c) as Hlt.
  { intros s i x Hx. destruct (g_slot p H s i x Hx) as (k & Hk & _). by apply lookup_lt_Some in Hk. }
  pose proof (delete_Permutation _ _ _ En) as HP. split.
  - intros s l. cbn [q slices size]. intros Hl. destruct (decide (d_slice d = s)) as [<-|Hne].
    + rewrite list_lookup_alter_eq in Hl. apply fmap_Some in Hl as (l0 & Hl & ->).
      rewrite length_insert. by eapply g_len.
    + rewrite list_lookup_alter_ne in Hl by done. by eapply g_len.
  - intros a s Ha. cbn [q slices]. rewrite length_alter. by eapply g_reg.
  - apply H.
  - intros s i x [(<- & <- & ->)|Hp]%Hst.
    + exists (mkConnection (d_addr d) 0). cbn [q conns c_closed c_addr dopplers].
      split; [unfold c; by rewrite lookup_app_r, Nat.sub_diag by done|]. split; [lia|].
      intros a Ha. split; [symmetry; by apply Hown|done].
    + destruct (g_slot p H s i x Hp) as (k & Hk & Hle & Ha). exists k.
      split; [by apply lookup_app_l_Some|done].
  - intros s i s' i' x [(<- & <- & ->)|Hp]%Hst [(<- & <- & E)|Hp']%Hst; try done.
    + apply Hlt in Hp'. lia.
    + subst x. apply Hlt in Hp. lia.
    + by eapply (g_inj p H).
  - intros x. cbn [q conns]. rewrite length_app. simpl. intros Hx. destruct (decide (x = c)) as [->|Hne].
    + exists (d_slice d), (d_idx d). unfold stored. rewrite Hslot. by rewrite decide_True.
    + destruct (g_all p H x) as (s & i & Hp); [unfold c in Hne; lia|]. exists s, i.
      unfold stored. rewrite Hslot. rewrite decide_False; [done|]. intros [<- <-].
      unfold stored in Hp. congruence.
  - intros e He. cbn [q dialers] in He. assert (e ∈ dialers p) as Hep by (rewrite HP; by right).
    destruct (g_dial p H e Hep) as [Hs Ha]. split; [|done]. rewrite Hslot. rewrite decide_False; [done|].
    intros [E1 E2]. pose proof (g_nodup p H) as Hnd. rewrite HP in Hnd. cbn [fmap list_fmap] in Hnd.
    apply NoDup_cons in Hnd as [Hnot _]. apply Hnot, list_elem_of_fmap. exists e. by rewrite E1, E2.
  - pose proof (g_nodup p H) as Hnd. rewrite HP in Hnd. by apply NoDup_cons in Hnd as [_ Hnd].
Qed.

Lemma clients_of_stored p a c :
  Some c ∈ clients_of p a <-> exists s i, dopplers p !! a = Some s /\ stored p s i c.
Proof.
  unfold clients_of, stored, slot. split.
  - destruct (dopplers p !! a) as [s|]; cbn [mbind option_bind default]; [|by intros ?%elem_of_nil].
    destruct (slices p !! s) as [l|] eqn:El; cbn [default]; [|by intros ?%elem_of_nil].
    intros [i Hi]%list_elem_of_lookup. exists s, i. by rewrite El.
  - intros (s & i & -> & (l & Hl & Hi)%bind_Some). cbn [mbind option_bind]. rewrite Hl. cbn [default].
    by eapply list_elem_of_lookup_2.
Qed.

Lemma close_lookup a p c : Inv p ->
  conns (Close a p) !! c = (if decide (Some c ∈ clients_of p a) then closed_again else id) <$> conns p !! c.
Proof.
  intros H. cbn [Close conns]. apply close_all_lookup. unfold clients_of.
  destruct (dopplers p !! a) as [s|]; cbn [mbind option_bind default]; [|constructor].
  destruct (slices p !! s) as [l|] eqn:El; cbn [default]; [|constructor]. by eapply slots_NoDup.
Qed.

Lemma close_Inv a p : Inv p -> Inv (Close a p).
Proof.
  intros H.
  assert (forall b s, dopplers (Close a p) !! b = Some s -> dopplers p !! b = Some s /\ b <> a) as Hd.
  { intros b s. cbn [Close dopplers]. intros [? ?]%lookup_delete_Some. done. }
  split.
  - apply H.
  - intros b s [Hb _]%Hd. by eapply (g_reg p H).
  - intros b b' s [Hb _]%Hd [Hb' _]%Hd. by eapply (g_reg_inj p H).
  - intros s i c Hst. change (stored p s i c) in Hst. destruct (g_slot p H s i c Hst) as (k & Hk & Hle & Hreg).
    rewrite (close_lookup a p c H), Hk. case_decide as Hin.
    + apply clients_of_stored in Hin as (s' & i' & Ha & Hst').
      destruct (g_inj p H s i s' i' c Hst Hst') as [-> ->]. destruct (Hreg a Ha) as [_ Hz].
      eexists. split; [done|]. split; [simpl; lia|]. intros b [Hb Hne]%Hd. destruct Hne. by eapply (g_reg_inj p H).
    + exists k. split; [done|]. split; [done|]. intros b [Hb _]%Hd. by apply Hreg.
  - apply H.
  - intros c Hc. apply (g_all p H). apply lookup_lt_is_Some in Hc as [k Hk].
    rewrite (close_lookup a p c H) in Hk. apply fmap_Some in Hk as (k' & Hk & _). by eapply lookup_lt_Some.
  - intros d Hdd. destruct (g_dial p H d Hdd) as [Hs Ho]. split; [done|]. intros b [Hb _]%Hd. by apply Ho.
  - apply H.
Qed.

Lemma pool_step_Inv p o : Inv p -> Inv (step p o).
Proof. destruct o; [apply register_Inv|apply close_Inv|apply dial_Inv]. Qed.

Lemma pool_run_Inv n l : Inv (foldl step (NewPool n) l).
Proof.
  induction l as [|o l IH] using rev_ind; [apply NewPool_Inv|]. rewrite foldl_app. by apply pool_step_Inv.
Qed.

(** *** Orderly use

    Addresses are registered when they are not registered, and closed when the goroutines
    of the address have connected. *)

Definition orderly_op (p : Pool) (o : op) : Prop :=
  match o with
  | OpRegister a => dopplers p !! a = None
  | OpClose a => forall d, d ∈ dialers p -> d_addr d <> a
  | OpDial _ _ => True
  end.

Fixpoint orderly (p : Pool) (l : list op) : Prop :=
  match l with [] => True | o :: l => orderly_op p o /\ orderly (step p o) l end.

Record Tidy (p : Pool) : Prop := mkTidy {
  t_dial : forall d, d ∈ dialers p -> dopplers p !! d_addr d = Some (d_slice d);
  t_open : forall s i c k, stored p s i c -> conns p !! c = Some k ->
    (exists a, dopplers p !! a = Some s) \/ c_closed k = 1
}.

Lemma step_Tidy p o : Inv p -> Tidy p -> orderly_op p o -> Tidy (step p o).
Proof.
  intros H [Hdial Hopen] Ho. pose proof (pool_step_Inv p o H) as H'. destruct o as [a|a|n ok]; cbn [step] in *; simpl in Ho.
  - split.
    + intros d. cbn [RegisterDoppler dialers dopplers].
      intros [Hd|(i & -> & _)%list_elem_of_fmap]%elem_of_app; [|by rewrite lookup_insert_eq].
      specialize (Hdial d Hd). rewrite lookup_insert_ne; [done|]. intros E. by rewrite <- E, Ho in Hdial.
    + intros s i c k Hst%stored_register Hk. destruct (Hopen s i c k Hst Hk) as [[b Hb]|?]; [left|by right].
      exists b. cbn [RegisterDoppler dopplers]. rewrite lookup_insert_ne; [done|]. intros E. by rewrite <- E, Ho in Hb.
  - split.
    + intros d Hd. cbn [Close dopplers]. rewrite lookup_delete_ne by (intros E; by apply (Ho d Hd)). by apply Hdial.
    + intros s i c k Hst Hk. change (stored p s i c) in Hst. rewrite (close_lookup a p c H) in Hk.
      apply fmap_Some in Hk as (k' & Hk & ->). destruct (Hopen s i c k' Hst Hk) as [[b Hb]|Hz].
      * destruct (decide (b = a)) as [->|Hne].
        -- right. rewrite decide_True by (apply clients_of_stored; eauto).
           destruct (g_slot p H s i c Hst) as (k2 & Hk2 & _ & Hreg). destruct (Hreg a Hb) as [_ Hz].
           simpl. assert (k2 = k') as -> by congruence. lia.
        -- left. exists b. cbn [Close dopplers]. by rewrite lookup_delete_ne.
      * right. case_decide as Hin; [|done]. apply clients_of_stored in Hin as (s' & i' & Ha & Hst').
        destruct (g_slot p H s' i' c Hst') as (k2 & Hk2 & _ & Hreg). destruct (Hreg a Ha) as [_ ?].
        assert (k2 = k') by congruence. subst. lia.
  - unfold connectToDoppler in *. destruct (dialers p !! n) as [d|] eqn:En; [|done]. destruct ok; [|done].
    assert (d ∈ dialers p) as Hd by (by eapply list_elem_of_lookup_2).
    pose proof (delete_Permutation _ _ _ En) as HP. split.
    + intros e He. cbn [dialers dopplers] in *. apply Hdial. rewrite HP. by right.
    + intros s i c k Hst Hk. cbn [dopplers conns] in *.
      unfold stored, slot in Hst. cbn [slices] in Hst. rewrite slot_fill in Hst by (by apply (g_dial p H)).
      case_decide as E; [destruct E as [<- _]; left; eauto|].
      destruct (g_slot p H s i c Hst) as (k' & Hk' & _). rewrite lookup_app_l in Hk by (by eapply lookup_lt_Some).
      by eapply Hopen.
Qed.

Lemma run_Tidy n l p : Inv p -> Tidy p -> size p = n -> orderly p l -> Tidy (foldl step p l).
Proof.
  revert p. induction l as [|o l IH]; intros p H Ht Hn Ho; [done|]. destruct Ho as [Ho Hl]. cbn [foldl].
  apply IH; [by apply pool_step_Inv|by apply step_Tidy| |done].
  destruct o as [| |m ok]; [done..|]. cbn [step]. unfold connectToDoppler.
  destruct (dialers p !! m); [|done]. by destruct ok.
Qed.

Lemma fetch_loop_sound clients seed n js c :
  fetch_loop clients seed n js = Returns (Some c) -> Some c ∈ clients.
Proof.
  induction js as [|i js IH]; cbn [fetch_loop]; [done|]. destruct (pool_index i seed n) as [x|]; cbn [obind]; [|done].
  destruct (clients !! x) as [[y|]|] eqn:E; [|done..]. intros [= ->]. by eapply list_elem_of_lookup_2.
Qed.

Lemma clients_of_length p a : Inv p -> clients_of p a = [] \/ length (clients_of p a) = size p.
Proof.
  intros H. unfold clients_of. destruct (dopplers p !! a) as [s|]; cbn [mbind option_bind default]; [|by left].
  destruct (slices p !! s) as [l|] eqn:El; [right|by left]. by eapply g_len.
Qed.

Lemma pick_finds why p a seed c :
  Inv p -> (0 <= seed)%Z -> (seed + Z.of_nat (size p) <= 2 ^ 63)%Z -> Some c ∈ clients_of p a ->
  exists c', pick why p a seed = Returns (Ok c').
Proof.
  intros H Hs Hmax Hin. unfold pick.
  destruct (clients_of_length p a H) as [E|Hlen]; [by rewrite E in Hin; apply elem_of_nil in Hin|].
  rewrite fetchClient_rotation by done.
  assert (exists x l, omap (fun i => mjoin (clients_of p a !! i)) (rotation seed (size p)) = x :: l) as (x & l & ->);
    [|by exists x].
  destruct (omap _ (rotation seed (size p))) as [|x l] eqn:E; [|eauto]. exfalso.
  apply list_elem_of_lookup in Hin as [i Hi].
  assert (c ∈ omap (fun i => mjoin (clients_of p a !! i)) (rotation seed (size p))) as Hc.
  { apply list_elem_of_omap. exists i. rewrite Hi. split; [|done]. rewrite rotation_perm by done.
    apply elem_of_seq. apply lookup_lt_Some in Hi. lia. }
  rewrite E in Hc. by apply elem_of_nil in Hc.
Qed.

(** C27: The connections of the pool.  Whatever addresses are registered and closed and
    whenever the dials succeed, no connection is closed twice; a call on an address is made
    on an open connection to that address, and is not refused when there is one.  When
    addresses are registered while they are not, and closed when their dials are done, a
    connection is open exactly as long as its address is registered: none is leaked. *)
Theorem pool_connections n ops :
  let p := foldl step (NewPool n) ops in
  (forall c k, conns p !! c = Some k -> c_closed k <= 1)
  /\ (forall why a seed c, pick why p a seed = Returns (Ok c) ->
       exists k, conns p !! c = Some k /\ c_addr k = a /\ c_closed k = 0)
  /\ (forall why a seed c, (0 <= seed)%Z -> (seed + Z.of_nat (size p) <= 2 ^ 63)%Z -> Some c ∈ clients_of p a ->
       exists c', pick why p a seed = Returns (Ok c'))
  /\ (orderly (NewPool n) ops -> forall c k, conns p !! c = Some k ->
       (c_closed k = 0 <-> exists a, Some c ∈ clients_of p a)).
Proof.
  intros p. pose proof (pool_run_Inv n ops) as H. fold p in H.
  assert (forall c k, conns p !! c = Some k -> exists s i, stored p s i c /\ c_closed k <= 1 /\
    forall a, dopplers p !! a = Some s -> c_addr k = a /\ c_closed k = 0) as Hc.
  { intros c k Hk. destruct (g_all p H c) as (s & i & Hst); [by eapply lookup_lt_Some|].
    destruct (g_slot p H s i c Hst) as (k' & Hk' & Hle & Hreg). assert (k' = k) as -> by congruence. eauto. }
  split; [|split; [|split]].
  - intros c k Hk. by destruct (Hc c k Hk) as (s & i & _ & Hle & _).
  - intros why a seed c. unfold pick, fetchClient.
    destruct (fetch_loop _ _ _ _) as [[c'|]|] eqn:E; [|done..]. intros [= <-]. apply fetch_loop_sound in E.
    apply clients_of_stored in E as (s & i & Ha & Hst). destruct (g_slot p H s i c' Hst) as (k & Hk & _ & Hreg).
    exists k. split; [done|]. by apply Hreg.
  - intros why a seed c. by apply pick_finds.
  - intros Ho c k Hk. destruct (Hc c k Hk) as (s & i & Hst & Hle & Hreg).
    assert (Tidy p) as [_ Hopen].
    { apply (run_Tidy n); [apply NewPool_Inv| |done|done]. split; simpl; [intros d Hd; by apply elem_of_nil in Hd|done]. }
    split.
    + intros Hz. destruct (Hopen s i c k Hst Hk) as [[a Ha]|?]; [|lia]. exists a. apply clients_of_stored. eauto.
    + intros (a & (s' & i' & Ha & Hst')%clients_of_stored). destruct (g_inj p H _ _ _ _ _ Hst Hst') as [-> ->].
      by apply (Hreg a).
Qed.

(** A dial that succeeds after its address was closed: the connection is stored where nobody
    looks and never closed. *)
Example late_dial_leaks :
  let p := foldl step (NewPool 1) [OpRegister "a"; OpClose "a"; OpDial 0 true; OpRegister "a"; OpClose "a"]%string in
  c_closed <$> conns p = [0] /\ clients_of p "a" = [].
Proof. done. Qed.

End Pool.

(** ** The queries of the connector

    Both ask every client and append the answers in the order they arrive. *)

Definition ContainerMetrics (deadline : bool) (answers : list (option (list string))) : list string * nat :=
  query deadline answers.
Definition RecentLogs (deadline : bool) (answers : list (option (list string))) : list string * nat :=
  query deadline answers.

(** ** consumeSubscription: the loop *)

Module Reconnect.

Local Open Scope Z_scope.

Definition Millisecond : Z := 1000000.
Definition Minute : Z := 60000000000.

(** The local variables, and the sleeps so far. *)
Record loop : Type := mkLoop { delay : Z; tried : bool; slept : list Z; returned : bool }.

Definition start : loop := mkLoop Millisecond false [] false.

(** One turn: the two flags as they are loaded, and whether [pool.Subscribe] succeeds; after
    a stream has ended, with an error or not, the loop goes on. *)
Definition turn (s : loop) (i : bool * bool * bool) : loop :=
  let '(ctxDisconnect, dopplerDisconnect, subscribed) := i in
  if returned s then s
  else if (tried s && dopplerDisconnect) || ctxDisconnect then mkLoop (delay s) (tried s) (slept s) true
  else if subscribed then mkLoop Millisecond true (slept s) false
  else mkLoop (if bool_decide (delay s < Minute) then delay s * 10 else delay s) true (slept s ++ [delay s]) false.

(** Reference: the sleep after [k] failures in a row. *)
Definition backoff (k : nat) : Z := 10 ^ Z.of_nat (Nat.min k 5) * Millisecond.

(** Reference: the sleeps of a goroutine that has failed [k] times in a row. *)
Fixpoint sleeps (k : nat) (tried : bool) (l : list (bool * bool * bool)) : list Z :=
  match l with
  | [] => []
  | (ctxDisconnect, dopplerDisconnect, subscribed) :: l =>
      if (tried && dopplerDisconnect) || ctxDisconnect then []
      else if subscribed then sleeps 0 true l
      else backoff k :: sleeps (S k) true l
  end.

Lemma backoff_next k : (if bool_decide (backoff k < Minute) then backoff k * 10 else backoff k) = backoff (S k).
Proof.
  destruct (decide (k < 5)%nat) as [Hk|Hk].
  - do 5 (destruct k as [|k]; [done|]). lia.
  - unfold backoff. rewrite !Nat.min_r by lia. by rewrite bool_decide_eq_false_2.
Qed.

Lemma turns_sleep l k t acc :
  slept (foldl turn (mkLoop (backoff k) t acc false) l) = acc ++ sleeps k t l.
Proof.
  revert k t acc. induction l as [|[[c d] s] l IH]; intros k t acc; cbn [foldl sleeps turn].
  { by rewrite app_nil_r. }
  cbn [returned tried delay slept]. destruct ((t && d) || c).
  - rewrite app_nil_r. clear IH. induction l as [|[[? ?] ?] l IH]; [done|]. exact IH.
  - destruct s; [apply (IH 0%nat)|]. rewrite backoff_next, IH. by rewrite <- app_assoc.
Qed.

(** A goroutine's reconnection delays are those of the reference: one millisecond after a
    first failure, ten times as long after each further one, up to a hundred seconds, and
    one millisecond again after a stream was established.  The flag of its client stops it
    only after one attempt, the end of its context at once. *)
Lemma reconnect_delays l :
  slept (foldl turn start l) = sleeps 0 false l
  /\ Forall (fun d => Millisecond <= d <= 100000 * Millisecond) (slept (foldl turn start l)).
Proof.
  assert (slept (foldl turn start l) = sleeps 0 false l) as E by apply (turns_sleep l 0%nat false []).
  split; [done|]. rewrite E. clear E. generalize 0%nat, false.
  induction l as [|[[c d] s] l IH]; intros k t; cbn [sleeps]; [constructor|].
  destruct (_ || c); [constructor|]. destruct s; [apply IH|]. constructor; [|apply IH].
  unfold backoff. assert (Nat.min k 5 = 0 \/ Nat.min k 5 = 1 \/ Nat.min k 5 = 2 \/ Nat.min k 5 = 3 \/
    Nat.min k 5 = 4 \/ Nat.min k 5 = 5)%nat as H by lia.
  unfold Millisecond. by destruct H as [-> | [-> | [-> | [-> | [-> | ->]]]]].
Qed.

End Reconnect.

(** ** readStream and Recv: from the dopplers to the subscriber *)

Module Streams.

(** A subscription's channel with the goroutines that fill it, by doppler: [pending] is what
    a goroutine has read and not yet handed over.  The doppler of each buffered payload and
    what was read, received and given up are kept for the statement. *)
Record state : Type := mkState {
  data : Chan.t string;
  ctx_done : bool;
  pending : gmap nat string;
  buffered : list (nat * string);
  read_ : list (nat * string);
  received : list (nat * string);
  given_up : list (nat * string);
  ingress : nat
}.

Definition Subscribe (bufferSize : nat) : state := mkState (Chan.make string bufferSize) false ∅ [] [] [] [] 0.

Inductive event : Type :=
| Read (d : nat) (payload : string)
| Offer (d : nat) (chooseCtx : bool)
| Cancel
| RecvData.

(** The goroutine of a doppler reads its stream, and runs a turn of [readStream]; the
    context ends; the subscriber's [Recv] takes a payload. *)
Definition step (s : state) (e : event) : state :=
  match e with
  | Read d p =>
      match pending s !! d with
      | Some _ => s
      | None => mkState (data s) (ctx_done s) (<[d := p]> (pending s)) (buffered s) (read_ s ++ [(d, p)])
                  (received s) (given_up s) (ingress s)
      end
  | Offer d chooseCtx =>
      match pending s !! d with
      | None => s
      | Some p =>
          match readStream_turn (data s) (ctx_done s) chooseCtx (Some p) with
          | None => s
          | Some (data, counted, returned) =>
              mkState data (ctx_done s) (delete d (pending s))
                (if returned then buffered s else buffered s ++ [(d, p)]) (read_ s) (received s)
                (if returned then given_up s ++ [(d, p)] else given_up s) (ingress s + counted)
          end
      end
  | Cancel => mkState (data s) true (pending s) (buffered s) (read_ s) (received s) (given_up s) (ingress s)
  | RecvData =>
      match Chan.try_recv (data s), buffered s with
      | Chan.Received _ c, b :: rest =>
          mkState c (ctx_done s) (pending s) rest (read_ s) (received s ++ [b]) (given_up s) (ingress s)
      | _, _ => s
      end
  end.

(** What a list holds of one doppler. *)
Definition of_doppler (d : nat) (l : list (nat * string)) : list string := (filter (fun x => x.1 = d) l).*2.

Definition held (d : nat) (s : state) : list string := option_list (pending s !! d).

Record Inv (s : state) : Prop := mkInv {
  i_data : Chan.buf (data s) = (buffered s).*2;
  i_open : Chan.closed (data s) = false;
  i_cap : Chan.wf (data s);
  i_order : forall d, (of_doppler d (received s) ++ of_doppler d (buffered s) ++ held d s)
              `sublist_of` of_doppler d (read_ s);
  i_count : forall d, length (of_doppler d (read_ s)) = length (of_doppler d (received s))
              + length (of_doppler d (buffered s)) + length (held d s) + length (of_doppler d (given_up s));
  i_lost : ctx_done s = false -> given_up s = [];
  i_ingress : ingress s = length (received s) + length (buffered s)
}.

Lemma sublist_same_length {A} (l k : list A) : l `sublist_of` k -> length k <= length l -> l = k.
Proof.
  induction 1 as [|x l k Hs IH|x l k Hs IH]; simpl; intros Hl; [done|f_equal; apply IH; lia|].
  apply sublist_length in Hs. lia.
Qed.

Lemma of_doppler_app d l k : of_doppler d (l ++ k) = of_doppler d l ++ of_doppler d k.
Proof. unfold of_doppler. by rewrite filter_app, fmap_app. Qed.

Lemma of_doppler_one d e p : of_doppler d [(e, p)] = if decide (e = d) then [p] else [].
Proof. unfold of_doppler. rewrite filter_cons. simpl. by case_decide. Qed.

Lemma held_insert d e p s :
  option_list (<[e := p]> (pending s) !! d) = if decide (e = d) then [p] else held d s.
Proof.
  unfold held. case_decide as E; [subst; by rewrite lookup_insert_eq|by rewrite lookup_insert_ne].
Qed.

Lemma held_delete d e s :
  option_list (delete e (pending s) !! d) = if decide (e = d) then [] else held d s.
Proof.
  unfold held. case_decide as E; [subst; by rewrite lookup_delete_eq|by rewrite lookup_delete_ne].
Qed.

Lemma read_Inv s d p : Inv s -> pending s !! d = None ->
  Inv (mkState (data s) (ctx_done s) (<[d := p]> (pending s)) (buffered s) (read_ s ++ [(d, p)])
         (received s) (given_up s) (ingress s)).
Proof.
  intros [] Hp. split; try done; intros e; unfold held; cbn [pending received buffered read_ given_up];
    rewrite of_doppler_app, of_doppler_one, held_insert.
  - destruct (decide (d = e)) as [<-|Hne].
    + specialize (i_order0 d). unfold held in i_order0. rewrite Hp in i_order0. cbn [option_list] in i_order0.
      rewrite app_nil_r in i_order0. rewrite app_assoc. by apply sublist_app.
    + rewrite app_nil_r. apply i_order0.
  - rewrite !length_app. specialize (i_count0 e). destruct (decide (d = e)) as [<-|Hne]; simpl; [|lia].
    unfold held in i_count0. rewrite Hp in i_count0. simpl in i_count0. lia.
Qed.

Lemma offer_Inv s d p choose data' counted returned_ :
  Inv s -> pending s !! d = Some p ->
  readStream_turn (data s) (ctx_done s) choose (Some p) = Some (data', counted, returned_) ->
  Inv (mkState data' (ctx_done s) (delete d (pending s))
         (if returned_ then buffered s else buffered s ++ [(d, p)]) (read_ s) (received s)
         (if returned_ then given_up s ++ [(d, p)] else given_up s) (ingress s + counted)).
Proof.
  intros [Hd Ho Hc Hord Hcnt Hl Hi] Hp.
  assert (forall e, e = d -> held e s = [p]) as Hh by (intros e ->; unfold held; by rewrite Hp).
  assert (ctx_done s = true -> Inv (mkState (data s) (ctx_done s) (delete d (pending s)) (buffered s) (read_ s)
    (received s) (given_up s ++ [(d, p)]) (ingress s + 0))) as Hgive.
  { intros Hctx. rewrite Nat.add_0_r. split; try done; [..|by rewrite Hctx]; intros e; unfold held;
      cbn [pending received buffered read_ given_up]; rewrite held_delete;
      specialize (Hord e); specialize (Hcnt e); rewrite ?of_doppler_app, ?of_doppler_one, ?length_app;
      destruct (decide (d = e)) as [<-|Hne]; rewrite ?Hh in * by done; simpl in *; try done; try lia.
    rewrite app_nil_r. etrans; [|exact Hord]. rewrite app_assoc. by apply sublist_inserts_r. }
  unfold readStream_turn. destruct (ctx_done s && choose) eqn:Ec.
  { intros [= <- <- <-]. apply Hgive. by apply andb_true_iff in Ec as [? _]. }
  destruct (decide (length (Chan.buf (data s)) < Chan.cap (data s))) as [Hlt|Hge].
  - rewrite Chan.try_send_open by done. intros [= <- <- <-]. split; try done; cbn [data buffered].
    + cbn [Chan.buf]. by rewrite Hd, fmap_app.
    + by apply (Chan.try_send_wf (data s) _ p), Chan.try_send_open.
    + intros e. unfold held. cbn [pending received buffered read_ given_up]. rewrite held_delete, of_doppler_app, of_doppler_one.
      specialize (Hord e). destruct (decide (d = e)) as [<-|Hne]; rewrite ?Hh in * by done; rewrite ?app_nil_r in *; done.
    + intros e. unfold held. cbn [pending received buffered read_ given_up]. rewrite held_delete, of_doppler_app, of_doppler_one.
      specialize (Hcnt e). rewrite length_app. destruct (decide (d = e)) as [<-|Hne]; rewrite ?Hh in * by done; simpl in *; lia.
    + cbn [ingress received]. rewrite length_app. simpl. lia.
  - rewrite Chan.try_send_full by (done || lia). destruct (ctx_done s) eqn:E; [|done]. intros [= <- <- <-].
    by apply Hgive.
Qed.

Lemma recv_Inv s : Inv s -> Inv (step s RecvData).
Proof.
  intros H. pose proof H as [Hd Ho Hc Hord Hcnt Hl Hi]. cbn [step]. unfold Chan.try_recv. rewrite Hd.
  destruct (buffered s) as [|[d p] rest] eqn:Eb; cbn [fmap list_fmap snd].
  { by destruct (Chan.closed (data s)). }
  split; cbn [data buffered Chan.buf Chan.closed]; try done.
  - unfold Chan.wf in *. cbn [Chan.buf Chan.cap]. rewrite Hd, length_fmap in Hc.
    rewrite length_fmap. cbn [length] in Hc. lia.
  - intros e. specialize (Hord e). cbn [received read_]. change (held e _) with (held e s).
    change ((d, p) :: rest) with ([(d, p)] ++ rest) in Hord. rewrite of_doppler_app in *.
    by rewrite <- !app_assoc in *.
  - intros e. specialize (Hcnt e). cbn [received read_ given_up]. change (held e _) with (held e s).
    change ((d, p) :: rest) with ([(d, p)] ++ rest) in Hcnt. rewrite of_doppler_app, length_app in *. lia.
  - cbn [ingress received]. rewrite length_app. simpl in *. lia.
Qed.

Lemma streams_step_Inv s e : Inv s -> Inv (step s e).
Proof.
  intros H. destruct e as [d p|d choose| |]; cbn [step].
  - destruct (pending s !! d) eqn:Hp; [done|]. by apply read_Inv.
  - destruct (pending s !! d) as [p|] eqn:Hp; [|done].
    destruct (readStream_turn _ _ _ _) as [[[c n] r]|] eqn:E; [|done]. by eapply offer_Inv.
  - by destruct H; split.
  - by apply recv_Inv.
Qed.

(** An open subscription whose buffer is empty has received all that was read. *)
Lemma all_received s d :
  Inv s -> ctx_done s = false -> buffered s = [] -> pending s !! d = None ->
  of_doppler d (received s) = of_doppler d (read_ s).
Proof.
  intros [_ _ _ Hord Hcnt Hl _] Hctx Hb Hp. specialize (Hord d). specialize (Hcnt d). unfold held in *.
  rewrite Hb, Hp, (Hl Hctx) in *. cbn in Hord, Hcnt. rewrite app_nil_r in Hord.
  apply sublist_same_length; [done|]. lia.
Qed.

(** C29: A subscriber receives what the dopplers send.  However the goroutines that read the
    dopplers, the subscriber and the end of its context interleave: of each doppler, the
    payloads received, those buffered and the one waiting are payloads read from it, in
    their order; until the context ends none is missing, and after it the missing ones are
    those given up; the ingress metric counts what entered the buffer, which never exceeds
    its size. *)
Theorem streams_deliver_in_order bufferSize l :
  let s := foldl step (Subscribe bufferSize) l in
  (forall d, (of_doppler d (received s) ++ of_doppler d (buffered s) ++ option_list (pending s !! d))
             `sublist_of` of_doppler d (read_ s))
  /\ (forall d, length (of_doppler d (read_ s)) = length (of_doppler d (received s))
        + length (of_doppler d (buffered s)) + length (option_list (pending s !! d)) + length (of_doppler d (given_up s)))
  /\ (ctx_done s = false -> forall d, of_doppler d (received s) ++ of_doppler d (buffered s)
        ++ option_list (pending s !! d) = of_doppler d (read_ s))
  /\ ingress s = length (received s) + length (buffered s)
  /\ (buffered s).*2 = Chan.buf (data s) /\ length (Chan.buf (data s)) <= Chan.cap (data s).
Proof.
  intros s. assert (Inv s) as [Hd Ho Hc Hord Hcnt Hl Hi].
  { unfold s. induction l as [|e l IH] using rev_ind; [|rewrite foldl_app; by apply streams_step_Inv].
    split; try done. by apply Chan.make_wf. }
  do 2 (split; [done|]). split; [|done]. intros Hctx d. specialize (Hl Hctx).
  apply sublist_same_length; [apply Hord|]. specialize (Hcnt d). rewrite Hl in Hcnt. unfold held in Hcnt.
  rewrite !length_app. simpl in Hcnt. lia.
Qed.

End Streams.
