(* ===== verification/Http.v ===== *)
(** * The fragment of net/http and net/url the servers and clients use

    Query strings and their escaping, header maps with canonical keys, status texts, and a
    response writer that, as in net/http, fixes status and headers at the first
    [WriteHeader].  Everything is executable. *)

From Stdlib Require Import Ascii.
From S2P Require Import Prelude Go.

(** ** Characters *)

Module Chr.

Definition code (c : ascii) : nat := nat_of_ascii c.

Definition between (a b : nat) (c : ascii) : bool := (a <=? code c) && (code c <=? b).
Definition digit : ascii -> bool := between 48 57.
Definition upper : ascii -> bool := between 65 90.
Definition lower : ascii -> bool := between 97 122.
Definition alnum (c : ascii) : bool := digit c || upper c || lower c.

Fixpoint mem (c : ascii) (s : string) : bool :=
  match s with
  | EmptyString => false
  | String a s => if ascii_dec a c then true else mem c s
  end.

(** A hexadecimal digit and its value; both cases are accepted. *)
Definition hexval (c : ascii) : option nat :=
  if digit c then Some (code c - 48)
  else if between 65 70 c then Some (code c - 55)
  else if between 97 102 c then Some (code c - 87)
  else None.

Definition hexdigit (n : nat) : ascii := ascii_of_nat (if n <? 10 then n + 48 else n + 55).

Definition to_upper (c : ascii) : ascii := if lower c then ascii_of_nat (code c - 32) else c.
Definition to_lower (c : ascii) : ascii := if upper c then ascii_of_nat (code c + 32) else c.

Lemma mem_cons c a s : mem c (String a s) = true -> a = c \/ mem c s = true.
Proof. cbn [mem]. destruct (ascii_dec a c); auto. Qed.

End Chr.

(** Cases on which character of a literal string [c] is, from [H : Chr.mem c "..." = true]. *)
Ltac mem_cases H :=
  first [ discriminate H
        | let H1 := fresh H in
          apply Chr.mem_cons in H; destruct H as [H1|H1]; [rewrite <- H1; clear H1|mem_cases H1] ].

(** ** net/url *)

Module Url.

Definition unreserved (c : ascii) : bool := Chr.alnum c || Chr.mem c "-_.~".

Definition escape_char (c : ascii) : string :=
  if ascii_dec c " " then "+"
  else if unreserved c then String c EmptyString
  else String "%" (String (Chr.hexdigit (Chr.code c / 16))
         (String (Chr.hexdigit (Chr.code c mod 16)) EmptyString)).

Fixpoint QueryEscape (s : string) : string :=
  match s with
  | EmptyString => EmptyString
  | String c s => escape_char c +:+ QueryEscape s
  end.

(** [None] is the error of an incomplete or non-hexadecimal escape. *)
Fixpoint QueryUnescape (s : string) : option string :=
  match s with
  | EmptyString => Some EmptyString
  | String c r =>
      if ascii_dec c "%" then
        match r with
        | String h (String l r) =>
            match Chr.hexval h, Chr.hexval l with
            | Some h, Some l => String (ascii_of_nat (16 * h + l)) <$> QueryUnescape r
            | _, _ => None
            end
        | _ => None
        end
      else String (if ascii_dec c "+" then " "%char else c) <$> QueryUnescape r
  end.

(** [url.Values] *)
Abbreviation Values := (gmap string (list string)).

Definition add (v : Values) (k x : string) : Values := <[k := default [] (v !! k) ++ [x]]> v.

(** [Values.Get]: the first value, or the empty string. *)
Definition Get (v : Values) (k : string) : string :=
  match v !! k with Some (x :: _) => x | _ => EmptyString end.

(** The pieces between the separators [&] and [;]. *)
Definition pieces (q : string) : list string :=
  Str.Split q "&" ≫= (fun p => Str.Split p ";").

(** One [key=value] piece; the flag is set on an escaping error, which drops the piece. *)
Definition parse_piece (acc : Values * bool) (p : string) : Values * bool :=
  let '(v, bad) := acc in
  if Str.empty p then acc else
  let '(k, x) := match Str.IndexOf p "=" with
                 | Some i => (Str.take_n i p, Str.drop_n (S i) p)
                 | None => (p, EmptyString)
                 end in
  match QueryUnescape k, QueryUnescape x with
  | Some k, Some x => (add v k x, bad)
  | _, _ => (v, true)
  end.

(** [url.ParseQuery]: the values and whether an error occurred. *)
Definition ParseQuery (q : string) : Values * bool := foldl parse_piece (∅, false) (pieces q).

(** [URL.Query()]: malformed pieces are dropped silently. *)
Definition Query (rawQuery : string) : Values := (ParseQuery rawQuery).1.

(** [Values.Encode] of a single pair. *)
Definition Encode1 (k x : string) : string := QueryEscape k +:+ "=" +:+ QueryEscape x.

Lemma unescape_escape_char c s :
  QueryUnescape (escape_char c +:+ s) = String c <$> QueryUnescape s.
Proof. destruct c as [[] [] [] [] [] [] [] []]; reflexivity. Qed.

(** Unescaping inverts escaping on every byte string. *)
Lemma QueryUnescape_QueryEscape s : QueryUnescape (QueryEscape s) = Some s.
Proof.
  induction s as [|c s IH]; [done|].
  change (QueryEscape (String c s)) with (escape_char c +:+ QueryEscape s).
  by rewrite unescape_escape_char, IH.
Qed.

(** Escaped text holds none of the characters that delimit query strings. *)
Lemma QueryEscape_no_delim s d :
  Chr.mem d "&;=# " = true -> Str.IndexOf (QueryEscape s) d = None.
Proof.
  intros Hd. induction s as [|c s IH]; [done|].
  change (QueryEscape (String c s)) with (escape_char c +:+ QueryEscape s).
  assert (Str.IndexOf (escape_char c) d = None) as Hc.
  { mem_cases Hd; destruct c as [[] [] [] [] [] [] [] []]; reflexivity. }
  by rewrite Str.IndexOf_app_None.
Qed.

(** A form with one field decodes to that field. *)
Lemma ParseQuery_Encode1 k x : k <> EmptyString ->
  ParseQuery (Encode1 k x) = ({[k := [x]]}, false).
Proof.
  intros Hk. unfold ParseQuery, Encode1.
  set (q := QueryEscape k +:+ "=" +:+ QueryEscape x).
  assert (forall d, Chr.mem d "&;# " = true -> Str.IndexOf q d = None) as Hq.
  { intros d Hd. unfold q. mem_cases Hd;
      repeat apply Str.IndexOf_app_None; by (done || apply QueryEscape_no_delim). }
  assert (pieces q = [q]) as ->.
  { unfold pieces. rewrite Str.Split_no_sep by (by apply Hq). simpl.
    by rewrite Str.Split_no_sep by (by apply Hq). }
  cbn [foldl]. unfold parse_piece.
  assert (Str.empty q = false) as ->.
  { unfold q. destruct k as [|c k]; [done|]. simpl. by destruct c as [[] [] [] [] [] [] [] []]. }
  assert (Str.IndexOf q "=" = Some (String.length (QueryEscape k))) as ->.
  { by apply Str.IndexOf_app_hit, QueryEscape_no_delim. }
  cbv beta iota.
  assert (Str.take_n (String.length (QueryEscape k)) q = QueryEscape k) as ->
    by (unfold q; apply Str.take_n_app).
  assert (Str.drop_n (S (String.length (QueryEscape k))) q = QueryEscape x) as ->.
  { unfold q. rewrite <- (Str.append_assoc _ "="). 
    replace (S (String.length (QueryEscape k))) with (String.length (QueryEscape k +:+ "="))
      by (rewrite Str.length_append; simpl; lia).
    apply Str.drop_n_app. }
  cbv iota. rewrite !QueryUnescape_QueryEscape. unfold add. by rewrite lookup_empty, insert_empty.
Qed.

End Url.

(** ** net *)

Module Net.

(** The part before the last [c] and the part after it. *)
Fixpoint split_last (s : string) (c : ascii) : option (string * string) :=
  match s with
  | EmptyString => None
  | String a s =>
      match split_last s c with
      | Some (l, r) => Some (String a l, r)
      | None => if ascii_dec a c then Some (EmptyString, s) else None
      end
  end.

Definition has (s : string) (c : ascii) : bool :=
  match Str.IndexOf s c with Some _ => true | None => false end.

(** [net.SplitHostPort]; [None] is any of its errors. *)
Definition SplitHostPort (hostport : string) : option (string * string) :=
  match split_last hostport ":" with
  | None => None
  | Some (before, port) =>
      match hostport with
      | String "[" rest =>
          match Str.IndexOf rest "]" with
          | None => None
          | Some e =>
              (* the bracket must be followed by the last colon *)
              if bool_decide (S (S e) = String.length before) then
                let host := Str.take_n e rest in
                if has rest "[" || has port "]" then None else Some (host, port)
              else None
          end
      | _ =>
          if has before ":" || has before "%" || has hostport "[" || has hostport "]" then None
          else Some (before, port)
      end
  end.

Example SplitHostPort_v4 : SplitHostPort "10.0.0.1:80" = Some ("10.0.0.1", "80")%string.
Proof. reflexivity. Qed.
Example SplitHostPort_v6 : SplitHostPort "[::1]:80" = Some ("::1", "80")%string.
Proof. reflexivity. Qed.
Example SplitHostPort_bare_v6 : SplitHostPort "2001:db8::1" = None.
Proof. reflexivity. Qed.

Lemma split_last_app s c r :
  Str.IndexOf r c = None -> split_last (s +:+ String c r) c = Some (s, r).
Proof.
  intros Hr. induction s as [|a s IH].
  - change (split_last (String c r) c = Some (EmptyString, r)). cbn [split_last].
    assert (split_last r c = None) as ->.
    { clear -Hr. induction r as [|b r IH]; simpl in *; [done|]. destruct (ascii_dec b c); [done|].
      destruct (Str.IndexOf r c); [done|]. by rewrite IH. }
    by destruct (ascii_dec c c).
  - change (String a s +:+ String c r) with (String a (s +:+ String c r)). cbn [split_last].
    by rewrite IH.
Qed.

End Net.

(** ** Headers *)

Module Header.

Abbreviation t := (gmap string (list string)).

Definition token (c : ascii) : bool := Chr.alnum c || Chr.mem c "!#$%&'*+-.^_`|~".

Fixpoint all_token (s : string) : bool :=
  match s with EmptyString => true | String c s => token c && all_token s end.

Fixpoint canon (up : bool) (s : string) : string :=
  match s with
  | EmptyString => EmptyString
  | String c s =>
      String (if up then Chr.to_upper c else Chr.to_lower c)
        (canon (if ascii_dec c "-" then true else false) s)
  end.

(** [textproto.CanonicalMIMEHeaderKey] *)
Definition CanonicalKey (s : string) : string := if all_token s then canon true s else s.

Definition Get (h : t) (k : string) : string :=
  match h !! CanonicalKey k with Some (x :: _) => x | _ => EmptyString end.

Definition Set_ (h : t) (k x : string) : t := <[CanonicalKey k := [x]]> h.

Definition Add (h : t) (k x : string) : t :=
  <[CanonicalKey k := default [] (h !! CanonicalKey k) ++ [x]]> h.

Example canonical_request_id : CanonicalKey "X-Vcap-Request-ID" = "X-Vcap-Request-Id"%string.
Proof. reflexivity. Qed.

Lemma Get_Set h k x : Get (Set_ h k x) k = x.
Proof. unfold Get, Set_. by rewrite lookup_insert_eq. Qed.

End Header.

(** ** Status codes *)

Definition StatusOK : Z := 200.
Definition StatusBadRequest : Z := 400.
Definition StatusUnauthorized : Z := 401.
Definition StatusForbidden : Z := 403.
Definition StatusNotFound : Z := 404.
Definition StatusInternalServerError : Z := 500.
Definition StatusServiceUnavailable : Z := 503.

(** [http.StatusText]; the empty string for an unknown code. *)
Definition status_table : list (Z * string) :=
  [(100, "Continue"); (101, "Switching Protocols"); (102, "Processing");
   (200, "OK"); (201, "Created"); (202, "Accepted");
   (203, "Non-Authoritative Information"); (204, "No Content"); (205, "Reset Content");
   (206, "Partial Content"); (207, "Multi-Status"); (208, "Already Reported"); (226, "IM Used");
   (300, "Multiple Choices"); (301, "Moved Permanently"); (302, "Found"); (303, "See Other");
   (304, "Not Modified"); (305, "Use Proxy"); (307, "Temporary Redirect");
   (308, "Permanent Redirect");
   (400, "Bad Request"); (401, "Unauthorized"); (402, "Payment Required"); (403, "Forbidden");
   (404, "Not Found"); (405, "Method Not Allowed"); (406, "Not Acceptable");
   (407, "Proxy Authentication Required"); (408, "Request Timeout"); (409, "Conflict");
   (410, "Gone"); (411, "Length Required"); (412, "Precondition Failed");
   (413, "Request Entity Too Large"); (414, "Request URI Too Long");
   (415, "Unsupported Media Type"); (416, "Requested Range Not Satisfiable");
   (417, "Expectation Failed"); (418, "I'm a teapot"); (422, "Unprocessable Entity");
   (423, "Locked"); (424, "Failed Dependency"); (426, "Upgrade Required");
   (428, "Precondition Required"); (429, "Too Many Requests");
   (431, "Request Header Fields Too Large"); (451, "Unavailable For Legal Reasons");
   (500, "Internal Server Error"); (501, "Not Implemented"); (502, "Bad Gateway");
   (503, "Service Unavailable"); (504, "Gateway Timeout"); (505, "HTTP Version Not Supported");
   (506, "Variant Also Negotiates"); (507, "Insufficient Storage"); (508, "Loop Detected");
   (510, "Not Extended"); (511, "Network Authentication Required")]%Z%string.

Definition StatusText (code : Z) : string :=
  match filter (fun p => p.1 = code) status_table with
  | (_, t) :: _ => t
  | [] => EmptyString
  end.

(** ** Requests and responses *)

Record Cookie : Type := mkCookie { ck_Name : string; ck_Value : string }.

Record Request : Type := mkRequest {
  rq_Method : string;
  rq_Path : string;
  rq_RawQuery : string;
  rq_Header : Header.t;
  rq_Cookies : list Cookie;
  rq_RemoteAddr : string
}.

(** An answer of [http.Client.Do]: a transport error, or a status and a body whose reading
    may fail. *)
Inductive answer : Type :=
| Refused (msg : string)
| Answered (status : Z) (body : result string).

(** [http.ResponseWriter]: the handler's header map, the status and the headers that were
    fixed by the first [WriteHeader] or [Write], and the body. *)
Record ResponseWriter : Type := mkResponse {
  header : Header.t;
  sent : option (Z * Header.t);
  body : list string
}.

Definition NewResponse : ResponseWriter := mkResponse ∅ None [].

Definition SetHeader (w : ResponseWriter) (k x : string) : ResponseWriter :=
  mkResponse (Header.Set_ (header w) k x) (sent w) (body w).

Definition AddHeader (w : ResponseWriter) (k x : string) : ResponseWriter :=
  mkResponse (Header.Add (header w) k x) (sent w) (body w).

(** The second call of [WriteHeader] is reported in the server's log and has no effect. *)
Definition WriteHeader (w : ResponseWriter) (status : Z) : ResponseWriter :=
  match sent w with
  | Some _ => w
  | None => mkResponse (header w) (Some (status, header w)) (body w)
  end.

Definition Write (w : ResponseWriter) (data : string) : ResponseWriter :=
  let w := WriteHeader w StatusOK in
  mkResponse (header w) (sent w) (body w ++ [data]).

(** What the client receives when the handler returns. *)
Definition status_of (w : ResponseWriter) : Z :=
  match sent w with Some (s, _) => s | None => StatusOK end.

Definition headers_of (w : ResponseWriter) : Header.t :=
  match sent w with Some (_, h) => h | None => header w end.
