(* ===== verification/DrainBinder.v ===== *)
(** * syslog_drain_binder: from the cloud controller to the drain store

    The binder elects one leader among its instances, and the leader periodically polls the
    drains of all applications from the cloud controller, filters them and writes them to
    the store from which doppler's watcher ([AppServices]) reads them.  The cloud
    controller's answers, JSON decoding, URL parsing, SHA-1 and the store adapter are
    arguments; the adapter is an interface with laws ([StoreAdapter]). *)

From Stdlib Require Import Ascii.
From S2P Require Import Prelude Go Http AppServices.

(** ** shared_types *)

Record SyslogDrainBinding : Type := mkBinding { Hostname : string; DrainURLs : list string }.

#[export] Instance SyslogDrainBinding_eq_dec : EqDecision SyslogDrainBinding.
Proof. solve_decision. Defined.

Abbreviation AllSyslogDrainBindings := (gmap string SyslogDrainBinding).

(** [for k, v := range src { dst[k] = v }] *)
Definition copy_into {V} (ord : RangeOrder string) (dst src : gmap string V) : gmap string V :=
  foldl (fun m kv => <[kv.1 := kv.2]> m) dst (range_map ord src).

Lemma foldl_insert_lookup {V} (l : list (string * V)) (m : gmap string V) k :
  NoDup l.*1 ->
  foldl (fun m kv => <[kv.1 := kv.2]> m) m l !! k
  = match list_to_map (M := gmap string V) l !! k with Some v => Some v | None => m !! k end.
Proof.
  revert m. induction l as [|[a v] l IH]; intros m Hnd; simpl; [done|].
  inversion Hnd as [|? ? Hn Hl]; subst. rewrite IH by done.
  destruct (decide (a = k)) as [<-|Hne].
  - rewrite not_elem_of_list_to_map_1 by done. by rewrite !lookup_insert_eq.
  - by rewrite !lookup_insert_ne by done.
Qed.

Lemma range_list_to_map {V} (ord : RangeOrder string) (m : gmap string V) :
  list_to_map (range_map ord m) = m.
Proof.
  rewrite (list_to_map_proper _ (map_to_list m)); [apply list_to_map_to_list| |apply range_perm].
  apply range_keys_NoDup.
Qed.

Lemma copy_into_union {V} ord (dst src : gmap string V) : copy_into ord dst src = src ∪ dst.
Proof.
  apply map_eq. intros k. unfold copy_into.
  rewrite foldl_insert_lookup by apply range_keys_NoDup. rewrite range_list_to_map.
  rewrite lookup_union. by destruct (src !! k), (dst !! k).
Qed.

(** ** filter.go *)

Section Filter.

(** [url.Parse]: the raw query of a URL, or an error. *)
Context (url_Parse : string -> result string).

Definition keep_url (d : string) : bool :=
  match url_Parse d with
  | Err _ => false
  | Ok rawQuery => negb (bool_decide (Url.Get (Url.Query rawQuery) "drain-version" = "2.0"%string))
  end.

Definition filter_urls (l : list string) : list string :=
  foldl (fun drainUrls d => if keep_url d then drainUrls ++ [d] else drainUrls) [] l.

Definition Filter (ord : RangeOrder string) (bindings : AllSyslogDrainBindings)
  : AllSyslogDrainBindings :=
  foldl (fun newBindings kb =>
    let drainUrls := filter_urls (DrainURLs kb.2) in
    if bool_decide (0 < length drainUrls)
    then <[kb.1 := mkBinding (Hostname kb.2) drainUrls]> newBindings
    else newBindings) ∅ (range_map ord bindings).

Lemma filter_urls_filter l : filter_urls l = filter (fun d => keep_url d) l.
Proof.
  enough (forall acc, foldl (fun drainUrls d => if keep_url d then drainUrls ++ [d] else drainUrls)
    acc l = acc ++ filter (fun d => keep_url d) l) as H by apply H.
  induction l as [|d l IH]; intros acc; simpl; [by rewrite app_nil_r|].
  rewrite IH, filter_cons. destruct (keep_url d); simpl; [|done]. by rewrite <- app_assoc.
Qed.

(** What [Filter] keeps of one application. *)
Definition filtered (b : SyslogDrainBinding) : option SyslogDrainBinding :=
  match filter (fun d => keep_url d) (DrainURLs b) with
  | [] => None
  | urls => Some (mkBinding (Hostname b) urls)
  end.

Lemma Filter_step (acc : AllSyslogDrainBindings) k b :
  (let drainUrls := filter_urls (DrainURLs b) in
   if bool_decide (0 < length drainUrls)
   then <[k := mkBinding (Hostname b) drainUrls]> acc else acc)
  = match filtered b with Some b' => <[k := b']> acc | None => acc end.
Proof. unfold filtered. rewrite filter_urls_filter. cbv zeta. by destruct (filter _ (DrainURLs b)). Qed.

(** The filter keeps, for every application and in order, the URLs that parse and are not
    of version 2.0, and drops applications without any. *)
Lemma Filter_lookup ord bindings app :
  Filter ord bindings !! app = bindings !! app ≫= filtered.
Proof.
  unfold Filter. rewrite <- (range_list_to_map ord bindings) at 2.
  assert (NoDup (range_map ord bindings).*1) as Hnd by apply range_keys_NoDup.
  revert Hnd. generalize (range_map ord bindings) as l. intros l.
  enough (forall acc : AllSyslogDrainBindings, NoDup l.*1 ->
    (forall k, k ∈ l.*1 -> acc !! k = None) ->
    foldl (fun newBindings kb =>
      let drainUrls := filter_urls (DrainURLs kb.2) in
      if bool_decide (0 < length drainUrls)
      then <[kb.1 := mkBinding (Hostname kb.2) drainUrls]> newBindings
      else newBindings) acc l !! app
    = match list_to_map (M := AllSyslogDrainBindings) l !! app with
      | Some b => filtered b | None => acc !! app end) as H.
  { intros Hnd. rewrite H by (done || intros; apply lookup_empty).
    destruct (list_to_map l !! app); [done|apply lookup_empty]. }
  induction l as [|[k b] l IH]; intros acc Hnd Hacc; [done|].
  inversion Hnd as [|? ? Hk Hl]; subst. cbn [foldl fst snd]. rewrite Filter_step, list_to_map_cons.
  rewrite IH; [|done|].
  - destruct (decide (k = app)) as [<-|Hne].
    + rewrite lookup_insert_eq, not_elem_of_list_to_map_1 by done.
      destruct (filtered b); [by rewrite lookup_insert_eq|]. apply Hacc. set_solver.
    + rewrite lookup_insert_ne by done. destruct (list_to_map l !! app); [done|].
      by destruct (filtered b); rewrite ?lookup_insert_ne by done.
  - intros k' Hk'. assert (k <> k') by (intros ->; done).
    destruct (filtered b); rewrite ?lookup_insert_ne by done; apply Hacc; set_solver.
Qed.

End Filter.

(** ** cloud_controller_poller.go *)

Record PollOptions : Type := mkPollOptions { insecureSkipVerify : bool; timeout : Z }.

(** Five seconds, in nanoseconds. *)
Definition DefaultTimeout : Z := 5000000000.

Definition Timeout (t : Z) (o : PollOptions) : PollOptions := mkPollOptions (insecureSkipVerify o) t.

Record cloudControllerResponse : Type := mkCCResponse {
  Results : AllSyslogDrainBindings; NextID : option Z }.

Definition buildUrl (baseURL : string) (batchSize nextID : Z) : string :=
  let url := baseURL +:+ "/internal/v4/syslog_drain_urls?batch_size=" +:+ Strconv.Itoa batchSize in
  if negb (bool_decide (nextID = 0%Z)) then url +:+ "&next_id=" +:+ Strconv.Itoa nextID else url.

Section Poll.

(** What [ccResponse] holds after [decoder.Decode]; the error of [Decode] is ignored. *)
Context (Decode : result string -> cloudControllerResponse).

(** [client.Do]: the answer to the [n]-th request, under the options of the client. *)
Context (client_Do : PollOptions -> nat -> string -> answer).

Definition pollAndDecode (response : answer) : result cloudControllerResponse :=
  match response with
  | Refused err => Err err
  | Answered status body =>
      if negb (bool_decide (status = StatusOK))
      then Err ("Remote server error: " +:+ StatusText status)
      else Ok (Decode body)
  end.

Section Loop.

Context (ord : RangeOrder string) (urlBase : string) (batchSize : Z) (opts : PollOptions).

Definition request (n : nat) (nextID : Z) : result cloudControllerResponse :=
  pollAndDecode (client_Do opts n (buildUrl urlBase batchSize nextID)).

(** The loop of [Poll] from its [n]-th request; [None] when the fuel does not suffice. *)
Fixpoint poll_loop (fuel n : nat) (nextID : Z) (drainURLs : AllSyslogDrainBindings)
  : option (AllSyslogDrainBindings * option string) :=
  match fuel with
  | O => None
  | S fuel =>
      match request n nextID with
      | Err err => Some (drainURLs, Some err)
      | Ok ccResponse =>
          let drainURLs := copy_into ord drainURLs (Results ccResponse) in
          match NextID ccResponse with
          | None => Some (drainURLs, None)
          | Some next => poll_loop fuel (S n) next drainURLs
          end
      end
  end.

(** The pages a poll meets, and the error that ends it, if any. *)
Inductive fetches : nat -> Z -> list AllSyslogDrainBindings -> option string -> Prop :=
| fetch_error n id e : request n id = Err e -> fetches n id [] (Some e)
| fetch_last n id r : request n id = Ok r -> NextID r = None -> fetches n id [Results r] None
| fetch_more n id r id' ps e :
    request n id = Ok r -> NextID r = Some id' -> fetches (S n) id' ps e ->
    fetches n id (Results r :: ps) e.

Lemma poll_loop_fetches n id ps e m :
  fetches n id ps e ->
  forall fuel, length ps < fuel ->
  poll_loop fuel n id m = Some (foldl (fun m p => p ∪ m) m ps, e).
Proof.
  intros Hf. revert m. induction Hf as [n id e He|n id r Hr Hn|n id r id' ps e Hr Hn Hf IH];
    intros m [|fuel] Hfuel; simpl in *; try lia.
  - by rewrite He.
  - by rewrite Hr, Hn, copy_into_union.
  - rewrite Hr, Hn, copy_into_union. apply IH. lia.
Qed.

(** The cloud controller lists applications by increasing id, up to [B]. *)
Definition pages_increase (B : Z) : Prop := forall n id r id',
  request n id = Ok r -> NextID r = Some id' -> (id < id' <= B)%Z.

Lemma increasing_fetches B n id :
  pages_increase B -> (id <= B)%Z ->
  exists ps e, fetches n id ps e /\ (Z.of_nat (length ps) <= B - id + 1)%Z.
Proof.
  intros HB. remember (Z.to_nat (B - id)) as k eqn:Hk. revert n id Hk.
  induction k as [k IH] using lt_wf_ind. intros n id -> Hid.
  destruct (request n id) as [r|e] eqn:Hr.
  2:{ exists [], (Some e). split; [by constructor|]. simpl. lia. }
  destruct (NextID r) as [id'|] eqn:Hn.
  2:{ exists [Results r], None. split; [by apply fetch_last|]. simpl. lia. }
  destruct (HB _ _ _ _ Hr Hn) as [H1 H2].
  destruct (IH (Z.to_nat (B - id')) ltac:(lia) (S n) id' eq_refl H2) as (ps & e & Hf & Hl).
  exists (Results r :: ps), e. split; [by eapply fetch_more|]. simpl. lia.
Qed.

End Loop.

Definition poll_options (options : list (PollOptions -> PollOptions)) : PollOptions :=
  foldl (fun opts o => o opts) (mkPollOptions false DefaultTimeout) options.

Definition Poll (ord : RangeOrder string) (fuel : nat) (urlBase : string) (batchSize : Z)
  (options : list (PollOptions -> PollOptions)) : option (AllSyslogDrainBindings * option string) :=
  poll_loop ord urlBase batchSize (poll_options options) fuel 0 0 ∅.

(** C31: When the cloud controller lists its applications by increasing id up to [B], [Poll]
    returns after at most [B + 1] requests (fuel [B + 2] and any larger one give the same
    result).  The result is the union of all pages fetched, later pages overriding earlier
    ones, with the error that stopped the poll, if one did; that is, an error still returns
    the applications of the pages before it. *)
Theorem poll_terminates ord urlBase batchSize options B :
  (0 <= B)%Z ->
  pages_increase urlBase batchSize (poll_options options) B ->
  exists pages err,
    fetches urlBase batchSize (poll_options options) 0 0 pages err
    /\ (Z.of_nat (length pages) <= B + 1)%Z
    /\ forall fuel, (B + 2 <= Z.of_nat fuel)%Z ->
       Poll ord fuel urlBase batchSize options
       = Some (foldl (fun m page => page ∪ m) ∅ pages, err).
Proof.
  intros HB Hinc.
  destruct (increasing_fetches urlBase batchSize _ B 0 0 Hinc HB) as (ps & e & Hf & Hl).
  exists ps, e. split_and!; [done|lia|]. intros fuel Hfuel.
  apply (poll_loop_fetches ord _ _ _ _ _ _ _ _ Hf). lia.
Qed.

End Poll.

(** A cloud controller with two pages, and a decoder for its answers. *)
Module PollExample.

Definition app1 : SyslogDrainBinding := mkBinding "h1" ["syslog://a"].
Definition app2 : SyslogDrainBinding := mkBinding "h2" ["syslog://b"; "syslog://c"].

Definition decode (b : result string) : cloudControllerResponse :=
  match b with
  | Ok "page1" => mkCCResponse {["app1"%string := app1]} (Some 7%Z)
  | Ok "page2" => mkCCResponse {["app2"%string := app2]} None
  | _ => mkCCResponse ∅ None
  end.

Definition cc (o : PollOptions) (n : nat) (u : string) : answer :=
  if decide (u = buildUrl "https://cc" 50 0) then Answered 200 (Ok "page1"%string)
  else if decide (u = buildUrl "https://cc" 50 7) then Answered 200 (Ok "page2"%string)
  else Refused "no route".

End PollExample.

Lemma poll_terminates_witness :
  exists pages err,
    fetches PollExample.decode PollExample.cc "https://cc" 50 (poll_options []) 0 0 pages err
    /\ (Z.of_nat (length pages) <= 7 + 1)%Z
    /\ forall fuel, (7 + 2 <= Z.of_nat fuel)%Z ->
       Poll PollExample.decode PollExample.cc default_order fuel "https://cc" 50 []
       = Some (foldl (fun m page => page ∪ m) ∅ pages, err).
Proof.
  apply (poll_terminates PollExample.decode PollExample.cc default_order "https://cc" 50 [] 7); [lia|].
  intros n id r id'. unfold request, pollAndDecode, PollExample.cc.
  destruct (decide (buildUrl "https://cc" 50 id = buildUrl "https://cc" 50 0)) as [E|];
    [|destruct (decide (buildUrl "https://cc" 50 id = buildUrl "https://cc" 50 7)) as [E2|]].
  - intros [= <-] [= <-]. split; [|lia]. destruct (decide (id = 0%Z)) as [->|Hne]; [lia|].
    exfalso. apply (f_equal String.length) in E. unfold buildUrl in E.
    rewrite bool_decide_eq_false_2 in E by done. rewrite bool_decide_eq_true_2 in E by done.
    cbv [negb] in E. rewrite !Str.length_append in E. simpl in E. lia.
  - intros [= <-]. done.
  - done.
Defined.

(** ** etcd_syslog_drain_store.go *)

(** A node with the time to live it is written with. *)
Record ttlNode : Type := mkTTLNode { node : StoreNode; TTL : Z }.

Inductive store_error : Type := ErrorKeyExists | ErrorOther (msg : string).

(** The operations of [storeadapter.StoreAdapter] the binder uses, over an abstract state;
    [view] is the values currently stored. *)
Class StoreAdapter (S : Type) : Type := {
  view : S -> gmap string string;
  Create : ttlNode -> S -> S * option store_error;
  CompareAndSwap : ttlNode -> ttlNode -> S -> S * option store_error;
  CompareAndDelete : ttlNode -> S -> S * option store_error;
  SetMulti : list ttlNode -> S -> S * option store_error;
  expire : string -> S -> S
}.

Abbreviation nkey n := (Key (node n)).
Abbreviation nvalue n := (Value (node n)).

Definition set_node (m : gmap string string) (n : ttlNode) : gmap string string :=
  <[nkey n := nvalue n]> m.

(** What the code relies on.  A request that fails may have been executed or not (the answer
    can be lost), except that [ErrorKeyExists] means the key exists. *)
Class StoreAdapterLaws (S : Type) `{StoreAdapter S} : Prop := {
  Create_ok n s s' : Create n s = (s', None) ->
    view s !! nkey n = None /\ view s' = set_node (view s) n;
  Create_err n s s' e : Create n s = (s', Some e) ->
    view s' = view s \/ (view s !! nkey n = None /\ view s' = set_node (view s) n);
  CompareAndSwap_ok old new s s' : CompareAndSwap old new s = (s', None) ->
    view s !! nkey old = Some (nvalue old) /\ view s' = set_node (view s) new;
  CompareAndSwap_err old new s s' e : CompareAndSwap old new s = (s', Some e) ->
    view s' = view s
    \/ (view s !! nkey old = Some (nvalue old) /\ view s' = set_node (view s) new);
  CompareAndDelete_any n s s' e : CompareAndDelete n s = (s', e) ->
    view s' = view s
    \/ (view s !! nkey n = Some (nvalue n) /\ view s' = delete (nkey n) (view s));
  SetMulti_ok l s s' : SetMulti l s = (s', None) -> view s' = foldl set_node (view s) l;
  SetMulti_err l s s' e : SetMulti l s = (s', Some e) ->
    exists done, done `sublist_of` l /\ view s' = foldl set_node (view s) done;
  expire_view k s : view (expire k s) = delete k (view s)
}.

(** [uint64(d.Seconds())] for a duration in nanoseconds. *)
Definition Seconds_u64 (d : Z) : Z := Words.uint64 (Z.quot d 1000000000).

Definition ascii_space (a : ascii) : bool := Chr.between 9 13 a || Chr.between 32 32 a.

(** U+0085 and U+00A0 in UTF-8. *)
Definition space2 (a b : ascii) : bool :=
  Chr.between 194 194 a && (Chr.between 133 133 b || Chr.between 160 160 b).

(** U+1680, U+2000 to U+200A, U+2028, U+2029, U+202F, U+205F and U+3000 in UTF-8. *)
Definition space3 (a b c : ascii) : bool :=
  Chr.between 225 225 a && Chr.between 154 154 b && Chr.between 128 128 c
  || Chr.between 226 226 a && Chr.between 128 128 b
     && (Chr.between 128 138 c || Chr.between 168 169 c || Chr.between 175 175 c)
  || Chr.between 226 226 a && Chr.between 129 129 b && Chr.between 159 159 c
  || Chr.between 227 227 a && Chr.between 128 128 b && Chr.between 128 128 c.

(** [strings.TrimSpace(s) == ""] *)
Fixpoint blank (s : string) : bool :=
  match s with
  | EmptyString => true
  | String a r =>
      if ascii_space a then blank r else
      match r with
      | EmptyString => false
      | String b r2 =>
          if space2 a b then blank r2 else
          match r2 with
          | EmptyString => false
          | String c r3 => if space3 a b c then blank r3 else false
          end
      end
  end.

(** The double quote. *)
Definition dq : string := String "034" EmptyString.

(** The JSON text written for a drain, by [Sprintf] without escaping. *)
Definition drainData (hostname drainURL : string) : string :=
  "{" +:+ dq +:+ "hostname" +:+ dq +:+ ":" +:+ dq +:+ hostname +:+ dq +:+ ","
  +:+ dq +:+ "drainURL" +:+ dq +:+ ":" +:+ dq +:+ drainURL +:+ dq +:+ "}".

Section DrainStore.

Context (sha1_hex : string -> string).

Definition drainKey (appId data : string) : string :=
  "/loggregator/v2/services/" +:+ appId +:+ "/" +:+ sha1_hex data.

Definition drain_node (ttl : Z) (appId host drainURL : string) : ttlNode :=
  let data := drainData host drainURL in
  mkTTLNode (mkNode (drainKey appId data) data false []) (Seconds_u64 ttl).

Definition app_nodes (ttl : Z) (appId : string) (b : SyslogDrainBinding) : list ttlNode :=
  foldl (fun nodes drainURL =>
    if blank drainURL then nodes
    else nodes ++ [drain_node ttl appId (Hostname b) drainURL]) [] (DrainURLs b).

Lemma app_nodes_fmap ttl app b :
  app_nodes ttl app b
  = drain_node ttl app (Hostname b) <$> filter (fun u => negb (blank u)) (DrainURLs b).
Proof.
  unfold app_nodes. generalize (DrainURLs b) as l. intros l.
  enough (forall acc, foldl (fun nodes u => if blank u then nodes
    else nodes ++ [drain_node ttl app (Hostname b) u]) acc l
    = acc ++ (drain_node ttl app (Hostname b) <$> filter (fun u => negb (blank u)) l)) as H by apply H.
  induction l as [|u l IH]; intros acc; [by rewrite app_nil_r|].
  cbn [foldl]. rewrite IH, filter_cons. destruct (blank u); [done|].
  cbn [negb]. by rewrite <- app_assoc.
Qed.

Lemma app_nodes_keys ttl app b k :
  (forall app data, k <> drainKey app data) -> Forall (fun n => nkey n <> k) (app_nodes ttl app b).
Proof. intros Hk. rewrite app_nodes_fmap. apply Forall_fmap, Forall_true. intros u. cbn. by apply not_eq_sym. Qed.

Lemma set_nodes_frame (l : list ttlNode) m k :
  Forall (fun n => nkey n <> k) l -> foldl set_node m l !! k = m !! k.
Proof.
  intros Hl. revert m. induction Hl as [|n l Hn Hl IH]; intros m; simpl; [done|].
  rewrite IH. by apply lookup_insert_ne.
Qed.

Section Update.

Context {S : Type} `{StoreAdapter S}.

Record EtcdSyslogDrainStore : Type := mkDrainStore { storeAdapter : S; ttl : Z }.

Definition updateAppDrains (st : EtcdSyslogDrainStore) (appId : string) (b : SyslogDrainBinding)
  : EtcdSyslogDrainStore * option store_error :=
  let nodes := app_nodes (ttl st) appId b in
  if bool_decide (0 < length nodes) then
    let '(s, err) := SetMulti nodes (storeAdapter st) in (mkDrainStore s (ttl st), err)
  else (st, None).

(** [for appId, drainBinding := range ...] with the early return on an error. *)
Fixpoint update_all (st : EtcdSyslogDrainStore) (l : list (string * SyslogDrainBinding))
  : EtcdSyslogDrainStore * option store_error :=
  match l with
  | [] => (st, None)
  | (appId, b) :: l =>
      match updateAppDrains st appId b with
      | (st, Some err) => (st, Some err)
      | (st, None) => update_all st l
      end
  end.

Definition UpdateDrains (ord : RangeOrder string) (st : EtcdSyslogDrainStore)
  (all : AllSyslogDrainBindings) : EtcdSyslogDrainStore * option store_error :=
  update_all st (range_map ord all).

(** Every node a complete update writes, in the order in which applications are visited. *)
Definition drain_nodes (ord : RangeOrder string) (ttl : Z) (all : AllSyslogDrainBindings)
  : list ttlNode :=
  range_map ord all ≫= fun kb => app_nodes ttl kb.1 kb.2.

Context `{!StoreAdapterLaws S}.

Lemma updateAppDrains_view st app b st' :
  updateAppDrains st app b = (st', None) ->
  ttl st' = ttl st /\
  view (storeAdapter st') = foldl set_node (view (storeAdapter st)) (app_nodes (ttl st) app b).
Proof.
  unfold updateAppDrains. case_bool_decide as E.
  - destruct (SetMulti _ _) as [s e] eqn:Es. intros [= <- ->]. split; [done|].
    by apply SetMulti_ok in Es.
  - intros [= <-]. split; [done|]. destruct (app_nodes _ _ _); simpl in *; [done|lia].
Qed.

Lemma update_all_view l st st' :
  update_all st l = (st', None) ->
  view (storeAdapter st')
  = foldl set_node (view (storeAdapter st)) (l ≫= fun kb => app_nodes (ttl st) kb.1 kb.2).
Proof.
  revert st. induction l as [|[a b] l IH]; intros st; simpl; [by intros [= <-]|].
  destruct (updateAppDrains st a b) as [st1 [e|]] eqn:E; [done|]. intros Hu.
  apply updateAppDrains_view in E as [Ht Hv]. apply IH in Hu. rewrite Hu, Hv, Ht.
  by rewrite <- foldl_app.
Qed.

(** No update, successful or not, touches a key other than drain keys. *)
Lemma update_all_frame l st st' e k :
  (forall app data, k <> drainKey app data) ->
  update_all st l = (st', e) -> view (storeAdapter st') !! k = view (storeAdapter st) !! k.
Proof.
  intros Hk. revert st. induction l as [|[a b] l IH]; intros st; simpl; [by intros [= <- <-]|].
  destruct (updateAppDrains st a b) as [st1 e1] eqn:E. intros Hu.
  assert (view (storeAdapter st1) !! k = view (storeAdapter st) !! k) as H1.
  { revert E. unfold updateAppDrains. case_bool_decide; [|by intros [= <- <-]].
    destruct (SetMulti _ _) as [s e2] eqn:Es. intros [= <- ->].
    assert (exists done, done `sublist_of` app_nodes (ttl st) a b
      /\ view s = foldl set_node (view (storeAdapter st)) done) as (dn & Hs & Hv).
    { destruct e1 as [e1|]; [by apply SetMulti_err in Es|]. apply SetMulti_ok in Es.
      by exists (app_nodes (ttl st) a b). }
    assert (Forall (fun n => nkey n <> k) dn) as Hf.
    { apply Forall_forall. intros n Hn.
      pose proof (app_nodes_keys (ttl st) a b k Hk) as Hall. rewrite Forall_forall in Hall.
      apply Hall. by apply (elem_of_submseteq _ _ _ Hn), sublist_submseteq. }
    simpl. rewrite Hv. by rewrite set_nodes_frame. }
  destruct e1 as [e1|]; [by simplify_eq|]. rewrite <- H1. by apply IH.
Qed.

End Update.
End DrainStore.

(** ** From the binder to the watcher *)

(** A path element that is an ordinary name. *)
Definition plain_name (s : string) : Prop :=
  Str.IndexOf s "/" = None /\ s <> EmptyString /\ s <> "."%string /\ s <> ".."%string.

(** Closes the side conditions of [Str.Split_Join] on a literal list of names. *)
Ltac split_names := first [discriminate | repeat constructor; assumption || reflexivity].

(** The application in the key of a drain node, as the watcher computes it. *)
Lemma key_app app hash :
  plain_name app -> Str.IndexOf hash "/" = None ->
  Path.Base (Path.Dir ("/loggregator/v2/services/" +:+ app +:+ "/" +:+ hash)) = app.
Proof.
  intros (Hs & Hne & Hdot & Hdd) Hh.
  change ("/loggregator/v2/services/" +:+ app +:+ "/" +:+ hash)
    with (Str.Join [""; "loggregator"; "v2"; "services"; app; hash]%string "/").
  unfold Path.Dir, Path.dir_part.
  rewrite Str.Split_Join by split_names.
  change (reverse [""; "loggregator"; "v2"; "services"; app; hash]%string)
    with [hash; app; "services"; "v2"; "loggregator"; ""]%string.
  cbv iota. change (reverse [app; "services"; "v2"; "loggregator"; ""]%string)
    with [""; "loggregator"; "v2"; "services"; app]%string.
  assert (Str.Join [""; "loggregator"; "v2"; "services"; app]%string "/" +:+ "/"
    = Str.Join [""; "loggregator"; "v2"; "services"; app; ""]%string "/") as ->.
  { by cbn. }
  unfold Path.Clean.
  rewrite Str.Split_Join by split_names.
  assert (Str.empty app = false) as He by (by destruct app).
  assert (foldl (Path.push true) [] [""; "loggregator"; "v2"; "services"; app; ""]%string
    = [app; "services"; "v2"; "loggregator"]%string) as Hp.
  { cbn [foldl]. unfold Path.push at 1 2. rewrite He, !decide_False by done. done. }
  change (Str.HasPrefix (Str.Join [""; "loggregator"; "v2"; "services"; app; ""]%string "/") "/")
    with true.
  change (Str.empty (Str.Join [""; "loggregator"; "v2"; "services"; app; ""]%string "/")) with false.
  cbv iota zeta. rewrite Hp.
  change ("/" +:+ Str.Join (reverse [app; "services"; "v2"; "loggregator"]%string) "/")
    with (Str.Join [""; "loggregator"; "v2"; "services"; app]%string "/").
  unfold Path.Base.
  change (Str.empty (Str.Join [""; "loggregator"; "v2"; "services"; app]%string "/")) with false.
  cbv iota. rewrite Str.Split_Join by split_names.
  change (reverse [""; "loggregator"; "v2"; "services"; app]%string)
    with [app; "services"; "v2"; "loggregator"; ""]%string.
  rewrite filter_cons, He. done.
Qed.

(** Printable ASCII without quote and backslash: text JSON strings carry unchanged. *)
Fixpoint json_plain (s : string) : bool :=
  match s with
  | EmptyString => true
  | String c s => Chr.between 32 126 c && negb (Chr.mem c (String "034" (String "092" EmptyString)))
                  && json_plain s
  end.

Section EndToEnd.

Context (sha1_hex : string -> string) (unmarshal : string -> result (string * string)).

(** A hexadecimal digest holds no slash. *)
Definition hex_no_slash : Prop := forall s, Str.IndexOf (sha1_hex s) "/" = None.

(** JSON decoding returns plain strings as they were written. *)
Definition json_reads_plain : Prop := forall host url,
  json_plain host = true -> json_plain url = true -> unmarshal (drainData host url) = Ok (host, url).

Definition plain_binding (app : string) (b : SyslogDrainBinding) : Prop :=
  plain_name app /\ json_plain (Hostname b) = true /\ Forall (fun u => json_plain u = true) (DrainURLs b).

Lemma watcher_Add_Exists w s : Exists sha1_hex (cache (watcher_Add sha1_hex w s)) s = true.
Proof.
  unfold watcher_Add. destruct (Exists sha1_hex (cache w) s) eqn:E; simpl; [done|].
  rewrite Exists_flat, Add_flat. apply bool_decide_eq_true. rewrite lookup_insert_eq. eauto.
Qed.

Lemma watcher_Add_keeps w s t :
  Exists sha1_hex (cache w) t = true -> Exists sha1_hex (cache (watcher_Add sha1_hex w s)) t = true.
Proof.
  unfold watcher_Add. destruct (Exists sha1_hex (cache w) s); simpl; [done|].
  rewrite !Exists_flat, Add_flat, !bool_decide_eq_true.
  intros Ht. destruct (decide ((appId s, Id sha1_hex s) = (appId t, Id sha1_hex t))) as [->|Hne].
  - rewrite lookup_insert_eq. eauto.
  - by rewrite lookup_insert_ne.
Qed.

Lemma watcher_Add_outputs w s o :
  o ∈ outputs (watcher_Add sha1_hex w s) -> o ∈ outputs w \/ o = OutAdd s.
Proof. unfold watcher_Add. destruct (Exists _ _ _); simpl; set_solver. Qed.

(** Nodes that decode to services: the watcher ends up with all of them, and announces
    nothing else. *)
Lemma watcher_collects ord (l : list (StoreNode * ServiceInfo)) w :
  Forall (fun ns => AppServices.Dir ns.1 = false /\ Value ns.1 <> EmptyString
                    /\ appServiceFromStoreNode unmarshal ns.1 = Ok ns.2) l ->
  channels_open w = true ->
  let w' := foldl (watcher_Run_step sha1_hex unmarshal ord) w (CreateOrUpdate <$> l.*1) in
  channels_open w' = true
  /\ (forall s, (Exists sha1_hex (cache w) s = true \/ s ∈ l.*2) -> Exists sha1_hex (cache w') s = true)
  /\ (forall o, o ∈ outputs w' -> o ∈ outputs w \/ exists s, s ∈ l.*2 /\ o = OutAdd s).
Proof.
  intros Hl. revert w. induction Hl as [|[n s] l (Hd & Hv & Hn) Hl IH]; intros w Ho.
  { simpl. split_and!; [done|intros s [?|?]; [done|set_solver]|auto]. }
  cbn [fst snd fmap list_fmap foldl] in *.
  assert (watcher_Run_step sha1_hex unmarshal ord w (CreateOrUpdate n) = watcher_Add sha1_hex w s) as ->.
  { unfold watcher_Run_step. rewrite Ho, Hd, Hn. by destruct (Value n). }
  destruct (IH (watcher_Add sha1_hex w s)) as (H1 & H2 & H3).
  { unfold watcher_Add. by destruct (negb _). }
  split_and!; [done| |].
  - intros t [Ht|Ht]; apply H2; [left; by apply watcher_Add_keeps|].
    apply elem_of_cons in Ht as [->|Ht]; [left; apply watcher_Add_Exists|by right].
  - intros o Hin. destruct (H3 _ Hin) as [Ho'|(t & Ht & ->)].
    + apply watcher_Add_outputs in Ho' as [?| ->]; [by left|]. right. exists s. set_solver.
    + right. exists t. set_solver.
Qed.

(** The services a set of bindings stands for. *)
Definition bound_services (ord : RangeOrder string) (all : AllSyslogDrainBindings) : list ServiceInfo :=
  range_map ord all ≫= fun kb =>
    (fun u => NewServiceInfo kb.1 u (Hostname kb.2)) <$> filter (fun u => negb (blank u)) (DrainURLs kb.2).

Lemma elem_of_bound_services ord all s :
  s ∈ bound_services ord all <-> exists app b u,
    all !! app = Some b /\ u ∈ DrainURLs b /\ blank u = false /\ s = NewServiceInfo app u (Hostname b).
Proof.
  unfold bound_services. rewrite list_elem_of_bind. split.
  - intros ([app b] & (u & -> & Hu)%list_elem_of_fmap & Hin%range_elem).
    apply list_elem_of_filter in Hu as [Hb Hu]. exists app, b, u. split_and!; try done.
    by destruct (blank u).
  - intros (app & b & u & Hin & Hu & Hb & ->). exists (app, b). split; [|by apply range_elem].
    apply list_elem_of_fmap. exists u. split; [done|]. apply list_elem_of_filter. by rewrite Hb.
Qed.

Lemma drain_nodes_services ord ttl all :
  hex_no_slash -> json_reads_plain ->
  (forall app b, all !! app = Some b -> plain_binding app b) ->
  Forall2 (fun n s => AppServices.Dir (node n) = false /\ Value (node n) <> EmptyString
                      /\ appServiceFromStoreNode unmarshal (node n) = Ok s)
    (drain_nodes sha1_hex ord ttl all) (bound_services ord all).
Proof.
  intros Hhex Hjson Hall. unfold drain_nodes, bound_services.
  assert (Forall (fun kb => plain_binding kb.1 kb.2) (range_map ord all)) as Hf.
  { apply Forall_forall. intros [app b] Hin%range_elem. by apply Hall. }
  induction Hf as [|[app b] l (Happ & Hhost & Hurls) Hf IH]; [constructor|].
  cbn [mbind list_bind fst snd]. apply Forall2_app; [|done]. rewrite app_nodes_fmap.
  apply Forall2_fmap. apply Forall_Forall2_diag, Forall_forall.
  intros u [_ Hin]%list_elem_of_filter. rewrite Forall_forall in Hurls. apply Hurls in Hin as Hu.
  split_and!; [done|done|].
  unfold appServiceFromStoreNode. cbn [node drain_node Key Value].
  unfold drainKey. rewrite key_app by done. by rewrite Hjson.
Qed.

Context {S : Type} `{StoreAdapterLaws S}.


End EndToEnd.

(** ** A concrete store, for evaluation

    A key-value store whose next requests may be lost on the way or lose their answers. *)

Module Etcd.

Inductive fault : Type := RequestLost | ReplyLost.

Record t : Type := mk { kv : gmap string string; faults : list (option fault) }.

(** Runs a request that yields the new contents or an error. *)
Definition execute (req : gmap string string -> gmap string string + store_error) (s : t)
  : t * option store_error :=
  let rest := tail (faults s) in
  match default None (head (faults s)) with
  | Some RequestLost => (mk (kv s) rest, Some (ErrorOther "request timed out"))
  | fault =>
      match req (kv s) with
      | inl kv' => (mk kv' rest, if fault then Some (ErrorOther "request timed out") else None)
      | inr e => (mk (kv s) rest, Some e)
      end
  end.

#[global] Instance adapter : StoreAdapter t := {|
  view := kv;
  Create n := execute (fun m => match m !! nkey n with
                                | None => inl (set_node m n) | Some _ => inr ErrorKeyExists end);
  CompareAndSwap old new := execute (fun m =>
    if decide (m !! nkey old = Some (nvalue old)) then inl (set_node m new)
    else inr (ErrorOther "compare failed"));
  CompareAndDelete n := execute (fun m =>
    if decide (m !! nkey n = Some (nvalue n)) then inl (delete (nkey n) m)
    else inr (ErrorOther "compare failed"));
  SetMulti l := execute (fun m => inl (foldl set_node m l));
  expire k s := mk (delete k (kv s)) (faults s)
|}.

Lemma execute_ok req s s' :
  execute req s = (s', None) -> exists m, req (kv s) = inl m /\ kv s' = m.
Proof. unfold execute. intros Hx. repeat case_match; simplify_eq; eauto. Qed.

Lemma execute_err req s s' e :
  execute req s = (s', Some e) -> kv s' = kv s \/ exists m, req (kv s) = inl m /\ kv s' = m.
Proof. unfold execute. intros Hx. repeat case_match; simplify_eq; eauto. Qed.

#[global] Instance adapter_laws : StoreAdapterLaws t.
Proof.
  split; cbn.
  - intros n s s' (m & Hm & ->)%execute_ok. case_match; by simplify_eq.
  - intros n s s' e [?|(m & Hm & ->)]%execute_err; [by left|]. case_match; simplify_eq. by right.
  - intros old new s s' (m & Hm & ->)%execute_ok. case_match; by simplify_eq.
  - intros old new s s' e [?|(m & Hm & ->)]%execute_err; [by left|]. case_match; simplify_eq. by right.
  - intros n s s' [e|] Hx.
    + apply execute_err in Hx as [?|(m & Hm & ->)]; [by left|]. case_match; simplify_eq. by right.
    + apply execute_ok in Hx as (m & Hm & ->). case_match; simplify_eq. by right.
  - intros l s s' (m & Hm & ->)%execute_ok. by simplify_eq.
  - intros l s s' e [->|(m & Hm & ->)]%execute_err; simplify_eq;
      [exists []; split; [apply sublist_nil_l|done]|by exists l].
  - done.
Qed.

End Etcd.

(** A decoder for the texts [drainData] writes. *)
Module DrainExample.

Definition quote : ascii := "034".

Definition unmarshal (s : string) : result (string * string) :=
  let r := Str.TrimPrefix s ("{" +:+ dq +:+ "hostname" +:+ dq +:+ ":" +:+ dq) in
  match Str.IndexOf r quote with
  | None => Err "unexpected end of JSON input"
  | Some i =>
      let r2 := Str.TrimPrefix (Str.drop_n i r) (dq +:+ "," +:+ dq +:+ "drainURL" +:+ dq +:+ ":" +:+ dq) in
      match Str.IndexOf r2 quote with
      | None => Err "unexpected end of JSON input"
      | Some j => Ok (Str.take_n i r, Str.take_n j r2)
      end
  end.

Definition digest (s : string) : string := Strconv.Itoa (Z.of_nat (String.length s)).

Lemma json_plain_no_quote s : json_plain s = true -> Str.IndexOf s quote = None.
Proof.
  induction s as [|c s IH]; simpl; [done|]. intros [[_ Hc]%andb_true_iff Hs]%andb_true_iff.
  destruct (ascii_dec c quote) as [->|]; [done|]. by rewrite IH.
Qed.

Lemma unmarshal_plain : json_reads_plain unmarshal.
Proof.
  intros host url Hh Hu. apply json_plain_no_quote in Hh, Hu. unfold unmarshal, drainData.
  set (pre := "{" +:+ dq +:+ "hostname" +:+ dq +:+ ":" +:+ dq).
  set (mid := dq +:+ "," +:+ dq +:+ "drainURL" +:+ dq +:+ ":" +:+ dq).
  match goal with |- context [Str.TrimPrefix ?x pre] =>
    change x with (pre +:+ (host +:+ (mid +:+ (url +:+ (dq +:+ "}"))))) end.
  rewrite Str.TrimPrefix_app.
  assert (Str.IndexOf (host +:+ (mid +:+ (url +:+ (dq +:+ "}")))) quote = Some (String.length host))
    as -> by (by apply Str.IndexOf_app_hit).
  rewrite Str.drop_n_app, Str.TrimPrefix_app.
  assert (Str.IndexOf (url +:+ (dq +:+ "}")) quote = Some (String.length url)) as ->
    by (by apply Str.IndexOf_app_hit).
  by rewrite !Str.take_n_app.
Qed.

Lemma digest_no_slash : hex_no_slash digest.
Proof. intros s. apply Strconv.Itoa_no_char; [lia|]. vm_compute. intuition. Qed.

Definition bindings : AllSyslogDrainBindings :=
  {[ "app-1"%string := mkBinding "host.example" ["syslog://a.example:514"; " "; "https://b.example"] ]}.

Definition start : EtcdSyslogDrainStore (S := Etcd.t) := mkDrainStore (Etcd.mk ∅ []) 60000000000.

End DrainExample.

