(* ===== verification/BinderElection.v ===== *)
(** * syslog_drain_binder: the election and the main loop

    Every instance of the binder runs elector/elector.go and the loop of main.go over one
    store.  Each request to the store is one atomic step; instances and the expiry of keys
    interleave arbitrarily.  The store is any implementation of the interface
    [StoreAdapter] that satisfies its laws. *)

From S2P Require Import Prelude Go Http AppServices DrainBinder.

(** ** elector.go *)

Record Elector : Type := mkElector { instanceName : string; updateInterval : Z; isLeader : Z }.

(** The loop over [adapter.Connect], given its answers; [None] while none succeeded. *)
Fixpoint NewElector (connects : list bool) (name : string) (interval : Z) : option Elector :=
  match connects with
  | [] => None
  | true :: _ => Some (mkElector name interval 0)
  | false :: rest => NewElector rest name interval
  end.

Definition leaderKey : string := "syslog_drain_binder/leader".

Definition generateNode (e : Elector) : ttlNode :=
  mkTTLNode (mkNode leaderKey (instanceName e) false []) (Seconds_u64 (updateInterval e)).

Definition setLeader (e : Elector) (leader : bool) : Elector :=
  mkElector (instanceName e) (updateInterval e) (if leader then 1 else 0).

Definition IsLeader (e : Elector) : bool := negb (bool_decide (isLeader e = 0%Z)).

(** How one turn of the loop of [RunForElection] ends. *)
Inductive campaign : Type := Won | GaveUp (err : store_error) | LostRound.

Section Operations.

Context {S : Type} `{StoreAdapter S}.

Definition RunForElection_round (e : Elector) (s : S) : Elector * S * campaign :=
  let '(s, err) := Create (generateNode e) s in
  match err with
  | None => (setLeader e true, s, Won)
  | Some ErrorKeyExists => (setLeader e false, s, LostRound)
  | Some err => (setLeader e false, s, GaveUp err)
  end.

Definition StayAsLeader (e : Elector) (s : S) : Elector * S * option store_error :=
  let node := generateNode e in
  let '(s, err) := CompareAndSwap node node s in
  (setLeader e (if err then false else true), s, err).

Definition Vacate (e : Elector) (s : S) : Elector * S * option store_error :=
  let e := setLeader e false in
  let '(s, err) := CompareAndDelete (generateNode e) s in (e, s, err).

End Operations.

(** ** main.go *)

(** Where an instance is in the body of its loop. *)
Inductive phase : Type := Waiting | Campaigning | Working | Vacating.

#[export] Instance phase_eq_dec : EqDecision phase.
Proof. solve_decision. Defined.

Inductive metric : Type :=
| IncrementCounter (name : string)
| SendValue (name : string) (value : Z) (unit : string).

Record Binder : Type := mkBinder {
  politician : Elector; drainTTL : Z; at_ : phase; metrics : list metric }.

(** What happens next to an instance: its ticker fires, it tries to become leader, the poll
    it started returns, it vacates. *)
Inductive action : Type :=
| Tick
| Round
| Polled (drainBindings : AllSyslogDrainBindings) (err : option string)
| GiveUp.

Definition goto (b : Binder) (e : Elector) (p : phase) : Binder :=
  mkBinder e (drainTTL b) p (metrics b).

Section Main.

Context {S : Type} `{StoreAdapter S}.
Context (sha1_hex : string -> string) (url_Parse : string -> result string).
Context (ord : RangeOrder string).

Definition totalDrains (all : AllSyslogDrainBindings) : Z :=
  foldl (fun n kb => n + Z.of_nat (length (DrainURLs kb.2)))%Z 0%Z (range_map ord all).

(** The part of the loop after the poll. *)
Definition publish (b : Binder) (drainBindings : AllSyslogDrainBindings) (s : S) : Binder * S :=
  let drainBindings := Filter url_Parse ord drainBindings in
  let b := mkBinder (politician b) (drainTTL b) (at_ b)
    (metrics b ++ [IncrementCounter "pollCount";
                   SendValue "totalDrains" (totalDrains drainBindings) "drains"]) in
  let '(st, err) := UpdateDrains sha1_hex ord (mkDrainStore s (drainTTL b)) drainBindings in
  (goto b (politician b) (match err with Some _ => Vacating | None => Waiting end), storeAdapter st).

Definition binder_step (b : Binder) (s : S) (a : action) : Binder * S :=
  match at_ b, a with
  | Waiting, Tick =>
      if IsLeader (politician b) then
        let '(e, s, err) := StayAsLeader (politician b) s in
        (goto b e (match err with Some _ => Vacating | None => Working end), s)
      else (goto b (politician b) Campaigning, s)
  | Campaigning, Round =>
      let '(e, s, c) := RunForElection_round (politician b) s in
      (goto b e (match c with Won => Working | LostRound => Campaigning | GaveUp _ => Vacating end), s)
  | Working, Polled drainBindings err =>
      match err with
      | Some _ => (goto b (politician b) Vacating, s)
      | None => publish b drainBindings s
      end
  | Vacating, GiveUp =>
      let '(e, s, _) := Vacate (politician b) s in (goto b e Waiting, s)
  | _, _ => (b, s)
  end.

(** ** All instances over one store

    Ghost state: [expiries] counts the expirations of the leader key, and [confirmed] is
    its value when the instance last obtained or renewed the leadership. *)

Record inst : Type := mkInst { binder : Binder; confirmed : nat }.

Record system : Type := mkSystem { instances : list inst; store : S; expiries : nat }.

Inductive event : Type := Act (i : nat) (a : action) | Expire (k : string).

Definition name (x : inst) : string := instanceName (politician (binder x)).
Definition leads (x : inst) : bool := IsLeader (politician (binder x)).

Definition system_step (y : system) (ev : event) : system :=
  match ev with
  | Expire k =>
      mkSystem (instances y) (expire k (store y))
        (if decide (k = leaderKey) then 1 + expiries y else expiries y)
  | Act i a =>
      match instances y !! i with
      | None => y
      | Some x =>
          let '(b, s) := binder_step (binder x) (store y) a in
          let now := bool_decide (at_ b = Working /\ at_ (binder x) <> Working) in
          mkSystem (<[i := mkInst b (if now then expiries y else confirmed x)]> (instances y)) s (expiries y)
      end
  end.

Definition run (y : system) (l : list event) : system := foldl system_step y l.

Definition fresh (x : inst) : Prop := at_ (binder x) = Waiting /\ leads x = false.

Context `{!StoreAdapterLaws S}.

Abbreviation holder s := (view s !! leaderKey).

Lemma leaderKey_no_drain app data : leaderKey <> drainKey sha1_hex app data.
Proof. done. Qed.

Lemma publish_spec b all s b' s' :
  publish b all s = (b', s') ->
  politician b' = politician b /\ at_ b' <> Working /\ holder s' = holder s.
Proof.
  unfold publish. destruct (UpdateDrains _ _ _ _) as [st err] eqn:E. intros [= <- <-].
  unfold UpdateDrains in E. apply (update_all_frame _ _ _ _ _ leaderKey) in E; [|apply leaderKey_no_drain].
  simpl in *. split_and!; [done|by destruct err|done].
Qed.

(** A request on the leader key by an instance leaves the key of another one alone. *)
Lemma set_leader_view (s s' : S) e :
  view s' = set_node (view s) (generateNode e) -> holder s' = Some (instanceName e).
Proof. intros ->. unfold set_node. cbn. by rewrite lookup_insert_eq. Qed.

(** What a step does to the instance that takes it. *)
Lemma step_self b s a b' s' :
  (at_ b = Working -> IsLeader (politician b) = true) ->
  binder_step b s a = (b', s') ->
  instanceName (politician b') = instanceName (politician b)
  /\ (at_ b' = Working -> IsLeader (politician b') = true)
  /\ (IsLeader (politician b') = true ->
      (at_ b' = Working /\ at_ b <> Working /\ holder s' = Some (instanceName (politician b)))
      \/ (IsLeader (politician b) = true /\ holder s' = holder s
          /\ ~ (at_ b' = Working /\ at_ b <> Working))).
Proof.
  intros Hw. unfold binder_step. destruct (at_ b) eqn:Eat, a; intros Hs;
    try (simplify_eq; rewrite Eat; split_and!; [done|by auto|intros; right; split_and!; [done|done|naive_solver]]).
  - destruct (IsLeader (politician b)) eqn:El.
    + unfold StayAsLeader in Hs. destruct (CompareAndSwap _ _ _) as [s1 err] eqn:E. simplify_eq. simpl.
      split_and!; [done|by destruct err|]. destruct err as [err|]; [done|]. intros _. left.
      apply CompareAndSwap_ok in E as [_ E]. split_and!; [done|done|by eapply set_leader_view].
    + simplify_eq. simpl. split_and!; [done|done|by rewrite El].
  - unfold RunForElection_round in Hs. destruct (Create _ _) as [s1 err] eqn:E.
    destruct err as [[|err]|]; simplify_eq; simpl; split_and!; try done.
    intros _. left. apply Create_ok in E as [_ E]. split_and!; [done|done|by eapply set_leader_view].
  - destruct err as [err|]; [simplify_eq; simpl|].
    + split_and!; [done|done|]. intros _. right. split_and!; [auto|done|naive_solver].
    + apply publish_spec in Hs as (-> & Hat & Hh). split_and!; [done|done|].
      intros _. right. split_and!; [auto|done|naive_solver].
  - unfold Vacate in Hs. destruct (CompareAndDelete _ _) as [s1 err] eqn:E. by simplify_eq.
Qed.

(** No step removes or replaces the key while another instance holds it. *)
Lemma step_no_theft b s a b' s' v :
  binder_step b s a = (b', s') -> holder s = Some v -> v <> instanceName (politician b) ->
  holder s' = Some v.
Proof.
  intros Hs Hv Hne. revert Hs. unfold binder_step, StayAsLeader, RunForElection_round, Vacate.
  destruct (at_ b), a; intros Hs; try (by simplify_eq).
  - destruct (IsLeader (politician b)); [|by simplify_eq].
    destruct (CompareAndSwap _ _ _) as [s1 err] eqn:E. simplify_eq.
    assert (view s' = view s \/ holder s = Some (instanceName (politician b))) as [->|Hh];
      [|done|congruence].
    destruct err as [err|]; [apply CompareAndSwap_err in E|apply CompareAndSwap_ok in E]; naive_solver.
  - destruct (Create _ _) as [s1 err] eqn:E.
    assert (view s1 = view s \/ holder s = None) as [Hview|Hh]; [|destruct err as [[]|]; simplify_eq; congruence|congruence].
    destruct err as [err|]; [apply Create_err in E|apply Create_ok in E]; naive_solver.
  - destruct err as [err|]; [by simplify_eq|]. apply publish_spec in Hs as (_ & _ & ->). done.
  - destruct (CompareAndDelete _ _) as [s1 err] eqn:E. simplify_eq.
    apply CompareAndDelete_any in E as [->|[Hh _]]; [done|]. cbn in Hh. congruence.
Qed.

(** ** The invariant *)

Definition inst_ok (y : system) (x : inst) : Prop :=
  (at_ (binder x) = Working -> leads x = true)
  /\ (leads x = true -> confirmed x <= expiries y
      /\ (confirmed x = expiries y -> holder (store y) = Some (name x))).

Definition Inv (y : system) : Prop :=
  NoDup (name <$> instances y) /\ Forall (inst_ok y) (instances y).

Lemma Inv_names y i j x x' :
  NoDup (name <$> instances y) -> instances y !! i = Some x -> instances y !! j = Some x' ->
  name x = name x' -> i = j.
Proof.
  intros Hnd Hi Hj E. eapply NoDup_lookup; [exact Hnd| |]; rewrite list_lookup_fmap.
  - by rewrite Hi.
  - by rewrite Hj, E.
Qed.

Lemma system_step_Inv y ev : Inv y -> Inv (system_step y ev).
Proof.
  intros [Hnd Hall]. destruct ev as [i a|k]; simpl.
  - destruct (instances y !! i) as [x|] eqn:Hi; [|done].
    destruct (binder_step (binder x) (store y) a) as [b s] eqn:Hs.
    rewrite Forall_lookup in Hall. destruct (Hall _ _ Hi) as [Hw Hl].
    destruct (step_self _ _ _ _ _ Hw Hs) as (Hname & Hw' & Hself). split; simpl.
    + rewrite list_fmap_insert. rewrite list_insert_id; [done|]. rewrite list_lookup_fmap, Hi.
      cbn. unfold name. cbn. by rewrite Hname.
    + apply Forall_lookup. intros j x' Hj.
      apply list_lookup_insert_Some in Hj as [(<- & <- & _)|[Hne Hj]].
      * split; [exact Hw'|]. unfold leads, name. simpl. intros Hlead.
        destruct (Hself Hlead) as [(H1 & H2 & Hh)|(Hb & Hh & Hno)].
        -- rewrite bool_decide_eq_true_2 by done. rewrite Hname. by split.
        -- rewrite bool_decide_eq_false_2 by done. rewrite Hh, Hname. by apply Hl.
      * destruct (Hall _ _ Hj) as [Hjw Hjl]. split; [done|]. intros Hlead.
        destruct (Hjl Hlead) as [Hle Hc]. split; [done|]. simpl. intros Hcc.
        eapply step_no_theft; [exact Hs|by apply Hc|]. intros E.
        by apply Hne, (Inv_names y i j x x').
  - split; [done|]. simpl. eapply Forall_impl; [exact Hall|]. intros x [Hw Hl]. split; [done|].
    intros Hlead. destruct (Hl Hlead) as [Hle Hc]. simpl. case_decide as Ek.
    + split; [lia|]. lia.
    + split; [done|]. intros Hcc. rewrite expire_view, lookup_delete_ne by done. auto.
Qed.

Lemma elections_Inv y l : Inv y -> Inv (run y l).
Proof. revert y. induction l as [|ev l IH]; intros y Hy; simpl; auto using system_step_Inv. Qed.

(** C13: Leadership is exclusive between expirations.  Start any number of instances with
    distinct names over any store, and let their steps, lost requests and lost answers, and
    expirations of keys interleave in any way.  Then an instance polls and writes drains
    only while it considers itself leader; a leader confirmed since the last expiration of
    the leader key holds the key, so there is at most one such leader; and no step of an
    instance removes or replaces the key while another instance holds it. *)
Theorem binder_leaders_exclusive insts s l :
  NoDup (name <$> insts) -> Forall fresh insts ->
  let y := run (mkSystem insts s 0) l in
  (forall i x, instances y !! i = Some x -> at_ (binder x) = Working -> leads x = true)
  /\ (forall i x, instances y !! i = Some x -> leads x = true -> confirmed x = expiries y ->
      holder (store y) = Some (name x))
  /\ (forall i j x x', instances y !! i = Some x -> instances y !! j = Some x' ->
      leads x = true -> confirmed x = expiries y ->
      leads x' = true -> confirmed x' = expiries y -> i = j)
  /\ (forall i x a v, instances y !! i = Some x -> holder (store y) = Some v -> v <> name x ->
      holder (store (system_step y (Act i a))) = Some v).
Proof.
  intros Hnd Hf y. assert (Inv y) as [Hnd' Hall].
  { apply elections_Inv. split; [done|]. eapply Forall_impl; [exact Hf|]. intros x [Hat Hl].
    split; [by rewrite Hat|by rewrite Hl]. }
  rewrite Forall_lookup in Hall.
  assert (forall i x, instances y !! i = Some x -> leads x = true -> confirmed x = expiries y ->
    holder (store y) = Some (name x)) as Hh.
  { intros i x Hi Hl Hc. by apply (Hall _ _ Hi). }
  split_and!; [|done| |].
  - intros i x Hi. apply (Hall _ _ Hi).
  - intros i j x x' Hi Hj Hl Hc Hl' Hc'. eapply Inv_names; [done..|].
    pose proof (Hh _ _ Hi Hl Hc). pose proof (Hh _ _ Hj Hl' Hc'). congruence.
  - intros i x a v Hi Hv Hne. simpl. rewrite Hi.
    destruct (binder_step (binder x) (store y) a) as [b s'] eqn:Hs. by eapply step_no_theft.
Qed.

End Main.

(** Two instances; the leader's key expires before it can renew it. *)
Module ElectionExample.

Definition new_binder (n : string) : inst :=
  mkInst (mkBinder (mkElector n 15000000000 0) 60000000000 Waiting []) 0.

Definition pair_ : list inst := [new_binder "a"; new_binder "b"].

Definition history : list event :=
  [Act 0 Tick; Act 0 Round; Act 1 Tick; Act 1 Round; Expire leaderKey; Act 1 Round].

Definition final : system (S := Etcd.t) :=
  run DrainExample.digest (fun u => Ok u) default_order (mkSystem pair_ (Etcd.mk ∅ []) 0) history.

(** Both consider themselves leaders, but the first was confirmed before the expiry. *)
Example two_leaders_after_expiry :
  (fun x => (leads x, confirmed x)) <$> instances final = [(true, 0); (true, 1)].
Proof. vm_compute. reflexivity. Qed.

End ElectionExample.

Lemma binder_leaders_exclusive_witness :
  let y := ElectionExample.final in
  (forall i x, instances y !! i = Some x -> at_ (binder x) = Working -> leads x = true)
  /\ (forall i x, instances y !! i = Some x -> leads x = true -> confirmed x = expiries y ->
      view (store y) !! leaderKey = Some (name x))
  /\ (forall i j x x', instances y !! i = Some x -> instances y !! j = Some x' ->
      leads x = true -> confirmed x = expiries y ->
      leads x' = true -> confirmed x' = expiries y -> i = j)
  /\ (forall i x a v, instances y !! i = Some x -> view (store y) !! leaderKey = Some v -> v <> name x ->
      view (store (system_step DrainExample.digest (fun u => Ok u) default_order y (Act i a))) !! leaderKey
      = Some v).
Proof.
  apply (binder_leaders_exclusive DrainExample.digest (fun u => Ok u) default_order
    ElectionExample.pair_ (Etcd.mk ∅ []) ElectionExample.history).
  - apply (bool_decide_unpack _). vm_compute. exact I.
  - repeat constructor.
Defined.
