(* ===== verification/Auth.v ===== *)
(** * trafficcontroller/internal/auth: who may read logs, and the access log

    The two authorizers ask the cloud controller and the UAA; their answers, JSON decoding
    and the validity of URLs are arguments.  The admin authorizer is written against the
    interface [UaaClient], which [uaaClient] implements. *)

From Stdlib Require Import Ascii.
From S2P Require Import Prelude Go Http.

(** ** uaa_client.go *)

(** A request of an HTTP client. *)
Record ClientRequest : Type := mkClientRequest {
  cq_method : string;
  cq_url : string;
  cq_header : Header.t;
  cq_basicAuth : option (string * string);
  cq_body : string
}.

Record AuthData : Type := mkAuthData { Scope : list string }.

Fixpoint has_scope (l : list string) (perm : string) : bool :=
  match l with
  | [] => false
  | permissionName :: l => if decide (permissionName = perm) then true else has_scope l perm
  end.

Definition HasPermission (data : AuthData) (perm : string) : bool := has_scope (Scope data) perm.

Lemma HasPermission_elem data perm : HasPermission data perm = true <-> perm ∈ Scope data.
Proof.
  unfold HasPermission. induction (Scope data) as [|p l IH]; simpl; [split; [done|set_solver]|].
  case_decide as E; [subst; set_solver|]. rewrite IH. set_solver.
Qed.

Class UaaClient (C : Type) : Type := GetAuthData : C -> string -> result AuthData.

Record uaaClient : Type := mkUaaClient { address : string; id_ : string; secret : string }.

Definition NewUaaClient (address id secret : string) : uaaClient := mkUaaClient address id secret.

Section Uaa.

(** [httpClient.Do], and JSON decoding of error descriptions and scopes. *)
Context (Do : ClientRequest -> answer).
Context (error_description : string -> string) (unmarshal_scope : string -> result (list string)).

Definition check_token_request (c : uaaClient) (token : string) : ClientRequest :=
  mkClientRequest "POST" (address c +:+ "/check_token")
    (Header.Set_ ∅ "Content-Type" "application/x-www-form-urlencoded")
    (Some (id_ c, secret c)) (Url.Encode1 "token" token).

Definition uaa_GetAuthData (c : uaaClient) (token : string) : result AuthData :=
  match Do (check_token_request c token) with
  | Refused err => Err err
  | Answered status body =>
      if decide (status = StatusUnauthorized) then Err "Invalid username/password"
      else if decide (status = StatusNotFound) then Err "API endpoint not found"
      else match body with
           | Err err => Err err
           | Ok responseBody =>
               if decide (status = StatusBadRequest) then Err (error_description responseBody)
               else if decide (status <> StatusOK) then Err "Unknown error occurred"
               else match unmarshal_scope responseBody with
                    | Err err => Err err
                    | Ok scope => Ok (mkAuthData scope)
                    end
           end
  end.

#[global] Instance uaaClient_UaaClient : UaaClient uaaClient := uaa_GetAuthData.

(** The data come from a complete answer 200 whose body lists the scope. *)
Lemma uaa_GetAuthData_ok c token data :
  uaa_GetAuthData c token = Ok data <->
  exists b, Do (check_token_request c token) = Answered StatusOK (Ok b)
            /\ unmarshal_scope b = Ok (Scope data).
Proof.
  unfold uaa_GetAuthData. split.
  - intros Hx. repeat case_match; simplify_eq. eexists. split; [|done].
    do 2 f_equal. by apply dec_stable.
  - intros (b & -> & Hb). simpl. rewrite Hb. by destruct data.
Qed.

(** The token the UAA decodes from the form is the one it was asked about. *)
Lemma check_token_form c token :
  Url.ParseQuery (cq_body (check_token_request c token)) = ({["token"%string := [token]]}, false).
Proof. by apply Url.ParseQuery_Encode1. Qed.

End Uaa.

(** ** log_access_authorizer.go, admin_access_authorizer.go *)

Definition NO_AUTH_TOKEN_PROVIDED_ERROR_MESSAGE : string := "Error: Authorization not provided".
Definition INVALID_AUTH_TOKEN_ERROR_MESSAGE : string := "Error: Invalid authorization".
Definition LOGGREGATOR_ADMIN_ROLE : string := "doppler.firehose".
Definition BEARER_PREFIX : string := "bearer ".

Section Log.

(** [client.Do], and whether [http.NewRequest] accepts a URL. *)
Context (Do : ClientRequest -> answer) (url_ok : string -> bool).

Definition log_access_url (apiHost target : string) : string :=
  apiHost +:+ "/internal/v4/log_access/" +:+ target.

Definition log_access_request (apiHost authToken target : string) : ClientRequest :=
  mkClientRequest "GET" (log_access_url apiHost target)
    (Header.Set_ ∅ "Authorization" authToken) None EmptyString.

(** The status and the error; the error of [NewRequest] is ignored, so that a URL it rejects
    makes the next line dereference a nil request. *)
Definition NewLogAccessAuthorizer (disableAccessControl : bool) (apiHost authToken target : string)
  : outcome (Z * option string) :=
  if disableAccessControl then Returns (StatusOK, None)
  else if Str.empty authToken
  then Returns (StatusUnauthorized, Some NO_AUTH_TOKEN_PROVIDED_ERROR_MESSAGE)
  else if negb (url_ok (log_access_url apiHost target))
  then Panics "nil pointer dereference"
  else match Do (log_access_request apiHost authToken target) with
       | Refused err => Returns (StatusInternalServerError, Some err)
       | Answered status _ =>
           Returns (status, if decide (status <> 200%Z) then Some (StatusText status) else None)
       end.

(** Access is granted when access control is off, or when the cloud controller answers 200
    to a request for this application with this token. *)
Lemma log_authorizer_ok disable apiHost token target :
  (exists err, NewLogAccessAuthorizer disable apiHost token target = Returns (StatusOK, err)) <->
  disable = true
  \/ (token <> EmptyString /\ url_ok (log_access_url apiHost target) = true
      /\ exists b, Do (log_access_request apiHost token target) = Answered StatusOK b).
Proof.
  unfold NewLogAccessAuthorizer. split.
  - intros [err Hx]. destruct disable; [by left|right]. destruct token; simpl in *; [done|].
    destruct (url_ok _); simpl in *; [|done]. destruct (Do _) as [|st b]; [done|].
    injection Hx as -> _. eauto.
  - intros [->|(Ht & -> & b & ->)]; [eauto|]. destruct disable; [eauto|].
    destruct token; [done|]. simpl. eauto.
Qed.

End Log.

Section Admin.

Context {C : Type} `{UaaClient C}.

Definition NewAdminAccessAuthorizer (disableAccessControl : bool) (client : C) (authToken : string)
  : bool * option string :=
  if disableAccessControl then (true, None)
  else if Str.empty authToken then (false, Some NO_AUTH_TOKEN_PROVIDED_ERROR_MESSAGE)
  else match GetAuthData client (Str.TrimPrefix authToken BEARER_PREFIX) with
       | Err _ => (false, Some INVALID_AUTH_TOKEN_ERROR_MESSAGE)
       | Ok authData =>
           if HasPermission authData LOGGREGATOR_ADMIN_ROLE then (true, None)
           else (false, Some INVALID_AUTH_TOKEN_ERROR_MESSAGE)
       end.

Lemma admin_authorizer_ok disable client token :
  (NewAdminAccessAuthorizer disable client token).1 = true <->
  disable = true
  \/ (token <> EmptyString /\ exists data,
        GetAuthData client (Str.TrimPrefix token BEARER_PREFIX) = Ok data
        /\ LOGGREGATOR_ADMIN_ROLE ∈ Scope data).
Proof.
  unfold NewAdminAccessAuthorizer. destruct disable; simpl; [by split; auto|].
  destruct token as [|c t] eqn:Et; simpl Str.empty; cbv iota; [split; [done|naive_solver]|].
  destruct (GetAuthData client _) as [data|err] eqn:Eg.
  - destruct (HasPermission data LOGGREGATOR_ADMIN_ROLE) eqn:Ep; simpl.
    + apply HasPermission_elem in Ep. split; [|done]. intros _. right. eauto.
    + split; [done|]. intros [?|(_ & d & [= ->] & Hd)]; [done|].
      apply HasPermission_elem in Hd. congruence.
  - simpl. split; [done|]. intros [?|(_ & d & ? & _)]; done.
Qed.

(** A refusal always comes with an error, which the middleware prints. *)
Lemma admin_authorizer_error disable client token :
  (NewAdminAccessAuthorizer disable client token).1 = false ->
  is_Some (NewAdminAccessAuthorizer disable client token).2.
Proof. unfold NewAdminAccessAuthorizer. repeat case_match; simpl; eauto; done. Qed.

End Admin.

(** ** accesslog.go *)

(** The escaping html/template applies to a value in text. *)
Definition html_escape_char (c : ascii) : string :=
  if ascii_dec c "000" then String "239" (String "191" (String "189" EmptyString))
  else if ascii_dec c "034" then "&#34;"
  else if ascii_dec c "&" then "&amp;"
  else if ascii_dec c "'" then "&#39;"
  else if ascii_dec c "+" then "&#43;"
  else if ascii_dec c "<" then "&lt;"
  else if ascii_dec c ">" then "&gt;"
  else String c EmptyString.

Fixpoint html_escape (s : string) : string :=
  match s with
  | EmptyString => EmptyString
  | String c s => html_escape_char c +:+ html_escape s
  end.

Definition REQUEST_ID_HEADER : string := "X-Vcap-Request-ID".

Record templateContext : Type := mkTemplateContext {
  tc_Timestamp : Z; tc_RequestID : string; tc_Path : string; tc_Method : string;
  tc_SourceHost : string; tc_SourcePort : string;
  tc_DestinationHost : string; tc_DestinationPort : string
}.

(** The fields of [init]'s template, with the values of the context put in. *)
Definition extensions (c : templateContext) : string :=
  Str.Join ["rt=" +:+ Strconv.Itoa (tc_Timestamp c);
            "cs1Label=userAuthenticationMechanism";
            "cs1=oauth-access-token";
            "cs2Label=vcapRequestId";
            "cs2=" +:+ html_escape (tc_RequestID c);
            "request=" +:+ html_escape (tc_Path c);
            "requestMethod=" +:+ html_escape (tc_Method c);
            "src=" +:+ html_escape (tc_SourceHost c);
            "spt=" +:+ html_escape (tc_SourcePort c);
            "dst=" +:+ html_escape (tc_DestinationHost c);
            "dpt=" +:+ html_escape (tc_DestinationPort c)]%string " ".

Definition method_and_path (c : templateContext) : string :=
  html_escape (tc_Method c) +:+ " " +:+ html_escape (tc_Path c).

Definition cef_fields (c : templateContext) : list string :=
  ["0"; "cloud_foundry"; "loggregator_trafficcontroller"; "1.0";
   method_and_path c; method_and_path c; "0"; extensions c]%string.

Definition logTemplate (c : templateContext) : string := "CEF:" +:+ Str.Join (cef_fields c) "|".

Record AccessLog : Type := mkAccessLog {
  al_request : Request; al_timestamp : Z; al_host : string; al_port : Z }.

Definition toMillis (unixNano : Z) : Z := Z.quot unixNano 1000000.

Definition extractRemoteInfo (al : AccessLog) : string * string :=
  let remoteAddr := Header.Get (rq_Header (al_request al)) "X-Forwarded-For" in
  let remoteAddr := match Str.IndexOf remoteAddr "," with
                    | Some index => Str.take_n index remoteAddr
                    | None => remoteAddr
                    end in
  let remoteAddr := if Str.empty remoteAddr then rq_RemoteAddr (al_request al) else remoteAddr in
  let remoteAddr := if negb (Net.has remoteAddr ":") then remoteAddr +:+ ":" else remoteAddr in
  default (EmptyString, EmptyString) (Net.SplitHostPort remoteAddr).

(** The request target that is logged. *)
Definition logged_path (r : Request) : string :=
  if negb (Str.empty (rq_RawQuery r)) then rq_Path r +:+ "?" +:+ rq_RawQuery r else rq_Path r.

Definition log_context (al : AccessLog) : templateContext :=
  let '(remoteHost, remotePort) := extractRemoteInfo al in
  mkTemplateContext (toMillis (al_timestamp al))
    (Header.Get (rq_Header (al_request al)) REQUEST_ID_HEADER)
    (logged_path (al_request al)) (rq_Method (al_request al)) remoteHost remotePort
    (al_host al) (Strconv.Itoa (al_port al)).

Definition AccessLog_String (al : AccessLog) : string := logTemplate (log_context al).

(** ** accesslogger.go and access.go *)

(** What the logger wrote, and whether its writer accepts the next write. *)
Record DefaultAccessLogger : Type := mkAccessLogger { written : list string; write_err : option string }.

Definition LogAccess (a : DefaultAccessLogger) (r : Request) (now : Z) (host : string) (port : Z)
  : DefaultAccessLogger * option string :=
  let al := mkAccessLog r now host port in
  (mkAccessLogger (written a ++ [AccessLog_String al +:+ String "010" EmptyString]) (write_err a),
   write_err a).

(** [AccessHandler.ServeHTTP]: the request is logged, and handled whether or not that worked. *)
Definition AccessHandler_ServeHTTP {W} (a : DefaultAccessLogger) (host : string) (port : Z)
  (handler : W -> Request -> W) (now : Z) (w : W) (r : Request) : DefaultAccessLogger * W :=
  let '(a, _) := LogAccess a r now host port in (a, handler w r).

(** ** The shape of the lines *)

Fixpoint count (c : ascii) (s : string) : nat :=
  match s with
  | EmptyString => 0
  | String a s => (if ascii_dec a c then 1 else 0) + count c s
  end.

Lemma count_app c s r : count c (s +:+ r) = count c s + count c r.
Proof.
  induction s as [|a s IH]; [done|].
  change (String a s +:+ r) with (String a (s +:+ r)). cbn [count]. rewrite IH. lia.
Qed.

Lemma count_no_index c s : Str.IndexOf s c = None <-> count c s = 0.
Proof.
  induction s as [|a s IH]; simpl; [done|]. destruct (ascii_dec a c); [done|].
  destruct (Str.IndexOf s c); naive_solver.
Qed.

(** Escaping neither adds nor removes field and line separators. *)
Lemma count_html_escape c s :
  Chr.mem c (String "|" (String "010" EmptyString)) = true -> count c (html_escape s) = count c s.
Proof.
  intros Hc. induction s as [|a s IH]; [done|].
  change (html_escape (String a s)) with (html_escape_char a +:+ html_escape s).
  rewrite count_app, IH. cbn [count]. f_equal. clear IH. revert Hc.
  intros Hc. mem_cases Hc; destruct a as [[] [] [] [] [] [] [] []]; reflexivity.
Qed.

Lemma count_take_n c n s : count c (Str.take_n n s) <= count c s.
Proof. revert s. induction n as [|n IH]; intros [|a s]; simpl; try lia. specialize (IH s). lia. Qed.

Lemma count_split_last c d s l r :
  Net.split_last s d = Some (l, r) -> count c l <= count c s /\ count c r <= count c s.
Proof.
  revert l r. induction s as [|a s IH]; intros l r; simpl; [done|].
  destruct (Net.split_last s d) as [[l1 r1]|].
  - intros [= <- <-]. destruct (IH _ _ eq_refl). simpl. lia.
  - destruct (ascii_dec a d); [|done]. intros [= <- <-]. simpl. lia.
Qed.

Lemma count_SplitHostPort c s h p :
  Net.SplitHostPort s = Some (h, p) -> count c h <= count c s /\ count c p <= count c s.
Proof.
  unfold Net.SplitHostPort. destruct (Net.split_last s ":") as [[b q]|] eqn:E; [|done].
  destruct (count_split_last c _ _ _ _ E) as [Hb Hq]. intros Hx.
  assert (p = q) as -> by (clear -Hx; repeat case_match; congruence). split; [|done].
  assert (h = b \/ exists e a rest, s = String a rest /\ h = Str.take_n e rest) as [->|(e & a & rest & -> & ->)].
  { clear -Hx. repeat case_match; simplify_eq; eauto 10. }
  - done.
  - pose proof (count_take_n c e rest). simpl. lia.
Qed.

Lemma count_extractRemoteInfo c al h p :
  c <> ":"%char ->
  count c (Header.Get (rq_Header (al_request al)) "X-Forwarded-For") = 0 ->
  count c (rq_RemoteAddr (al_request al)) = 0 ->
  extractRemoteInfo al = (h, p) -> count c h = 0 /\ count c p = 0.
Proof.
  intros Hc Hf Hr. unfold extractRemoteInfo.
  set (xff := Header.Get _ _) in *.
  set (r1 := match Str.IndexOf xff "," with Some i => Str.take_n i xff | None => xff end).
  assert (count c r1 = 0) as H1.
  { unfold r1. destruct (Str.IndexOf xff ","); [|done]. pose proof (count_take_n c n xff). lia. }
  set (r2 := if Str.empty r1 then _ else _).
  assert (count c r2 = 0) as H2 by (unfold r2; by destruct (Str.empty r1)).
  set (r3 := if negb _ then _ else _).
  assert (count c r3 = 0) as H3.
  { unfold r3. destruct (negb _); [|done]. rewrite count_app, H2. cbn [count]. by destruct (ascii_dec ":" c) as [<-|]. }
  destruct (Net.SplitHostPort r3) as [[h1 p1]|] eqn:E; simpl; intros [= <- <-]; [|done].
  destruct (count_SplitHostPort c _ _ _ E). lia.
Qed.

Lemma count_Itoa c z : Chr.mem c (String "|" (String "010" EmptyString)) = true -> count c (Strconv.Itoa z) = 0.
Proof.
  intros Hc. assert (forall y, (0 <= y)%Z -> count c (Strconv.Itoa y) = 0) as Hnn.
  { intros y Hy. apply count_no_index, Strconv.Itoa_no_char; [done|]. mem_cases Hc; vm_compute; intros [? ?]; by auto. }
  destruct z as [|p|p]; [by apply Hnn|by apply Hnn|].
  change (Strconv.Itoa (Z.neg p)) with (String "-" (Strconv.Itoa (Z.pos p))). cbn [count].
  rewrite Hnn by done. mem_cases Hc; done.
Qed.

(** The separators in a line, counted. *)
Lemma count_logTemplate c x :
  Chr.mem c (String "|" (String "010" EmptyString)) = true ->
  count c (logTemplate x)
  = (if ascii_dec "|" c then 7 else 0) + 3 * count c (tc_Method x) + 3 * count c (tc_Path x)
    + count c (tc_RequestID x) + count c (tc_SourceHost x) + count c (tc_SourcePort x)
    + count c (tc_DestinationHost x) + count c (tc_DestinationPort x).
Proof.
  intros Hc. unfold logTemplate, cef_fields, extensions, method_and_path.
  cbn [Str.Join].
  repeat match goal with
  | |- context [String.app ?a (String ?s ?r)] =>
      change (String.app a (String s r)) with (a +:+ (String s EmptyString +:+ r))
  end.
  rewrite !count_app, !count_html_escape, count_Itoa by done.
  mem_cases Hc; cbn [count]; simpl; lia.
Qed.

(** Everything logged except the path is free of the separator [c]. *)
Definition clean_input (c : ascii) (al : AccessLog) : Prop :=
  count c (rq_Method (al_request al)) = 0
  /\ count c (Header.Get (rq_Header (al_request al)) REQUEST_ID_HEADER) = 0
  /\ count c (Header.Get (rq_Header (al_request al)) "X-Forwarded-For") = 0
  /\ count c (rq_RemoteAddr (al_request al)) = 0
  /\ count c (al_host al) = 0.

Lemma count_AccessLog c al :
  Chr.mem c (String "|" (String "010" EmptyString)) = true -> clean_input c al ->
  count c (AccessLog_String al)
  = (if ascii_dec "|" c then 7 else 0) + 3 * count c (logged_path (al_request al)).
Proof.
  intros Hc (Hm & Hid & Hf & Hr & Hh). unfold AccessLog_String. rewrite count_logTemplate by done.
  unfold log_context. destruct (extractRemoteInfo al) as [h p] eqn:E.
  destruct (count_extractRemoteInfo c al h p) as [H1 H2]; [|done..|].
  { intros ->. discriminate Hc. }
  cbn [tc_Method tc_Path tc_RequestID tc_SourceHost tc_SourcePort tc_DestinationHost tc_DestinationPort].
  rewrite count_Itoa by done. lia.
Qed.

Lemma Join_no_sep c d l :
  c <> d -> Forall (fun w => count c w = 0) l -> count c (Str.Join l d) = 0.
Proof.
  intros Hcd. induction 1 as [|w l Hw Hl IH]; [done|]. destruct l as [|w' l]; [done|].
  change (Str.Join (w :: w' :: l) d) with (w +:+ String d (Str.Join (w' :: l) d)).
  rewrite count_app, Hw. cbn [count]. rewrite IH. by destruct (ascii_dec d c).
Qed.

(** A path without the field separator leaves exactly the eight fields. *)
Lemma AccessLog_fields al :
  clean_input "|" al -> count "|" (logged_path (al_request al)) = 0 ->
  Str.Split (AccessLog_String al) "|" = "CEF:0"%string :: tail (cef_fields (log_context al)).
Proof.
  intros Hc Hp. pose proof (count_AccessLog "|" al eq_refl Hc) as Hn. rewrite Hp in Hn.
  unfold AccessLog_String in *. set (x := log_context al) in *.
  assert (count "|" (logTemplate x) = 7 + sum_list_with (count "|") (cef_fields x)) as Hs.
  { unfold logTemplate, cef_fields. cbn [Str.Join sum_list_with].
    repeat match goal with
    | |- context [String.app ?a (String "|" ?r)] =>
        change (String.app a (String "|" r)) with (a +:+ (String "|" EmptyString +:+ r))
    end.
    rewrite !count_app. cbn. lia. }
  change (logTemplate x) with (Str.Join ("CEF:0"%string :: tail (cef_fields x)) "|").
  apply Str.Split_Join; [done|]. constructor; [done|].
  assert (sum_list_with (count "|") (cef_fields x) = 0) as H0.
  { change (count "|" (logTemplate x) = 7) in Hn. lia. }
  assert (Forall (fun w => count "|" w = 0) (cef_fields x)) as Hf.
  { clear -H0. induction (cef_fields x) as [|w l IH]; constructor; cbn [sum_list_with] in H0; [lia|apply IH; lia]. }
  apply Forall_cons in Hf as [_ Hf].
  eapply Forall_impl; [exact Hf|]. intros w Hw. by apply count_no_index.
Qed.

(** What reaches the access log.  Whether or not writing works, every request is passed
    to the handler after one write of its line.  If method, headers, peer address and host
    hold no separators, the number of lines the write adds is one plus three times the
    number of line feeds in the decoded path and query, and the number of field separators
    is seven plus three times those of the path; when the path has none, the line splits
    into exactly the eight fields of the format. *)
Theorem access_log_shape (W : Type) (a : DefaultAccessLogger) host port
  (handler : W -> Request -> W) now w r :
  clean_input "010" (mkAccessLog r now host port) ->
  clean_input "|" (mkAccessLog r now host port) ->
  exists line,
    AccessHandler_ServeHTTP a host port handler now w r
      = (mkAccessLogger (written a ++ [line +:+ String "010" EmptyString]) (write_err a), handler w r)
    /\ count "010" (line +:+ String "010" EmptyString) = 1 + 3 * count "010" (logged_path r)
    /\ count "|" line = 7 + 3 * count "|" (logged_path r)
    /\ (count "|" (logged_path r) = 0 ->
        Str.Split line "|"
        = "CEF:0"%string :: tail (cef_fields (log_context (mkAccessLog r now host port)))).
Proof.
  intros Hnl Hbar. exists (AccessLog_String (mkAccessLog r now host port)). split_and!.
  - done.
  - rewrite count_app, count_AccessLog by done. simpl. lia.
  - by rewrite count_AccessLog by done.
  - exact (AccessLog_fields (mkAccessLog r now host port) Hbar).
Qed.

(** A request whose path decodes to a line feed and a forged record. *)
Module AccessLogExample.

Definition forged : string := "/x" +:+ String "010" "CEF:0|cloud_foundry".

Definition req (path : string) : Request :=
  mkRequest "GET" path EmptyString
    {["X-Forwarded-For"%string := ["10.0.0.9, 10.0.0.1"]]} [] "192.0.2.7:4567".

End AccessLogExample.

Lemma access_log_shape_witness : exists line,
  AccessHandler_ServeHTTP (mkAccessLogger [] None) "10.1.1.1" 8081 (fun (n : nat) _ => S n) 1500000000
    0 (AccessLogExample.req AccessLogExample.forged)
  = (mkAccessLogger ([] ++ [line +:+ String "010" EmptyString]) None, 1)
  /\ count "010" (line +:+ String "010" EmptyString) = 4.
Proof.
  destruct (access_log_shape nat (mkAccessLogger [] None) "10.1.1.1" 8081 (fun n _ => S n) 1500000000 0
    (AccessLogExample.req AccessLogExample.forged)) as (line & H1 & H2 & _);
    [repeat split; reflexivity..|].
  exists line. split; [exact H1|]. rewrite H2. reflexivity.
Defined.

(** A forwarded IPv6 address without brackets is not logged at all. *)
Example remote_ipv6_lost :
  extractRemoteInfo (mkAccessLog (mkRequest "GET" "/" EmptyString
    {["X-Forwarded-For"%string := ["2001:db8::1"]]} [] "192.0.2.7:4567") 0 "10.1.1.1" 8081)
  = (EmptyString, EmptyString).
Proof. reflexivity. Qed.
