(* ===== verification/Proxy.v ===== *)
(** * trafficcontroller/internal/proxy: the HTTP interface to the dopplers

    Handlers over a connector to the dopplers ([grpcConnector], an interface), wrapped by
    the access middlewares, composed as in doppler_proxy.go.  Route matching (mux), protobuf
    and the random multipart boundary are arguments. *)

From Stdlib Require Import Ascii.
From S2P Require Import Prelude Go Events Http Auth Router.

(** ** doppler_proxy.go: the interface to the dopplers, tokens and multipart responses *)

(** The connector; a subscription yields a client by number. *)
Class grpcConnector (G : Type) : Type := {
  Subscribe : G -> SubscriptionRequest -> result nat;
  ContainerMetrics : G -> string -> list string;
  RecentLogs : G -> string -> list string
}.

(** The calls a request leads to. *)
Inductive call : Type :=
| CallSubscribe (req : SubscriptionRequest)
| CallContainerMetrics (app : string)
| CallRecentLogs (app : string).

Fixpoint extractAuthTokenFromCookie (cookies : list Cookie) : string :=
  match cookies with
  | [] => EmptyString
  | cookie :: rest =>
      if decide (ck_Name cookie = "authorization"%string)
      then default EmptyString (Url.QueryUnescape (ck_Value cookie))
      else extractAuthTokenFromCookie rest
  end.

Definition getAuthToken (r : Request) : string :=
  let authToken := Header.Get (rq_Header r) "Authorization" in
  if Str.empty authToken then extractAuthTokenFromCookie (rq_Cookies r) else authToken.

Definition crlf : string := String "013" (String "010" EmptyString).

(** mime/multipart: the start of a part and the end of the body. *)
Definition CreatePart (boundary : string) (first : bool) : string :=
  (if first then EmptyString else crlf) +:+ "--" +:+ boundary +:+ crlf +:+ crlf.

Definition mp_Close (boundary : string) : string := crlf +:+ "--" +:+ boundary +:+ "--" +:+ crlf.

(** The loop over the messages; [alive] tells which writes of part headers succeed. *)
Fixpoint serve_parts (w : ResponseWriter) (boundary : string) (alive : nat -> bool) (i : nat)
  (messages : list string) : ResponseWriter :=
  match messages with
  | [] => w
  | message :: rest =>
      if negb (alive i) then w
      else serve_parts (Write (Write w (CreatePart boundary (bool_decide (i = 0)))) message)
             boundary alive (S i) rest
  end.

Definition serveMultiPartResponse (w : ResponseWriter) (boundary : string) (alive : nat -> bool)
  (messages : list string) : ResponseWriter :=
  let w := SetHeader w "Content-Type" ("multipart/x-protobuf; boundary=" +:+ boundary) in
  Write (serve_parts w boundary alive 0 messages) (mp_Close boundary).

(** ** The outcome of a request *)

(** The response, the calls made, and the client of a websocket session, if one starts. *)
Record served : Type := mkServed { resp : ResponseWriter; calls : list call; session : option nat }.

Definition respond (w : ResponseWriter) (l : list call) : outcome served := Returns (mkServed w l None).

(** A handler, given the variables of the route. *)
Abbreviation handler := (ResponseWriter -> Request -> gmap string string -> outcome served).

Definition var (vars : gmap string string) (k : string) : string := default EmptyString (vars !! k).

(** ** The middlewares *)

Section Middlewares.

(** The authorizers. *)
Context (log_authorize : string -> string -> outcome (Z * option string)).
Context (admin_authorize : string -> bool * option string).

(** log_access_middleware.go *)
Definition LogAccessMiddleware_Wrap (h : handler) : handler := fun w r vars =>
  match log_authorize (getAuthToken r) (var vars "appID") with
  | Panics why => Panics why
  | Returns (status, _) =>
      if negb (bool_decide (status = StatusOK)) then
        let '(w, status) :=
          if bool_decide (status = StatusUnauthorized)
          then (SetHeader (WriteHeader w status) "WWW-Authenticate" "Basic", status)
          else if bool_decide (status = StatusForbidden) || bool_decide (status = StatusNotFound)
          then (w, StatusNotFound)
          else (w, StatusInternalServerError) in
        respond (WriteHeader w status) []
      else h w r vars
  end.

(** admin_access_middleware.go *)
Definition AdminAccessMiddleware_Wrap (h : handler) : handler := fun w r vars =>
  let '(authorized, err) := admin_authorize (getAuthToken r) in
  if negb authorized then
    match err with
    | None => Panics "nil pointer dereference"
    | Some err =>
        let w := SetHeader w "WWW-Authenticate" "Basic" in
        let w := WriteHeader w StatusUnauthorized in
        respond (Write w ("You are not authorized. " +:+ err)) []
    end
  else h w r vars.

End Middlewares.

(** ** The handlers *)

Section Handlers.

Context {G : Type} `{grpcConnector G} (grpcConn : G).
Context (Unmarshal : string -> V1.Envelope) (Marshal : V1.Envelope -> string).
Context (ord : RangeOrder Z) (boundary : string) (alive : nat -> bool).

(** container_metrics_handler.go: the index of the container-metric event, zero without one. *)
Definition instance_index (e : V1.Envelope) : Z :=
  match V1.ContainerMetricF e with
  | Some cm => default 0%Z (V1.cm_InstanceIndex cm)
  | None => 0%Z
  end.

Definition deDupe_step (messages : gmap Z V1.Envelope) (message : string) : gmap Z V1.Envelope :=
  let envelope := Unmarshal message in
  match messages !! instance_index envelope with
  | None => <[instance_index envelope := envelope]> messages
  | Some oldEnvelope =>
      if decide (V1.GetTimestamp oldEnvelope < V1.GetTimestamp envelope)%Z
      then <[instance_index envelope := envelope]> messages else messages
  end.

Definition deDupe_map (input : list string) : gmap Z V1.Envelope := foldl deDupe_step ∅ input.

Definition deDupe (input : list string) : list string :=
  Marshal <$> (range_map ord (deDupe_map input)).*2.

Definition ContainerMetrics_ServeHTTP : handler := fun w r vars =>
  let app := var vars "appID" in
  respond (serveMultiPartResponse w boundary alive (deDupe (ContainerMetrics grpcConn app)))
    [CallContainerMetrics app].

(** recent_logs_handler.go *)
Definition limitFrom (r : Request) : option Z :=
  match Url.Query (rq_RawQuery r) !! "limit"%string with
  | None => None
  | Some values =>
      match Strconv.ParseInt (default EmptyString (head values)) 64 with
      | None => None
      | Some value => if decide (value < 0)%Z then None else Some value
      end
  end.

Definition RecentLogs_limited (r : Request) (l : list string) : list string :=
  match limitFrom r with
  | Some limit => if decide (limit < Z.of_nat (length l))%Z then take (Z.to_nat limit) l else l
  | None => l
  end.

Definition RecentLogs_ServeHTTP : handler := fun w r vars =>
  let app := var vars "appID" in
  respond (serveMultiPartResponse w boundary alive (RecentLogs_limited r (RecentLogs grpcConn app)))
    [CallRecentLogs app].

(** stream_handler.go *)
Definition subscribe_and_serve (w : ResponseWriter) (req : SubscriptionRequest) : outcome served :=
  match Subscribe grpcConn req with
  | Err _ => respond (WriteHeader w StatusServiceUnavailable) [CallSubscribe req]
  | Ok client => Returns (mkServed w [CallSubscribe req] (Some client))
  end.

Definition Stream_ServeHTTP : handler := fun w r vars =>
  subscribe_and_serve w (Router.mkRequest EmptyString (Some (var vars "appID", AnyMessage))).

(** firehose_handler.go *)
Definition firehose_filter (r : Request) : option (string * request_message) :=
  let t := Url.Get (Url.Query (rq_RawQuery r)) "filter-type" in
  if decide (t = "logs"%string) then Some (EmptyString, LogOnly)
  else if decide (t = "metrics"%string) then Some (EmptyString, MetricOnly)
  else None.

Definition Firehose_ServeHTTP : handler := fun w r vars =>
  subscribe_and_serve w (Router.mkRequest (var vars "subID") (firehose_filter r)).

(** set_cookie_handler.go; [parse_form] is the form of the request, [cookie_String] the
    text of a cookie. *)
Context (parse_form : Request -> result Url.Values).
Context (cookie_String : string -> string -> string -> string).

Definition SetCookie_ServeHTTP (domain : string) : handler := fun w r vars =>
  let origin := Header.Get (rq_Header r) "Origin" in
  let w := AddHeader w "Access-Control-Allow-Origin" origin in
  let w := AddHeader w "Access-Control-Allow-Credentials" "true" in
  match parse_form r with
  | Err _ => respond (WriteHeader w StatusBadRequest) []
  | Ok form =>
      let text := cookie_String (Url.Get form "CookieName") (Url.Get form "CookieValue") domain in
      respond (if Str.empty text then w else AddHeader w "Set-Cookie" text) []
  end.

(** ** The router of doppler_proxy.go *)

Inductive route : Type := RSetCookie | RContainerMetrics | RRecentLogs | RStream | RFirehose.

Definition route_template (x : route) : string :=
  match x with
  | RSetCookie => "/set-cookie"
  | RContainerMetrics => "/apps/{appID}/containermetrics"
  | RRecentLogs => "/apps/{appID}/recentlogs"
  | RStream => "/apps/{appID}/stream"
  | RFirehose => "/firehose/{subID}"
  end.

(** [mux.Router]: which of the registered templates a request matches, with its variables. *)
Context (mux : list (string * route) -> Request -> option (route * gmap string string)).

Definition registered : list (string * route) :=
  (fun x => (route_template x, x)) <$> [RSetCookie; RContainerMetrics; RRecentLogs; RStream; RFirehose].

Context (log_authorize : string -> string -> outcome (Z * option string)).
Context (admin_authorize : string -> bool * option string).

Definition route_handler (cookieDomain : string) (x : route) : handler :=
  match x with
  | RSetCookie => SetCookie_ServeHTTP cookieDomain
  | RContainerMetrics => LogAccessMiddleware_Wrap log_authorize ContainerMetrics_ServeHTTP
  | RRecentLogs => LogAccessMiddleware_Wrap log_authorize RecentLogs_ServeHTTP
  | RStream => LogAccessMiddleware_Wrap log_authorize Stream_ServeHTTP
  | RFirehose => AdminAccessMiddleware_Wrap admin_authorize Firehose_ServeHTTP
  end.

Definition DopplerProxy_ServeHTTP (cookieDomain : string) (r : Request) : outcome served :=
  match mux registered r with
  | None => respond (Write (WriteHeader NewResponse StatusNotFound) "404 page not found") []
  | Some (x, vars) => route_handler cookieDomain x NewResponse r vars
  end.

End Handlers.

(** ** Access control *)

Section AccessControl.

Context {G : Type} `{grpcConnector G} (grpcConn : G).
Context (Unmarshal : string -> V1.Envelope) (Marshal : V1.Envelope -> string).
Context (ord : RangeOrder Z) (boundary : string) (alive : nat -> bool).
Context (parse_form : Request -> result Url.Values)
  (cookie_String : string -> string -> string -> string) (cookieDomain : string).
Context (mux : list (string * route) -> Request -> option (route * gmap string string)).

(** The cloud controller, and any implementation of the UAA client. *)
Context (Do : ClientRequest -> answer) (url_ok : string -> bool) (apiHost : string).
Context {C : Type} `{UaaClient C} (client : C) (disable : bool).

Definition proxy (r : Request) : outcome served :=
  DopplerProxy_ServeHTTP grpcConn Unmarshal Marshal ord boundary alive parse_form cookie_String mux
    (NewLogAccessAuthorizer Do url_ok disable apiHost)
    (NewAdminAccessAuthorizer disable client) cookieDomain r.

(** The cloud controller lets the bearer of the request's token read the logs of [app]. *)
Definition may_read (r : Request) (app : string) : Prop :=
  disable = true
  \/ (getAuthToken r <> EmptyString /\ url_ok (log_access_url apiHost app) = true
      /\ exists b, Do (log_access_request apiHost (getAuthToken r) app) = Answered StatusOK b).

(** The UAA knows the token and gives it the admin role. *)
Definition is_admin (r : Request) : Prop :=
  disable = true
  \/ (getAuthToken r <> EmptyString /\ exists data,
        GetAuthData client (Str.TrimPrefix (getAuthToken r) BEARER_PREFIX) = Ok data
        /\ LOGGREGATOR_ADMIN_ROLE ∈ Scope data).

(** The call an application route makes. *)
Definition app_call (x : route) (app : string) : option call :=
  match x with
  | RContainerMetrics => Some (CallContainerMetrics app)
  | RRecentLogs => Some (CallRecentLogs app)
  | RStream => Some (CallSubscribe (Router.mkRequest EmptyString (Some (app, AnyMessage))))
  | _ => None
  end.

(** The status of a refusal on an application route. *)
Definition refusal_status (token : string) (a : answer) : Z :=
  if Str.empty token then StatusUnauthorized
  else match a with
       | Refused _ => StatusInternalServerError
       | Answered status _ =>
           if decide (status = StatusUnauthorized) then StatusUnauthorized
           else if decide (status = StatusForbidden \/ status = StatusNotFound) then StatusNotFound
           else StatusInternalServerError
       end.

Lemma subscribe_and_serve_calls w req :
  exists s, subscribe_and_serve grpcConn w req = Returns s /\ calls s = [CallSubscribe req].
Proof. unfold subscribe_and_serve. destruct (Subscribe grpcConn req); eexists; split; done. Qed.

(** An authorized request on an application route makes its call. *)
Lemma wrapped_granted (h : handler) w r vars (c : option call) :
  may_read r (var vars "appID") ->
  (exists s, h w r vars = Returns s /\ Some <$> calls s = [c]) ->
  exists s, LogAccessMiddleware_Wrap (NewLogAccessAuthorizer Do url_ok disable apiHost) h w r vars
            = Returns s /\ Some <$> calls s = [c].
Proof.
  intros Hm Hh. apply log_authorizer_ok in Hm as [err E].
  unfold LogAccessMiddleware_Wrap. by rewrite E.
Qed.

Lemma wrapped_refused (h : handler) r vars :
  let app := var vars "appID" in
  let a := Do (log_access_request apiHost (getAuthToken r) app) in
  ~ may_read r app ->
  LogAccessMiddleware_Wrap (NewLogAccessAuthorizer Do url_ok disable apiHost) h NewResponse r vars
  = if negb (Str.empty (getAuthToken r)) && negb (url_ok (log_access_url apiHost app))
    then Panics "nil pointer dereference"
    else let status := refusal_status (getAuthToken r) a in
         respond (mkResponse
           (if decide (status = StatusUnauthorized)
            then {["Www-Authenticate"%string := ["Basic"%string]]} else ∅)
           (Some (status, ∅)) []) [].
Proof.
  intros app a Hno. unfold may_read in Hno. subst a.
  assert (disable = false) as Hd by (destruct disable; naive_solver).
  unfold LogAccessMiddleware_Wrap, NewLogAccessAuthorizer. fold app. rewrite Hd.
  destruct (Str.empty (getAuthToken r)) eqn:Et; cbn [negb andb].
  { unfold refusal_status. rewrite Et. reflexivity. }
  destruct (url_ok (log_access_url apiHost app)) eqn:Eu; cbn [negb andb]; [|done].
  assert (getAuthToken r <> EmptyString) as Hne by (intros E; by rewrite E in Et).
  unfold refusal_status. rewrite Et.
  destruct (Do (log_access_request apiHost (getAuthToken r) app)) as [err|st b] eqn:Ea; [reflexivity|].
  assert (st <> StatusOK) as Hst by (intros ->; naive_solver).
  rewrite (bool_decide_eq_false_2 (st = StatusOK)) by done. cbn [negb].
  destruct (decide (st = StatusUnauthorized)) as [->|H1]; [reflexivity|].
  rewrite (bool_decide_eq_false_2 (st = StatusUnauthorized)) by done.
  destruct (decide (st = StatusForbidden \/ st = StatusNotFound)) as [[->| ->]|H2]; [reflexivity..|].
  rewrite !bool_decide_eq_false_2 by naive_solver. reflexivity.
Qed.


End AccessControl.

(** ** De-duplication of container metrics *)

(** [e] is, among the envelopes of instance [i], the first one with the latest timestamp. *)
Definition latest_of (l : list V1.Envelope) (i : Z) (e : V1.Envelope) : Prop :=
  exists before after, l = before ++ e :: after /\ instance_index e = i
  /\ Forall (fun x => instance_index x = i -> V1.GetTimestamp x < V1.GetTimestamp e)%Z before
  /\ Forall (fun x => instance_index x = i -> V1.GetTimestamp x <= V1.GetTimestamp e)%Z after.

Lemma latest_of_unique l i e e' : latest_of l i e -> latest_of l i e' -> e = e'.
Proof.
  intros (b & a & -> & Hi & Hb & Ha) (b' & a' & E & Hi' & Hb' & Ha').
  rewrite Forall_forall in *.
  apply app_eq_app in E as (m & [[-> E]|[-> E]]); destruct m as [|x m]; try (by injection E);
    injection E as <- ->.
  - specialize (Hb e' ltac:(set_solver) Hi'). specialize (Ha' e ltac:(set_solver) Hi). lia.
  - specialize (Hb' e ltac:(set_solver) Hi). specialize (Ha e' ltac:(set_solver) Hi'). lia.
Qed.

Lemma latest_of_snoc_other l x i e :
  latest_of l i e -> (instance_index x = i -> V1.GetTimestamp x <= V1.GetTimestamp e)%Z ->
  latest_of (l ++ [x]) i e.
Proof.
  intros (b & a & -> & Hi & Hb & Ha) Hx. exists b, (a ++ [x]). split_and!; try done.
  - by rewrite <- app_assoc.
  - apply Forall_app. auto.
Qed.

Lemma latest_of_snoc_new l x :
  Forall (fun y => instance_index y = instance_index x -> V1.GetTimestamp y < V1.GetTimestamp x)%Z l ->
  latest_of (l ++ [x]) (instance_index x) x.
Proof. intros Hl. exists l, []. auto. Qed.

Section DeDupe.

Context (Unmarshal : string -> V1.Envelope) (Marshal : V1.Envelope -> string) (ord : RangeOrder Z).

Abbreviation kept := (deDupe_map Unmarshal).

Lemma deDupe_map_snoc l m :
  kept (l ++ [m]) = deDupe_step Unmarshal (kept l) m.
Proof. unfold deDupe_map. by rewrite foldl_app. Qed.

Lemma deDupe_map_latest l i :
  match kept l !! i with
  | Some e => latest_of (Unmarshal <$> l) i e
  | None => Forall (fun x => instance_index x <> i) (Unmarshal <$> l)
  end.
Proof.
  revert i. induction l as [|m l IH] using rev_ind; intros i; [constructor|].
  rewrite deDupe_map_snoc, fmap_app. cbn [fmap list_fmap]. unfold deDupe_step.
  set (x := Unmarshal m). pose proof (IH (instance_index x)) as IHx.
  destruct (kept l !! instance_index x) as [old|] eqn:Eold.
  - destruct (decide (V1.GetTimestamp old < V1.GetTimestamp x)%Z) as [Hlt|Hge].
    + destruct (decide (instance_index x = i)) as [<-|Hne].
      * rewrite lookup_insert_eq. apply latest_of_snoc_new. destruct IHx as (b & a & -> & Hi & Hb & Ha).
        apply Forall_app. split; [|constructor]; [eapply Forall_impl; [exact Hb|]|done|eapply Forall_impl; [exact Ha|]];
          intros y Hy Hyi; specialize (Hy Hyi); lia.
      * rewrite lookup_insert_ne by done. specialize (IH i). destruct (kept l !! i).
        -- apply latest_of_snoc_other; [done|]. intros; lia.
        -- apply Forall_app. auto.
    + specialize (IH i). destruct (kept l !! i) as [e|] eqn:Ei.
      * apply latest_of_snoc_other; [done|]. intros <-. rewrite Eold in Ei. simplify_eq. lia.
      * apply Forall_app. split; [done|]. constructor; [|done]. intros <-. congruence.
  - destruct (decide (instance_index x = i)) as [<-|Hne].
    + rewrite lookup_insert_eq. apply latest_of_snoc_new. eapply Forall_impl; [exact IHx|]. done.
    + rewrite lookup_insert_ne by done. specialize (IH i). destruct (kept l !! i).
      * apply latest_of_snoc_other; [done|]. intros; lia.
      * apply Forall_app. auto.
Qed.

(** C33: De-duplication keeps, for every instance index among the messages of all dopplers,
    exactly one envelope: the first of those with the latest timestamp.  Whatever the order
    of the map, the output is the encoding of these envelopes. *)
Theorem dedupe_keeps_latest input :
  exists kept : list (Z * V1.Envelope),
    deDupe Unmarshal Marshal ord input = Marshal <$> kept.*2
    /\ NoDup kept.*1
    /\ (forall i e, (i, e) ∈ kept <-> latest_of (Unmarshal <$> input) i e)
    /\ (forall m, m ∈ input -> instance_index (Unmarshal m) ∈ kept.*1).
Proof.
  exists (range_map ord (deDupe_map Unmarshal input)). split_and!; [done|apply range_keys_NoDup| |].
  - intros i e. rewrite range_elem. pose proof (deDupe_map_latest input i) as Hl. split.
    + intros E. by rewrite E in Hl.
    + intros He. destruct (deDupe_map Unmarshal input !! i) as [e'|].
      * f_equal. by eapply latest_of_unique.
      * destruct He as (b & a & E & Hi & _). rewrite E in Hl.
        apply Forall_app in Hl as [_ Hl]. apply Forall_cons in Hl as [Hl _]. done.
  - intros m Hm. pose proof (deDupe_map_latest input (instance_index (Unmarshal m))) as Hl.
    destruct (deDupe_map Unmarshal input !! _) as [e|] eqn:E.
    + apply list_elem_of_fmap. exists (instance_index (Unmarshal m), e). split; [done|]. by apply range_elem.
    + rewrite Forall_forall in Hl. exfalso. apply (Hl (Unmarshal m)); [|done].
      apply list_elem_of_fmap. eauto.
Qed.

End DeDupe.

(** ** What the client reads from a multipart response *)

Definition delimiter (boundary : string) : string := crlf +:+ "--" +:+ boundary.

(** The text before the first occurrence of [d], and the rest after it. *)
Fixpoint cut (d s : string) : option (string * string) :=
  if Str.HasPrefix s d then Some (EmptyString, Str.drop_n (String.length d) s)
  else match s with
       | EmptyString => None
       | String a s => (fun p => (String a p.1, p.2)) <$> cut d s
       end.

Fixpoint split_on (fuel : nat) (d s : string) : list string :=
  match fuel with
  | O => [s]
  | S fuel =>
      match cut d s with
      | None => [s]
      | Some (piece, rest) => piece :: split_on fuel d rest
      end
  end.

(** The parts up to the closing delimiter; [None] if it is missing. *)
Fixpoint read_parts (pieces : list string) : option (list string) :=
  match pieces with
  | [] => None
  | p :: rest =>
      if Str.HasPrefix p "--" then Some []
      else cons (Str.TrimPrefix p (crlf +:+ crlf)) <$> read_parts rest
  end.

(** A multipart reader: the preamble is skipped, parts have no headers. *)
Definition read_multipart (boundary body : string) : option (list string) :=
  read_parts (tail (split_on (String.length body) (delimiter boundary) (crlf +:+ body))).

Definition text (l : list string) : string := foldr String.app EmptyString l.

Lemma HasPrefix_app_inv x c z p :
  Str.IndexOf p c = None -> Str.HasPrefix (x +:+ String c z) p = true -> Str.HasPrefix x p = true.
Proof.
  revert x. induction p as [|a p IH]; intros x Hp; [by destruct x|].
  simpl in Hp. destruct (ascii_dec a c) as [|Hac]; [done|].
  assert (Str.IndexOf p c = None) as Hp' by (by destruct (Str.IndexOf p c)).
  destruct x as [|b x].
  - change (EmptyString +:+ String c z) with (String c z). cbn [Str.HasPrefix].
    destruct (ascii_dec a c); done.
  - change (String b x +:+ String c z) with (String b (x +:+ String c z)). cbn [Str.HasPrefix].
    destruct (ascii_dec a b); [|done]. by apply IH.
Qed.

(** Cutting at a delimiter whose first character does not occur in it again. *)
Lemma cut_app c d m r :
  Str.IndexOf d c = None -> cut (String c d) m = None ->
  cut (String c d) (m +:+ (String c d +:+ r)) = Some (m, r).
Proof.
  intros Hd. induction m as [|a m IH]; intros Hm.
  - change (EmptyString +:+ (String c d +:+ r)) with (String c (d +:+ r)).
    assert (Str.HasPrefix (String c (d +:+ r)) (String c d) = true) as Hp
      by apply (Str.HasPrefix_app (String c d)).
    unfold cut. rewrite Hp. do 2 f_equal. apply (Str.drop_n_app (String c d)).
  - change (String a m +:+ (String c d +:+ r)) with (String a (m +:+ (String c d +:+ r))).
    cbn [cut] in *. destruct (Str.HasPrefix (String a m) (String c d)) eqn:E; [done|].
    destruct (Str.HasPrefix (String a (m +:+ (String c d +:+ r))) (String c d)) eqn:E2.
    + exfalso. cbn [Str.HasPrefix] in E, E2. destruct (ascii_dec c a); [|done].
      apply HasPrefix_app_inv in E2; [|done]. congruence.
    + rewrite IH; [done|]. by destruct (cut (String c d) m).
Qed.

Fixpoint join_on (d : string) (l : list string) : string :=
  match l with
  | [] => EmptyString
  | [p] => p
  | p :: l => p +:+ (d +:+ join_on d l)
  end.

Lemma split_on_join c d l fuel :
  Str.IndexOf d c = None -> l <> [] -> Forall (fun p => cut (String c d) p = None) l ->
  length l <= S fuel -> split_on fuel (String c d) (join_on (String c d) l) = l.
Proof.
  intros Hd Hne Hl. revert fuel Hne. induction Hl as [|p l Hp Hl IH]; intros fuel Hne Hf; [done|].
  destruct l as [|q l].
  - destruct fuel; cbn [split_on join_on]; [done|]. by rewrite Hp.
  - destruct fuel as [|fuel]; [simpl in Hf; lia|].
    change (join_on (String c d) (p :: q :: l))
      with (p +:+ (String c d +:+ join_on (String c d) (q :: l))).
    cbn [split_on]. rewrite cut_app by done. f_equal. apply IH; [done|]. simpl in *. lia.
Qed.

Lemma text_app l k : text (l ++ k) = text l +:+ text k.
Proof.
  induction l as [|s l IH]; [done|]. change (text ((s :: l) ++ k)) with (s +:+ text (l ++ k)).
  by rewrite IH, <- Str.append_assoc.
Qed.

Lemma Write_body w s : body (Write w s) = body w ++ [s].
Proof. unfold Write, WriteHeader. by destruct (sent w). Qed.

(** The parts after the first, each preceded by a line break. *)
Fixpoint part_frames (b : string) (l : list string) : string :=
  match l with
  | [] => EmptyString
  | m :: l => crlf +:+ "--" +:+ b +:+ crlf +:+ crlf +:+ m +:+ part_frames b l
  end.

Lemma serve_parts_body w b i l :
  text (body (serve_parts w b (fun _ => true) (S i) l)) = text (body w) +:+ part_frames b l.
Proof.
  revert w i. induction l as [|m l IH]; intros w i; cbn [serve_parts part_frames negb];
    [by rewrite Str.append_nil_r|].
  rewrite IH, !Write_body, !text_app. unfold CreatePart.
  rewrite bool_decide_eq_false_2 by done. cbn [text foldr].
  rewrite !Str.append_nil_r, !Str.append_assoc. done.
Qed.

Definition part_piece (m : string) : string := crlf +:+ crlf +:+ m.
Definition last_piece : string := "--" +:+ crlf.

Lemma join_on_cons d p l : l <> [] -> join_on d (p :: l) = p +:+ (d +:+ join_on d l).
Proof. by destruct l. Qed.

Lemma frames_join b l :
  part_frames b l +:+ mp_Close b
  = delimiter b +:+ join_on (delimiter b) ((part_piece <$> l) ++ [last_piece]).
Proof.
  induction l as [|m l IH]; cbn [part_frames fmap list_fmap app].
  - unfold mp_Close, delimiter, last_piece. cbn [join_on]. by rewrite !Str.append_assoc.
  - rewrite join_on_cons by (by destruct l). rewrite <- IH. unfold part_piece, delimiter.
    rewrite !Str.append_assoc. done.
Qed.

Lemma multipart_body b l :
  exists preamble, cut (delimiter b) preamble = None /\
  crlf +:+ text (body (serveMultiPartResponse NewResponse b (fun _ => true) l))
  = join_on (delimiter b) (preamble :: ((part_piece <$> l) ++ [last_piece])).
Proof.
  unfold serveMultiPartResponse. rewrite Write_body, text_app. cbn [text foldr].
  rewrite Str.append_nil_r. destruct l as [|m l].
  - exists crlf. split; [done|]. cbn [serve_parts body SetHeader NewResponse text foldr fmap list_fmap app].
    exact (f_equal (String.app crlf) (frames_join b [])).
  - exists EmptyString. split; [done|]. cbn [serve_parts negb].
    rewrite serve_parts_body, !Write_body, !text_app. unfold CreatePart.
    rewrite bool_decide_eq_true_2 by done. cbn [text foldr body SetHeader NewResponse].
    rewrite join_on_cons by done. rewrite <- (frames_join b (m :: l)). cbn [part_frames].
    rewrite !Str.append_nil_r, !Str.append_assoc. done.
Qed.

Lemma read_parts_pieces l : read_parts ((part_piece <$> l) ++ [last_piece]) = Some l.
Proof.
  induction l as [|m l IH]; [done|]. cbn [fmap list_fmap app read_parts].
  change (Str.HasPrefix (part_piece m) "--") with false. cbv iota. rewrite IH. cbn.
  do 2 f_equal. unfold part_piece. rewrite <- Str.append_assoc. apply Str.TrimPrefix_app.
Qed.

(** A message that does not look like a delimiter, and a boundary without line breaks. *)
Definition safe_message (b m : string) : Prop := cut (delimiter b) (part_piece m) = None.
Definition safe_boundary (b : string) : Prop :=
  Str.IndexOf b "013" = None /\ cut (delimiter b) last_piece = None.

Lemma join_on_length d l :
  4 <= String.length d -> 4 * length l <= 4 + String.length (join_on d l).
Proof.
  intros Hd. induction l as [|p l IH]; [simpl; lia|]. destruct l as [|q l]; [simpl; lia|].
  rewrite join_on_cons by done. rewrite !Str.length_append.
  change (length (p :: q :: l)) with (S (length (q :: l))). lia.
Qed.

Lemma multipart_round_trip b l :
  safe_boundary b -> Forall (safe_message b) l ->
  read_multipart b (text (body (serveMultiPartResponse NewResponse b (fun _ => true) l))) = Some l.
Proof.
  intros [Hb Hlast] Hl. unfold read_multipart.
  destruct (multipart_body b l) as (pre & Hpre & E). rewrite E.
  assert (Str.IndexOf (String "010" ("--" +:+ b)) "013" = None) as Hd.
  { change (String "010" ("--" +:+ b)) with ((String "010" "--") +:+ b). by apply Str.IndexOf_app_None. }
  change (delimiter b) with (String "013" (String "010" ("--" +:+ b))) in *.
  rewrite split_on_join; [|done..| |].
  - cbn [tail]. apply read_parts_pieces.
  - constructor; [done|]. apply Forall_app. split; [by apply Forall_fmap|by constructor].
  - apply (f_equal String.length) in E. rewrite Str.length_append in E.
    pose proof (join_on_length (String "013" (String "010" ("--" +:+ b)))
      (pre :: ((part_piece <$> l) ++ [last_piece])) ltac:(simpl; lia)) as Hlen.
    rewrite <- E in Hlen. change (String.length crlf) with 2 in Hlen.
    change (length (pre :: ?x)) with (S (length x)) in *. rewrite length_app in *.
    change (length [last_piece]) with 1 in *. lia.
Qed.

(** Nothing but writes happens to a response: its status is 200 and its headers are as set. *)
Definition unsealed (w : ResponseWriter) (h : Header.t) : Prop :=
  header w = h /\ (sent w = None \/ sent w = Some (StatusOK, h)).

Lemma Write_sent w h s : unsealed w h ->
  header (Write w s) = h /\ sent (Write w s) = Some (StatusOK, h).
Proof. intros [Hh [E|E]]; unfold Write, WriteHeader; rewrite E; simpl; by subst. Qed.

Lemma serve_parts_unsealed w h b alive i l : unsealed w h -> unsealed (serve_parts w b alive i l) h.
Proof.
  revert w i. induction l as [|m l IH]; intros w i Hw; cbn [serve_parts]; [done|].
  destruct (negb (alive i)); [done|]. apply IH.
  destruct (Write_sent w h (CreatePart b (bool_decide (i = 0))) Hw) as [H1 H2].
  destruct (Write_sent (Write w (CreatePart b (bool_decide (i = 0)))) h m) as [H3 H4]; [split; auto|].
  split; auto.
Qed.

Lemma serveMultiPartResponse_sent b alive l :
  sent (serveMultiPartResponse NewResponse b alive l)
  = Some (StatusOK, Header.Set_ ∅ "Content-Type" ("multipart/x-protobuf; boundary=" +:+ b)).
Proof.
  unfold serveMultiPartResponse. apply Write_sent, serve_parts_unsealed. split; [done|by left].
Qed.

Lemma RecentLogs_limited_take r l :
  RecentLogs_limited r l = match limitFrom r with Some n => take (Z.to_nat n) l | None => l end.
Proof.
  unfold RecentLogs_limited. destruct (limitFrom r) as [n|]; [|done]. case_decide; [done|].
  by rewrite take_ge by lia.
Qed.


(** Three logs, of which the client asks for two. *)
Module RecentLogsExample.

#[global] Instance conn : grpcConnector (list string) := {|
  Subscribe _ _ := Err "unavailable";
  ContainerMetrics _ _ := [];
  RecentLogs l _ := l
|}.

Definition logs : list string := ["first"; "--second"; "third"]%string.

Definition req : Request := Http.mkRequest "GET" "/apps/a/recentlogs" "limit=2&x=%zz" ∅ [] "192.0.2.7:4567".

End RecentLogsExample.

