(* ===== verification/ProxySession.v ===== *)
(** * Websocket sessions of the traffic controller

    trafficcontroller/internal/proxy/websocket_server.go and websocket_handler.go: a
    goroutine receives messages from a doppler subscription and hands each over an
    unbuffered channel to the handler, which writes it to the websocket; a message nobody
    takes for five seconds ends the session.  Also the session counters of the handlers and
    doppler_proxy.go's [emitMetrics]. *)

From S2P Require Import Prelude Go.

(** ** The two goroutines of a session *)

(** The goroutine of [serveWS]: in [recv], in the [select] with a message, or returned. *)
Inductive pump_state : Type := Receiving | Holding (m : string) | PumpDone.

(** The loop of [runWebsocketUntilClosed], and the close frame it ended with. *)
Inductive handler_state : Type := Open_ | Ended (closeCode : Z) (closeMessage : string).

Definition CloseNormalClosure : Z := 1000.
Definition ClosePolicyViolation : Z := 1008.
Definition keepAliveMessage : string :=
  "Client did not respond to ping before keep-alive timeout expired.".

Record session : Type := mkSession {
  pump : pump_state;
  timer : Timer.t;
  handler : handler_state;
  received : list string;
  delivered : list string;
  egressMetric : Z;
  slowConsumerMetric : Z
}.

(** [time.NewTimer(5 * time.Second)] followed by [Stop]. *)
Definition serveWS_start : session :=
  mkSession Receiving (Timer.Stop Timer.NewTimer).1 Open_ [] [] 0 0.

Inductive session_event : Type :=
| Recv (answer : option (option string))
| TimerExpires
| HandOver (write_ok : bool)
| TakeTimeout
| SeeClosed
| ClientWentAway
| KeepAliveExpired.

Definition set_pump (s : session) (p : pump_state) (t : Timer.t) : session :=
  mkSession p t (handler s) (received s) (delivered s) (egressMetric s) (slowConsumerMetric s).

Definition set_handler (s : session) (h : handler_state) : session :=
  mkSession (pump s) (timer s) h (received s) (delivered s) (egressMetric s) (slowConsumerMetric s).

(** The answer of [recv]: an error ([None]), no message, or a message. *)
Definition on_recv (s : session) (answer : option (option string)) : session :=
  match answer with
  | None => set_pump s PumpDone (timer s)
  | Some None => s
  | Some (Some m) =>
      mkSession (Holding m) (Timer.Reset (timer s)) (handler s) (received s ++ [m]) (delivered s)
        (egressMetric s) (slowConsumerMetric s)
  end.

(** [if !timer.Stop() { <-timer.C }]; [None] blocks forever. *)
Definition stop_timer (t : Timer.t) : option Timer.t :=
  let '(t, active) := Timer.Stop t in if active then Some t else Timer.recv t.

(** The handler's turn with a message it received. *)
Definition write_message (s : session) (m : string) (write_ok : bool) : session :=
  if write_ok then
    mkSession (pump s) (timer s) (handler s) (received s) (delivered s ++ [m])
      (egressMetric s + 1) (slowConsumerMetric s)
  else set_handler s (Ended CloseNormalClosure EmptyString).

(** One step; [Some s] unchanged when the event cannot happen, [None] when a goroutine
    blocks forever. *)
Definition session_step (s : session) (ev : session_event) : option session :=
  match ev, pump s, handler s with
  | Recv answer, Receiving, _ => Some (on_recv s answer)
  | TimerExpires, _, _ => Some (set_pump s (pump s) (Timer.expire (timer s)))
  | HandOver write_ok, Holding m, Open_ =>
      match stop_timer (timer s) with
      | None => None
      | Some t => Some (write_message (set_pump s Receiving t) m write_ok)
      end
  | TakeTimeout, Holding m, _ =>
      match Timer.recv (timer s) with
      | None => Some s
      | Some t =>
          Some (mkSession PumpDone t (handler s) (received s) (delivered s) (egressMetric s)
                  (slowConsumerMetric s + 1))
      end
  | SeeClosed, PumpDone, Open_ => Some (set_handler s (Ended CloseNormalClosure EmptyString))
  | ClientWentAway, _, Open_ => Some (set_handler s (Ended CloseNormalClosure EmptyString))
  | KeepAliveExpired, _, Open_ => Some (set_handler s (Ended ClosePolicyViolation keepAliveMessage))
  | _, _, _ => Some s
  end.

Fixpoint session_run (s : session) (l : list session_event) : option session :=
  match l with
  | [] => Some s
  | ev :: l => match session_step s ev with None => None | Some s => session_run s l end
  end.

(** ** The invariant *)

Definition held (p : pump_state) : list string := match p with Holding m => [m] | _ => [] end.

(** While the pump receives its timer is idle and drained; while it holds a message the
    timer is running or has fired. *)
Definition timer_ok (p : pump_state) (t : Timer.t) : Prop :=
  match p with
  | Receiving => t = Timer.mk false false
  | Holding _ => Timer.live t
  | PumpDone => True
  end.

Definition ended (h : handler_state) : Z := match h with Open_ => 0 | Ended _ _ => 1 end.

Record session_ok (s : session) (lost : list string) : Prop := {
  so_timer : timer_ok (pump s) (timer s);
  so_all : received s = delivered s ++ lost ++ held (pump s);
  so_lost : (Z.of_nat (length lost) <= slowConsumerMetric s + ended (handler s))%Z;
  so_egress : egressMetric s = Z.of_nat (length (delivered s));
  so_slow : (0 <= slowConsumerMetric s <= 1)%Z;
  so_pump : pump s <> PumpDone -> slowConsumerMetric s = 0%Z;
  so_code : forall c m, handler s = Ended c m ->
    c = CloseNormalClosure /\ m = EmptyString \/ c = ClosePolicyViolation /\ m = keepAliveMessage
}.

Lemma stop_timer_live t : Timer.live t -> stop_timer t = Some (Timer.mk false false).
Proof. destruct t as [[] []]; by unfold Timer.live. Qed.

Lemma start_ok : session_ok serveWS_start [].
Proof. split; simpl; (done || lia). Qed.

Lemma end_handler_ok s lost c m :
  session_ok s lost -> handler s = Open_ ->
  (c = CloseNormalClosure /\ m = EmptyString \/ c = ClosePolicyViolation /\ m = keepAliveMessage) ->
  session_ok (set_handler s (Ended c m)) lost.
Proof.
  intros [] Hh Hc. rewrite Hh in *. split; simpl in *; try done; [lia|].
  by intros ? ? [= <- <-].
Qed.

Lemma session_step_ok s lost ev :
  session_ok s lost ->
  exists s' more, session_step s ev = Some s' /\ session_ok s' (lost ++ more).
Proof.
  intros Hok. assert (session_ok s (lost ++ [])) as Hsame by (by rewrite app_nil_r).
  destruct ev as [a| |ok| | | |]; unfold session_step.
  - destruct (pump s) eqn:Ep; [|eauto..]. exists (on_recv s a), []. split; [done|]. rewrite app_nil_r.
    destruct Hok as [Ht Ha Hl He Hs Hp Hc]. rewrite Ep in *. simpl in Ht, Ha. rewrite app_nil_r in Ha.
    destruct a as [[m|]|]; simpl.
    + split; simpl; try done; [by rewrite Ht|by rewrite Ha, <- app_assoc|]. intros _. by apply Hp.
    + split; rewrite ?Ep; simpl; try done; by rewrite ?app_nil_r.
    + split; simpl; try done; by rewrite app_nil_r.
  - exists (set_pump s (pump s) (Timer.expire (timer s))), []. split; [done|]. rewrite app_nil_r.
    destruct Hok as [Ht Ha Hl He Hs Hp Hc]. split; simpl; try done.
    destruct (pump s); simpl in *; [by rewrite Ht|destruct (timer s) as [[] []]; done|done].
  - destruct (pump s) as [|m|] eqn:Ep; [eauto| |eauto]. destruct (handler s) eqn:Eh; [|eauto].
    destruct Hok as [Ht Ha Hl He Hs Hp Hc]. rewrite Ep in *. simpl in Ht, Ha.
    rewrite stop_timer_live by done. rewrite Eh, (Hp ltac:(done)) in Hl. simpl in Hl.
    assert (lost = []) as -> by (destruct lost; simpl in Hl; [done|lia]). simpl in *.
    destruct ok; simpl; unfold write_message; simpl.
    + eexists _, []. split; [done|]. split; simpl; try done.
      * by rewrite app_nil_r.
      * rewrite Eh. simpl. lia.
      * rewrite length_app, He. simpl. lia.
      * intros _. by apply Hp.
    + eexists _, [m]. split; [done|]. split; simpl; try done; [lia|intros _; by apply Hp|].
      intros ? ? [= <- <-]. by left.
  - destruct (pump s) as [|m|] eqn:Ep; [eauto| |eauto].
    destruct (Timer.recv (timer s)) as [t|] eqn:Et; [|eauto].
    destruct Hok as [Ht Ha Hl He Hs Hp Hc]. rewrite Ep in *. specialize (Hp ltac:(done)).
    eexists _, [m]. split; [done|]. split; simpl; try done.
    + rewrite Ha. simpl. by rewrite app_nil_r.
    + rewrite length_app. simpl. lia.
    + lia.
  - destruct (pump s) eqn:Ep; [eauto..|]. destruct (handler s) eqn:Eh; [|eauto].
    eexists _, []. split; [done|]. apply end_handler_ok; auto.
  - destruct (handler s) eqn:Eh; [|destruct (pump s); eauto].
    exists (set_handler s (Ended CloseNormalClosure EmptyString)), []. split; [by destruct (pump s)|].
    apply end_handler_ok; auto.
  - destruct (handler s) eqn:Eh; [|destruct (pump s); eauto].
    exists (set_handler s (Ended ClosePolicyViolation keepAliveMessage)), []. split; [by destruct (pump s)|].
    apply end_handler_ok; auto.
Qed.

Lemma session_run_ok s lost l :
  session_ok s lost -> exists s' lost', session_run s l = Some s' /\ session_ok s' lost'.
Proof.
  revert s lost. induction l as [|ev l IH]; intros s lost Hs; simpl; [eauto|].
  destruct (session_step_ok s lost ev Hs) as (s1 & more & -> & H1). eauto.
Qed.

(** C30: A session delivers in order and accounts for what it loses.  In every interleaving
    no goroutine of the session blocks for ever on its timer; the messages received from the
    dopplers are those written to the client, in order, followed by at most two lost ones
    and the one being handed over; a message is lost only through a slow-consumer timeout,
    which is counted, or through the end of the connection; while neither has happened
    nothing is lost.  The egress metric is the number of messages written, and the close
    code is that of a policy violation only with the keep-alive's message. *)
Theorem session_delivers_in_order l :
  exists s lost, session_run serveWS_start l = Some s
  /\ received s = delivered s ++ lost ++ held (pump s)
  /\ (Z.of_nat (length lost) <= slowConsumerMetric s + ended (handler s))%Z
  /\ (slowConsumerMetric s = 0 \/ slowConsumerMetric s = 1 /\ pump s = PumpDone)%Z
  /\ egressMetric s = Z.of_nat (length (delivered s))
  /\ (forall m, handler s <> Ended ClosePolicyViolation m \/ m = keepAliveMessage).
Proof.
  destruct (session_run_ok _ _ l start_ok) as (s & lost & Hrun & [Ht Ha Hl He Hs Hp Hc]).
  exists s, lost. split_and!; try done.
  - destruct (pump s) eqn:Ep; [left; by apply Hp..|].
    destruct (decide (slowConsumerMetric s = 0%Z)); [by left|right; lia || (split; [lia|done])].
  - intros m. destruct (handler s) as [|c m'] eqn:Eh; [by left|].
    destruct (Hc _ _ eq_refl) as [[-> ->]|[-> ->]]; [by left|].
    destruct (decide (m = keepAliveMessage)); [by right|left; congruence].
Qed.

(** A client that disconnects while a message is in hand is counted as a slow consumer. *)
Example disconnect_counts_as_slow :
  (slowConsumerMetric <$> session_run serveWS_start
    [Recv (Some (Some "m"%string)); ClientWentAway; TimerExpires; TakeTimeout]) = Some 1%Z.
Proof. reflexivity. Qed.

(** ** Session counters *)

(** The [counter] of a handler: [atomic.AddInt64] at entry and, deferred, at exit. *)
Inductive counter_event : Type := Enter | Leave.

Definition count_step (n : Z) (ev : counter_event) : Z :=
  Words.int64 (match ev with Enter => n + 1 | Leave => n - 1 end).

Record proxy_gauges : Type := mkGauges {
  firehoseConnMetric : Z; firehoseStreamCount : Z; appStreamConnMetric : Z; appStreamCount : Z }.

(** One tick of [emitMetrics]; each [Count] may see a different moment. *)
Definition emitMetrics (firehose1 firehose2 stream1 stream2 : Z) : proxy_gauges :=
  mkGauges firehose1 firehose2 stream1 stream2.

Definition count_delta (ev : counter_event) : Z := match ev with Enter => 1 | Leave => -1 end.

(** How many handlers entered and did not leave. *)
Definition active (l : list counter_event) : Z := foldr (fun ev n => count_delta ev + n)%Z 0%Z l.

(** Whatever handlers enter and leave in between, the counter is the number of running
    handlers, as a machine word. *)
Lemma counter_counts l n : foldl count_step (Words.int64 n) l = Words.int64 (n + active l).
Proof.
  revert n. induction l as [|ev l IH]; intros n; simpl; [by rewrite Z.add_0_r|].
  assert (count_step (Words.int64 n) ev = Words.int64 (n + count_delta ev)) as ->.
  { destruct ev; unfold count_step, count_delta; rewrite <- ?Z.add_opp_r; by rewrite Words.swrap_add. }
  rewrite IH. f_equal. lia.
Qed.
