(* ===== verification/KeepAlive.v ===== *)
(** * The keep-alive of websocket connections

    trafficcontroller/internal/proxy/keepalive.go and
    doppler/internal/sinkserver/websocketserver/websocket_keepalive.go: a ping, a timer, and
    a wait for the pong or the timer.  The two differ in whether the timer is stopped and
    drained before it is reset.  Time is explicit, in nanoseconds. *)

From S2P Require Import Prelude Go.

Local Open Scope Z_scope.

(** A timer that knows when it is due; the channel [C] holds at most one value. *)
Record timer : Type := mkTimer { due : option Z; ready : bool }.

Definition NewTimer (now d : Z) : timer := mkTimer (Some (now + d)) false.

(** The runtime delivers the value once the time has come. *)
Definition advance (now : Z) (t : timer) : timer :=
  match due t with
  | Some x => if bool_decide (x <= now) then mkTimer None true else t
  | None => t
  end.

Definition Stop (t : timer) : timer * bool := (mkTimer None (ready t), bool_decide (is_Some (due t))).

(** [Reset] does not touch the channel. *)
Definition Reset (now d : Z) (t : timer) : timer := mkTimer (Some (now + d)) (ready t).

Inductive version : Type := Proxy | Doppler.

Record state : Type := mkState { now : Z; timeout : timer }.

(** What the peer does with a ping: the write fails, or the pong arrives after a latency
    (zero or less: a pong was already waiting), or never. *)
Inductive peer : Type := WriteFails | Pong (latency : Z) | Silent.

Inductive turn_result : Type :=
| Continue (s : state)
| Returned (at_ : Z) (expired : bool)
| Blocked.

(** [pongHandler]: the send on [pongChan] (of capacity one) that does not wait. *)
Definition pongHandler (pongChan : Chan.t unit) : Chan.t unit :=
  match Chan.try_send pongChan () with Chan.Sent c => c | _ => pongChan end.

(** [if !timeout.Stop() { <-timeout.C }]; [None] blocks forever. *)
Definition stop_and_drain (t : timer) : option timer :=
  let '(t, active) := Stop t in
  if active then Some t else if ready t then Some (mkTimer (due t) false) else None.

Definition before_reset (v : version) (t : timer) : option timer :=
  match v with Proxy => Some t | Doppler => stop_and_drain t end.

(** The [select]: the pong or the timer, whichever is ready first; [pick] decides a tie in
    favour of the pong.  [None] is the timer. *)
Definition await (interval : Z) (p : peer) (pick : bool) (t : timer) : option Z :=
  let expires := if ready t then 0 else interval in
  match p with
  | Pong d =>
      let arrives := Z.max 0 d in
      if decide (arrives < expires) then Some arrives
      else if decide (arrives = expires) then (if pick then Some arrives else None)
      else None
  | _ => None
  end.

(** One turn of the loop of [Run]. *)
Definition Run_turn (v : version) (interval : Z) (s : state) (p : peer) (pick : bool) : turn_result :=
  match p with
  | WriteFails => Returned (now s) false
  | _ =>
      match before_reset v (advance (now s) (timeout s)) with
      | None => Blocked
      | Some t =>
          let t := Reset (now s) interval t in
          match await interval p pick t with
          | Some d =>
              let awake := now s + d + Z.quot interval 2 in
              Continue (mkState awake (advance awake t))
          | None => Returned (if ready t then now s else now s + interval) true
          end
      end
  end.

Definition Run_start (interval : Z) : state := mkState 0 (NewTimer 0 interval).

(** [Run] against a peer's answers to the first pings. *)
Fixpoint Run (v : version) (interval : Z) (s : state) (l : list (peer * bool)) : turn_result :=
  match l with
  | [] => Continue s
  | (p, pick) :: l =>
      match Run_turn v interval s p pick with
      | Continue s => Run v interval s l
      | r => r
      end
  end.

(** The timer between turns: it runs, or (doppler only) it fired during the sleep. *)
Definition sound (v : version) (s : state) : Prop :=
  match v with
  | Proxy => exists x, timeout s = mkTimer (Some x) false /\ now s < x
  | Doppler => exists x, timeout s = mkTimer (Some x) false \/ timeout s = mkTimer None true
  end.

(** The latencies a version tolerates. *)
Definition tolerates (v : version) (interval d : Z) : Prop :=
  match v with
  | Proxy => 0 <= d < interval - Z.quot interval 2
  | Doppler => 0 <= d < interval
  end.

Lemma half_bounds interval : 0 < interval -> 0 <= Z.quot interval 2 < interval.
Proof. intros. rewrite Z.quot_div_nonneg by lia. split; [apply Z.div_pos; lia|apply Z.div_lt; lia]. Qed.

(** With a sound timer, the channel is empty when the timer is reset. *)
Lemma before_reset_sound v s :
  sound v s -> exists t, before_reset v (advance (now s) (timeout s)) = Some t /\ ready t = false.
Proof.
  destruct s as [n t], v; simpl.
  - intros (x & -> & Hx). unfold advance. simpl. rewrite bool_decide_eq_false_2 by lia. eauto.
  - intros (x & [->| ->]); unfold advance; simpl; [case_bool_decide|]; unfold stop_and_drain; simpl; eauto.
Qed.

Lemma await_pong interval d pick t :
  ready t = false -> 0 <= d < interval -> await interval (Pong d) pick t = Some d.
Proof. intros Ht Hd. unfold await. rewrite Ht, Z.max_r, decide_True by lia. done. Qed.

Lemma Run_turn_tolerated v interval s d pick :
  0 < interval -> tolerates v interval d -> sound v s ->
  exists s', Run_turn v interval s (Pong d) pick = Continue s' /\ sound v s'.
Proof.
  intros Hi Hd Hs. pose proof (half_bounds interval Hi) as Hh.
  destruct (before_reset_sound v s Hs) as (t & Ht & Hr). unfold Run_turn. rewrite Ht.
  rewrite await_pong; [|done|destruct v; simpl in Hd; lia]. eexists. split; [done|].
  unfold advance, Reset. simpl. rewrite Hr. destruct v; simpl in *.
  - rewrite bool_decide_eq_false_2 by lia. eexists. split; [done|lia].
  - case_bool_decide; [exists 0|eexists]; eauto.
Qed.

Lemma Run_tolerated v interval s l :
  0 < interval -> sound v s ->
  Forall (fun pp => exists d, pp.1 = Pong d /\ tolerates v interval d) l ->
  exists s', Run v interval s l = Continue s'.
Proof.
  intros Hi Hs Hl. revert s Hs. induction Hl as [|[p pick] l (d & Hp & Hd) Hl IH]; intros s Hs; simpl; [eauto|].
  simpl in Hp. subst p.
  destruct (Run_turn_tolerated v interval s d pick Hi Hd Hs) as (s' & -> & Hs'). by apply IH.
Qed.

Lemma Run_start_sound v interval : 0 < interval -> sound v (Run_start interval).
Proof. intros. destruct v; simpl; unfold NewTimer; [exists (0 + interval); split; [done|lia]|eauto]. Qed.


