(* ===== verification/MetricEmitter.v ===== *)
(** * metricemitter and healthendpoint: the metrics a component reports about itself

    Counters and gauges that a goroutine per metric sends to metron every pulse, and the
    registry of health gauges.  Increments interleave with the steps of the pulse. *)

From S2P Require Import Prelude Go Events.

Abbreviation tagmap := (gmap string (option V2.Value)).
Abbreviation envelope := (V2.EnvelopeOf unit).

(** ** counter.go: tags *)

(** [MetricOption]: writes into the metric's tag map. *)
Definition MetricOption : Type := tagmap -> tagmap.

Definition WithTags (ord : RangeOrder string) (tags : gmap string string) : MetricOption :=
  fun m => foldl (fun m kv => <[kv.1 := Some (V2.Value_Text kv.2)]> m) m (range_map ord tags).

Definition WithVersion (ord : RangeOrder string) (major minor : Z) : MetricOption :=
  WithTags ord {["metric_version"%string := Strconv.Itoa major +:+ "." +:+ Strconv.Itoa minor]}.

Definition apply_options (opts : list MetricOption) : tagmap := foldl (fun m opt => opt m) ∅ opts.

(** ** counter.go, gauge.go *)

Record Counter : Type := mkCounter { name : string; sourceID : string; tags : tagmap; delta : Z }.

Definition NewCounter (name sourceID : string) (opts : list MetricOption) : Counter :=
  mkCounter name sourceID (apply_options opts) 0.

Definition set_delta (m : Counter) (d : Z) : Counter := mkCounter (name m) (sourceID m) (tags m) d.

(** [atomic.AddUint64] *)
Definition Increment (m : Counter) (c : Z) : Counter := set_delta m (Words.add 64 (delta m) c).

Definition GetDelta (m : Counter) : Z := delta m.

Definition counter_toEnvelope (m : Counter) (now d : Z) : envelope :=
  V2.mkEnvelope now (sourceID m) EmptyString (tags m) tt
    (Some (V2.Envelope_Counter (V2.mkCounter (name m) (V2.Counter_Delta d)))).

Record Gauge : Type := mkGauge {
  g_name : string; g_unit : string; g_sourceID : string; g_tags : tagmap; g_value : float64 }.

Definition NewGauge (zero : float64) (name unit sourceID : string) (opts : list MetricOption) : Gauge :=
  mkGauge name unit sourceID (apply_options opts) zero.

(** [Set] and [GetValue] store and load the bits of the number atomically. *)
Definition Set_ (m : Gauge) (v : float64) : Gauge :=
  mkGauge (g_name m) (g_unit m) (g_sourceID m) (g_tags m) v.

Definition GetValue (m : Gauge) : float64 := g_value m.

(** The envelope carries the value at the time it is built, not the argument. *)
Definition gauge_toEnvelope (m : Gauge) (now : Z) (value : float64) : envelope :=
  V2.mkEnvelope now (g_sourceID m) EmptyString (g_tags m) tt
    (Some (V2.Envelope_Gauge (V2.mkGauge {[g_name m := Some (V2.mkGaugeValue (g_unit m) (GetValue m))]}))).

(** ** client.go *)

Record Client : Type := mkClient { c_sourceID : string; c_tags : gmap string string; c_pulseInterval : Z }.

Definition ClientOption : Type := Client -> Client.

Definition WithPulseInterval (d : Z) : ClientOption := fun c => mkClient (c_sourceID c) (c_tags c) d.
Definition WithSourceID (s : string) : ClientOption := fun c => mkClient s (c_tags c) (c_pulseInterval c).
Definition WithOrigin (o : string) : ClientOption := fun c =>
  mkClient (c_sourceID c) (<["origin"%string := o]> (c_tags c)) (c_pulseInterval c).
Definition WithDeployment (deployment job index : string) : ClientOption := fun c =>
  mkClient (c_sourceID c)
    (<["index"%string := index]> (<["job"%string := job]> (<["deployment"%string := deployment]> (c_tags c))))
    (c_pulseInterval c).

(** [NewClient], when dialling succeeds; the interval is five seconds by default. *)
Definition NewClient (opts : list ClientOption) : Client :=
  foldl (fun c opt => opt c) (mkClient EmptyString ∅ 5000000000) opts.

Definition Client_NewCounter (ord : RangeOrder string) (c : Client) (name : string)
  (opts : list MetricOption) : Counter :=
  NewCounter name (c_sourceID c) (opts ++ [WithTags ord (c_tags c)]).

Definition Client_NewGauge (ord : RangeOrder string) (zero : float64) (c : Client) (name unit : string)
  (opts : list MetricOption) : Gauge :=
  NewGauge zero name unit (c_sourceID c) (opts ++ [WithTags ord (c_tags c)]).

(** *** The pulse of a counter

    Its goroutine: waiting for the tick, or inside [WithEnvelope] with the delta it swapped
    out and the envelope built from it, waiting for [Send].  [sender] tells whether the stream is established. *)

Record pulse_state : Type := mkPulse {
  metric : Counter; sender : bool; in_flight : option (Z * envelope); sent : list envelope }.

Inductive pulse_event : Type :=
| Inc (c : Z)
| Tick (sender_ok : bool) (now : Z)
| SendReturns (ok : bool).

Definition start_pulse (m : Counter) : pulse_state := mkPulse m false None [].

Definition pulse_step (s : pulse_state) (ev : pulse_event) : pulse_state :=
  match ev, in_flight s with
  | Inc c, _ => mkPulse (Increment (metric s) c) (sender s) (in_flight s) (sent s)
  | Tick sender_ok now, None =>
      if sender s || sender_ok
      then
        let d := delta (metric s) in
        mkPulse (set_delta (metric s) 0) true (Some (d, counter_toEnvelope (metric s) now d)) (sent s)
      else s
  | SendReturns ok, Some (d, env) =>
      if ok then mkPulse (metric s) true None (sent s ++ [env])
      else mkPulse (Increment (metric s) d) false None (sent s)
  | _, _ => s
  end.

Definition pulse_run (m : Counter) (l : list pulse_event) : pulse_state :=
  foldl pulse_step (start_pulse m) l.

(** *** The pulse of a gauge *)

Record gauge_state : Type := mkGaugeState { gauge : Gauge; g_sender : bool; g_sent : list envelope }.

Inductive gauge_event : Type := SetTo (v : float64) | GaugeTick (sender_ok : bool) (now : Z) (ok : bool).

Definition gauge_step (s : gauge_state) (ev : gauge_event) : gauge_state :=
  match ev with
  | SetTo v => mkGaugeState (Set_ (gauge s) v) (g_sender s) (g_sent s)
  | GaugeTick sender_ok now ok =>
      if g_sender s || sender_ok then
        if ok then mkGaugeState (gauge s) true
                     (g_sent s ++ [gauge_toEnvelope (gauge s) now (GetValue (gauge s))])
        else mkGaugeState (gauge s) false (g_sent s)
      else s
  end.

(** ** Lemmas *)

Definition delta_of (e : envelope) : Z :=
  match V2.Message_ e with Some (V2.Envelope_Counter c) => V2.GetDelta c | _ => 0 end.

Definition total (l : list Z) : Z := foldr Z.add 0%Z l.

Definition increments (l : list pulse_event) : list Z :=
  omap (fun ev => match ev with Inc c => Some c | _ => None end) l.

Lemma total_app l k : total (l ++ k) = (total l + total k)%Z.
Proof. induction l as [|x l IH]; simpl; [done|]. rewrite IH. lia. Qed.

(** Sent, in flight and waiting add up to what was counted, as machine words, and the
    envelope in flight carries the delta that was swapped out. *)
Definition conserves (counted : Z) (s : pulse_state) : Prop :=
  Words.uint64 (total (delta_of <$> sent s) + default 0%Z (fst <$> in_flight s) + delta (metric s))
  = Words.uint64 counted
  /\ forall d env, in_flight s = Some (d, env) -> delta_of env = d.

Lemma uint64_add_both a b c :
  Words.uint64 a = Words.uint64 b -> Words.uint64 (a + c) = Words.uint64 (b + c).
Proof. intros E. rewrite <- (Words.wrap_add_l 64 a), E, Words.wrap_add_l by lia. done. Qed.

Lemma pulse_step_conserves counted s ev :
  conserves counted s ->
  conserves (counted + match ev with Inc c => c | _ => 0 end) (pulse_step s ev).
Proof.
  unfold conserves. intros [Hs Hd]. destruct ev as [c|ok now|ok]; simpl.
  - split; [|done]. unfold Words.add. rewrite Words.wrap_add_r by lia. rewrite <- (uint64_add_both _ _ c Hs).
    f_equal. lia.
  - rewrite Z.add_0_r. destruct (in_flight s) as [[d env]|] eqn:E; [by rewrite E|].
    destruct (sender s || ok); simpl in *; [|by rewrite E].
    split; [rewrite <- Hs; f_equal; lia|]. by intros d env [= <- <-].
  - rewrite Z.add_0_r. destruct (in_flight s) as [[d env]|] eqn:E; [|by rewrite E].
    destruct ok; simpl in *; (split; [|done]); rewrite <- Hs.
    + rewrite fmap_app, total_app. simpl. rewrite (Hd d env eq_refl). f_equal. lia.
    + unfold Words.add. rewrite Words.wrap_add_r by lia. f_equal. lia.
Qed.

Lemma pulse_run_conserves m l : delta m = 0%Z -> conserves (total (increments l)) (pulse_run m l).
Proof.
  intros Hm. unfold pulse_run. induction l as [|ev l IH] using rev_ind.
  - unfold conserves, start_pulse. simpl. by rewrite Hm.
  - rewrite foldl_app. simpl. unfold increments. rewrite omap_app, total_app.
    assert (total (omap (fun ev => match ev with Inc c => Some c | _ => None end) [ev])
      = match ev with Inc c => c | _ => 0%Z end) as -> by (destruct ev; simpl; lia).
    by apply pulse_step_conserves.
Qed.

Lemma pulse_step_metric s ev :
  name (metric (pulse_step s ev)) = name (metric s)
  /\ sourceID (metric (pulse_step s ev)) = sourceID (metric s)
  /\ tags (metric (pulse_step s ev)) = tags (metric s).
Proof. unfold pulse_step. repeat case_match; done. Qed.

(** The shape of every envelope of a counter. *)
Definition counter_envelope (m : Counter) (e : envelope) : Prop :=
  exists now d, e = counter_toEnvelope m now d.

Lemma pulse_run_envelopes m l :
  Forall (counter_envelope m) (sent (pulse_run m l) ++ option_list (snd <$> in_flight (pulse_run m l)))
  /\ name (metric (pulse_run m l)) = name m /\ sourceID (metric (pulse_run m l)) = sourceID m
  /\ tags (metric (pulse_run m l)) = tags m.
Proof.
  unfold pulse_run. induction l as [|ev l IH] using rev_ind; [done|].
  rewrite foldl_app. simpl. set (s := foldl pulse_step (start_pulse m) l) in *.
  destruct IH as ([Hf Hi]%Forall_app & Hn & Hs & Ht). destruct (pulse_step_metric s ev) as (-> & -> & ->).
  split_and!; try done. apply Forall_app. unfold pulse_step.
  destruct ev as [c|ok now|ok]; destruct (in_flight s) as [[d env]|] eqn:E; simpl in *; rewrite ?E; try done.
  - destruct (sender s || ok); simpl; [|by rewrite E]. split; [done|]. constructor; [|done].
    eexists _, _. unfold counter_toEnvelope. by rewrite Hn, Hs, Ht.
  - destruct ok; simpl; split; try done. by apply Forall_app.
Qed.

(** A tag of the client wins over the same tag of the metric. *)
Lemma WithTags_lookup ord ts m k :
  WithTags ord ts m !! k
  = match ts !! k with Some v => Some (Some (V2.Value_Text v)) | None => m !! k end.
Proof.
  unfold WithTags.
  assert (forall l (m : tagmap), NoDup l.*1 ->
    foldl (fun m kv => <[kv.1 := Some (V2.Value_Text kv.2)]> m) m l !! k
    = match list_to_map (M := gmap string string) l !! k with
      | Some v => Some (Some (V2.Value_Text v)) | None => m !! k end) as H.
  { induction l as [|[a v] l IH]; intros m' Hnd; [done|].
    inversion Hnd as [|? ? Hn Hl]; subst. cbn [foldl fst snd]. rewrite IH, list_to_map_cons by done.
    destruct (decide (a = k)) as [<-|Hne].
    - rewrite not_elem_of_list_to_map_1 by done. by rewrite !lookup_insert_eq.
    - by rewrite !lookup_insert_ne by done. }
  rewrite H by apply range_keys_NoDup.
  rewrite (list_to_map_proper _ (map_to_list ts)); [by rewrite list_to_map_to_list| |apply range_perm].
  apply range_keys_NoDup.
Qed.

(** C23: No count is lost or sent twice.  For a counter of a client, any increments, and any
    failures to open the stream or to send, interleaved in any way with the pulse: the
    deltas sent, the one in flight and the one still waiting add up to the increments,
    modulo the machine word; every envelope sent carries the counter's name, the client's
    source and the tags, where the client's tags take precedence over the metric's. *)
Theorem metric_counter_conserves ord c n opts l :
  let m := Client_NewCounter ord c n opts in
  let s := pulse_run m l in
  Words.uint64 (total (delta_of <$> sent s) + default 0%Z (fst <$> in_flight s) + GetDelta (metric s))
    = Words.uint64 (total (increments l))
  /\ (forall e, e ∈ sent s -> V2.SourceId e = c_sourceID c
      /\ (exists d, V2.Message_ e = Some (V2.Envelope_Counter (V2.mkCounter n (V2.Counter_Delta d))))
      /\ (forall k v, c_tags c !! k = Some v -> V2.DeprecatedTags e !! k = Some (Some (V2.Value_Text v)))
      /\ (forall k, c_tags c !! k = None -> V2.DeprecatedTags e !! k = apply_options opts !! k)).
Proof.
  intros m s. split; [by apply pulse_run_conserves|].
  destruct (pulse_run_envelopes m l) as ([Hf _]%Forall_app & _). fold s in Hf. rewrite Forall_forall in Hf.
  intros e He. destruct (Hf e He) as (now & d & ->). split; [done|]. split; [by exists d|].
  assert (tags m = WithTags ord (c_tags c) (apply_options opts)) as Ht.
  { unfold m, Client_NewCounter, NewCounter, apply_options. simpl. by rewrite foldl_app. }
  cbn [counter_toEnvelope V2.DeprecatedTags].
  split; intros k; rewrite Ht, WithTags_lookup; [intros v ->|intros ->]; done.
Qed.

(** ** healthendpoint/registrar.go *)

Module Health.

Record Registrar : Type := mkRegistrar { gauges : gmap string Z }.

Definition update (op name : string) (f : Z -> Z) (h : Registrar) : outcome Registrar :=
  match gauges h !! name with
  | None => Panics (op +:+ " called for unknown health metric: " +:+ name)
  | Some g => Returns (mkRegistrar (<[name := f g]> (gauges h)))
  end.

Definition Set_ (h : Registrar) (name : string) (value : Z) : outcome Registrar :=
  update "Set" name (fun _ => value) h.
Definition Inc (h : Registrar) (name : string) : outcome Registrar :=
  update "Inc" name (fun g => g + 1)%Z h.
Definition Dec (h : Registrar) (name : string) : outcome Registrar :=
  update "Dec" name (fun g => g - 1)%Z h.

(** A decrement undoes an increment. *)
Lemma Dec_Inc h name :
  is_Some (gauges h !! name) -> obind (Inc h name) (fun h => Dec h name) = Returns h.
Proof.
  intros [g Hg]. unfold Inc, Dec, update. rewrite Hg. simpl. rewrite lookup_insert_eq.
  destruct h as [m]. simpl in *. do 2 f_equal. rewrite insert_insert_eq. apply insert_id.
  rewrite Hg. f_equal. lia.
Qed.

End Health.
