(* ===== verification/MetronEgress.v ===== *)
(** * metron/internal/clientpool/v2 and the egress of metron v2

    The pool of app_v2.go: a list of connection managers that share the health registrar, and
    one writer, the transponder's goroutine, whose [Write] tries them in turn.  The atomic
    steps of the writer and of every manager's goroutine interleave.  [Egress] is the
    transponder on top of the pool. *)

From S2P Require Import Prelude Go Events MetricEmitter ClientPool Conversion ConversionRoundTrip MetronV2.

(** ** sender_fetcher.go *)

Inductive gauge_call : Type := GInc (name : string) | GDec (name : string).

Definition gauge_name (c : gauge_call) : string := match c with GInc n | GDec n => n end.

Definition call_health (h : Health.Registrar) (c : gauge_call) : outcome Health.Registrar :=
  match c with GInc n => Health.Inc h n | GDec n => Health.Dec h n end.

Definition connectionsGauge : string := "dopplerConnections".
Definition streamsGauge : string := "dopplerV2Streams".

(** The calls [SenderFetcher.Fetch] makes on the registrar, and those of the closer it returns. *)
Definition SenderFetcher_Fetch (f : fetch) : list gauge_call :=
  match f with
  | NoAddress | DialError => []
  | StreamError => [GInc connectionsGauge]
  | Established => [GInc connectionsGauge; GInc streamsGauge]
  end.

Definition closer_Close : list gauge_call := [GDec connectionsGauge; GDec streamsGauge].

(** ** client_pool.go over conn_manager.go *)

Section Pool.

Context {A : Type} (maxWrites : nat -> Z).

(** The calls a step of a connection manager makes. *)
Definition step_calls (m : ConnManager A) (s : step A) : list gauge_call :=
  match s with
  | Maintain _ f => match maintainer m with MConnect => SenderFetcher_Fetch f | _ => [] end
  | WriteNext w => match writers m !! w with Some (Closing _ _) => closer_Close | _ => [] end
  | _ => []
  end.

(** A call of the pool's [Write]: the managers that failed, and the one whose [Write] runs. *)
Record call : Type := mkCall { msgs : A; seed : Z; failed : list nat; inside : option nat }.

(** [transmitted] are the payloads accepted by a stream, with manager and connection, and
    [results] the calls that have returned, with the managers tried. *)
Record ClientPool : Type := mkClientPool {
  managers : list (ConnManager A);
  registrar : Health.Registrar;
  calling : option call;
  transmitted : list (nat * nat * A);
  results : list (A * list nat * bool)
}.

Definition New (n : nat) (h : Health.Registrar) : ClientPool := mkClientPool (replicate n NewConnManager) h None [] [].

Definition set_calling (k : option call) (p : ClientPool) : ClientPool :=
  mkClientPool (managers p) (registrar p) k (transmitted p) (results p).

Definition on_manager (i : nat) (s : step A) (p : ClientPool) : outcome ClientPool :=
  match managers p !! i with
  | None => Panics "index out of range"
  | Some m =>
      match ofold call_health (step_calls m s) (registrar p) with
      | Panics why => Panics why
      | Returns h => Returns (mkClientPool (<[i := do_step V2Manager (maxWrites i) m s]> (managers p)) h
                                (calling p) (transmitted p) (results p))
      end
  end.

Definition finish (k : call) (tried : list nat) (ok : bool) (p : ClientPool) : ClientPool :=
  mkClientPool (managers p) (registrar p) None (transmitted p) (results p ++ [(msgs k, tried, ok)]).

(** The manager's [Write] is still running, has returned nil, or an error: then the loop goes on. *)
Definition after_step (k : call) (i : nat) (p : ClientPool) : ClientPool :=
  match managers p !! i with
  | None => p
  | Some m =>
      match writers m !! 0 with
      | Some _ => set_calling (Some (mkCall (msgs k) (seed k) (failed k) (Some i))) p
      | None =>
          match last (returned m) with
          | Some (_, None) => finish k (failed k ++ [i]) true p
          | _ => set_calling (Some (mkCall (msgs k) (seed k) (failed k ++ [i]) None)) p
          end
      end
  end.

(** The call of [Write]; [rand.Int] draws the seed. *)
Definition Write_begin (data : A) (seed : Z) (p : ClientPool) : ClientPool :=
  match calling p with
  | Some _ => p
  | None => set_calling (Some (mkCall data seed [] None)) p
  end.

(** The next atomic step of [Write]; [err] is the answer of [Send] where it is called. *)
Definition Write_turn (err : option string) (p : ClientPool) : outcome ClientPool :=
  match calling p with
  | None => Returns p
  | Some k =>
      match inside k with
      | None =>
          if bool_decide (length (failed k) = length (managers p)) then Returns (finish k (failed k) false p)
          else
            (let! i := pool_index (length (failed k)) (seed k) (length (managers p)) in
             let! p := on_manager i (WriteLoad 0 (msgs k)) p in
             Returns (after_step k i p))%go
      | Some i =>
          match managers p !! i ≫= fun m => writers m !! 0 with
          | Some (Loaded c _) =>
              (let! p := on_manager i (WriteSend 0 err) p in
               Returns (match err with
                        | Some _ => p
                        | None => mkClientPool (managers p) (registrar p) (calling p)
                                    (transmitted p ++ [(i, c, msgs k)]) (results p)
                        end))%go
          | Some _ => (let! p := on_manager i (WriteNext 0) p in Returns (after_step k i p))%go
          | None => Returns p
          end
      end
  end.

(** A step of the goroutine of manager [i]. *)
Definition maintain_turn (i : nat) (tick : bool) (f : fetch) (p : ClientPool) : outcome ClientPool :=
  if bool_decide (i < length (managers p)) then on_manager i (Maintain tick f) p else Returns p.

End Pool.

Arguments call : clear implicits.
Arguments ClientPool : clear implicits.

(** ** The steps of one manager *)

Section Steps.

Context {A : Type} (max : Z).

Abbreviation manager_step := (do_step (A := A) V2Manager max).

(** The payload has been sent, and the call will return nil. *)
Definition success (st : writing A) : bool :=
  match st with
  | SendDone _ | Recycling _ | Closing _ None | Resetting None => true
  | _ => false
  end.

Definition is_loaded (st : writing A) : bool := match st with Loaded _ _ => true | _ => false end.

Lemma write_load_step (m : ConnManager A) d :
  writers m !! 0 = None ->
  let m' := manager_step m (WriteLoad 0 d) in
  (writers m' !! 0 = None /\ exists e, last (returned m') = Some (0, Some e)) \/
  (exists c, writers m' !! 0 = Some (Loaded c d)).
Proof.
  intros Hw. cbn [do_step]. unfold Write_load. rewrite Hw. destruct (conn m) as [c|].
  - right. exists c. simpl. by rewrite lookup_partial_alter_eq.
  - left. simpl. rewrite lookup_partial_alter_eq, last_snoc. eauto.
Qed.

Lemma write_send_step (m : ConnManager A) c d err :
  writers m !! 0 = Some (Loaded c d) ->
  writers (manager_step m (WriteSend 0 err)) !! 0 =
    Some (match err with None => SendDone c | Some e => SendFailed c e end).
Proof.
  intros Hw. cbn [do_step]. unfold Write_send. rewrite Hw. destruct err; simpl; by rewrite lookup_partial_alter_eq.
Qed.

Lemma write_next_step (m : ConnManager A) st :
  writers m !! 0 = Some st -> is_loaded st = false ->
  let m' := manager_step m (WriteNext 0) in
  (writers m' !! 0 = None /\ exists err, last (returned m') = Some (0, err) /\ (err = None <-> success st = true)) \/
  (exists st', writers m' !! 0 = Some st' /\ success st' = success st /\ is_loaded st' = false).
Proof.
  intros Hw Hl. cbn [do_step]. unfold Write_next. rewrite Hw.
  destruct st as [c d|c err|c|c|c err|err]; [done|..].
  - right. eexists. simpl. rewrite lookup_partial_alter_eq. done.
  - case_bool_decide; simpl; [right; eexists; by rewrite lookup_partial_alter_eq|].
    left. rewrite lookup_partial_alter_eq, last_snoc. split; [done|]. exists None. done.
  - right. eexists. simpl. by rewrite lookup_partial_alter_eq.
  - right. eexists. simpl. rewrite lookup_partial_alter_eq. by destruct err.
  - case_bool_decide; simpl; [|right; exists (Resetting err); by rewrite Hw].
    left. rewrite lookup_partial_alter_eq, last_snoc. split; [done|]. exists err. by destruct err.
Qed.

Lemma maintain_step (m : ConnManager A) tick f : writers (manager_step m (Maintain tick f)) = writers m.
Proof.
  cbn [do_step]. unfold maintainConn. destruct (maintainer m); try done.
  - destruct tick; [done|]. by destruct (reset m).
  - by destruct f.
Qed.

Definition call_delta (name : string) (c : gauge_call) : Z :=
  if bool_decide (gauge_name c = name) then match c with GInc _ => 1 | GDec _ => -1 end else 0.

Definition calls_delta (name : string) (l : list gauge_call) : Z := foldr (fun c n => call_delta name c + n)%Z 0%Z l.

(** The manager's own account of the gauges is what its calls on the registrar add up to. *)
Lemma step_health (m : ConnManager A) s :
  let m' := manager_step m s in
  dopplerConnections (health m') = (dopplerConnections (health m) + calls_delta connectionsGauge (step_calls m s))%Z /\
  dopplerStreams (health m') = (dopplerStreams (health m) + calls_delta streamsGauge (step_calls m s))%Z.
Proof.
  destruct s as [w d|w err|w|tick f]; cbn [do_step step_calls].
  - unfold Write_load. destruct (writers m !! w); [simpl; lia|]. destruct (conn m); simpl; lia.
  - unfold Write_send. destruct (writers m !! w) as [[]|]; try (simpl; lia). destruct err; simpl; lia.
  - unfold Write_next. destruct (writers m !! w) as [[c d|c err|c|c|c err|err]|]; try (simpl; lia).
    + case_bool_decide; simpl; lia.
    + unfold closer_Close, calls_delta, call_delta. simpl. lia.
    + case_bool_decide; simpl; lia.
  - unfold maintainConn. destruct (maintainer m); try (simpl; lia).
    + destruct tick; [simpl; lia|]. destruct (reset m); simpl; lia.
    + destruct f; simpl; unfold calls_delta, call_delta; simpl; lia.
Qed.

Lemma call_health_run (l : list gauge_call) h :
  Forall (fun c => is_Some (Health.gauges h !! gauge_name c)) l ->
  exists h', ofold call_health l h = Returns h' /\
    forall name g, Health.gauges h !! name = Some g -> Health.gauges h' !! name = Some (g + calls_delta name l)%Z.
Proof.
  revert h. induction l as [|c l IH]; intros h Hl.
  - exists h. split; [done|]. intros name g Hg. simpl. by rewrite Z.add_0_r.
  - apply Forall_cons in Hl as [[g Hg] Hl].
    assert (exists h1, call_health h c = Returns h1 /\
      forall name g, Health.gauges h !! name = Some g -> Health.gauges h1 !! name = Some (g + call_delta name c)%Z)
      as (h1 & E & H1).
    { destruct c as [n|n]; cbn [call_health gauge_name] in *; unfold Health.Inc, Health.Dec, Health.update; rewrite Hg;
        (eexists; split; [reflexivity|]); intros name g' Hg'; unfold call_delta; cbn [gauge_name Health.gauges];
        (destruct (decide (n = name)) as [<-|Hne]; [rewrite lookup_insert_eq, bool_decide_eq_true_2 by done; f_equal;
           assert (g' = g) by congruence; subst; lia|
         rewrite lookup_insert_ne, bool_decide_eq_false_2 by done; rewrite Hg'; f_equal; lia]). }
    simpl. rewrite E. simpl. destruct (IH h1) as (h' & E' & H').
    + eapply Forall_impl; [exact Hl|]. intros c' [x Hx]. rewrite (H1 _ _ Hx). eauto.
    + exists h'. split; [done|]. intros name g' Hg'. rewrite (H' _ _ (H1 _ _ Hg')). f_equal. simpl. lia.
Qed.

End Steps.

(** ** The pool *)

Section PoolInv.

Context {A : Type} (maxWrites : nat -> Z).

Definition legal_seed (n : nat) (seed : Z) : Prop := (0 <= seed)%Z /\ (seed + Z.of_nat n <= 2 ^ 63)%Z.

Definition total (f : ConnManager A -> Z) (l : list (ConnManager A)) : Z := foldr (fun m n => f m + n)%Z 0%Z l.

Lemma pool_total_insert f l i m m' : l !! i = Some m -> total f (<[i := m']> l) = (total f l + (f m' - f m))%Z.
Proof.
  revert i. induction l as [|x l IH]; intros [|i] Hi; [done..| |].
  - injection Hi as ->. simpl. lia.
  - change (<[S i := m']> (x :: l)) with (x :: <[i := m']> l). simpl. rewrite (IH i Hi). lia.
Qed.

Definition writer_of (p : ClientPool A) (i : nat) : option (writing A) := managers p !! i ≫= fun m => writers m !! 0.

Definition in_flight (p : ClientPool A) : list A :=
  match calling p with
  | Some k =>
      match inside k ≫= writer_of p with
      | Some st => if success st then [msgs k] else []
      | None => []
      end
  | None => []
  end.

Definition accepted (rs : list (A * list nat * bool)) : list A := (filter (fun r => r.2 = true) rs).*1.*1.

Lemma accepted_app a b : accepted (a ++ b) = accepted a ++ accepted b.
Proof. unfold accepted. by rewrite filter_app, !fmap_app. Qed.

(** A manager's state is one of a single writer. *)
Definition one_writer (i : nat) (m : ConnManager A) : Prop :=
  exists l, Forall by_writer0 l /\ m = run V2Manager (maxWrites i) l.

(** What a returned call says: the managers were tried in rotation, all of them if it failed. *)
Definition result_ok (n : nat) (r : A * list nat * bool) : Prop :=
  exists seed, legal_seed n seed /\ r.1.2 = take (length r.1.2) (rotation seed n) /\
    (r.2 = false -> r.1.2 = rotation seed n) /\ (r.2 = true -> r.1.2 <> []).

Record call_ok (p : ClientPool A) (k : call A) : Prop := {
  o_seed : legal_seed (length (managers p)) (seed k);
  o_failed : failed k = take (length (failed k)) (rotation (seed k) (length (managers p)));
  o_inside : forall i, inside k = Some i -> rotation (seed k) (length (managers p)) !! length (failed k) = Some i /\
    is_Some (writer_of p i)
}.

Record PoolInv (gc gs : Z) (p : ClientPool A) : Prop := {
  i_managers : forall i m, managers p !! i = Some m -> one_writer i m;
  i_connections : Health.gauges (registrar p) !! connectionsGauge =
    Some (gc + total (fun m => dopplerConnections (health m)) (managers p))%Z;
  i_streams : Health.gauges (registrar p) !! streamsGauge =
    Some (gs + total (fun m => dopplerStreams (health m)) (managers p))%Z;
  i_busy : forall i st, writer_of p i = Some st -> exists k, calling p = Some k /\ inside k = Some i /\
    (forall c d, st = Loaded c d -> d = msgs k);
  i_call : forall k, calling p = Some k -> call_ok p k;
  i_sent : (transmitted p).*2 = accepted (results p) ++ in_flight p;
  i_results : Forall (result_ok (length (managers p))) (results p)
}.

Lemma total_replicate f n (m : ConnManager A) : f m = 0%Z -> total f (replicate n m) = 0%Z.
Proof. intros Hm. induction n as [|n IH]; simpl; [done|]. rewrite IH, Hm. done. Qed.

Lemma NewManagers_Inv n h gc gs :
  Health.gauges h !! connectionsGauge = Some gc -> Health.gauges h !! streamsGauge = Some gs -> PoolInv gc gs (New n h).
Proof.
  intros Hc Hs. assert (forall i m, replicate n (NewConnManager (A := A)) !! i = Some m -> m = NewConnManager) as Hr.
  { intros i m Hi. by apply lookup_replicate in Hi as [-> _]. }
  split; cbn [New managers registrar calling results].
  - intros i m ->%Hr. by exists [].
  - rewrite total_replicate, Z.add_0_r by done. done.
  - rewrite total_replicate, Z.add_0_r by done. done.
  - unfold writer_of. simpl. intros i st (m & Hm & Hw)%bind_Some. apply Hr in Hm as ->. simpl in Hw; by rewrite lookup_empty in Hw.
  - done.
  - done.
  - done.
Qed.

(** What a step of one manager does to the pool. *)
Lemma on_manager_spec gc gs i m s p :
  PoolInv gc gs p -> managers p !! i = Some m -> by_writer0 s ->
  exists h, on_manager maxWrites i s p =
      Returns (mkClientPool (<[i := do_step V2Manager (maxWrites i) m s]> (managers p)) h (calling p) (transmitted p) (results p)) /\
    (let l := <[i := do_step V2Manager (maxWrites i) m s]> (managers p) in
     Health.gauges h !! connectionsGauge = Some (gc + total (fun m => dopplerConnections (health m)) l)%Z /\
     Health.gauges h !! streamsGauge = Some (gs + total (fun m => dopplerStreams (health m)) l)%Z /\
     forall j m', l !! j = Some m' -> one_writer j m').
Proof.
  intros [] Hm Hs. unfold on_manager. rewrite Hm.
  destruct (call_health_run (step_calls m s) (registrar p)) as (h & E & Hh).
  { assert (forall c, c ∈ step_calls m s -> gauge_name c = connectionsGauge \/ gauge_name c = streamsGauge) as Hn.
    { intros c Hc. unfold step_calls in Hc. destruct s as [| |w|tick f]; [set_solver..| |].
      - destruct (writers m !! w) as [[]|]; set_solver.
      - destruct (maintainer m); [set_solver..| |set_solver]. destruct f; set_solver. }
    apply Forall_forall. intros c [-> | ->]%Hn; eauto. }
  rewrite E. exists h. split; [done|]. destruct (step_health (maxWrites i) m s) as [Hd1 Hd2]. cbv zeta. split_and!.
  - rewrite (Hh _ _ i_connections0), (pool_total_insert _ _ _ _ _ Hm), Hd1. f_equal. lia.
  - rewrite (Hh _ _ i_streams0), (pool_total_insert _ _ _ _ _ Hm), Hd2. f_equal. lia.
  - intros j m' [(<- & <- & _)|[_ Hj]]%list_lookup_insert_Some; [|auto].
    destruct (i_managers0 i m Hm) as (l & Hl & ->). exists (l ++ [s]). split; [by apply Forall_app; split; [|constructor]|].
    unfold run. by rewrite foldl_app.
Qed.

(** The writer's state after a step of manager [i]. *)
Lemma writer_of_insert p i m m' h k tr rs j :
  managers p !! i = Some m ->
  writer_of (mkClientPool (<[i := m']> (managers p)) h k tr rs) j =
    if decide (i = j) then writers m' !! 0 else writer_of p j.
Proof.
  intros Hm. unfold writer_of. simpl. case_decide as E.
  - subst j. rewrite list_lookup_insert_eq; [done|]. by eapply lookup_lt_Some.
  - by rewrite list_lookup_insert_ne.
Qed.

Lemma maintain_turn_Inv gc gs i tick f p :
  PoolInv gc gs p -> exists p', maintain_turn maxWrites i tick f p = Returns p' /\ PoolInv gc gs p' /\
    transmitted p' = transmitted p /\ results p' = results p /\ calling p' = calling p.
Proof.
  intros HI. unfold maintain_turn. case_bool_decide as Hi; [|by exists p].
  destruct (lookup_lt_is_Some_2 _ _ Hi) as [m Hm].
  destruct (on_manager_spec gc gs i m (Maintain tick f) p HI Hm I) as (h & E & Hc & Hs & Ho). rewrite E.
  eexists. split; [reflexivity|]. split; [|done]. set (p' := mkClientPool _ _ _ _ _).
  assert (forall j, writer_of p' j = writer_of p j) as Hw.
  { intros j. unfold p'. rewrite (writer_of_insert p i m) by done. case_decide as Ej; [|done]. subst j.
    rewrite maintain_step. unfold writer_of. by rewrite Hm. }
  assert (length (managers p') = length (managers p)) as Hl by apply length_insert.
  destruct HI. split; [exact Ho|exact Hc|exact Hs| | | |].
  - intros j st. rewrite Hw. apply i_busy0.
  - intros k Hk. destruct (i_call0 k Hk). split; rewrite ?Hl; try done. intros j Hj. rewrite Hw. auto.
  - unfold in_flight. simpl. destruct (calling p) as [k|] eqn:Ek; [|by rewrite i_sent0; unfold in_flight; rewrite Ek].
    rewrite i_sent0. unfold in_flight. rewrite Ek. destruct (inside k) as [j|]; [|done]. simpl. by rewrite Hw.
  - by rewrite Hl.
Qed.

Lemma rotation_length seed n : length (rotation seed n) = n.
Proof. unfold rotation. by rewrite length_fmap, length_seq. Qed.

Lemma take_snoc_lookup {B} (l t : list B) i :
  t = take (length t) l -> l !! length t = Some i -> t ++ [i] = take (length (t ++ [i])) l.
Proof. intros Ht Hi. rewrite length_app, Nat.add_1_r, (take_S_r l _ i Hi). by rewrite <- Ht. Qed.

(** The invariant after a step of the only manager whose [Write] runs. *)
Lemma rebuild gc gs p i m m' h k' tr rs :
  let q := mkClientPool (<[i := m']> (managers p)) h k' tr rs in
  managers p !! i = Some m ->
  (forall j, j <> i -> writer_of p j = None) ->
  Health.gauges h !! connectionsGauge = Some (gc + total (fun m => dopplerConnections (health m)) (managers q))%Z ->
  Health.gauges h !! streamsGauge = Some (gs + total (fun m => dopplerStreams (health m)) (managers q))%Z ->
  (forall j x, managers q !! j = Some x -> one_writer j x) ->
  (forall st, writers m' !! 0 = Some st -> exists k, k' = Some k /\ inside k = Some i /\
    (forall c d, st = Loaded c d -> d = msgs k)) ->
  (forall k, k' = Some k -> legal_seed (length (managers p)) (seed k) /\
     failed k = take (length (failed k)) (rotation (seed k) (length (managers p))) /\
     (forall j, inside k = Some j -> j = i /\ is_Some (writers m' !! 0) /\
        rotation (seed k) (length (managers p)) !! length (failed k) = Some i)) ->
  tr.*2 = accepted rs ++ match k' with
    | Some k => match inside k ≫= fun _ => writers m' !! 0 with
                | Some st => if success st then [msgs k] else []
                | None => []
                end
    | None => []
    end ->
  Forall (result_ok (length (managers p))) rs ->
  PoolInv gc gs q.
Proof.
  intros q Hm Hoth Hc Hs Ho Hb Hk Hsent Hres.
  assert (length (managers q) = length (managers p)) as Hl by apply length_insert.
  assert (forall j, writer_of q j = if decide (i = j) then writers m' !! 0 else writer_of p j) as Hw
    by (intros j; by apply (writer_of_insert p i m)).
  split; [done|done|done| | | |by rewrite Hl].
  - intros j st. rewrite Hw. case_decide as E; [subst j; apply Hb|]. rewrite Hoth by done. done.
  - intros k Ek. destruct (Hk k Ek) as (H1 & H2 & H3). split; rewrite ?Hl; try done.
    intros j Hj. destruct (H3 j Hj) as (-> & H4 & H5). rewrite Hw, decide_True by done. done.
  - unfold in_flight. simpl. rewrite Hsent. f_equal. destruct k' as [k|]; [|done].
    destruct (inside k) as [j|] eqn:Ej; [|done]. destruct (Hk k eq_refl) as (_ & _ & H3).
    destruct (H3 j Ej) as (-> & _). simpl. by rewrite Hw, decide_True.
Qed.

Lemma Write_begin_Inv gc gs data sd p :
  PoolInv gc gs p -> legal_seed (length (managers p)) sd -> PoolInv gc gs (Write_begin data sd p).
Proof.
  intros HI Hsd. unfold Write_begin. destruct (calling p) as [k|] eqn:Ek; [done|]. destruct HI.
  split; cbn [set_calling managers registrar calling transmitted results]; try done.
  - intros i st Hw. destruct (i_busy0 i st) as (k & Hk & _); [exact Hw|congruence].
  - intros k [= <-]. by split.
  - rewrite i_sent0. unfold in_flight. by rewrite Ek.
Qed.

(** How a call goes on after a step that is not a [Send]. *)
Lemma after_step_Inv gc gs p i m m' h k :
  let q := mkClientPool (<[i := m']> (managers p)) h (calling p) (transmitted p) (results p) in
  PoolInv gc gs p -> managers p !! i = Some m -> calling p = Some k ->
  (forall j, j <> i -> writer_of p j = None) ->
  Health.gauges h !! connectionsGauge = Some (gc + total (fun m => dopplerConnections (health m)) (managers q))%Z ->
  Health.gauges h !! streamsGauge = Some (gs + total (fun m => dopplerStreams (health m)) (managers q))%Z ->
  (forall j x, managers q !! j = Some x -> one_writer j x) ->
  rotation (seed k) (length (managers p)) !! length (failed k) = Some i ->
  (writers m' !! 0 = None /\ exists err, last (returned m') = Some (0, err) /\
     in_flight p = (match err with None => [msgs k] | Some _ => [] end)) \/
  (exists st, writers m' !! 0 = Some st /\ (forall c d, st = Loaded c d -> d = msgs k) /\
     in_flight p = if success st then [msgs k] else []) ->
  PoolInv gc gs (after_step k i q).
Proof.
  intros q HI Hm Hk Hoth Hc Hs Ho Hrot Hstep. unfold after_step, q. cbn [managers].
  rewrite list_lookup_insert_eq by (by eapply lookup_lt_Some). pose proof HI as []. destruct (i_call0 k Hk) as [Hseed Hfailed _].
  destruct Hstep as [(Hw & err & Hlast & Hin)|(st & Hw & Hload & Hin)]; rewrite Hw.
  - rewrite Hlast. destruct err as [e|]; apply (rebuild gc gs p i m); cbn [set_calling finish managers transmitted results registrar]; try done.
    + intros st. by rewrite Hw.
    + intros k' [= <-]. cbn [seed failed inside]. split; [done|]. split; [by apply take_snoc_lookup|done].
    + cbn [inside]. by rewrite i_sent0, Hin.
    + intros st. by rewrite Hw.
    + rewrite i_sent0, Hin, accepted_app, app_nil_r. done.
    + apply Forall_app. split; [done|]. constructor; [|constructor]. exists (seed k). cbn [fst snd].
      split; [done|]. split; [by apply take_snoc_lookup|]. split; [done|]. intros _ E. by apply app_nil in E as [_ ?].
  - apply (rebuild gc gs p i m); cbn [set_calling managers transmitted results registrar]; try done.
    + intros st' E. rewrite Hw in E. injection E as <-. eauto.
    + intros k' [= <-]. cbn [seed failed inside]. split; [done|]. split; [done|].
      intros j [= <-]. by rewrite Hw.
    + cbn [inside mbind option_bind]. by rewrite Hw, i_sent0, Hin.
Qed.

(** A step of a call leaves it running or ends it with a result. *)
Definition progress (p p' : ClientPool A) : Prop :=
  length (managers p') = length (managers p) /\
  match calling p with
  | None => calling p' = None /\ results p' = results p
  | Some k => (exists k', calling p' = Some k' /\ msgs k' = msgs k /\ results p' = results p) \/
      (calling p' = None /\ exists tried ok, results p' = results p ++ [(msgs k, tried, ok)])
  end.

Lemma after_step_progress p m' h i k :
  calling p = Some k ->
  progress p (after_step k i (mkClientPool (<[i := m']> (managers p)) h (calling p) (transmitted p) (results p))).
Proof.
  intros Hk. unfold progress. rewrite Hk. unfold after_step. cbn [managers].
  destruct (<[i := m']> (managers p) !! i) as [x|]; [|split; [apply length_insert|left; eauto]].
  destruct (writers x !! 0); [split; [apply length_insert|left; eauto]|].
  destruct (last (returned x)) as [[w [e|]]|]; (split; [apply length_insert|]); [left; eauto|right; eauto|left; eauto].
Qed.

Lemma rotation_index seed n i :
  legal_seed n seed -> i < n ->
  exists x, pool_index i seed n = Returns x /\ rotation seed n !! i = Some x /\ x < n.
Proof.
  intros [H0 H1] Hi. exists (Z.to_nat ((Z.of_nat i + seed) mod Z.of_nat n)).
  split; [by apply pool_index_rotates|]. split.
  - unfold rotation. rewrite list_lookup_fmap, lookup_seq_lt by done. done.
  - pose proof (Z.mod_pos_bound (Z.of_nat i + seed) (Z.of_nat n)). lia.
Qed.

Lemma idle_others gc gs p k : PoolInv gc gs p -> calling p = Some k ->
  forall j, (forall i, inside k = Some i -> j <> i) -> writer_of p j = None.
Proof.
  intros [] Hk j Hj. destruct (writer_of p j) as [st|] eqn:E; [|done]. destruct (i_busy0 j st E) as (k' & Hk' & Hi & _).
  assert (k' = k) as -> by congruence. by destruct (Hj j Hi).
Qed.

Lemma in_flight_outside p k : calling p = Some k -> inside k = None -> in_flight p = [].
Proof. intros Hk Hi. unfold in_flight. by rewrite Hk, Hi. Qed.

Lemma in_flight_inside p k i st : calling p = Some k -> inside k = Some i -> writer_of p i = Some st ->
  in_flight p = if success st then [msgs k] else [].
Proof. intros Hk Hi Hw. unfold in_flight. rewrite Hk, Hi. simpl. by rewrite Hw. Qed.

(** The loop of the pool tries the next manager. *)
Lemma try_next_Inv gc gs p k :
  PoolInv gc gs p -> calling p = Some k -> inside k = None -> length (failed k) <> length (managers p) ->
  exists p', (let! i := pool_index (length (failed k)) (seed k) (length (managers p)) in
     let! p := on_manager maxWrites i (WriteLoad 0 (msgs k)) p in Returns (after_step k i p))%go = Returns p' /\
    PoolInv gc gs p' /\ progress p p'.
Proof.
  intros HI Hk Hin Hne. destruct (i_call _ _ _ HI k Hk) as [Hseed Hfailed _].
  assert (length (failed k) < length (managers p)) as Hlt.
  { assert (length (failed k) <= length (managers p)); [|lia]. rewrite Hfailed, length_take, rotation_length. lia. }
  destruct (rotation_index _ _ _ Hseed Hlt) as (i & -> & Hrot & Hi). cbn [obind].
  destruct (lookup_lt_is_Some_2 _ _ Hi) as [m Hm].
  assert (forall j, writer_of p j = None) as Hnone.
  { intros j. apply (idle_others gc gs p k HI Hk). congruence. }
  destruct (on_manager_spec gc gs i m (WriteLoad 0 (msgs k)) p HI Hm eq_refl) as (h & -> & Hc & Hs & Ho). cbn [obind].
  eexists. split; [reflexivity|]. split; [|by apply after_step_progress].
  apply (after_step_Inv gc gs p i m); try done.
  assert (writers m !! 0 = None) as Hw by (specialize (Hnone i); unfold writer_of in Hnone; by rewrite Hm in Hnone).
  rewrite (in_flight_outside p k Hk Hin).
  destruct (write_load_step (maxWrites i) m (msgs k) Hw) as [(H1 & e & H2)|(c & H1)].
  - left. split; [done|]. by exists (Some e).
  - right. eexists. split; [exact H1|]. split; [|done]. by intros c' d [= _ <-].
Qed.

(** The outcome of a send on the connection of the manager in use. *)
Lemma send_turn_Inv gc gs err p k i m c d :
  PoolInv gc gs p -> calling p = Some k -> inside k = Some i -> managers p !! i = Some m ->
  writers m !! 0 = Some (Loaded c d) ->
  exists p', Write_turn maxWrites err p = Returns p' /\ PoolInv gc gs p' /\ progress p p'.
Proof.
  intros HI Hk Hin Hm Hw. unfold Write_turn. rewrite Hk, Hin.
  pose proof (i_call _ _ _ HI k Hk) as [Hseed Hfailed Hinside]. destruct (Hinside i Hin) as [Hrot _].
  assert (writer_of p i = Some (Loaded c d)) as Hst by (unfold writer_of; by rewrite Hm).
  assert (forall j, j <> i -> writer_of p j = None) as Hoth.
  { intros j Hj. apply (idle_others gc gs p k HI Hk). congruence. }
  rewrite Hm. cbn [mbind option_bind]. rewrite Hw.
  destruct (on_manager_spec gc gs i m (WriteSend 0 err) p HI Hm eq_refl) as (h & -> & Hc & Hs & Ho). cbn [obind].
  pose proof (write_send_step (maxWrites i) m c d err Hw) as Hw'. pose proof HI as [].
  pose proof (in_flight_inside p k i _ Hk Hin Hst) as Hfl. cbn [success] in Hfl.
  assert (forall tr, tr.*2 = (transmitted p).*2 ++ (match err with None => [msgs k] | Some _ => [] end) ->
    PoolInv gc gs (mkClientPool (<[i := do_step V2Manager (maxWrites i) m (WriteSend 0 err)]> (managers p)) h
      (Some k) tr (results p))) as Hre.
  { intros tr Htr. apply (rebuild gc gs p i m); try done.
    - intros st' E. rewrite Hw' in E. injection E as <-. exists k. split; [done|]. split; [done|]. by destruct err.
    - intros k' [= <-]. split; [done|]. split; [done|]. intros j Hj. assert (j = i) as -> by congruence. by rewrite Hw'.
    - rewrite Htr, i_sent0, Hfl, app_nil_r, Hin. simpl. simpl in Hw'. rewrite Hw'. by destruct err. }
  rewrite Hk. destruct err as [e|]; (eexists; split; [reflexivity|]; split; [apply Hre|]).
  - by rewrite app_nil_r.
  - split; [apply length_insert|]. rewrite Hk. left. eauto.
  - simpl. by rewrite fmap_app.
  - split; [apply length_insert|]. rewrite Hk. left. eauto.
Qed.

(** Between managers: the next one is tried, or the batch is refused after the last. *)
Lemma loop_turn_Inv gc gs err p k :
  PoolInv gc gs p -> calling p = Some k -> inside k = None ->
  exists p', Write_turn maxWrites err p = Returns p' /\ PoolInv gc gs p' /\ progress p p'.
Proof.
  intros HI Hk Hin. pose proof (i_call _ _ _ HI k Hk) as [Hseed Hfailed Hinside]. unfold Write_turn. rewrite Hk, Hin.
  case_bool_decide as Hall; [|by apply try_next_Inv].
  eexists. split; [reflexivity|]. pose proof HI as []. split; [|split; [done|]; rewrite Hk; right; simpl; eauto].
  split; cbn [finish managers registrar calling transmitted results]; try done.
  - intros j st Hw. destruct (i_busy0 j st Hw) as (k' & Hk' & Hi' & _). congruence.
  - rewrite i_sent0, (in_flight_outside p k Hk Hin), accepted_app. by rewrite !app_nil_r.
  - apply Forall_app. split; [done|]. constructor; [|constructor]. exists (seed k). cbn [fst snd].
    split; [done|]. split; [done|]. split; [|done]. intros _. rewrite Hfailed, Hall.
    apply take_ge. by rewrite rotation_length.
Qed.

Lemma Write_turn_Inv gc gs err p :
  PoolInv gc gs p -> exists p', Write_turn maxWrites err p = Returns p' /\ PoolInv gc gs p' /\ progress p p'.
Proof.
  intros HI. destruct (calling p) as [k|] eqn:Hk;
    [|exists p; unfold Write_turn; rewrite Hk; split; [done|]; split; [done|]; by split; [|rewrite Hk]].
  pose proof (i_call _ _ _ HI k Hk) as [Hseed Hfailed Hinside]. destruct (inside k) as [i|] eqn:Hin.
  - destruct (Hinside i eq_refl) as [Hrot [st Hst]].
    assert (forall j, j <> i -> writer_of p j = None) as Hoth.
    { intros j Hj. apply (idle_others gc gs p k HI Hk). congruence. }
    pose proof Hst as (m & Hm & Hw)%bind_Some. destruct (is_loaded st) eqn:El.
    + destruct st; try done. by eapply (send_turn_Inv gc gs err p k i m).
    + unfold Write_turn. rewrite Hk, Hin. change (managers p !! i ≫= fun m => writers m !! 0) with (writer_of p i).
      rewrite Hst.
      destruct (on_manager_spec gc gs i m (WriteNext 0) p HI Hm eq_refl) as (h & E & Hc & Hs & Ho).
      assert ((let! q := on_manager maxWrites i (WriteNext 0) p in Returns (after_step k i q))%go =
        Returns (after_step k i (mkClientPool (<[i := do_step V2Manager (maxWrites i) m (WriteNext 0)]> (managers p)) h
          (calling p) (transmitted p) (results p)))) as Eq by (by rewrite E).
      eexists. split; [destruct st; done|]. split; [|by apply after_step_progress].
      apply (after_step_Inv gc gs p i m); try done. rewrite (in_flight_inside p k i st Hk Hin Hst).
      destruct (write_next_step (maxWrites i) m st Hw El) as [(H1 & er & H2 & H3)|(st' & H1 & H2 & H3)].
      * left. split; [done|]. exists er. split; [done|]. destruct (success st), er; naive_solver.
      * right. exists st'. split; [done|]. split; [by intros c d ->|]. by rewrite H2.
  - by apply (loop_turn_Inv gc gs err p k).
Qed.

End PoolInv.

(** ** The transponder on top of the pool *)

Section Egress.

Context (sha1 : string -> string) (value_String : option V2.Value -> string) (ord : RangeOrder string).
Context (tags : gmap string string) (batchSize : Z) (maxWrites : nat -> Z).

Abbreviation tx_turn := (Start_turn sha1 value_String ord tags batchSize).

(** The batch a turn of the transponder writes to the pool, if it writes one. *)
Definition turn_batch (t : Transponder) (u : turn) : option (list envelope) :=
  if (match next u with None => true | Some _ => false end) && negb (batchReady batchSize (batch t) (elapsed1 u)) then None
  else
    let b := match next u with Some e => batch t ++ [addTags ord tags e] | None => batch t end in
    if batchReady batchSize b (elapsed2 u) then Some (CounterAggregator_Write sha1 value_String ord (counterTotals t) b).2
    else None.

Definition with_answer (u : turn) (ok : bool) : turn := mkTurn (next u) (elapsed1 u) (elapsed2 u) ok.

(** The transponder, the pool, the turn that waits for [Write] to return, and the turns done. *)
Record Egress : Type := mkEgress {
  tx : Transponder; pool : ClientPool (list envelope); waiting : option turn; turns : list turn }.

Inductive egress_event : Type :=
| TxTurn (u : turn) (seed : Z)
| PoolStep (err : option string)
| PoolMaintain (i : nat) (tick : bool) (f : fetch).

Definition egress_step (s : Egress) (e : egress_event) : outcome Egress :=
  match e with
  | TxTurn u seed =>
      Returns (match waiting s with
               | Some _ => s
               | None =>
                   match turn_batch (tx s) u with
                   | None => mkEgress (tx_turn (tx s) u) (pool s) None (turns s ++ [u])
                   | Some b => mkEgress (tx s) (Write_begin b seed (pool s)) (Some u) (turns s)
                   end
               end)
  | PoolStep err =>
      (let! p := Write_turn maxWrites err (pool s) in
       Returns (match waiting s, calling p with
                | Some u, None =>
                    let u := with_answer u (match last (results p) with Some r => r.2 | None => false end) in
                    mkEgress (tx_turn (tx s) u) p None (turns s ++ [u])
                | _, _ => mkEgress (tx s) p (waiting s) (turns s)
                end))%go
  | PoolMaintain i tick f =>
      (let! p := maintain_turn maxWrites i tick f (pool s) in Returns (mkEgress (tx s) p (waiting s) (turns s)))%go
  end.

Definition NewEgress (n : nat) (h : Health.Registrar) : Egress := mkEgress NewTransponder (New n h) None [].

Definition legal_egress (n : nat) (e : egress_event) : Prop :=
  match e with TxTurn _ seed => legal_seed n seed | _ => True end.

(** *** Invariant *)

Definition answers (rs : list (list envelope * list nat * bool)) : list (list envelope * bool) :=
  (fun r => (r.1.1, r.2)) <$> rs.

Record EgressInv (gc gs : Z) (n : nat) (s : Egress) : Prop := {
  e_pool : PoolInv maxWrites gc gs (pool s);
  e_length : length (managers (pool s)) = n;
  e_tx : tx s = foldl tx_turn NewTransponder (turns s);
  e_pooled : pooled (tx s) = answers (results (pool s));
  e_waiting : match waiting s with
    | None => calling (pool s) = None
    | Some u => exists k, calling (pool s) = Some k /\ turn_batch (tx s) u = Some (msgs k)
    end
}.

Lemma turn_pooled t u :
  pooled (tx_turn t u) = pooled t ++ (match turn_batch t u with Some b => [(b, pool_ok u)] | None => [] end).
Proof.
  unfold Start_turn, turn_batch. destruct (_ && _); [by rewrite app_nil_r|].
  destruct (batchReady _ _ (elapsed2 u)); [|by rewrite app_nil_r]. unfold write. cbn [batch counterTotals].
  destruct (CounterAggregator_Write _ _ _ _ _) as [totals ms]. by destruct (pool_ok u).
Qed.

Lemma egress_step_Inv gc gs n s e :
  EgressInv gc gs n s -> legal_egress n e -> exists s', egress_step s e = Returns s' /\ EgressInv gc gs n s'.
Proof.
  intros [] He. destruct e as [u sd|err|i tick f]; cbn [egress_step].
  - eexists. split; [reflexivity|]. destruct (waiting s) as [w|] eqn:Ew; [split; try done; by rewrite Ew|].
    destruct (turn_batch (tx s) u) as [b|] eqn:Eb.
    + split; cbn [tx pool waiting turns]; try done.
      * apply Write_begin_Inv; [done|]. by rewrite e_length0.
      * unfold Write_begin. by rewrite e_waiting0.
      * unfold Write_begin. by rewrite e_waiting0.
      * unfold Write_begin. rewrite e_waiting0. simpl. eauto.
    + split; cbn [tx pool waiting turns]; try done.
      * rewrite foldl_app. simpl. by rewrite e_tx0.
      * by rewrite turn_pooled, Eb, app_nil_r.
  - destruct (Write_turn_Inv maxWrites gc gs err (pool s) e_pool0) as (p & -> & HI & Hl & Hp). cbn [obind].
    eexists. split; [reflexivity|]. destruct (waiting s) as [u|] eqn:Ew.
    + destruct e_waiting0 as (k & Hk & Hb). rewrite Hk in Hp.
      destruct Hp as [(k' & Hk' & Hm & Hr)|(Hk' & tried & ok & Hr)]; rewrite Hk'.
      * split; cbn [tx pool waiting turns]; try done; [congruence|by rewrite Hr|]. exists k'. by rewrite Hm.
      * rewrite Hr, last_snoc. split; cbn [tx pool waiting turns snd]; try done; [congruence| |].
        -- rewrite foldl_app. simpl. by rewrite e_tx0.
        -- rewrite turn_pooled, Hr. unfold answers. rewrite fmap_app. fold answers. rewrite e_pooled0.
           change (turn_batch (tx s) (with_answer u ok)) with (turn_batch (tx s) u). by rewrite Hb.
    + rewrite e_waiting0 in Hp. destruct Hp as [Hk' Hr]. split; cbn [tx pool waiting turns]; try done; [congruence|by rewrite Hr].
  - destruct (maintain_turn_Inv maxWrites gc gs i tick f (pool s) e_pool0) as (p & E & HI & Htr & Hr & Hk).
    rewrite E. cbn [obind]. eexists. split; [reflexivity|]. split; cbn [tx pool waiting turns]; try done.
    + unfold maintain_turn in E. case_bool_decide; [|by injection E as <-]. unfold on_manager in E.
      destruct (managers (pool s) !! i); [|done]. destruct (ofold _ _ _); [|done]. injection E as <-.
      cbn [managers]. by rewrite length_insert.
    + by rewrite Hr.
    + by rewrite Hk.
Qed.

Definition count (rs : list (list envelope * list nat * bool)) (ok : bool) : Z :=
  foldr (fun r n => (if bool_decide (r.2 = ok) then Z.of_nat (length r.1.1) else 0) + n)%Z 0%Z rs.

Lemma sizes_answers ok rs : sizes ok (answers rs) = count rs ok.
Proof. induction rs as [|r rs IH]; [done|]. simpl. by rewrite IH. Qed.

Definition open_connections (m : ConnManager (list envelope)) : Z :=
  Z.of_nat (length (filter (fun g => closes g = 0) (conns m))).

Lemma total_streams l :
  (forall i m, l !! i = Some m -> one_writer maxWrites i m) -> (forall i, maxWrites i < 2 ^ 63)%Z ->
  total (fun m => dopplerStreams (health m)) l = total open_connections l /\
  total (fun m => dopplerConnections (health m)) l =
    (total open_connections l + total (fun m => Z.of_nat (streamErrors m)) l)%Z.
Proof.
  intros Hl Hmax. assert (forall m, m ∈ l -> dopplerStreams (health m) = open_connections m /\
    dopplerConnections (health m) = (open_connections m + Z.of_nat (streamErrors m))%Z) as H.
  { intros m [i Hi]%list_elem_of_lookup. destruct (Hl i m Hi) as (l' & Hl' & ->).
    destruct (single_writer_facts V2Manager (maxWrites i) l' (Hmax i) Hl') as (_ & H1 & H2).
    split; [exact H1|]. unfold open_connections. rewrite <- H1. exact H2. }
  clear Hl. induction l as [|m l IH]; [done|]. destruct (H m) as [H1 H2]; [set_solver|].
  destruct IH as [IH1 IH2]; [set_solver|]. simpl. lia.
Qed.

Lemma egress_run gc gs n l s :
  EgressInv gc gs n s -> Forall (legal_egress n) l -> exists s', ofold egress_step l s = Returns s' /\ EgressInv gc gs n s'.
Proof.
  intros Hs Hl. apply (ofold_returns (EgressInv gc gs n)); [|done]. intros s' e Hs' He.
  rewrite Forall_forall in Hl. apply egress_step_Inv; auto.
Qed.

Lemma NewEgress_Inv n h gc gs :
  Health.gauges h !! connectionsGauge = Some gc -> Health.gauges h !! streamsGauge = Some gs ->
  EgressInv gc gs n (NewEgress n h).
Proof. intros Hc Hs. split; try done; [by apply NewManagers_Inv|apply length_replicate]. Qed.


End Egress.

(** ** Example: two managers, the first stream fails, the second batch is refused *)

Module EgressExample.

Definition gauges : Health.Registrar := Health.mkRegistrar {[connectionsGauge := 0%Z; streamsGauge := 0%Z]}.

Definition env (source : string) : envelope := V2.mkEnvelope 7 source EmptyString ∅ ∅ None.

Definition connect (i : nat) : list egress_event :=
  [PoolMaintain i false NoAddress; PoolMaintain i false NoAddress; PoolMaintain i false NoAddress;
   PoolMaintain i false Established; PoolMaintain i false NoAddress].

Definition turn_of (s : string) : turn := mkTurn (Some (env s)) false false false.

Definition events : list egress_event :=
  connect 0 ++ connect 1
  ++ [TxTurn (turn_of "a") 0; TxTurn (turn_of "b") 0]
  ++ [PoolStep None; PoolStep (Some "broken"%string); PoolStep None; PoolStep None; PoolStep None;
      PoolStep None; PoolStep None; PoolStep None; PoolStep None; PoolStep None; PoolStep None]
  ++ [TxTurn (turn_of "c") 1; TxTurn (turn_of "d") 1; PoolStep None; PoolStep None; PoolStep None].

Abbreviation run := (fun l => ofold (egress_step (fun s => s) (fun _ => EmptyString) default_order ∅ 2 (fun _ => 1%Z)) l
  (NewEgress 2 gauges)).

End EgressExample.

