(* ===== verification/GrpcServer.v ===== *)
(** * doppler/internal/grpcmanager/v1/doppler_server.go: the gRPC subscriptions of doppler

    Calls of [Subscribe] run concurrently with each other and with the message router, which
    writes into their diodes.  A call is modelled by its atomic steps, from the increment of
    the subscription count to its decrement. *)

From S2P Require Import Prelude Go Events Diode Router MetricEmitter.

#[local] Open Scope go_scope.

(** ** The dumper *)

Class DataDumper (S : Type) : Type := {
  LatestContainerMetrics : string -> S -> outcome (S * list V1.Envelope);
  RecentLogsFor : string -> S -> outcome (list V1.Envelope)
}.

(** ** The server *)

(** Where a call of [Subscribe] stands: the subscription is counted, then the health gauge
    raised, then the diode registered; the registration goes, then the gauge, then the count. *)
Inductive phase : Type :=
| Counted
| Gauged
| Looping
| Cleaned (err : option string)
| Lowered (err : option string)
| Returned (err : option string).

Record call {D : Type} : Type := mkCall {
  c_req : SubscriptionRequest;
  c_phase : phase;
  c_done : bool;
  c_diode : D;
  c_offered : list string;
  c_sent : list string;
  c_failed : list string;
  c_missed : nat
}.
Arguments call : clear implicits.

(** The server, the calls it serves, and the values it has emitted.  A diode is known by the
    number of its call. *)
Record DopplerServer {D : Type} : Type := mkServer {
  registrar : Router.Router;
  numSubscriptions : Z;
  egressMetric : Counter;
  egressDroppedMetric : Counter;
  health : Health.Registrar;
  calls : list (call D);
  emitted : list (string * Z * string)
}.
Arguments DopplerServer : clear implicits.

Definition subscriptionCount : string := "subscriptionCount".

Section Server.

Context {D : Type} `{DiodeLaws string D}.
Context (marshal : V1.Envelope -> option string).

Definition NewDopplerServer (ord : RangeOrder string) (registrar : Router.Router) (c : MetricEmitter.Client)
  (health : Health.Registrar) : DopplerServer D :=
  mkServer D registrar 0
    (Client_NewCounter ord c "egress" [WithVersion ord 2 0])
    (Client_NewCounter ord c "dropped"
       [WithVersion ord 2 0; WithTags ord {["direction"%string := "egress"%string]}])
    health [] [].

Definition set_call (i : nat) (c : call D) (m : DopplerServer D) : DopplerServer D :=
  mkServer D (registrar m) (numSubscriptions m) (egressMetric m) (egressDroppedMetric m) (health m)
    (<[i := c]> (calls m)) (emitted m).

Definition set_registrar (r : Router.Router) (m : DopplerServer D) : DopplerServer D :=
  mkServer D r (numSubscriptions m) (egressMetric m) (egressDroppedMetric m) (health m) (calls m) (emitted m).

Definition set_health (h : Health.Registrar) (m : DopplerServer D) : DopplerServer D :=
  mkServer D (registrar m) (numSubscriptions m) (egressMetric m) (egressDroppedMetric m) h (calls m) (emitted m).

(** [atomic.AddInt64(&m.numSubscriptions, n)] *)
Definition add_subscriptions (n : Z) (m : DopplerServer D) : DopplerServer D :=
  mkServer D (registrar m) (Words.int64 (numSubscriptions m + n)) (egressMetric m) (egressDroppedMetric m)
    (health m) (calls m) (emitted m).

Definition count_egress (m : DopplerServer D) : DopplerServer D :=
  mkServer D (registrar m) (numSubscriptions m) (Increment (egressMetric m) 1) (egressDroppedMetric m) (health m)
    (calls m) (emitted m).

Definition Alert (missed : Z) (m : DopplerServer D) : DopplerServer D :=
  mkServer D (registrar m) (numSubscriptions m) (egressMetric m)
    (Increment (egressDroppedMetric m) (Words.uint64 missed)) (health m) (calls m) (emitted m).

Definition with_phase (p : phase) (c : call D) : call D :=
  mkCall D (c_req c) p (c_done c) (c_diode c) (c_offered c) (c_sent c) (c_failed c) (c_missed c).

(** The beginning of [Subscribe]. *)
Definition Subscribe_enter (req : SubscriptionRequest) (m : DopplerServer D) : DopplerServer D :=
  let m := add_subscriptions 1 m in
  mkServer D (registrar m) (numSubscriptions m) (egressMetric m) (egressDroppedMetric m) (health m)
    (calls m ++ [mkCall D req Counted false NewDiode [] [] [] 0]) (emitted m).

(** The deferred [cleanup] of [sendData]. *)
Definition sendData_return (i : nat) (c : call D) (err : option string) (m : DopplerServer D) : DopplerServer D :=
  set_call i (with_phase (Cleaned err) c) (set_registrar (snd (Register (c_req c) i (registrar m)) (registrar m)) m).

(** One turn of the loop of [sendData]; [send] is the error of [Send] and [ctx] that of the
    context. *)
Definition sendData_turn (i : nat) (c : call D) (send ctx : option string) (m : DopplerServer D) : DopplerServer D :=
  if c_done c then sendData_return i c ctx m else
  let '(d, missed, data) := TryNext (c_diode c) in
  let m := if bool_decide (missed = 0) then m else Alert (Z.of_nat missed) m in
  let read sent failed :=
    mkCall D (c_req c) Looping (c_done c) d (c_offered c) sent failed (c_missed c + missed) in
  match data with
  | None => set_call i (read (c_sent c) (c_failed c)) m
  | Some data =>
      match send with
      | Some err => sendData_return i (read (c_sent c) (c_failed c ++ [data])) (Some err) m
      | None => count_egress (set_call i (read (c_sent c ++ [data]) (c_failed c)) m)
      end
  end.

(** The next step of a call. *)
Definition Subscribe_next (i : nat) (c : call D) (send ctx : option string) (m : DopplerServer D)
  : outcome (DopplerServer D) :=
  match c_phase c with
  | Counted =>
      let! h := Health.Inc (health m) subscriptionCount in
      Returns (set_call i (with_phase Gauged c) (set_health h m))
  | Gauged => Returns (set_call i (with_phase Looping c) (set_registrar (fst (Register (c_req c) i (registrar m))) m))
  | Looping => Returns (sendData_turn i c send ctx m)
  | Cleaned err =>
      let! h := Health.Dec (health m) subscriptionCount in
      Returns (set_call i (with_phase (Lowered err) c) (set_health h m))
  | Lowered err => Returns (set_call i (with_phase (Returned err) c) (add_subscriptions (-1) m))
  | Returned _ => Returns m
  end.

(** [monitorContext], which [sendData] starts after the registration. *)
Definition monitorContext (c : call D) : call D :=
  match c_phase c with
  | Counted | Gauged => c
  | _ => mkCall D (c_req c) (c_phase c) true (c_diode c) (c_offered c) (c_sent c) (c_failed c) (c_missed c)
  end.

(** A tick of [emitMetrics]. *)
Definition emitMetrics_tick (m : DopplerServer D) : DopplerServer D :=
  mkServer D (registrar m) (numSubscriptions m) (egressMetric m) (egressDroppedMetric m) (health m) (calls m)
    (emitted m ++ [("grpcManager.subscriptions"%string, numSubscriptions m, "subscriptions"%string)]).

(** The payload of [RecentLogs] and [ContainerMetrics]: what does not marshal is left out. *)
Fixpoint marshalEnvelopes (l : list V1.Envelope) : list string :=
  match l with
  | [] => []
  | e :: l => match marshal e with
              | None => marshalEnvelopes l
              | Some b => b :: marshalEnvelopes l
              end
  end.

(** The two queries, over a dumper with the state [S]; reading container metrics purges the
    old ones. *)
Definition ContainerMetrics {S} `{DataDumper S} (appID : string) (dumper : S) : outcome (S * list string) :=
  let! (dumper, envelopes) := LatestContainerMetrics appID dumper in
  Returns (dumper, marshalEnvelopes envelopes).

Definition RecentLogs {S} `{DataDumper S} (appID : string) (dumper : S) : outcome (list string) :=
  let! envelopes := RecentLogsFor appID dumper in
  Returns (marshalEnvelopes envelopes).

(** [Set] on the diode of a call. *)
Definition offer (data : string) (l : list (call D)) (i : nat) : list (call D) :=
  alter (fun c => mkCall D (c_req c) (c_phase c) (c_done c) (Set_data data (c_diode c)) (c_offered c ++ [data])
    (c_sent c) (c_failed c) (c_missed c)) i l.

Definition offers (data : string) (l : list nat) (m : DopplerServer D) : DopplerServer D :=
  mkServer D (registrar m) (numSubscriptions m) (egressMetric m) (egressDroppedMetric m) (health m)
    (foldl (offer data) (calls m) l) (emitted m).

(** The router's [SendTo] over the diodes of the calls. *)
Definition SendTo (ord : RangeOrder string) (draw : filter_ -> string -> nat -> nat) (app : string) (e : V1.Envelope)
  (m : DopplerServer D) : outcome (DopplerServer D) :=
  let! l := Router.SendTo marshal ord draw app e (registrar m) in
  Returns (offers (default EmptyString (marshal e)) l m).

(** ** Executions *)

Inductive server_event : Type :=
| Call (req : SubscriptionRequest)
| Next (i : nat) (send ctx : option string)
| Cancel (i : nat)
| Envelope (ord : RangeOrder string) (draw : filter_ -> string -> nat -> nat) (app : string) (e : V1.Envelope)
| Tick.

Definition server_step (m : DopplerServer D) (ev : server_event) : outcome (DopplerServer D) :=
  match ev with
  | Call req => Returns (Subscribe_enter req m)
  | Next i send ctx =>
      match calls m !! i with
      | Some c => Subscribe_next i c send ctx m
      | None => Returns m
      end
  | Cancel i =>
      match calls m !! i with
      | Some c => Returns (set_call i (monitorContext c) m)
      | None => Returns m
      end
  | Envelope ord draw app e => SendTo ord draw app e m
  | Tick => Returns (emitMetrics_tick m)
  end.

Definition legal_draw (ev : server_event) : Prop :=
  match ev with Envelope _ draw _ _ => Router.in_range draw | _ => True end.

(** ** The invariant *)

Definition sum_calls (f : call D -> Z) (m : DopplerServer D) : Z := total (f <$> calls m).

(** Whether a call is in the subscription count and in the gauge. *)
Definition counted (c : call D) : Z := match c_phase c with Returned _ => 0 | _ => 1 end.
Definition gauged (c : call D) : Z :=
  match c_phase c with Counted | Lowered _ | Returned _ => 0 | _ => 1 end.

(** What was set on the diode was sent, failed, is unread or was missed. *)
Record call_ok (c : call D) : Prop := {
  ok_order : (c_sent c ++ c_failed c ++ unread (c_diode c)) `sublist_of` c_offered c;
  ok_missed : length (c_offered c) = length (c_sent c ++ c_failed c ++ unread (c_diode c)) + c_missed c;
  ok_failed : match c_phase c with
    | Counted | Gauged | Looping => c_failed c = []
    | _ => length (c_failed c) <= 1
    end
}.

(** A call is in the subscription group of its request while it loops. *)
Definition subscribed (m : DopplerServer D) (f : filter_) (id : string) (i : nat) : Prop :=
  exists c, calls m !! i = Some c /\ c_phase c = Looping /\ convertFilter (c_req c) = f /\ ShardID (c_req c) = id.

Record ServerInv (g0 : Z) (m : DopplerServer D) : Prop := {
  inv_count : numSubscriptions m = Words.int64 (sum_calls counted m);
  inv_gauge : Health.gauges (health m) !! subscriptionCount = Some (g0 + sum_calls gauged m)%Z;
  inv_wf : router_wf (registrar m);
  inv_members f id i : i ∈ members (registrar m) f id <-> subscribed m f id i;
  inv_NoDup f id : NoDup (members (registrar m) f id);
  inv_calls : Forall call_ok (calls m);
  inv_egress : GetDelta (egressMetric m) = Words.uint64 (sum_calls (fun c => Z.of_nat (length (c_sent c))) m);
  inv_dropped : GetDelta (egressDroppedMetric m) = Words.uint64 (sum_calls (fun c => Z.of_nat (c_missed c)) m)
}.

Lemma total_insert {A} (f : A -> Z) l i x y :
  l !! i = Some x -> total (f <$> <[i := y]> l) = (total (f <$> l) + (f y - f x))%Z.
Proof.
  intros Hi. unfold total. revert i Hi. induction l as [|a l IH]; intros [|i] Hi; simpl in *; simplify_eq; [lia|].
  specialize (IH i Hi). unfold fmap in IH. lia.
Qed.

Lemma sum_set_call f i c c' m m' :
  calls m !! i = Some c -> calls m' = <[i := c']> (calls m) ->
  sum_calls f m' = (sum_calls f m + (f c' - f c))%Z.
Proof. intros Hi Hm. unfold sum_calls. rewrite Hm. by apply total_insert. Qed.

(** The groups when the call [i] changes from [c] to [c']. *)
Lemma subscribed_insert i c c' m m' f id j :
  calls m !! i = Some c -> calls m' = <[i := c']> (calls m) -> c_req c' = c_req c ->
  subscribed m' f id j <->
    if decide (j = i) then c_phase c' = Looping /\ convertFilter (c_req c) = f /\ ShardID (c_req c) = id
    else subscribed m f id j.
Proof.
  intros Hi Hm Hr. unfold subscribed. rewrite Hm. case_decide as E.
  - subst j. rewrite list_lookup_insert_eq by (by eapply lookup_lt_Some). split; [|intros (? & ? & ?); exists c'; by rewrite Hr].
    intros (? & [= <-] & ? & ? & ?). by rewrite <- Hr.
  - by rewrite list_lookup_insert_ne by done.
Qed.

Definition looping (c : call D) : bool := match c_phase c with Looping => true | _ => false end.

Lemma looping_spec c : looping c = true <-> c_phase c = Looping.
Proof. unfold looping. by destruct (c_phase c). Qed.

(** What a step of the call [i] does to the routing table. *)
Definition reroute (i : nat) (c c' : call D) (r : Router.Router) : Router.Router :=
  match looping c, looping c' with
  | false, true => registerSetter (c_req c) i r
  | true, false => cleanup (c_req c) i r
  | _, _ => r
  end.

Lemma reroute_wf i c c' r : router_wf r -> router_wf (reroute i c c' r).
Proof. unfold reroute. destruct (looping c), (looping c'); auto using registerSetter_wf, cleanup_wf. Qed.

Lemma reroute_members i c c' m f id j :
  (forall f id j, j ∈ members (registrar m) f id <-> subscribed m f id j) -> calls m !! i = Some c ->
  j ∈ members (reroute i c c' (registrar m)) f id <->
    if decide (j = i) then c_phase c' = Looping /\ convertFilter (c_req c) = f /\ ShardID (c_req c) = id
    else subscribed m f id j.
Proof.
  intros Hm Hi. unfold reroute. pose proof (looping_spec c') as Hl.
  assert (forall f id, subscribed m f id i <-> looping c = true /\ convertFilter (c_req c) = f /\ ShardID (c_req c) = id) as Hs.
  { intros f' id'. unfold subscribed. rewrite Hi, looping_spec. naive_solver. }
  pose proof (Hm f id j) as Hj. pose proof (Hs f id) as Hsi. clear Hm Hs Hi.
  destruct (looping c), (looping c'); rewrite ?members_register, ?members_cleanup, ?elem_of_app;
    repeat case_decide; subst; rewrite ?list_elem_of_filter, ?elem_of_nil, ?list_elem_of_singleton;
    naive_solver.
Qed.

Lemma reroute_NoDup i c c' m f id :
  (forall f id j, j ∈ members (registrar m) f id <-> subscribed m f id j) -> calls m !! i = Some c ->
  (forall f id, NoDup (members (registrar m) f id)) -> NoDup (members (reroute i c c' (registrar m)) f id).
Proof.
  intros Hm Hi Hn. unfold reroute.
  destruct (looping c) eqn:E, (looping c'); rewrite ?members_register, ?members_cleanup; try done.
  - case_decide; [apply NoDup_filter|]; done.
  - case_decide; [|by rewrite app_nil_r]. apply NoDup_app. split; [done|]. split; [|apply NoDup_singleton].
    intros j Hj ->%list_elem_of_singleton. apply Hm in Hj as (c0 & Hc0 & Hp & _).
    assert (c0 = c) as -> by congruence. apply looping_spec in Hp. congruence.
Qed.

(** A step of one call keeps the invariant when every counter moves with the call. *)
Lemma ServerInv_call g0 m m' i c c' :
  ServerInv g0 m -> calls m !! i = Some c -> calls m' = <[i := c']> (calls m) -> c_req c' = c_req c ->
  call_ok c' -> registrar m' = reroute i c c' (registrar m) ->
  numSubscriptions m' = Words.int64 (numSubscriptions m + (counted c' - counted c)) ->
  Health.gauges (health m') !! subscriptionCount =
    (fun g => g + (gauged c' - gauged c))%Z <$> Health.gauges (health m) !! subscriptionCount ->
  GetDelta (egressMetric m') =
    Words.uint64 (GetDelta (egressMetric m) + (Z.of_nat (length (c_sent c')) - Z.of_nat (length (c_sent c)))) ->
  GetDelta (egressDroppedMetric m') =
    Words.uint64 (GetDelta (egressDroppedMetric m) + (Z.of_nat (c_missed c') - Z.of_nat (c_missed c))) ->
  ServerInv g0 m'.
Proof.
  intros [Hn Hg Hwf Hm Hd Hok He Hdr] Hi Hc Hr Hc' Hreg Hn' Hg' He' Hdr'.
  pose proof (fun f => sum_set_call f i c c' m m' Hi Hc) as Hsum. split.
  - rewrite Hn', Hn, Hsum. apply Words.swrap_add. lia.
  - rewrite Hg', Hg, Hsum. simpl. f_equal. lia.
  - rewrite Hreg. by apply reroute_wf.
  - intros f id j. rewrite Hreg, (reroute_members i c c' m f id j) by done.
    symmetry. by apply subscribed_insert.
  - intros f id. rewrite Hreg. by apply reroute_NoDup.
  - rewrite Hc. by apply Forall_insert.
  - rewrite He', He, Hsum. by apply Words.wrap_add_l.
  - rewrite Hdr', Hdr, Hsum. by apply Words.wrap_add_l.
Qed.

(** A change that no counter sees. *)
Lemma with_phase_ok p c :
  call_ok c -> match p with Counted | Gauged | Looping => c_failed c = [] | _ => True end ->
  call_ok (with_phase p c).
Proof.
  intros [Ho Hm Hf] Hp. split; simpl; [done..|].
  destruct p, (c_phase c); rewrite ?Hp, ?Hf; simpl; (done || lia).
Qed.

Lemma gauge_unchanged (o : option Z) : o = (fun g => g + 0)%Z <$> o.
Proof. destruct o; simpl; [f_equal; lia|done]. Qed.

Lemma Enter_Inv g0 req m : ServerInv g0 m -> ServerInv g0 (Subscribe_enter req m).
Proof.
  intros [Hn Hg Hwf Hm Hd Hok He Hdr].
  assert (forall f, sum_calls f (Subscribe_enter req m) =
    (sum_calls f m + f (mkCall D req Counted false NewDiode [] [] [] 0))%Z) as Hsum.
  { intros f. unfold sum_calls. simpl. rewrite fmap_app, total_app. unfold total. simpl. lia. }
  split; rewrite ?Hsum; simpl; try done.
  - rewrite Hn. apply Words.swrap_add. lia.
  - by rewrite Hg, Z.add_0_r.
  - intros f id i. rewrite (Hm f id i). unfold subscribed. simpl. split; intros (c & Hc & Hp & Hr).
    + exists c. split; [by apply lookup_app_l_Some|done].
    + exists c. split; [|done]. apply lookup_app_Some in Hc as [Hc|[_ Hc]]; [done|].
      apply list_lookup_singleton_Some in Hc as [_ <-]. done.
  - apply Forall_app. split; [done|]. constructor; [|done]. split; simpl; rewrite ?unread_new; done.
  - by rewrite Z.add_0_r.
  - by rewrite Z.add_0_r.
Qed.

(** The counters of a read: a missed value is reported, a sent one counted. *)
Lemma missed_delta missed m :
  GetDelta (egressDroppedMetric (if bool_decide (missed = 0) then m else Alert (Z.of_nat missed) m)) =
  if bool_decide (missed = 0) then GetDelta (egressDroppedMetric m)
  else Words.uint64 (GetDelta (egressDroppedMetric m) + Z.of_nat missed).
Proof. case_bool_decide; [done|]. cbn. apply Words.wrap_add_r. lia. Qed.

(** A value read is sent or failed. *)
Lemma read_ok c d k x p sent failed :
  call_ok c -> c_phase c = Looping -> TryNext (c_diode c) = (d, k, Some x) ->
  sent ++ failed = c_sent c ++ [x] ->
  match p with Counted | Gauged | Looping => failed = [] | _ => length failed <= 1 end ->
  call_ok (mkCall D (c_req c) p (c_done c) d (c_offered c) sent failed (c_missed c + k)).
Proof.
  intros [Ho Hm Hf] Hp Ht Hsf Hfail. rewrite Hp in Hf. rewrite Hf in Ho, Hm. simpl in Ho, Hm.
  destruct (unread_some _ _ _ _ Ht) as (lost & Hu & Hk). rewrite Hu in Ho, Hm. split; simpl; [| |done].
  - rewrite app_assoc, Hsf, <- app_assoc. etrans; [|exact Ho].
    apply sublist_app; [done|]. by apply sublist_inserts_l.
  - rewrite Hm, (app_assoc sent failed), Hsf. rewrite !length_app. simpl. lia.
Qed.

Lemma read_none_ok c d k :
  call_ok c -> c_phase c = Looping -> TryNext (c_diode c) = (d, k, None) ->
  call_ok (mkCall D (c_req c) Looping (c_done c) d (c_offered c) (c_sent c) (c_failed c) (c_missed c + k)).
Proof.
  intros [Ho Hm Hf] Hp Ht. destruct (unread_none _ _ _ Ht) as [Hu ->]. rewrite Hp in Hf.
  split; simpl; rewrite ?Hu, ?Nat.add_0_r; done.
Qed.

Lemma delta_wraps g0 m :
  ServerInv g0 m ->
  Words.uint64 (GetDelta (egressMetric m) + 0) = GetDelta (egressMetric m) /\
  Words.uint64 (GetDelta (egressDroppedMetric m) + 0) = GetDelta (egressDroppedMetric m) /\
  Words.int64 (numSubscriptions m + 0) = numSubscriptions m.
Proof.
  intros [Hn _ _ _ _ _ -> ->]. rewrite !Z.add_0_r. split_and!; [by apply Words.wrap_wrap..|].
  rewrite Hn. pose proof (Words.swrap_add 64 (sum_calls counted m) 0 ltac:(lia)) as E. by rewrite !Z.add_0_r in E.
Qed.

(** The end of [sendData], with what was read last. *)
Lemma return_Inv g0 m m1 i c c1 err :
  ServerInv g0 m -> calls m !! i = Some c -> c_phase c = Looping ->
  m1 = m \/ (exists k, m1 = Alert k m) ->
  c_req c1 = c_req c -> c_sent c1 = c_sent c -> call_ok (with_phase (Cleaned err) c1) ->
  GetDelta (egressDroppedMetric m1) =
    Words.uint64 (GetDelta (egressDroppedMetric m) + (Z.of_nat (c_missed c1) - Z.of_nat (c_missed c))) ->
  ServerInv g0 (sendData_return i c1 err m1).
Proof.
  intros Hm Hi Hp Hm1 Hr Hs Hok Hd. destruct (delta_wraps g0 m Hm) as (He & _ & Hn).
  assert (registrar m1 = registrar m /\ numSubscriptions m1 = numSubscriptions m /\
    egressMetric m1 = egressMetric m /\ health m1 = health m /\ calls m1 = calls m) as (E1 & E2 & E3 & E4 & E5).
  { by destruct Hm1 as [->|[k ->]]. }
  apply (ServerInv_call g0 m _ i c (with_phase (Cleaned err) c1)); try done; unfold sendData_return; simpl.
  - by rewrite E5.
  - unfold reroute, looping. simpl. by rewrite Hp, E1, Hr.
  - unfold counted. simpl. by rewrite Hp, E2, Z.sub_diag, Hn.
  - unfold gauged. simpl. rewrite Hp, E4. apply gauge_unchanged.
  - rewrite E3, Hs, Z.sub_diag. by rewrite He.
Qed.

(** A step that leaves the call in the loop. *)
Lemma looping_Inv g0 m m' i c c' :
  ServerInv g0 m -> calls m !! i = Some c -> c_phase c = Looping -> c_phase c' = Looping -> c_req c' = c_req c ->
  call_ok c' -> calls m' = <[i := c']> (calls m) ->
  registrar m' = registrar m /\ numSubscriptions m' = numSubscriptions m /\ health m' = health m ->
  GetDelta (egressMetric m') =
    Words.uint64 (GetDelta (egressMetric m) + (Z.of_nat (length (c_sent c')) - Z.of_nat (length (c_sent c)))) ->
  GetDelta (egressDroppedMetric m') =
    Words.uint64 (GetDelta (egressDroppedMetric m) + (Z.of_nat (c_missed c') - Z.of_nat (c_missed c))) ->
  ServerInv g0 m'.
Proof.
  intros Hm Hi Hp Hp' Hr Hok Hc (E1 & E2 & E3) He Hd. destruct (delta_wraps g0 m Hm) as (_ & _ & Hn).
  apply (ServerInv_call g0 m m' i c c'); try done.
  - unfold reroute, looping. by rewrite Hp, Hp'.
  - unfold counted. by rewrite Hp, Hp', Z.sub_diag, Hn.
  - unfold gauged. rewrite Hp, Hp', E3. apply gauge_unchanged.
Qed.

Lemma turn_Inv g0 m i c send ctx :
  ServerInv g0 m -> calls m !! i = Some c -> c_phase c = Looping -> ServerInv g0 (sendData_turn i c send ctx m).
Proof.
  intros Hm Hi Hp. pose proof (delta_wraps g0 m Hm) as (He & Hd & _).
  assert (call_ok c) as Hok by (eapply Forall_lookup_1; [apply Hm|done]).
  pose proof (ok_failed c Hok) as Hf. rewrite Hp in Hf.
  unfold sendData_turn. destruct (c_done c) eqn:Edone.
  { apply (return_Inv g0 m m i c c ctx); auto; [by apply with_phase_ok|by rewrite Z.sub_diag, Hd]. }
  destruct (TryNext (c_diode c)) as [[d k] data] eqn:Ht.
  set (m1 := if bool_decide (k = 0) then m else Alert (Z.of_nat k) m).
  assert (m1 = m \/ exists n, m1 = Alert n m) as Hm1 by (unfold m1; case_bool_decide; eauto).
  assert (forall n, GetDelta (egressDroppedMetric m1) =
    Words.uint64 (GetDelta (egressDroppedMetric m) + (Z.of_nat (n + k) - Z.of_nat n))) as Hd1.
  { intros n. unfold m1. rewrite missed_delta. replace (Z.of_nat (n + k) - Z.of_nat n)%Z with (Z.of_nat k) by lia.
    case_bool_decide; [subst k; symmetry; exact Hd|done]. }
  destruct data as [x|]; [destruct send as [err|]|].
  - apply (return_Inv g0 m m1 i c); auto; [|by apply Hd1].
    rewrite <- Edone. apply (read_ok c d k x); try done; rewrite Hf; simpl; (done || lia).
  - apply (looping_Inv g0 m _ i c
      (mkCall D (c_req c) Looping (c_done c) d (c_offered c) (c_sent c ++ [x]) (c_failed c) (c_missed c + k)));
      try done; rewrite <- ?Edone.
    + apply (read_ok c d k x); try done. by rewrite Hf, app_nil_r.
    + by destruct Hm1 as [->|[n ->]].
    + by destruct Hm1 as [->|[n ->]].
    + cbn [c_sent count_egress egressMetric set_call]. rewrite length_app.
      replace (egressMetric m1) with (egressMetric m) by (by destruct Hm1 as [->|[n ->]]). cbn. unfold Words.add.
      f_equal. unfold GetDelta. lia.
    + by apply Hd1.
  - apply (looping_Inv g0 m _ i c
      (mkCall D (c_req c) Looping (c_done c) d (c_offered c) (c_sent c) (c_failed c) (c_missed c + k)));
      try done; rewrite <- ?Edone.
    + by apply read_none_ok.
    + by destruct Hm1 as [->|[n ->]].
    + by destruct Hm1 as [->|[n ->]].
    + cbn [c_sent set_call egressMetric]. rewrite Z.sub_diag, He. by destruct Hm1 as [->|[n ->]].
    + by apply Hd1.
Qed.

Lemma next_Inv g0 m i c send ctx :
  ServerInv g0 m -> calls m !! i = Some c ->
  exists m', Subscribe_next i c send ctx m = Returns m' /\ ServerInv g0 m'.
Proof.
  intros Hm Hi. pose proof (delta_wraps g0 m Hm) as (He & Hd & Hn). pose proof (inv_gauge g0 m Hm) as Hg.
  assert (call_ok c) as Hok by (eapply Forall_lookup_1; [apply Hm|done]). pose proof (ok_failed c Hok) as Hf.
  unfold Subscribe_next, Health.Inc, Health.Dec, Health.update. rewrite Hg.
  destruct (c_phase c) eqn:Hp; cbn [obind]; (eexists; split; [done|]); [| |by apply turn_Inv| | |done];
    (eapply (ServerInv_call g0 m _ i c); [done|done|done|done|by apply with_phase_ok|..]);
    unfold reroute, looping, counted, gauged; simpl; rewrite ?Hp, ?Z.sub_diag, ?Hn, ?He, ?Hd; try done;
    rewrite ?lookup_insert_eq, ?Hg; simpl; try done; f_equal; lia.
Qed.

Lemma cancel_Inv g0 m i c :
  ServerInv g0 m -> calls m !! i = Some c -> ServerInv g0 (set_call i (monitorContext c) m).
Proof.
  intros Hm Hi. destruct (delta_wraps g0 m Hm) as (He & Hd & Hn).
  assert (call_ok c) as Hok by (eapply Forall_lookup_1; [apply Hm|done]).
  assert (c_phase (monitorContext c) = c_phase c /\ c_req (monitorContext c) = c_req c /\
    c_sent (monitorContext c) = c_sent c /\ c_missed (monitorContext c) = c_missed c /\ call_ok (monitorContext c))
    as (E1 & E2 & E3 & E4 & Hok').
  { unfold monitorContext. destruct (c_phase c) eqn:Hp; simpl; rewrite ?Hp; split_and!; try done;
      destruct Hok as [? ? Hf]; rewrite Hp in Hf; by split. }
  apply (ServerInv_call g0 m _ i c (monitorContext c)); try done; simpl.
  - unfold reroute, looping. rewrite E1. by destruct (c_phase c).
  - unfold counted. by rewrite E1, Z.sub_diag, Hn.
  - unfold gauged. rewrite E1, Z.sub_diag. apply gauge_unchanged.
  - by rewrite E3, Z.sub_diag, He.
  - by rewrite E4, Z.sub_diag, Hd.
Qed.

(** What [Set] leaves as it is. *)
Lemma offers_lookup data l cs i :
  foldl (offer data) cs l !! i = (fun c => mkCall D (c_req c) (c_phase c) (c_done c)
    (Nat.iter (length (filter (fun j => j = i) l)) (Set_data data) (c_diode c))
    (c_offered c ++ replicate (length (filter (fun j => j = i) l)) data) (c_sent c) (c_failed c) (c_missed c)) <$> cs !! i.
Proof.
  revert cs. induction l as [|j l IH]; intros cs.
  - simpl. destruct (cs !! i) as [[]|]; simpl; [by rewrite app_nil_r|done].
  - cbn [foldl]. rewrite IH. unfold offer. destruct (decide (j = i)) as [->|Hne].
    + rewrite list_lookup_alter_eq, filter_cons_True by done. destruct (cs !! i) as [c|]; [|done]. simpl.
      rewrite <- app_assoc. simpl. by rewrite Nat.iter_swap.
    + by rewrite list_lookup_alter_ne, filter_cons_False by done.
Qed.

Lemma offers_length data l (cs : list (call D)) : length (foldl (offer data) cs l) = length cs.
Proof. revert cs. induction l as [|i l IH]; intros cs; [done|]. simpl. rewrite IH. unfold offer. by rewrite length_alter. Qed.

Lemma list_alter_as_insert {A} (f : A -> A) (l : list A) (i : nat) :
  alter f i l = match l !! i with Some x => <[i := f x]> l | None => l end.
Proof.
  revert i. induction l as [|a l IH]; intros [|i]; try done.
  change (a :: alter f i l = match l !! i with Some x => a :: <[i := f x]> l | None => a :: l end).
  rewrite IH. by destruct (l !! i).
Qed.

Lemma offered_Inv g0 data l m : ServerInv g0 m -> ServerInv g0 (offers data l m).
Proof.
  revert m. induction l as [|i l IH]; intros m Hm; [by destruct m|].
  apply (IH (offers data [i] m)). clear IH. unfold offers. simpl. unfold offer at 1. rewrite list_alter_as_insert.
  destruct (calls m !! i) as [c|] eqn:Hi; [|by destruct m].
  destruct (delta_wraps g0 m Hm) as (He & Hd & Hn).
  assert (call_ok c) as [Ho Hms Hf] by (eapply Forall_lookup_1; [apply Hm|done]).
  eapply (ServerInv_call g0 m _ i c); [done|done|done|done|..]; simpl;
    rewrite ?Z.sub_diag, ?Hn, ?He, ?Hd; try done.
  - split; simpl; rewrite ?unread_set; [|rewrite !length_app in *; simpl; lia|done].
    rewrite !app_assoc. apply sublist_app; [by rewrite <- app_assoc|done].
  - unfold reroute, looping. simpl. by destruct (c_phase c).
  - unfold gauged. simpl. rewrite ?Z.sub_diag. apply gauge_unchanged.
Qed.

Lemma send_Inv g0 ord draw app e m :
  Router.in_range draw -> ServerInv g0 m -> exists m', SendTo ord draw app e m = Returns m' /\ ServerInv g0 m'.
Proof.
  intros Hd Hm. unfold SendTo. destruct (marshal e) as [b|] eqn:E.
  - rewrite Router.SendTo_visited by (done || apply Hm || by rewrite E). eexists. split; [done|]. by apply offered_Inv.
  - unfold Router.SendTo. rewrite E. eexists. split; [done|]. by apply offered_Inv.
Qed.

Lemma grpc_step_Inv g0 m ev :
  legal_draw ev -> ServerInv g0 m -> exists m', server_step m ev = Returns m' /\ ServerInv g0 m'.
Proof.
  intros Hev Hm. destruct ev as [req|i send ctx|i|ord draw app e|]; simpl.
  - eexists. split; [done|]. by apply Enter_Inv.
  - destruct (calls m !! i) as [c|] eqn:E; [by apply next_Inv|eauto].
  - destruct (calls m !! i) as [c|] eqn:E; [|eauto]. eexists. split; [done|]. by apply cancel_Inv.
  - by apply send_Inv.
  - eexists. split; [done|]. destruct Hm. by split.
Qed.

Lemma NewDopplerServer_Inv ord c h g0 :
  Health.gauges h !! subscriptionCount = Some g0 -> ServerInv g0 (NewDopplerServer ord NewRouter c h).
Proof.
  intros Hg. split; simpl; try done.
  - by rewrite Hg, Z.add_0_r.
  - intros f id i. change (members NewRouter f id) with (@nil nat). rewrite elem_of_nil. split; [done|].
    by intros (? & [=] & _).
  - intros f id. constructor.
Qed.

Lemma server_run_Inv ord c h g0 l :
  Health.gauges h !! subscriptionCount = Some g0 -> Forall legal_draw l ->
  exists m, ofold server_step l (NewDopplerServer ord NewRouter c h) = Returns m /\ ServerInv g0 m.
Proof.
  intros Hg Hl. apply ofold_returns; [|by apply NewDopplerServer_Inv].
  intros m ev Hm Hin. apply grpc_step_Inv; [|done]. by eapply Forall_forall in Hl.
Qed.

Definition returned (c : call D) : Prop := match c_phase c with Returned _ => True | _ => False end.

Lemma sum_returned f m :
  (forall c, returned c -> f c = 0%Z) -> Forall returned (calls m) -> sum_calls f m = 0%Z.
Proof.
  intros Hf. unfold sum_calls, total. induction 1 as [|c l Hc _ IH]; [done|]. simpl. rewrite (Hf c Hc). exact IH.
Qed.

(** When every call has returned the server is as it was. *)
Lemma quiescent g0 m :
  ServerInv g0 m -> Forall returned (calls m) ->
  registrar m = NewRouter /\ numSubscriptions m = 0%Z /\
  Health.gauges (health m) !! subscriptionCount = Some g0.
Proof.
  intros [Hn Hg Hwf Hm _ _ _ _] Hr.
  assert (forall c, returned c -> counted c = 0%Z /\ gauged c = 0%Z) as Hz.
  { intros c. unfold returned, counted, gauged. by destruct (c_phase c). }
  split_and!.
  - apply no_members; [done|]. intros f id. apply elem_of_nil_inv. intros i Hi.
    apply Hm in Hi as (c & Hc & Hp & _). eapply Forall_lookup_1 in Hr; [|done]. unfold returned in Hr. by rewrite Hp in Hr.
  - rewrite Hn, sum_returned; [done|intros c Hc; by apply Hz|done].
  - rewrite Hg, sum_returned; [by rewrite Z.add_0_r|intros c Hc; by apply Hz|done].
Qed.

(** ** Who gets an envelope *)

Lemma filter_eq_NoDup (l : list nat) i :
  NoDup l -> length (filter (fun j => j = i) l) = if decide (i ∈ l) then 1 else 0.
Proof.
  induction 1 as [|x l Hx _ IH]; [done|]. destruct (decide (x = i)) as [->|Hne].
  - rewrite filter_cons_True, decide_True by set_solver. simpl. by rewrite IH, decide_False.
  - rewrite filter_cons_False, IH by done. repeat case_decide; set_solver.
Qed.

(** An envelope is set, once each, on the diodes [l]: those of all matching calls without a
    shard and of one call of every matching group with a shard. *)
Definition reaches (m : DopplerServer D) (app : string) (e : V1.Envelope) (l : list nat) : Prop :=
  (forall i, i ∈ l -> exists f id, subscribed m f id i /\ matches app e f) /\
  (forall f i, subscribed m f EmptyString i -> matches app e f -> i ∈ l) /\
  (forall f id i, id <> EmptyString -> subscribed m f id i -> matches app e f ->
     exists j, subscribed m f id j /\ j ∈ l /\ forall k, subscribed m f id k -> k ∈ l -> k = j).

Lemma contribution_members draw f id l i : i ∈ contribution draw (f, id, l) -> i ∈ l.
Proof.
  unfold contribution. destruct (Str.empty id); [done|]. destruct (l !! draw f id (length l)) as [x|] eqn:E; simpl.
  - intros ->%list_elem_of_singleton. by eapply list_elem_of_lookup_2.
  - by intros ?%elem_of_nil.
Qed.

Lemma subscribed_group m f id f' id' i : subscribed m f id i -> subscribed m f' id' i -> f = f' /\ id = id'.
Proof. intros (c & Hc & _ & <- & <-) (c' & Hc' & _ & <- & <-). by simplify_eq. Qed.

Lemma group_subscribed g0 m draw g i :
  ServerInv g0 m -> g ∈ groups (registrar m) -> i ∈ contribution draw g -> subscribed m g.1.1 g.1.2 i.
Proof.
  intros Hm Hg Hi. destruct g as [[f id] l]. apply groups_members in Hg as [<- _]; [|apply Hm].
  apply contribution_members in Hi. simpl. by apply (inv_members g0 m Hm).
Qed.

Lemma group_inj g0 m g g' :
  ServerInv g0 m -> g ∈ groups (registrar m) -> g' ∈ groups (registrar m) -> g.1 = g'.1 -> g = g'.
Proof.
  intros Hm. destruct g as [[f id] l], g' as [[f' id'] l'].
  intros [<- _]%groups_members [<- _]%groups_members E; [|apply Hm..]. simpl in E. by simplify_eq.
Qed.

Lemma subscribed_elem g0 m f id i :
  ServerInv g0 m -> subscribed m f id i -> (f, id, members (registrar m) f id) ∈ groups (registrar m).
Proof.
  intros Hm Hi. apply (inv_members g0 m Hm) in Hi. apply groups_members; [apply Hm|]. split; [done|].
  intros E. rewrite E in Hi. by apply elem_of_nil in Hi.
Qed.

Lemma sends_reach g0 m draw app e l :
  ServerInv g0 m -> Router.in_range draw ->
  l ≡ₚ filter (fun g => matches app e g.1.1) (groups (registrar m)) ≫= contribution draw ->
  NoDup l /\ reaches m app e l.
Proof.
  intros Hm Hd Hl. set (gs := filter _ _) in Hl.
  assert (forall g, g ∈ gs -> matches app e g.1.1 /\ g ∈ groups (registrar m)) as Hgs.
  { intros g Hg. by apply list_elem_of_filter in Hg. }
  assert (forall i, i ∈ l <-> exists g, g ∈ gs /\ i ∈ contribution draw g) as Hin.
  { intros i. rewrite Hl, list_elem_of_bind. naive_solver. }
  assert (forall g g' i, g ∈ gs -> g' ∈ gs -> i ∈ contribution draw g -> i ∈ contribution draw g' -> g = g') as Hinj.
  { intros g g' i Hg Hg' Hi Hi'. apply (group_inj g0 m); [done|by apply Hgs..|].
    destruct (subscribed_group m g.1.1 g.1.2 g'.1.1 g'.1.2 i) as [E1 E2].
    - apply (group_subscribed g0 m draw); [done|by apply Hgs|done].
    - apply (group_subscribed g0 m draw); [done|by apply Hgs|done].
    - destruct g as [[] ?], g' as [[] ?]. simpl in *. by subst. }
  split; [|split_and!].
  - rewrite Hl. apply NoDup_bind; [by intros; eapply Hinj| |apply NoDup_filter, NoDup_map_to_list].
    intros [[f id] k] [_ Hk]%Hgs. apply groups_members in Hk as [<- _]; [|apply Hm]. unfold contribution.
    destruct (Str.empty id); [apply Hm|]. destruct (members _ _ _ !! _); simpl; [apply NoDup_singleton|constructor].
  - intros i (g & Hg & Hi)%Hin. exists g.1.1, g.1.2. split; [|by apply Hgs].
    eapply group_subscribed; [done|by apply Hgs|done].
  - intros f i Hi Hf. apply Hin. exists (f, EmptyString, members (registrar m) f EmptyString).
    split; [apply list_elem_of_filter; split; [done|by eapply subscribed_elem]|].
    simpl. by apply (inv_members g0 m Hm).
  - intros f id i Hid Hi Hf. pose proof (subscribed_elem g0 m f id i Hm Hi) as Hg.
    apply (inv_members g0 m Hm) in Hi. destruct id as [|a id]; [done|].
    destruct (lookup_lt_is_Some_2 (members (registrar m) f (String a id))
      (draw f (String a id) (length (members (registrar m) f (String a id))))) as [j Hj].
    { apply Hd. destruct (members _ _ _); [by apply elem_of_nil in Hi|simpl; lia]. }
    set (g := (f, String a id, members (registrar m) f (String a id))) in *.
    assert (contribution draw g = [j]) as Ec by (unfold g, contribution; simpl; by rewrite Hj).
    assert (g ∈ gs) as Hgg by (by apply list_elem_of_filter).
    exists j. split; [apply (inv_members g0 m Hm); by eapply list_elem_of_lookup_2|]. split.
    + apply Hin. exists g. rewrite Ec. set_solver.
    + intros k Hk (g' & Hg' & Hk')%Hin. apply list_elem_of_singleton. rewrite <- Ec.
      replace g with g'; [done|]. apply (group_inj g0 m); [done|by apply Hgs..|].
      destruct (subscribed_group m g'.1.1 g'.1.2 f (String a id) k) as [E1 E2]; [|done|].
      { eapply group_subscribed; [done|by apply Hgs|done]. }
      destruct g' as [[] ?]. simpl in *. by subst.
Qed.

Lemma SendTo_offers g0 m ord draw app e b :
  ServerInv g0 m -> Router.in_range draw -> marshal e = Some b -> app <> EmptyString ->
  exists l, SendTo ord draw app e m = Returns (offers b l m) /\ NoDup l /\ reaches m app e l.
Proof.
  intros Hm Hd Hb Happ. set (l := visited ord app e (registrar m) ≫= contribution draw).
  exists l. split; [|apply (sends_reach g0 m draw app e l Hm Hd)].
  - unfold SendTo. rewrite Router.SendTo_visited by (done || apply Hm || by rewrite Hb). by rewrite Hb.
  - unfold l. by rewrite (visited_matching ord app e (registrar m) Happ).
Qed.

Lemma offers_offered b l m i c :
  NoDup l -> calls m !! i = Some c -> exists c', calls (offers b l m) !! i = Some c' /\
    c_offered c' = c_offered c ++ if decide (i ∈ l) then [b] else [].
Proof.
  intros Hl Hi. simpl. rewrite offers_lookup, Hi. eexists. split; [done|]. simpl.
  rewrite filter_eq_NoDup by done. by case_decide.
Qed.

(** C11: Subscriptions at doppler are accounted for.  For any calls, any interleaving of their
    steps with the ends of their contexts, with envelopes and with metric ticks, and any
    behaviour of the diodes that their laws allow: the server does not panic; the
    subscription count counts the calls between their first and last step and the health
    gauge those between raising and lowering it; the routing table holds exactly the calls in
    their loop, each once, under the filter and shard of its request; what was set on a
    call's diode has been sent, in order, or is still unread, but for at most one value whose
    sending failed and the values missed; and the two metrics count the values sent and
    missed.  When all calls have returned, table, count and gauge are as at the start. *)
Theorem grpc_subscriptions_accounted ord cl h g0 l :
  Health.gauges h !! subscriptionCount = Some g0 -> Forall legal_draw l ->
  exists m, ofold server_step l (NewDopplerServer ord NewRouter cl h) = Returns m /\
    numSubscriptions m = Words.int64 (sum_calls counted m) /\
    Health.gauges (health m) !! subscriptionCount = Some (g0 + sum_calls gauged m)%Z /\
    (forall f id, NoDup (members (registrar m) f id) /\ forall i, i ∈ members (registrar m) f id <-> subscribed m f id i) /\
    (forall i c, calls m !! i = Some c ->
       (c_sent c ++ c_failed c ++ unread (c_diode c)) `sublist_of` c_offered c /\ length (c_failed c) <= 1 /\
       length (c_offered c) = length (c_sent c ++ c_failed c ++ unread (c_diode c)) + c_missed c) /\
    GetDelta (egressMetric m) = Words.uint64 (sum_calls (fun c => Z.of_nat (length (c_sent c))) m) /\
    GetDelta (egressDroppedMetric m) = Words.uint64 (sum_calls (fun c => Z.of_nat (c_missed c)) m) /\
    (Forall returned (calls m) ->
       registrar m = NewRouter /\ numSubscriptions m = 0%Z /\
       Health.gauges (health m) !! subscriptionCount = Some g0).
Proof.
  intros Hg Hl. destruct (server_run_Inv ord cl h g0 l Hg Hl) as (m & Hrun & Hm). exists m.
  split; [done|]. pose proof (quiescent g0 m Hm) as Hq. destruct Hm as [Hn Hgm Hwf Hmem Hd Hok He Hdr].
  split_and!; try done. intros i c Hi.
  eapply Forall_lookup_1 in Hok as [Ho Hms Hf]; [|done]. split_and!; [done| |done].
  destruct (c_phase c); rewrite ?Hf; simpl; (done || lia).
Qed.

End Server.

(** ** Examples *)

Module Subscribe_example.

(** A diode for two values. *)
#[global] Instance ring : Diode string (list string) := last_values 2.

#[global] Instance ring_laws : DiodeLaws string (list string) := last_values_laws 2.

Definition bytes (e : V1.Envelope) : option string := Some "bytes"%string.

Definition last_draw (f : filter_) (id : string) (n : nat) : nat := n - 1.

Definition gauges : Health.Registrar := Health.mkRegistrar {[subscriptionCount := 4%Z]}.

Definition metrics : MetricEmitter.Client := MetricEmitter.NewClient [].

(** Two subscriptions, one of which misses a value; the other one's context ends. *)
Definition events : list server_event :=
  [Call (mkRequest EmptyString None); Call (mkRequest "shard" (Some ("a"%string, LogOnly)));
   Next 0 None None; Next 0 None None; Next 1 None None; Next 1 None None]
  ++ repeat (Envelope default_order last_draw "a" log_envelope) 3
  ++ [Next 0 None None; Tick; Cancel 1; Next 1 None (Some "canceled"%string); Next 1 None None; Next 1 None None].

Example counts :
  exists m, ofold (server_step (D := list string) bytes) events (NewDopplerServer default_order NewRouter metrics gauges) = Returns m /\
    numSubscriptions m = 1%Z /\ (c_sent <$> calls m) = [["bytes"%string]; []] /\ (c_missed <$> calls m) = [1; 0] /\
    (c_phase <$> calls m) = [Looping; Returned (Some "canceled"%string)].
Proof. eexists. split; [vm_compute; reflexivity|]. vm_compute. done. Qed.

End Subscribe_example.

Lemma grpc_subscriptions_accounted_witness :
  exists m, ofold (server_step (D := list string) Subscribe_example.bytes) Subscribe_example.events
    (NewDopplerServer default_order NewRouter Subscribe_example.metrics Subscribe_example.gauges) = Returns m /\
    numSubscriptions m = Words.int64 (sum_calls counted m) /\
    GetDelta (egressDroppedMetric m) = Words.uint64 (sum_calls (fun c => Z.of_nat (c_missed c)) m).
Proof.
  destruct (grpc_subscriptions_accounted (D := list string) Subscribe_example.bytes default_order
    Subscribe_example.metrics Subscribe_example.gauges 4 Subscribe_example.events)
    as (m & H1 & H2 & _ & _ & _ & _ & H3 & _).
  - reflexivity.
  - unfold Subscribe_example.events. simpl.
    assert (Router.in_range Subscribe_example.last_draw) as Hr
      by (intros f id n Hn; unfold Subscribe_example.last_draw; lia).
    repeat (constructor; [first [exact I|exact Hr]|]). constructor.
  - exists m. split; [exact H1|]. split; [exact H2|exact H3].
Defined.
