(* ===== verification/Tls.v ===== *)
(** * plumbing/tls.go: the TLS configurations of clients and servers

    Certificate files and x509 verification are arguments; configurations are built as in
    the source, options included. *)

From S2P Require Import Prelude Go.

Definition VersionTLS10 : Z := 769.
Definition VersionTLS12 : Z := 771.
Definition TLS_ECDHE_RSA_WITH_AES_128_GCM_SHA256 : Z := 49199.
Definition TLS_ECDHE_RSA_WITH_AES_256_GCM_SHA384 : Z := 49200.

Definition defaultServerCipherSuites : list Z :=
  [TLS_ECDHE_RSA_WITH_AES_128_GCM_SHA256; TLS_ECDHE_RSA_WITH_AES_256_GCM_SHA384].

Definition cipherMap : gmap string Z :=
  {["TLS_ECDHE_RSA_WITH_AES_128_GCM_SHA256"%string := TLS_ECDHE_RSA_WITH_AES_128_GCM_SHA256;
    "TLS_ECDHE_RSA_WITH_AES_256_GCM_SHA384"%string := TLS_ECDHE_RSA_WITH_AES_256_GCM_SHA384]}.

Inductive ClientAuthType : Type := NoClientCert | RequireAndVerifyClientCert.

Section Tls.

(** Key pairs and certificate pools, and the functions of crypto/tls and crypto/x509. *)
Context {Cert Pool : Type}.
Context (LoadX509KeyPair : string -> string -> result Cert).
Context (ReadFile : string -> result string).
Context (AppendCertsFromPEM : string -> option Pool).
Context (ParseAndVerify : Cert -> Pool -> option string).

Record Config : Type := mkConfig {
  InsecureSkipVerify : bool;
  MinVersion : Z;
  CipherSuites : list Z;
  Certificates : list Cert;
  ServerName : string;
  ClientAuth : ClientAuthType;
  RootCAs : option Pool;
  ClientCAs : option Pool
}.

Definition NewTLSConfig : Config := mkConfig false VersionTLS12 [] [] EmptyString NoClientCert None None.

Definition ConfigOption : Type := Config -> outcome Config.

Definition with_suites (c : Config) (l : list Z) : Config :=
  mkConfig (InsecureSkipVerify c) (MinVersion c) l (Certificates c) (ServerName c) (ClientAuth c)
    (RootCAs c) (ClientCAs c).

Definition with_cert (c : Config) (l : list Cert) : Config :=
  mkConfig (InsecureSkipVerify c) (MinVersion c) (CipherSuites c) l (ServerName c) (ClientAuth c)
    (RootCAs c) (ClientCAs c).

Definition with_peer (c : Config) (isClient : bool) (serverName : string) : Config :=
  if isClient
  then mkConfig (InsecureSkipVerify c) (MinVersion c) (CipherSuites c) (Certificates c) serverName
         (ClientAuth c) (RootCAs c) (ClientCAs c)
  else mkConfig (InsecureSkipVerify c) (MinVersion c) (CipherSuites c) (Certificates c) (ServerName c)
         RequireAndVerifyClientCert (RootCAs c) (ClientCAs c).

Definition with_ca (c : Config) (isClient : bool) (pool : Pool) : Config :=
  if isClient
  then mkConfig (InsecureSkipVerify c) (MinVersion c) (CipherSuites c) (Certificates c) (ServerName c)
         (ClientAuth c) (Some pool) (ClientCAs c)
  else mkConfig (InsecureSkipVerify c) (MinVersion c) (CipherSuites c) (Certificates c) (ServerName c)
         (ClientAuth c) (RootCAs c) (Some pool).

Definition configured_ciphers (ciphers : list string) : list Z :=
  foldl (fun l c => match cipherMap !! c with None => l | Some cipher => l ++ [cipher] end) [] ciphers.

Definition WithCipherSuites (ciphers : list string) : ConfigOption := fun c =>
  let c := with_suites c (configured_ciphers ciphers) in
  if bool_decide (length (CipherSuites c) = 0)
  then Panics "no valid ciphers provided for TLS configuration" else Returns c.

Definition setCA (c : Config) (tlsCert : Cert) (caCertFile : string) (isClient : bool) : result Config :=
  match ReadFile caCertFile with
  | Err err => Err ("failed to read ca cert file: " +:+ err)
  | Ok certBytes =>
      match AppendCertsFromPEM certBytes with
      | None => Err "unable to load ca cert file"
      | Some caCertPool =>
          let c := with_ca c isClient caCertPool in
          match ParseAndVerify tlsCert caCertPool with
          | Some err => Err err
          | None => Ok c
          end
      end
  end.

Definition newMutualTLSConfig (certFile keyFile caCertFile serverName : string) (isClient : bool)
  : result Config :=
  match LoadX509KeyPair certFile keyFile with
  | Err err => Err ("failed to load keypair: " +:+ err)
  | Ok tlsCert =>
      let c := with_peer (with_cert NewTLSConfig [tlsCert]) isClient serverName in
      if negb (Str.empty caCertFile) then setCA c tlsCert caCertFile isClient else Ok c
  end.

Definition NewClientMutualTLSConfig (certFile keyFile caCertFile serverName : string) : result Config :=
  newMutualTLSConfig certFile keyFile caCertFile serverName true.

Definition NewServerMutualTLSConfig (certFile keyFile caCertFile : string) (opts : list ConfigOption)
  : outcome (result Config) :=
  match newMutualTLSConfig certFile keyFile caCertFile EmptyString false with
  | Err err => Returns (Err err)
  | Ok c =>
      match ofold (fun c opt => opt c) opts (with_suites c defaultServerCipherSuites) with
      | Panics why => Panics why
      | Returns c => Returns (Ok c)
      end
  end.

(** ** What every configuration guarantees *)

Definition approved (l : list Z) : Prop := l <> [] /\ forall x, x ∈ l -> x ∈ defaultServerCipherSuites.

(** The well-formed configurations of a server whose key pair and CA come from the files. *)
Record server_wf (certFile keyFile caCertFile : string) (c : Config) : Prop := {
  wf_verify : InsecureSkipVerify c = false;
  wf_version : MinVersion c = VersionTLS12;
  wf_suites : approved (CipherSuites c);
  wf_client : ClientAuth c = RequireAndVerifyClientCert;
  wf_cert : exists cert, LoadX509KeyPair certFile keyFile = Ok cert /\ Certificates c = [cert]
    /\ (caCertFile <> EmptyString -> exists text pool,
          ReadFile caCertFile = Ok text /\ AppendCertsFromPEM text = Some pool
          /\ ClientCAs c = Some pool /\ ParseAndVerify cert pool = None)
}.

Record client_wf (certFile keyFile caCertFile serverName : string) (c : Config) : Prop := {
  cwf_verify : InsecureSkipVerify c = false;
  cwf_version : MinVersion c = VersionTLS12;
  cwf_name : ServerName c = serverName;
  cwf_cert : exists cert, LoadX509KeyPair certFile keyFile = Ok cert /\ Certificates c = [cert]
    /\ (caCertFile <> EmptyString -> exists text pool,
          ReadFile caCertFile = Ok text /\ AppendCertsFromPEM text = Some pool
          /\ RootCAs c = Some pool /\ ParseAndVerify cert pool = None)
}.

Lemma cipherMap_approved k x : cipherMap !! k = Some x -> x ∈ defaultServerCipherSuites.
Proof.
  unfold cipherMap. intros [[_ <-]|[_ H]]%lookup_insert_Some; [set_solver|].
  apply lookup_singleton_Some in H as [_ <-]. set_solver.
Qed.

Lemma configured_ciphers_omap (l : list string) : configured_ciphers l = omap (cipherMap !!.) l.
Proof.
  unfold configured_ciphers.
  enough (forall acc, foldl (fun l c => match cipherMap !! c with None => l | Some cipher => l ++ [cipher] end)
    acc l = acc ++ omap (cipherMap !!.) l) as H by apply H.
  induction l as [|c l IH]; intros acc; cbn [foldl]; [by rewrite app_nil_r|].
  rewrite IH. cbn [omap list_omap]. destruct (cipherMap !! c); [|done]. by rewrite <- app_assoc.
Qed.

Lemma WithCipherSuites_spec ciphers c :
  match WithCipherSuites ciphers c with
  | Panics _ => omap (cipherMap !!.) ciphers = []
  | Returns c' => c' = with_suites c (omap (cipherMap !!.) ciphers) /\ omap (cipherMap !!.) ciphers <> []
  end.
Proof.
  unfold WithCipherSuites. cbv zeta. rewrite configured_ciphers_omap. cbn [CipherSuites with_suites].
  case_bool_decide as E; [by apply length_zero_iff_nil|]. split; [done|]. intros E2. by rewrite E2 in E.
Qed.

Lemma omap_ciphers_approved (l : list string) x : x ∈ omap (cipherMap !!.) l -> x ∈ defaultServerCipherSuites.
Proof. intros (k & _ & Hk)%list_elem_of_omap. by eapply cipherMap_approved. Qed.

(** The options only change the suites, to approved ones. *)
Lemma options_spec (ciphers : list (list string)) c c' :
  approved (CipherSuites c) ->
  ofold (fun c opt => opt c) (WithCipherSuites <$> ciphers) c = Returns c' ->
  exists l, approved l /\ c' = with_suites c l.
Proof.
  revert c. induction ciphers as [|x xs IH]; intros c Hc; simpl.
  - intros [= <-]. exists (CipherSuites c). split; [done|]. by destruct c.
  - pose proof (WithCipherSuites_spec x c) as Hx. destruct (WithCipherSuites x c) as [c1|]; [|done].
    destruct Hx as [-> Hne]. simpl. intros Hr.
    destruct (IH (with_suites c (omap (cipherMap !!.) x))) as (l & Hl & ->); [|done|eauto].
    split; [done|]. intros y. apply omap_ciphers_approved.
Qed.

Lemma newMutualTLSConfig_spec certFile keyFile caCertFile serverName isClient c :
  newMutualTLSConfig certFile keyFile caCertFile serverName isClient = Ok c ->
  InsecureSkipVerify c = false /\ MinVersion c = VersionTLS12
  /\ (if isClient then ServerName c = serverName else ClientAuth c = RequireAndVerifyClientCert)
  /\ exists cert, LoadX509KeyPair certFile keyFile = Ok cert /\ Certificates c = [cert]
     /\ (caCertFile <> EmptyString -> exists text pool,
          ReadFile caCertFile = Ok text /\ AppendCertsFromPEM text = Some pool
          /\ (if isClient then RootCAs c else ClientCAs c) = Some pool /\ ParseAndVerify cert pool = None).
Proof.
  unfold newMutualTLSConfig, setCA. intros Hc.
  destruct (LoadX509KeyPair certFile keyFile) as [cert|] eqn:Ek; [|done].
  destruct (Str.empty caCertFile) eqn:Ee; cbn [negb] in Hc.
  - injection Hc as <-. destruct isClient; split_and!; try done;
      exists cert; (split_and!; [done|done|]); intros Hne; by destruct caCertFile.
  - destruct (ReadFile caCertFile) as [tx|] eqn:Er; [|done].
    destruct (AppendCertsFromPEM tx) as [pool|] eqn:Ep; [|done].
    destruct (ParseAndVerify cert pool) eqn:Ev; [done|]. injection Hc as <-.
    destruct isClient; split_and!; try done; exists cert; (split_and!; [done|done|]); eauto 10.
Qed.


End Tls.

(** A server whose operator lists one known and one unknown suite. *)
Example server_with_one_suite :
  (match NewServerMutualTLSConfig (Cert := string) (Pool := string)
     (fun c k => Ok c) (fun f => Ok f) Some (fun _ _ => None) "cert" "key" "ca"
     [WithCipherSuites ["TLS_ECDHE_RSA_WITH_AES_256_GCM_SHA384"; "RC4"]%string] with
   | Returns (Ok c) => CipherSuites c
   | _ => []
   end) = [TLS_ECDHE_RSA_WITH_AES_256_GCM_SHA384].
Proof. reflexivity. Qed.
