(* ===== verification/Rlp.v ===== *)
(** * rlp: the reverse log proxy

    rlp/internal/ingress turns v2 requests into doppler subscriptions and doppler payloads
    into v2 envelopes; rlp/internal/egress serves them, with a bounded buffer between the
    goroutine that receives and the one that sends.  The converter is an interface
    ([EnvelopeConverter]) that the conversion of plumbing/conversion implements. *)

From S2P Require Import Prelude Go Events Router Conversion ConversionRoundTrip MetricEmitter.

(** ** ingress *)

(** [v2.Filter] and [v2.EgressRequest]; the message of a filter can only be a log filter. *)
Inductive FilterMessage : Type := Filter_Log.

Record V2Filter : Type := mkV2Filter { SourceId : string; Message : option FilterMessage }.

Record EgressRequest : Type := mkEgressRequest {
  ShardId : string; Filter_ : option V2Filter; UsePreferredTags : bool }.

(** request_converter.go *)
Definition convertV2Filter (v2filter : option V2Filter) : option (string * request_message) :=
  match v2filter with
  | None => None
  | Some f => Some (SourceId f, match Message f with Some Filter_Log => LogOnly | None => AnyMessage end)
  end.

Definition convertRequest (v2req : EgressRequest) : SubscriptionRequest :=
  Router.mkRequest (ShardId v2req) (convertV2Filter (Filter_ v2req)).

(** receiver.go: the interface to the envelope converter; decoding may fail, and a panic
    would end the process. *)
Class EnvelopeConverter (E : Type) : Type := Convert : string -> bool -> outcome (result E).

Class ConverterTotal (E : Type) `{EnvelopeConverter E} : Prop :=
  Convert_returns : forall payload pref, exists r, Convert payload pref = Returns r.

(** An envelope together with the maps it refers to. *)
Definition owned_envelope : Type := Heap * env2.

(** [v1e.Unmarshal], and the enumerations of sonde-go by name. *)
Definition with_tags (e : V1.Envelope) (r : ref) : env1 :=
  V1.mkEnvelope (V1.Origin e) (V1.EventTypeF e) (V1.Timestamp e) (V1.Deployment e) (V1.Job e)
    (V1.Index e) (V1.Ip e) r (V1.HttpStartStopF e) (V1.LogMessageF e) (V1.ValueMetricF e)
    (V1.CounterEventF e) (V1.ErrorF e) (V1.ContainerMetricF e).

Section Converter.

Context (Unmarshal : string -> result V1.Envelope).
Context (Method_name PeerType_name : Z -> string) (ord : RangeOrder string).

(** envelope_converter.go; the tags of a decoded envelope are a map of their own. *)
Definition envelopeConverter_Convert (payload : string) (usePreferredTags : bool)
  : outcome (result owned_envelope) :=
  match Unmarshal payload with
  | Err err => Returns (Err err)
  | Ok e =>
      let '(h, i) := alloc (mkHeap ∅ 0) (V1.Tags e) in
      match ToV2 Method_name PeerType_name ord h (with_tags e (Some i)) usePreferredTags with
      | Panics why => Panics why
      | Returns p => Returns (Ok p)
      end
  end.

#[global] Instance envelopeConverter : EnvelopeConverter owned_envelope := envelopeConverter_Convert.

#[global] Instance envelopeConverter_total :
  @ConverterTotal owned_envelope envelopeConverter.
Proof.
  intros payload pref. unfold Convert, envelopeConverter, envelopeConverter_Convert.
  destruct (Unmarshal payload) as [e|err]; [|eauto]. cbn [alloc]. destruct pref.
  - pose proof (ToV2_preferred Method_name PeerType_name ord
      (mkHeap (<[0 := V1.Tags e]> ∅) 1) (with_tags e (Some 0)) 0 (V1.Tags e) eq_refl (lookup_insert_eq _ _ _)) as Hp.
    unfold toV2 in Hp. cbn [maps next_map]. rewrite Hp. eauto.
  - rewrite ToV2_deprecated. eauto.
Qed.

End Converter.

(** ** egress/server.go *)

Section Server.

Context {E : Type} `{ConverterTotal E}.

Definition bufferSize : nat := N.to_nat 10000.

(** The counters of [NewServer]: envelopes sent and envelopes dropped. *)
Definition NewServer (ord : RangeOrder string) (c : MetricEmitter.Client) : Counter * Counter :=
  (Client_NewCounter ord c "egress" [WithVersion ord 2 0],
   Client_NewCounter ord c "dropped"
     [WithVersion ord 2 0; WithTags ord {["direction"%string := "egress"%string]}]).

(** [Alert], called with a number of envelopes lost before they reached the server. *)
Definition Alert (dropped : Counter) (missed : Z) : Counter := Increment dropped (Words.uint64 missed).

(** A call of [Receiver]: the request it subscribed with, its buffer, whether the goroutine
    [consumeReceiver] still receives, what it returned, and what happened to the envelopes. *)
Record subscription : Type := mkSubscription {
  request : EgressRequest;
  subscribed : option SubscriptionRequest;
  buffer : Chan.t E;
  receiving : bool;
  returned : option (option string);
  received : list E;
  sent : list E;
  failed : list E;
  egressMetric : Z;
  droppedMetric : Z;
  health : Health.Registrar
}.

Definition subscriptionCount : string := "subscriptionCount".

(** The deferred calls of [Receiver]. *)
Definition finish (err : option string) (s : subscription) : outcome subscription :=
  match Health.Dec (health s) subscriptionCount with
  | Panics why => Panics why
  | Returns h =>
      Returns (mkSubscription (request s) (subscribed s) (buffer s) (receiving s) (Some err) (received s)
                 (sent s) (failed s) (egressMetric s) (droppedMetric s) h)
  end.

(** A type filter without a source id. *)
Definition invalid_request (r : EgressRequest) : bool :=
  match Filter_ r with
  | Some f => Str.empty (SourceId f) && bool_decide (is_Some (Message f))
  | None => false
  end.

(** [Receiver] up to its loop; [accepts] is whether the dopplers accept the subscription. *)
Definition Receiver_start (h : Health.Registrar) (r : EgressRequest) (accepts : bool)
  : outcome subscription :=
  match Health.Inc h subscriptionCount with
  | Panics why => Panics why
  | Returns h =>
      let s := mkSubscription r None (Chan.make E bufferSize) false None [] [] [] 0 0 h in
      if invalid_request r
      then finish (Some "invalid request: cannot have type filter without source id"%string) s
      else
        let s := mkSubscription r (Some (convertRequest r)) (Chan.make E bufferSize) accepts None
                   [] [] [] 0 0 h in
        if negb accepts then finish (Some "unable to setup subscription"%string) s else Returns s
  end.

Inductive server_event : Type :=
| RxError
| RxData (payload : string)
| SendNext (ok : bool).

(** [consumeReceiver] returns: its deferred calls close the buffer. *)
Definition stop_receiving (s : subscription) : outcome subscription :=
  match Chan.close (buffer s) with
  | None => Panics "close of closed channel"
  | Some c =>
      Returns (mkSubscription (request s) (subscribed s) c false (returned s) (received s) (sent s)
                 (failed s) (egressMetric s) (droppedMetric s) (health s))
  end.

Definition consumeReceiver_turn (s : subscription) (payload : string) : outcome subscription :=
  match Convert payload (UsePreferredTags (request s)) with
  | Panics why => Panics why
  | Returns (Err _) => stop_receiving s
  | Returns (Ok e) =>
      match Chan.try_send (buffer s) e with
      | Chan.SendOnClosed => Panics "send on closed channel"
      | Chan.Sent c =>
          Returns (mkSubscription (request s) (subscribed s) c true (returned s) (received s ++ [e]) (sent s)
                     (failed s) (egressMetric s) (droppedMetric s) (health s))
      | Chan.Full =>
          Returns (mkSubscription (request s) (subscribed s) (buffer s) true (returned s) (received s ++ [e])
                     (sent s) (failed s) (egressMetric s) (Words.add 64 (droppedMetric s) 1) (health s))
      end
  end.

(** One turn of [for data := range buffer]. *)
Definition send_turn (s : subscription) (ok : bool) : outcome subscription :=
  match Chan.try_recv (buffer s) with
  | Chan.Empty => Returns s
  | Chan.Drained => finish None s
  | Chan.Received e c =>
      if ok then
        Returns (mkSubscription (request s) (subscribed s) c (receiving s) (returned s) (received s)
                   (sent s ++ [e]) (failed s) (Words.add 64 (egressMetric s) 1) (droppedMetric s) (health s))
      else
        finish (Some "unexpected EOF"%string)
          (mkSubscription (request s) (subscribed s) c (receiving s) (returned s) (received s)
             (sent s) (failed s ++ [e]) (egressMetric s) (droppedMetric s) (health s))
  end.

Definition server_step (s : subscription) (ev : server_event) : outcome subscription :=
  match ev with
  | RxError => if receiving s then stop_receiving s else Returns s
  | RxData payload => if receiving s then consumeReceiver_turn s payload else Returns s
  | SendNext ok => match returned s with Some _ => Returns s | None => send_turn s ok end
  end.

Definition server_run (s : subscription) (l : list server_event) : outcome subscription :=
  ofold server_step l s.

(** ** The invariant *)

Record sub_ok (h0 : Health.Registrar) (s : subscription) : Prop := {
  ok_open : receiving s = true -> Chan.closed (buffer s) = false;
  ok_order : (sent s ++ failed s ++ Chan.buf (buffer s)) `sublist_of` received s;
  ok_bound : length (Chan.buf (buffer s)) <= bufferSize;
  ok_cap : Chan.cap (buffer s) = bufferSize;
  ok_dropped : droppedMetric s
    = Words.uint64 (Z.of_nat (length (received s))
        - Z.of_nat (length (sent s ++ failed s ++ Chan.buf (buffer s))));
  ok_egress : egressMetric s = Words.uint64 (Z.of_nat (length (sent s)));
  ok_failed : length (failed s) <= 1 /\ (returned s = None -> failed s = []);
  ok_health : match returned s with
    | None => Health.Inc h0 subscriptionCount = Returns (health s)
    | Some _ => health s = h0
    end;
  ok_nil : returned s = Some None -> receiving s = false /\ Chan.buf (buffer s) = []
}.

Lemma finish_returns h0 s err :
  is_Some (Health.gauges h0 !! subscriptionCount) ->
  Health.Inc h0 subscriptionCount = Returns (health s) ->
  finish err s = Returns (mkSubscription (request s) (subscribed s) (buffer s) (receiving s) (Some err)
    (received s) (sent s) (failed s) (egressMetric s) (droppedMetric s) h0).
Proof.
  intros Hg Hi. pose proof (Health.Dec_Inc h0 subscriptionCount Hg) as Hd. rewrite Hi in Hd. simpl in Hd.
  unfold finish. by rewrite Hd.
Qed.

Lemma stop_receiving_ok h0 s :
  sub_ok h0 s -> receiving s = true ->
  exists s', stop_receiving s = Returns s' /\ sub_ok h0 s'.
Proof.
  intros [Hopen ? ? ? ? ? ? ? Hnil] Hr. unfold stop_receiving, Chan.close. rewrite Hopen by done.
  eexists. split; [done|]. split; simpl; try done. intros Er. destruct (Hnil Er). congruence.
Qed.

Lemma consume_ok h0 s payload :
  sub_ok h0 s -> receiving s = true ->
  exists s', consumeReceiver_turn s payload = Returns s' /\ sub_ok h0 s'.
Proof.
  intros Hs Hr. unfold consumeReceiver_turn.
  destruct (Convert_returns payload (UsePreferredTags (request s))) as [[e|err] ->];
    [|by apply stop_receiving_ok].
  destruct Hs as [Hopen Hord Hb Hcap Hd He Hf Hh Hnil]. specialize (Hopen Hr).
  assert (returned s <> Some None) as Hno by (intros Er; destruct (Hnil Er); congruence).
  destruct (decide (length (Chan.buf (buffer s)) < Chan.cap (buffer s))) as [Hlt|Hge].
  - rewrite Chan.try_send_open by done. eexists. split; [done|]. split; simpl; try done.
    + rewrite !app_assoc. apply sublist_app; [by rewrite <- app_assoc|done].
    + rewrite length_app. simpl. lia.
    + rewrite Hd. rewrite !length_app. simpl. f_equal. lia.
  - rewrite Chan.try_send_full by (done || lia). eexists. split; [done|]. split; simpl; try done.
    + by apply sublist_inserts_r.
    + rewrite Hd. unfold Words.add. rewrite Words.wrap_add_l by lia. rewrite !length_app. simpl. f_equal. lia.
Qed.

Lemma send_ok h0 s ok :
  is_Some (Health.gauges h0 !! subscriptionCount) ->
  sub_ok h0 s -> returned s = None -> exists s', send_turn s ok = Returns s' /\ sub_ok h0 s'.
Proof.
  intros Hg Hs Hret. pose proof Hs as [Hopen Hord Hb Hcap Hd He Hf Hh Hnil]. rewrite Hret in *.
  unfold send_turn, Chan.try_recv. destruct (Chan.buf (buffer s)) as [|e rest] eqn:Eb.
  - destruct (Chan.closed (buffer s)) eqn:Ec; [|eauto].
    rewrite (finish_returns h0) by done. eexists. split; [done|]. split; simpl; try done; rewrite ?Eb; try done.
    + intros Hr. specialize (Hopen Hr). discriminate.
    + split; [lia|done].
    + split; [destruct (receiving s); [by specialize (Hopen eq_refl)|done]|done].
  - destruct Hf as [_ Hf]. rewrite Hf in * by done. simpl in *. destruct ok.
    + eexists. split; [done|]. split; simpl; rewrite ?Hf by done; simpl; rewrite <- ?app_assoc; try done.
      * lia.
      * rewrite He. unfold Words.add. rewrite Words.wrap_add_l by lia. rewrite length_app. simpl. f_equal. lia.
      * split; [lia|done].
      * by rewrite Hret.
      * by rewrite Hret.
    + rewrite (finish_returns h0) by done. eexists. split; [done|]. split; simpl; rewrite ?Hf by done; simpl; try done.
      lia.
Qed.

Lemma server_step_ok h0 s ev :
  is_Some (Health.gauges h0 !! subscriptionCount) ->
  sub_ok h0 s -> exists s', server_step s ev = Returns s' /\ sub_ok h0 s'.
Proof.
  intros Hg Hs. destruct ev as [|payload|ok]; simpl.
  - destruct (receiving s) eqn:Er; [by apply stop_receiving_ok|eauto].
  - destruct (receiving s) eqn:Er; [by apply consume_ok|eauto].
  - destruct (returned s) eqn:Er; [eauto|by apply send_ok].
Qed.

Lemma server_run_ok h0 s l :
  is_Some (Health.gauges h0 !! subscriptionCount) ->
  sub_ok h0 s -> exists s', server_run s l = Returns s' /\ sub_ok h0 s'.
Proof. intros Hg. apply (ofold_returns (sub_ok h0)). intros s1 ev Hs1 _. by apply server_step_ok. Qed.


Lemma Receiver_start_ok h0 r accepts :
  is_Some (Health.gauges h0 !! subscriptionCount) ->
  exists s, Receiver_start h0 r accepts = Returns s /\ sub_ok h0 s
  /\ subscribed s = (if invalid_request r then None else Some (convertRequest r))
  /\ (returned s = None <-> invalid_request r = false /\ accepts = true).
Proof.
  intros Hg. unfold Receiver_start. destruct (Health.Inc h0 subscriptionCount) as [h|why] eqn:Ei.
  2:{ exfalso. unfold Health.Inc, Health.update in Ei. destruct Hg as [g Hg]. by rewrite Hg in Ei. }
  destruct (invalid_request r); [|destruct accepts; cbn [negb]].
  - rewrite (finish_returns h0) by done. eexists. split; [done|]. simpl. split_and!; [|done|naive_solver].
    split; simpl; try done; try lia; (split; [lia|done]).
  - eexists. split; [done|]. simpl. split_and!; [|done|naive_solver]. split; simpl; try done; try lia; (split; [lia|done]).
  - rewrite (finish_returns h0) by done. eexists. split; [done|]. simpl. split_and!; [|done|naive_solver].
    split; simpl; try done; try lia; (split; [lia|done]).
Qed.

(** C21: A subscription at the reverse log proxy accounts for every envelope.  With the health
    gauge registered, no sequence of doppler payloads, errors and sends makes it panic.  It
    subscribes at the dopplers exactly when the request is valid, for the same source and
    type; the envelopes sent, the one whose sending failed, if any, and those buffered are
    envelopes received, in order, and at most ten thousand are buffered; the others were
    dropped, and the metric of drops is their number.  When the call has
    returned the health gauge is as before; it returns without an error only once the
    dopplers' stream has ended and everything buffered has been sent. *)
Theorem rlp_subscription_accounts h0 r accepts l :
  is_Some (Health.gauges h0 !! subscriptionCount) ->
  exists s0 s, Receiver_start h0 r accepts = Returns s0 /\ server_run s0 l = Returns s
  /\ subscribed s0 = (if invalid_request r then None else Some (convertRequest r))
  /\ (forall f, Filter_ r = Some f -> convertFilter (convertRequest r)
        = mkFilter (SourceId f) (match Message f with Some Filter_Log => logType | None => noType end))
  /\ (sent s ++ failed s ++ Chan.buf (buffer s)) `sublist_of` received s
  /\ length (Chan.buf (buffer s)) <= bufferSize /\ length (failed s) <= 1
  /\ droppedMetric s = Words.uint64 (Z.of_nat (length (received s))
        - Z.of_nat (length (sent s ++ failed s ++ Chan.buf (buffer s))))
  /\ egressMetric s = Words.uint64 (Z.of_nat (length (sent s)))
  /\ (is_Some (returned s) -> health s = h0)
  /\ (returned s = Some None -> receiving s = false /\ Chan.buf (buffer s) = []).
Proof.
  intros Hg. destruct (Receiver_start_ok h0 r accepts Hg) as (s0 & Hs0 & Hok & Hsub & _).
  destruct (server_run_ok h0 s0 l Hg Hok) as (s & Hs & [H1 H2 H3 H4 H5 H6 [H7 _] H8 H9]).
  exists s0, s. split_and!; try done.
  - intros f Hf. unfold convertRequest, convertFilter. simpl. rewrite Hf. simpl. by destruct (Message f) as [[]|].
  - intros [e He]. by rewrite He in H8.
Qed.

End Server.

(** ** ingress/querier.go and egress/query_server.go *)

Section Query.

Context {E : Type} `{EnvelopeConverter E}.

(** [Querier.ContainerMetrics]: payloads that do not decode are left out. *)
Fixpoint Querier_ContainerMetrics (results : list string) (usePreferredTags : bool) : outcome (list E) :=
  match results with
  | [] => Returns []
  | envBytes :: rest =>
      match Convert envBytes usePreferredTags with
      | Panics why => Panics why
      | Returns (Err _) => Querier_ContainerMetrics rest usePreferredTags
      | Returns (Ok v2e) =>
          match Querier_ContainerMetrics rest usePreferredTags with
          | Panics why => Panics why
          | Returns v2Envs => Returns (v2e :: v2Envs)
          end
      end
  end.

(** [QueryServer.ContainerMetrics] over the dopplers' answer for a source. *)
Definition QueryServer_ContainerMetrics (fetch : string -> list string) (sourceId : string)
  (usePreferredTags : bool) : outcome (result (list E)) :=
  if Str.empty sourceId then Returns (Err "source_id is required")
  else match Querier_ContainerMetrics (fetch sourceId) usePreferredTags with
       | Panics why => Panics why
       | Returns results => Returns (Ok results)
       end.

Lemma Querier_spec `{!ConverterTotal E} results pref :
  exists l, Querier_ContainerMetrics results pref = Returns l
  /\ l = omap (fun p => match Convert p pref with Returns (Ok e) => Some e | _ => None end) results.
Proof.
  induction results as [|p results (l & IH & ->)]; [by exists []|]. cbn [Querier_ContainerMetrics omap list_omap].
  destruct (Convert_returns p pref) as [[e|err] ->]; rewrite IH; eauto.
Qed.

End Query.

(** Two payloads, one envelope sent; then the dopplers go away. *)
Module RlpExample.

Definition decode (s : string) : result V1.Envelope :=
  if decide (s = "bad"%string) then Err "proto: illegal wireType"
  else Ok (V1.mkEnvelope (Some s) (Some V1.Envelope_LogMessage) (Some 1%Z) None None None None ∅
             None None None None None None).

#[global] Instance conv : EnvelopeConverter owned_envelope :=
  envelopeConverter decode (fun _ => EmptyString) (fun _ => EmptyString) default_order.

#[global] Instance conv_total : ConverterTotal owned_envelope :=
  envelopeConverter_total decode (fun _ => EmptyString) (fun _ => EmptyString) default_order.

Definition registrar : Health.Registrar := Health.mkRegistrar {[subscriptionCount := 4%Z]}.

Definition req : EgressRequest := mkEgressRequest "shard" (Some (mkV2Filter "app" (Some Filter_Log))) true.

Definition events : list server_event :=
  [RxData "a"; RxData "b"; SendNext true; RxError; SendNext true; SendNext true].

End RlpExample.

Lemma rlp_subscription_accounts_witness :
  exists s0 s : subscription (E := owned_envelope),
  Receiver_start RlpExample.registrar RlpExample.req true = Returns s0
  /\ server_run s0 RlpExample.events = Returns s
  /\ subscribed s0 = Some (Router.mkRequest "shard" (Some ("app"%string, LogOnly)))
  /\ length (failed s) <= 1 /\ (is_Some (returned s) -> health s = RlpExample.registrar).
Proof.
  destruct (rlp_subscription_accounts (E := owned_envelope) RlpExample.registrar RlpExample.req true
    RlpExample.events) as (s0 & s & H1 & H2 & H3 & _ & _ & _ & H4 & _ & _ & H5 & _).
  - exists 4%Z. reflexivity.
  - exists s0, s. split_and!; [exact H1|exact H2|exact H3|exact H4|exact H5].
Defined.
