(* ===== verification/Finder.v ===== *)
(** * dopplerservice: how dopplers announce themselves and are found

    announcer.go writes a node per doppler into the store; finder.go mirrors the nodes and
    sends an event with all addresses whenever they change; plumbing/static_finder.go
    replaces it where the addresses are configured.  JSON is an argument.  Two goroutines
    (for the meta and the legacy root) share the finder; each handles its events in order,
    and executions interleave them arbitrarily. *)

From Stdlib Require Import Ascii.
From S2P Require Import Prelude Go Http AppServices DrainBinder.

#[local] Open Scope go_scope.

(** ** announcer.go *)

Record DopplerMeta : Type := mkDopplerMeta { Version : Z; Endpoints : list string }.

Definition dopplerMetaVersion : Z := 1.
Definition META_ROOT : string := "/doppler/meta".
Definition LEGACY_ROOT : string := "/healthstatus/doppler".

(** The fields of doppler's configuration that are announced. *)
Record AnnounceConfig : Type := mkAnnounceConfig {
  Zone : string; JobName : string; Index : string; IncomingUDPPort : Z; OutgoingPort : Z }.

Definition dopplerMeta (ip : string) (c : AnnounceConfig) : DopplerMeta :=
  mkDopplerMeta dopplerMetaVersion
    ["udp://" +:+ ip +:+ ":" +:+ Strconv.Itoa (IncomingUDPPort c);
     "ws://" +:+ ip +:+ ":" +:+ Strconv.Itoa (OutgoingPort c)]%string.

Definition announce_key (root : string) (c : AnnounceConfig) : string :=
  root +:+ "/" +:+ Zone c +:+ "/" +:+ JobName c +:+ "/" +:+ Index c.

(** The calls on the store adapter. *)
Inductive store_call : Type := CallCreate (n : ttlNode) | CallMaintainNode (n : ttlNode).

Section Announce.

(** [json.Marshal], and the error [MaintainNode] returns. *)
Context (marshal : DopplerMeta -> result string) (maintain : ttlNode -> option string).

Definition buildDopplerMeta (ip : string) (c : AnnounceConfig) : result string := marshal (dopplerMeta ip c).

Definition Announce (ip : string) (ttl : Z) (c : AnnounceConfig) : outcome (list store_call) :=
  match buildDopplerMeta ip c with
  | Err err => Panics err
  | Ok dopplerMetaBytes =>
      let node := mkTTLNode (mkNode (announce_key META_ROOT c) dopplerMetaBytes false []) (Seconds_u64 ttl) in
      match maintain node with
      | Some err => Panics err
      | None => Returns [CallCreate node; CallMaintainNode node]
      end
  end.

Definition AnnounceLegacy (ip : string) (ttl : Z) (c : AnnounceConfig) : outcome (list store_call) :=
  let node := mkTTLNode (mkNode (announce_key LEGACY_ROOT c) ip false []) (Seconds_u64 ttl) in
  match maintain node with
  | Some err => Panics err
  | None => Returns [CallMaintainNode node]
  end.

End Announce.

(** ** finder.go *)

Record Event : Type := mkEvent {
  GRPCDopplers : list string; UDPDopplers : list string;
  TLSDopplers : list string; TCPDopplers : list string }.

Definition event_empty (e : Event) : bool :=
  bool_decide (length (UDPDopplers e) = 0) && bool_decide (length (TCPDopplers e) = 0)
  && bool_decide (length (TLSDopplers e) = 0).

Record Finder : Type := mkFinder {
  legacyPort : Z;
  grpcPort : Z;
  protocols : list string;
  preferredDopplerZone : string;
  metaEndpoints : gmap string (list string);
  legacyEndpoints : gmap string string;
  events : list Event
}.

Definition NewFinder (legacyPort grpcPort : Z) (protocols : list string) (zone : string) : Finder :=
  mkFinder legacyPort grpcPort protocols zone ∅ ∅ [].

Definition set_meta (f : Finder) (m : gmap string (list string)) : Finder :=
  mkFinder (legacyPort f) (grpcPort f) (protocols f) (preferredDopplerZone f) m (legacyEndpoints f) (events f).

Definition set_legacy (f : Finder) (m : gmap string string) : Finder :=
  mkFinder (legacyPort f) (grpcPort f) (protocols f) (preferredDopplerZone f) (metaEndpoints f) m (events f).

Definition push_event (f : Finder) (e : Event) : Finder :=
  mkFinder (legacyPort f) (grpcPort f) (protocols f) (preferredDopplerZone f) (metaEndpoints f)
    (legacyEndpoints f) (events f ++ [e]).

(** The values a parser returns: a list of endpoints, an address, or nothing on an error. *)
Inductive nodeValue : Type := MetaValue (l : list string) | LegacyValue (s : string) | NilValue.

Definition deleteEndpoints (f : Finder) (kv : string * nodeValue) : Finder :=
  match kv.2 with
  | MetaValue _ => set_meta f (delete kv.1 (metaEndpoints f))
  | LegacyValue _ => set_legacy f (delete kv.1 (legacyEndpoints f))
  | NilValue => f
  end.

Definition saveEndpoints (f : Finder) (kv : string * nodeValue) : Finder :=
  match kv.2 with
  | MetaValue src => set_meta f (<[kv.1 := src]> (metaEndpoints f))
  | LegacyValue src => set_legacy f (<[kv.1 := src]> (legacyEndpoints f))
  | NilValue => f
  end.

Fixpoint protocol_index_from (i : Z) (l : list string) (addr : string) : option Z :=
  match l with
  | [] => None
  | protocol :: l => if Str.HasPrefix addr protocol then Some i else protocol_index_from (i + 1) l addr
  end.

(** [None] is the error. *)
Definition protocolIndex (f : Finder) (addr : string) : option Z := protocol_index_from 0 (protocols f) addr.

(** One turn of the loop of [addLegacyAddrs]. *)
Definition add_legacy (f : Finder) (udpIdx : Z) (addrs : gmap string (list string)) (dl : string * string)
  : outcome (gmap string (list string)) :=
  let '(doppler, legacyAddr) := dl in
  match addrs !! doppler with
  | None => Returns (<[doppler := [legacyAddr]]> addrs)
  | Some [] => Panics "index out of range"
  | Some (chosenAddr :: _) =>
      match protocolIndex f chosenAddr with
      | None => Panics ("Somehow chosenAddr " +:+ chosenAddr +:+ " (for doppler " +:+ doppler +:+ ") is "
                  +:+ "not in this finder's protocol list [" +:+ Str.Join (protocols f) " " +:+ "]")
      | Some idx =>
          if Str.HasPrefix chosenAddr "udp" || bool_decide (idx < udpIdx)%Z then Returns addrs
          else Returns (<[doppler := [legacyAddr]]> addrs)
      end
  end.

Definition addLegacyAddrs (ord : RangeOrder string) (f : Finder) (addrs : gmap string (list string))
  : outcome (gmap string (list string)) :=
  match protocolIndex f "udp" with
  | None => Returns addrs
  | Some udpIdx => ofold (add_legacy f udpIdx) (range_map ord (legacyEndpoints f)) addrs
  end.

Definition chooseAddrs (ord : RangeOrder string) (f : Finder) : outcome (gmap string (list string)) :=
  addLegacyAddrs ord f (copy_into ord ∅ (metaEndpoints f)).

(** The host of a websocket address with the gRPC port. *)
Definition grpc_address (f : Finder) (addr : string) : string :=
  let host := Str.TrimPrefix addr "ws://" in
  let host := match Str.IndexOf host ":" with Some hostEnd => Str.take_n hostEnd host | None => host end in
  host +:+ ":" +:+ Strconv.Itoa (grpcPort f).

(** One address of a doppler, sorted by its protocol. *)
Definition add_address (f : Finder) (e : Event) (addr : string) : Event :=
  if Str.HasPrefix addr "udp" then
    mkEvent (GRPCDopplers e) (UDPDopplers e ++ [Str.TrimPrefix addr "udp://"]) (TLSDopplers e) (TCPDopplers e)
  else if Str.HasPrefix addr "tcp" then
    mkEvent (GRPCDopplers e) (UDPDopplers e) (TLSDopplers e) (TCPDopplers e ++ [Str.TrimPrefix addr "tcp://"])
  else if Str.HasPrefix addr "tls" then
    mkEvent (GRPCDopplers e) (UDPDopplers e) (TLSDopplers e ++ [Str.TrimPrefix addr "tls://"]) (TCPDopplers e)
  else if Str.HasPrefix addr "ws" then
    mkEvent (GRPCDopplers e ++ [grpc_address f addr]) (UDPDopplers e) (TLSDopplers e) (TCPDopplers e)
  else e.

Definition eventWithPrefix (ord : RangeOrder string) (f : Finder) (dopplerPrefix : string) : outcome Event :=
  match chooseAddrs ord f with
  | Panics why => Panics why
  | Returns chosenAddrs =>
      Returns (foldl (fun e da =>
        foldl (fun e addr => if negb (Str.HasPrefix da.1 dopplerPrefix) then e else add_address f e addr)
          e da.2) (mkEvent [] [] [] []) (range_map ord chosenAddrs))
  end.

(** [sendEvent]; the channel's bound only delays the sender. *)
Definition sendEvent (ord : RangeOrder string) (f : Finder) : outcome Finder :=
  match eventWithPrefix ord f (preferredDopplerZone f) with
  | Panics why => Panics why
  | Returns event =>
      if event_empty event then
        match eventWithPrefix ord f EmptyString with
        | Panics why => Panics why
        | Returns event => Returns (push_event f event)
        end
      else Returns (push_event f event)
  end.

Definition hasAddrs (f : Finder) : bool :=
  bool_decide (0 < size (legacyEndpoints f)) || bool_decide (0 < size (metaEndpoints f)).

(** The non-empty leaves below a node. *)
Fixpoint findLeafs (root : StoreNode) : list StoreNode :=
  match root with
  | mkNode k v false _ => if Str.empty v then [] else [root]
  | mkNode k v true children => flat_map findLeafs children
  end.

Definition supportedProtocols : list string := ["udp"; "tcp"; "tls"; "ws"]%string.

Definition supported (addr : string) : bool := existsb (Str.HasPrefix addr) supportedProtocols.

(** [WebsocketServers] *)
Definition WebsocketServers (f : Finder) : outcome (list string) :=
  Panics "WebsocketServers() has been deprecated".

(** A decoded JSON value of unknown shape. *)
#[warnings="-register-all"]
Inductive json : Type :=
| JNull | JBool (b : bool) | JNumber (s : string) | JString (s : string)
| JArray (l : list json) | JObject (l : list (string * json)).

Inductive event_type : Type := InvalidEvent | CreateEvent | DeleteEvent | ExpireEvent | UpdateEvent.

(** [storeadapter.WatchEvent]; the nodes are pointers. *)
Record WatchEvent : Type := mkWatchEvent {
  Type_ : event_type; Node : option StoreNode; PrevNode : option StoreNode }.

Definition deref {A} (p : option A) : outcome A :=
  match p with Some a => Returns a | None => Panics "nil pointer dereference" end.

(** [set.UnmarshalJSON] after decoding: the loop that fills the set. *)
Definition set_of (src : list string) : gset string := foldl (fun m v => {[v]} ∪ m) ∅ src.

Section Finder.

(** [json.Unmarshal] into a map, and the strings of the field [endpoints] of a
    [DopplerEvent]. *)
Context (unmarshal_map : string -> result (gmap string json)).
Context (unmarshal_event : string -> result (list string)).
Context (ord : RangeOrder string).

Definition append_endpoint (endpoints : list string) (endpoint : json) : outcome (list string) :=
  match endpoint with
  | JString s => Returns (endpoints ++ [s])
  | _ => Panics "interface conversion: interface {} is not string"
  end.

Definition parseMetaValue (leafValue : string) : outcome (result nodeValue) :=
  match unmarshal_map leafValue with
  | Err err => Returns (Err err)
  | Ok data =>
      match data !! "endpoints"%string with
      | Some (JArray endpointSlice) =>
          let! endpoints := ofold append_endpoint endpointSlice [] in
          Returns (Ok (MetaValue endpoints))
      | _ => Panics "interface conversion: interface {} is not []interface {}"
      end
  end.

Definition parseLegacyValue (f : Finder) (leafValue : string) : outcome (result nodeValue) :=
  Returns (Ok (LegacyValue ("udp://" +:+ leafValue +:+ ":" +:+ Strconv.Itoa (legacyPort f)))).

(** The parser each goroutine passes on. *)
Inductive parser_kind : Type := Meta | Legacy.

Definition etcd_root (p : parser_kind) : string :=
  match p with Meta => META_ROOT | Legacy => LEGACY_ROOT end.

Definition parser (f : Finder) (p : parser_kind) : string -> outcome (result nodeValue) :=
  match p with Meta => parseMetaValue | Legacy => parseLegacyValue f end.

Definition parseNode (f : Finder) (n : StoreNode) (p : parser_kind) : outcome (string * nodeValue) :=
  let! r := parser f p (Value n) in
  match r with
  | Err _ => Returns (EmptyString, NilValue)
  | Ok nodeValue =>
      let dopplerKey := match nodeValue with
        | MetaValue _ => Str.TrimPrefix (Key n) META_ROOT
        | LegacyValue _ => Str.TrimPrefix (Key n) LEGACY_ROOT
        | NilValue => EmptyString
        end in
      Returns (Str.TrimPrefix dopplerKey "/", nodeValue)
  end.

Definition equalLegacy (prev next : StoreNode) : bool := bool_decide (Value prev = Value next).

Definition equal (prev next : StoreNode) : bool :=
  if Str.HasPrefix (Key prev) LEGACY_ROOT then equalLegacy prev next else
  match unmarshal_event (Value prev) with
  | Err _ => false
  | Ok prevSrc =>
      match unmarshal_event (Value next) with
      | Err _ => false
      | Ok nextSrc =>
          let prevEndpoints := set_of prevSrc in
          let nextEndpoints := set_of nextSrc in
          if negb (bool_decide (size prevEndpoints = size nextEndpoints)) then false
          else forallb (fun v => bool_decide (v ∈ nextEndpoints)) (elements prevEndpoints)
      end
  end.

Definition save_and_send (f : Finder) (n : option StoreNode) (p : parser_kind) : outcome Finder :=
  let! n := deref n in
  let! kv := parseNode f n p in
  sendEvent ord (saveEndpoints f kv).

Definition handleEvent (f : Finder) (event : WatchEvent) (p : parser_kind) : outcome Finder :=
  match Type_ event with
  | InvalidEvent => Returns f
  | UpdateEvent =>
      let! prev := deref (PrevNode event) in
      let! next := deref (Node event) in
      if equal prev next then Returns f else save_and_send f (Node event) p
  | CreateEvent => save_and_send f (Node event) p
  | DeleteEvent | ExpireEvent =>
      let! n := deref (PrevNode event) in
      let! kv := parseNode f n p in
      sendEvent ord (deleteEndpoints f kv)
  end.

(** [read] of what the adapter lists. *)
Definition read (f : Finder) (listing : result StoreNode) (p : parser_kind) : outcome Finder :=
  match listing with
  | Err _ => Returns f
  | Ok n => ofold (fun f n => let! kv := parseNode f n p in Returns (saveEndpoints f kv)) (findLeafs n) f
  end.

Definition Start (f : Finder) (meta legacy : result StoreNode) : outcome Finder :=
  let! f := read f meta Meta in
  let! f := read f legacy Legacy in
  if negb (hasAddrs f) then Returns f else sendEvent ord f.

(** One turn of the loop of [run]: an event, or an error of the watch, after which the
    goroutine watches again and reads what is listed then. *)
Inductive run_input : Type := GotEvent (e : WatchEvent) | GotError (listing : result StoreNode).

Definition run (f : Finder) (pi : parser_kind * run_input) : outcome Finder :=
  match pi.2 with
  | GotEvent e => handleEvent f e pi.1
  | GotError listing => read f listing pi.1
  end.

(** [Next]: the oldest event not yet taken. *)
Definition Next (f : Finder) : option (Event * Finder) :=
  match events f with
  | [] => None
  | e :: rest => Some (e, mkFinder (legacyPort f) (grpcPort f) (protocols f) (preferredDopplerZone f)
      (metaEndpoints f) (legacyEndpoints f) rest)
  end.

End Finder.

(** ** plumbing/static_finder.go *)

Module StaticFinder.

Definition t : Type := list Event.

Definition NewStaticFinder (addrs : list string) : t := [mkEvent addrs [] [] []].

Definition Stop (f : t) : t := f ++ [mkEvent [] [] [] []].

Definition Next (f : t) : option (Event * t) := match f with [] => None | e :: rest => Some (e, rest) end.

End StaticFinder.

(** ** The store as the finder's clients mean it

    The dopplers under [META_ROOT], by their key below it, with their endpoints.  Each
    operation that changes something is reported by one event. *)

Abbreviation doppler_store := (gmap string (list string)).

Inductive store_op : Type := Put (k : string) (eps : list string) | Remove (expired : bool) (k : string).

Definition apply_op (s : doppler_store) (o : store_op) : doppler_store :=
  match o with Put k eps => <[k := eps]> s | Remove _ k => delete k s end.

(** Two values are as good as each other when they have the same endpoints. *)
Definition same_endpoints (x y : option (list string)) : Prop :=
  match x, y with
  | Some l, Some r => set_of l = set_of r
  | None, None => True
  | _, _ => False
  end.

#[export] Instance same_endpoints_equivalence : Equivalence same_endpoints.
Proof.
  split.
  - by intros [l|].
  - intros [l|] [r|]; simpl; done.
  - intros [l|] [r|] [u|]; simpl; congruence || done.
Qed.

(** *** Events *)

Section Events.

Context (ord : RangeOrder string).

Definition no_event : Event := mkEvent [] [] [] [].

(** The websocket addresses of the dopplers [s], with the gRPC port. *)
Definition serves (f : Finder) (s : doppler_store) (x : string) : Prop :=
  exists k eps a, s !! k = Some eps /\ a ∈ eps /\ Str.HasPrefix a "ws" = true /\ x = grpc_address f a.

(** The last event sent lists the dopplers the finder has. *)
Definition announced (f : Finder) : Prop :=
  forall x, x ∈ GRPCDopplers (default no_event (last (events f))) <-> serves f (metaEndpoints f) x.

Definition config (f : Finder) : Z * Z * list string * string :=
  (legacyPort f, grpcPort f, protocols f, preferredDopplerZone f).

(** The settings of the traffic controller: no "udp" among the protocols and no zone. *)
Definition grpc_only (f : Finder) : Prop :=
  protocolIndex f "udp" = None /\ preferredDopplerZone f = EmptyString.

Lemma grpc_only_config f g : config g = config f -> grpc_only f -> grpc_only g.
Proof. unfold config, grpc_only, protocolIndex. intros [= _ _ -> ->]. done. Qed.

Lemma serves_config f g s x : config g = config f -> serves f s x -> serves g s x.
Proof.
  unfold config. intros [= _ Hp _ _] (k & eps & a & ? & ? & ? & ->).
  exists k, eps, a. unfold grpc_address. by rewrite Hp.
Qed.

Lemma add_address_grpc f e a x :
  x ∈ GRPCDopplers (add_address f e a)
  <-> x ∈ GRPCDopplers e \/ (Str.HasPrefix a "ws" = true /\ x = grpc_address f a).
Proof.
  unfold add_address.
  assert (forall c p, Str.HasPrefix a (String c p) = true -> c <> "w"%char -> Str.HasPrefix a "ws" = false) as Hne.
  { intros c p Hp Hc. destruct a as [|b a]; [done|]. cbn [Str.HasPrefix] in *.
    destruct (ascii_dec c b) as [<-|]; [|done]. by destruct (ascii_dec "w" c) as [<-|]. }
  repeat match goal with |- context [if Str.HasPrefix a (String ?c ?p) then _ else _] =>
    destruct (Str.HasPrefix a (String c p)) eqn:? end; cbn [GRPCDopplers].
  - rewrite (Hne "u"%char _ Heqb) by done. naive_solver.
  - rewrite (Hne "t"%char _ Heqb0) by done. naive_solver.
  - rewrite (Hne "t"%char _ Heqb1) by done. naive_solver.
  - set_solver.
  - naive_solver.
Qed.

Lemma add_addresses_grpc f l e x :
  x ∈ GRPCDopplers (foldl (fun e (da : string * list string) =>
        foldl (fun e addr => if negb (Str.HasPrefix da.1 EmptyString) then e else add_address f e addr)
          e da.2) e l)
  <-> x ∈ GRPCDopplers e
      \/ exists k eps a, (k, eps) ∈ l /\ a ∈ eps /\ Str.HasPrefix a "ws" = true /\ x = grpc_address f a.
Proof.
  revert e. induction l as [|[k eps] l IH]; intros e; simpl.
  { set_solver. }
  rewrite IH.
  assert (Str.HasPrefix k EmptyString = true) as -> by (by destruct k). simpl.
  assert (forall e, x ∈ GRPCDopplers (foldl (fun e addr => add_address f e addr) e eps)
    <-> x ∈ GRPCDopplers e \/ exists a, a ∈ eps /\ Str.HasPrefix a "ws" = true /\ x = grpc_address f a) as ->.
  { clear. induction eps as [|a eps IH]; intros e; simpl; [set_solver|].
    rewrite IH, add_address_grpc. set_solver. }
  set_solver.
Qed.

Lemma sendEvent_announces f : grpc_only f ->
  exists e, sendEvent ord f = Returns (push_event f e) /\ announced (push_event f e).
Proof.
  intros [Hudp Hz]. unfold sendEvent. rewrite Hz.
  assert (exists e, eventWithPrefix ord f EmptyString = Returns e
    /\ forall x, x ∈ GRPCDopplers e <-> serves f (metaEndpoints f) x) as (e & He & Hx).
  { unfold eventWithPrefix, chooseAddrs, addLegacyAddrs. rewrite Hudp. eexists. split; [done|].
    intros x. rewrite add_addresses_grpc, copy_into_union, map_union_empty. cbn [GRPCDopplers].
    unfold serves. setoid_rewrite range_elem. set_solver. }
  rewrite He. exists e. split; [by destruct (event_empty e)|].
  intros x. unfold push_event at 1. cbn [events]. rewrite last_snoc. cbn [default]. apply Hx.
Qed.

End Events.

Section Mirror.

(** JSON as the announcing side writes it. *)
Context (marshal : list string -> string).

Definition meta_node (k : string) (eps : list string) : StoreNode :=
  mkNode (META_ROOT +:+ "/" +:+ k) (marshal eps) false [].

Definition op_event (s : doppler_store) (o : store_op) : option WatchEvent :=
  match o with
  | Put k eps =>
      Some match s !! k with
           | Some old => mkWatchEvent UpdateEvent (Some (meta_node k eps)) (Some (meta_node k old))
           | None => mkWatchEvent CreateEvent (Some (meta_node k eps)) None
           end
  | Remove expired k =>
      (fun old => mkWatchEvent (if expired then ExpireEvent else DeleteEvent) None (Some (meta_node k old)))
      <$> s !! k
  end.

(** What the two goroutines receive: operations on the dopplers reported to the first, and
    any input to the second. *)
Inductive stimulus : Type := Op (o : store_op) | LegacyInput (i : run_input).

Definition apply_stimulus (s : doppler_store) (x : stimulus) : doppler_store :=
  match x with Op o => apply_op s o | LegacyInput _ => s end.

Fixpoint inputs (s : doppler_store) (l : list stimulus) : list (parser_kind * run_input) :=
  match l with
  | [] => []
  | Op o :: l =>
      match op_event s o with Some e => [(Meta, GotEvent e)] | None => [] end ++ inputs (apply_op s o) l
  | LegacyInput i :: l => (Legacy, i) :: inputs s l
  end.

(** A listing of the root shows the store's dopplers at any depth. *)
Definition lists (n : StoreNode) (s : doppler_store) : Prop :=
  exists l, findLeafs n = (fun kv => meta_node kv.1 kv.2) <$> l /\ NoDup l.*1 /\ list_to_map l = s.

Context (unmarshal_map : string -> result (gmap string json)).
Context (unmarshal_event : string -> result (list string)).
Context (ord : RangeOrder string).

Hypothesis decode_map : forall eps, exists data,
  unmarshal_map (marshal eps) = Ok data /\ data !! "endpoints"%string = Some (JArray (JString <$> eps)).
Hypothesis decode_event : forall eps, unmarshal_event (marshal eps) = Ok eps.

Lemma parse_meta_node f k eps :
  parseNode unmarshal_map f (meta_node k eps) Meta = Returns (k, MetaValue eps).
Proof.
  unfold parseNode. cbn [parser meta_node Value Key]. unfold parseMetaValue.
  destruct (decode_map eps) as (data & -> & ->).
  assert (forall acc, ofold append_endpoint (JString <$> eps) acc = Returns (acc ++ eps)) as ->.
  { induction eps as [|e eps IH]; intros acc; simpl; [by rewrite app_nil_r|].
    by rewrite IH, <- app_assoc. }
  cbn [obind]. by rewrite !Str.TrimPrefix_app.
Qed.

Lemma set_of_list_to_set l : set_of l = list_to_set l.
Proof.
  unfold set_of. enough (forall m : gset string, foldl (fun m v => {[v]} ∪ m) m l = list_to_set l ∪ m) as H.
  { rewrite H. set_solver. }
  induction l as [|v l IH]; intros m; simpl; [set_solver|]. rewrite IH. set_solver.
Qed.

Lemma equal_meta_node k old eps :
  equal unmarshal_event (meta_node k old) (meta_node k eps) = true <-> set_of old = set_of eps.
Proof.
  unfold equal. cbn [meta_node Key Value].
  change (Str.HasPrefix (META_ROOT +:+ "/" +:+ k) LEGACY_ROOT) with false. cbv iota.
  rewrite !decode_event. case_bool_decide as Hs; simpl.
  - rewrite forallb_forall. split.
    + intros Hall. apply set_subseteq_size_eq; [|lia]. intros v Hv.
      apply elem_of_elements, list_elem_of_In, Hall, bool_decide_eq_true in Hv. done.
    + intros -> v Hv. apply bool_decide_eq_true, elem_of_elements, list_elem_of_In, Hv.
  - split; [done|]. intros E. by rewrite E in Hs.
Qed.

(** *** Steps *)

(** A legacy event carries the nodes its type promises. *)
Definition legacy_wf (x : stimulus) : Prop :=
  match x with
  | LegacyInput (GotEvent e) =>
      match Type_ e with
      | InvalidEvent => True
      | CreateEvent => is_Some (Node e)
      | UpdateEvent => is_Some (Node e) /\ is_Some (PrevNode e)
      | DeleteEvent | ExpireEvent => is_Some (PrevNode e)
      end
  | _ => True
  end.

(** [f'] comes from [f] by steps that leave the dopplers satisfying [R]. *)
Definition leads (f f' : Finder) (R : doppler_store -> Prop) : Prop :=
  config f' = config f /\ R (metaEndpoints f') /\ (announced f -> announced f').

Lemma send_leads f g (R : doppler_store -> Prop) :
  grpc_only f -> config g = config f -> R (metaEndpoints g) ->
  exists f', sendEvent ord g = Returns f' /\ leads f f' R.
Proof.
  intros Hf Hg HR. destruct (sendEvent_announces ord g) as (e & He & Ha).
  { by eapply grpc_only_config. }
  exists (push_event g e). done.
Qed.

Lemma parse_legacy f n : exists k v,
  parseNode unmarshal_map f n Legacy = Returns (k, LegacyValue v).
Proof. unfold parseNode, parser, parseLegacyValue. cbn [obind]. eauto. Qed.

Lemma read_legacy f listing : exists m, read unmarshal_map f listing Legacy = Returns (set_legacy f m).
Proof.
  destruct listing as [n|err]; unfold read.
  - revert f. induction (findLeafs n) as [|x l IH]; intros f; cbn [ofold].
    { exists (legacyEndpoints f). by destruct f. }
    destruct (parse_legacy f x) as (k & v & ->). cbn [obind saveEndpoints fst snd].
    destruct (IH (set_legacy f (<[k:=v]> (legacyEndpoints f)))) as [m ->]. by exists m.
  - exists (legacyEndpoints f). by destruct f.
Qed.

Lemma legacy_step f i : grpc_only f -> legacy_wf (LegacyInput i) ->
  exists f', run unmarshal_map unmarshal_event ord f (Legacy, i) = Returns f'
             /\ leads f f' (fun m => m = metaEndpoints f).
Proof.
  intros Hf Hwf. destruct i as [e|listing]; unfold run; cbn [fst snd].
  - assert (forall n, exists f', save_and_send unmarshal_map ord f (Some n) Legacy = Returns f'
      /\ leads f f' (fun m => m = metaEndpoints f)) as Hsave.
    { intros n. unfold save_and_send. cbn [deref obind].
      destruct (parse_legacy f n) as (k & v & ->). cbn [obind saveEndpoints fst snd].
      by apply send_leads. }
    unfold handleEvent. simpl in Hwf. destruct (Type_ e) eqn:?.
    + by exists f.
    + destruct Hwf as [n ->]. apply Hsave.
    + destruct Hwf as [n ->]. cbn [deref obind].
      destruct (parse_legacy f n) as (k & v & ->). by apply send_leads.
    + destruct Hwf as [n ->]. cbn [deref obind].
      destruct (parse_legacy f n) as (k & v & ->). by apply send_leads.
    + destruct Hwf as [[n ->] [pn ->]]. cbn [deref obind]. destruct (equal _ pn n); [by exists f|]. apply Hsave.
  - destruct (read_legacy f listing) as [m ->]. by exists (set_legacy f m).
Qed.

(** After an operation's event, each doppler is as in the store, or neither changed. *)
Definition follows (m : doppler_store) (s s' : doppler_store) (m' : doppler_store) : Prop :=
  forall k, same_endpoints (m' !! k) (s' !! k)
            \/ (m' !! k = m !! k /\ same_endpoints (s' !! k) (s !! k)).

Lemma save_follows f s k eps : grpc_only f ->
  exists f', save_and_send unmarshal_map ord f (Some (meta_node k eps)) Meta = Returns f'
             /\ leads f f' (follows (metaEndpoints f) s (<[k := eps]> s)).
Proof.
  intros Hf. unfold save_and_send. cbn [deref obind]. rewrite parse_meta_node. cbn [obind].
  apply send_leads; [done..|]. intros k'. simpl. destruct (decide (k = k')) as [<-|Hne].
  - left. by rewrite !lookup_insert_eq.
  - right. by rewrite !lookup_insert_ne by done.
Qed.

Lemma op_step f s o : grpc_only f ->
  exists f', ofold (run unmarshal_map unmarshal_event ord)
               (match op_event s o with Some e => [(Meta, GotEvent e)] | None => [] end) f = Returns f'
             /\ leads f f' (follows (metaEndpoints f) s (apply_op s o)).
Proof.
  intros Hf. destruct o as [k eps|expired k]; cbn [op_event apply_op].
  - destruct (save_follows f s k eps Hf) as (f' & Hsave & Hl).
    destruct (s !! k) as [old|] eqn:Hk; cbn [ofold].
    + unfold run, handleEvent. cbn [fst snd Type_ PrevNode Node deref obind].
      destruct (equal _ _ _) eqn:E; [|rewrite Hsave; by exists f'].
      exists f. split; [done|]. split; [done|]. split; [|done]. intros k'. right. split; [done|].
      destruct (decide (k = k')) as [<-|Hne]; [|by rewrite lookup_insert_ne].
      rewrite lookup_insert_eq, Hk. symmetry. by apply equal_meta_node in E.
    + unfold run, handleEvent. cbn [fst snd Type_ Node obind]. rewrite Hsave. by exists f'.
  - destruct (s !! k) as [old|] eqn:Hk; cbn [fmap option_fmap option_map ofold].
    + destruct (send_leads f (set_meta f (delete k (metaEndpoints f)))
        (follows (metaEndpoints f) s (delete k s))) as (f' & Hsend & Hl); [done..| |].
      { intros k'. simpl. destruct (decide (k = k')) as [<-|Hne].
        - left. by rewrite !lookup_delete_eq.
        - right. by rewrite !lookup_delete_ne by done. }
      exists f'. split; [|done]. unfold run, handleEvent. cbn [fst snd Type_ PrevNode].
      destruct expired; cbn [deref obind]; rewrite parse_meta_node; cbn [obind deleteEndpoints fst snd];
        by rewrite Hsend.
    + exists f. split; [done|]. rewrite delete_id by done. split; [done|]. split; [|done]. intros k'. by right.
Qed.

(** Over any inputs: a doppler is as in the final store, or nothing was saved for it and the
    store held the same endpoints all along. *)
Lemma run_follows l f s : grpc_only f -> Forall legacy_wf l ->
  exists f', ofold (run unmarshal_map unmarshal_event ord) (inputs s l) f = Returns f'
    /\ leads f f' (fun m' => forall k, same_endpoints (m' !! k) (foldl apply_stimulus s l !! k)
         \/ (m' !! k = metaEndpoints f !! k
             /\ forall p, p `prefix_of` l -> same_endpoints (foldl apply_stimulus s p !! k) (s !! k))).
Proof.
  revert f s. induction l as [|x l IH]; intros f s Hf Hwf; cbn [inputs foldl].
  { exists f. split; [done|]. split; [done|]. split; [|done]. intros k. right. split; [done|].
    intros p ->%prefix_nil_inv. done. }
  inversion Hwf as [|? ? Hx Hl]; subst. destruct x as [o|i]; cbn [apply_stimulus ofold].
  - destruct (op_step f s o Hf) as (f1 & H1 & Hc1 & HR1 & Ha1). rewrite ofold_app, H1. cbn [obind].
    destruct (IH f1 (apply_op s o)) as (f2 & H2 & Hc2 & HR2 & Ha2); [by eapply grpc_only_config|done|].
    exists f2. split; [done|]. split; [congruence|]. split; [|auto]. intros k.
    destruct (HR2 k) as [H|[Hm Hp]]; [by left|]. destruct (HR1 k) as [H|[Hm1 Hs1]].
    + left. rewrite Hm, H. symmetry. by apply Hp.
    + right. split; [congruence|]. intros p [t Ht]. destruct p as [|y p]; [done|].
      injection Ht as <- ->. simpl. rewrite Hp by by exists t. done.
  - destruct (legacy_step f i Hf Hx) as (f1 & -> & Hc1 & HR1 & Ha1). cbn [obind].
    destruct (IH f1 s) as (f2 & H2 & Hc2 & HR2 & Ha2); [by eapply grpc_only_config|done|].
    exists f2. split; [done|]. split; [congruence|]. split; [|auto]. intros k. rewrite <- HR1.
    destruct (HR2 k) as [H|[Hm Hp]]; [by left|]. right. split; [done|].
    intros p [t Ht]. destruct p as [|y p]; [done|]. injection Ht as <- ->. simpl. apply Hp. by exists t.
Qed.

Lemma read_meta f n s : lists n s -> metaEndpoints f = ∅ ->
  read unmarshal_map f (Ok n) Meta = Returns (set_meta f s).
Proof.
  intros (l & Hl & Hnd & <-) Hf. unfold read. rewrite Hl.
  assert (forall g, ofold (fun f n => let! kv := parseNode unmarshal_map f n Meta in
      Returns (saveEndpoints f kv)) ((fun kv => meta_node kv.1 kv.2) <$> l) g
    = Returns (set_meta g (list_to_map l ∪ metaEndpoints g))) as ->.
  { clear Hl Hf. induction l as [|[k eps] l IH]; intros g; cbn [ofold fmap list_fmap].
    { rewrite list_to_map_nil, map_empty_union. by destruct g. }
    rewrite parse_meta_node. cbn [obind saveEndpoints fst snd]. inversion Hnd as [|? ? Hk Hnd']; subst.
    rewrite IH by done. cbn [set_meta metaEndpoints]. unfold set_meta. cbn.
    rewrite <- insert_union_r by by apply not_elem_of_list_to_map_1. by rewrite insert_union_l. }
  by rewrite Hf, map_union_empty.
Qed.

Lemma Start_mirrors legacyPort grpcPort protocols n s legacy :
  protocol_index_from 0 protocols "udp" = None -> lists n s ->
  exists f, Start unmarshal_map ord (NewFinder legacyPort grpcPort protocols EmptyString) (Ok n) legacy = Returns f
    /\ config f = (legacyPort, grpcPort, protocols, EmptyString) /\ metaEndpoints f = s /\ announced f.
Proof.
  intros Hudp Hs. unfold Start. rewrite (read_meta _ n s) by done. cbn [obind].
  destruct (read_legacy (set_meta (NewFinder legacyPort grpcPort protocols EmptyString) s) legacy) as [m ->].
  cbn [obind]. set (f := set_legacy _ m). destruct (hasAddrs f) eqn:Ha; cbn [negb].
  - destruct (sendEvent_announces ord f) as (e & He & Han); [done|]. by exists (push_event f e).
  - exists f. split; [done|]. split; [done|]. split; [done|].
    unfold hasAddrs in Ha. apply orb_false_elim in Ha as [_ Ha%bool_decide_eq_false].
    assert (s = ∅) as ->. { apply map_size_empty_inv. simpl in Ha. lia. }
    intros x. split; [by intros ?%elem_of_nil|]. intros (k & eps & a & Hk & _). subst f. cbn [metaEndpoints set_legacy set_meta] in Hk. by apply lookup_empty_Some in Hk.
Qed.

Lemma serves_same f m s x :
  (forall k, same_endpoints (m !! k) (s !! k)) -> serves f m x -> serves f s x.
Proof.
  intros Hsame (k & eps & a & Hk & Ha & Hw & ->). specialize (Hsame k). rewrite Hk in Hsame.
  destruct (s !! k) as [r|] eqn:Hr; [|done]. exists k, r, a. split; [done|]. split; [|done].
  simpl in Hsame. rewrite !set_of_list_to_set in Hsame. set_solver.
Qed.


End Mirror.

(** ** From announcement to address *)

Definition doppler_key (c : AnnounceConfig) : string := Zone c +:+ "/" +:+ JobName c +:+ "/" +:+ Index c.

(** A doppler whose announcement can be encoded and maintained writes one node, twice
    over (created before [Announce] returns, then maintained).  The node is the one the
    finder reads as the doppler's UDP and websocket endpoints under its zone, job and index,
    and, for an address without a colon, a finder with that doppler serves exactly the
    announced address with the gRPC port. *)
Theorem announcement_round_trip marshal encode maintain unmarshal_map f ip ttl c :
  (forall m, marshal m = Ok (encode (Endpoints m))) ->
  (forall eps, exists data, unmarshal_map (encode eps) = Ok data
     /\ data !! "endpoints"%string = Some (JArray (JString <$> eps))) ->
  (forall n, maintain n = None) ->
  Str.IndexOf ip ":" = None ->
  exists n,
    Announce marshal maintain ip ttl c = Returns [CallCreate n; CallMaintainNode n]
    /\ node n = meta_node encode (doppler_key c) (Endpoints (dopplerMeta ip c))
    /\ parseNode unmarshal_map f (node n) Meta
       = Returns (doppler_key c, MetaValue ["udp://" +:+ ip +:+ ":" +:+ Strconv.Itoa (IncomingUDPPort c);
                                            "ws://" +:+ ip +:+ ":" +:+ Strconv.Itoa (OutgoingPort c)]%string)
    /\ forall x, serves f {[doppler_key c := Endpoints (dopplerMeta ip c)]} x
                 <-> x = (ip +:+ ":" +:+ Strconv.Itoa (grpcPort f))%string.
Proof.
  intros Hm Hd Hn Hip. unfold Announce, buildDopplerMeta. rewrite Hm, Hn. eexists. split; [done|].
  split; [done|]. split.
  { cbn [node]. change (mkNode (announce_key META_ROOT c) ?v false []) with
      (meta_node encode (doppler_key c) (Endpoints (dopplerMeta ip c))).
    by apply parse_meta_node. }
  assert (grpc_address f ("ws://" +:+ ip +:+ ":" +:+ Strconv.Itoa (OutgoingPort c))
    = ip +:+ ":" +:+ Strconv.Itoa (grpcPort f)) as Hg.
  { unfold grpc_address. rewrite Str.TrimPrefix_app.
    change (":" +:+ Strconv.Itoa (OutgoingPort c)) with (String ":" (Strconv.Itoa (OutgoingPort c))).
    rewrite Str.IndexOf_app_hit by done. by rewrite Str.take_n_app. }
  intros x. split.
  - intros (k & eps & a & Hk & Ha & Hw & ->). apply lookup_singleton_Some in Hk as [_ <-].
    cbn [dopplerMeta Endpoints] in Ha. apply elem_of_cons in Ha as [->|Ha]; [done|].
    apply list_elem_of_singleton in Ha as ->. apply Hg.
  - intros ->. exists (doppler_key c), (Endpoints (dopplerMeta ip c)), ("ws://" +:+ ip +:+ ":" +:+ Strconv.Itoa (OutgoingPort c)).
    rewrite lookup_singleton_eq, Hg. cbn [dopplerMeta Endpoints]. split; [done|].
    split; [set_solver|]. split; reflexivity.
Qed.

Module FinderExample.

(** An encoding of lists of strings by numbers. *)
Definition encode (eps : list string) : string := Strconv.Itoa (Z.pos (countable.encode eps)).

Definition decode (s : string) : option (list string) :=
  match Strconv.all_digits s with Some (Z.pos p) => countable.decode p | _ => None end.

Definition marshal (m : DopplerMeta) : result string := Ok (encode (Endpoints m)).

Definition unmarshal_map (s : string) : result (gmap string json) :=
  match decode s with
  | Some eps => Ok {["endpoints"%string := JArray (JString <$> eps)]}
  | None => Err "invalid character"
  end.

Definition unmarshal_event (s : string) : result (list string) :=
  match decode s with Some eps => Ok eps | None => Err "invalid character" end.

Lemma decode_encode eps : decode (encode eps) = Some eps.
Proof.
  unfold decode, encode. rewrite Strconv.Itoa_all_digits by lia. apply countable.decode_encode.
Qed.

Lemma decode_map eps : exists data, unmarshal_map (encode eps) = Ok data
  /\ data !! "endpoints"%string = Some (JArray (JString <$> eps)).
Proof. unfold unmarshal_map. rewrite decode_encode. eexists. split; [done|]. apply lookup_singleton_eq. Qed.

Lemma decode_event eps : unmarshal_event (encode eps) = Ok eps.
Proof. unfold unmarshal_event. by rewrite decode_encode. Qed.

Definition a : list string := ["udp://10.0.0.1:3457"; "ws://10.0.0.1:8081"]%string.
Definition b : list string := ["ws://10.0.0.2:8081"]%string.

(** The listing after the first operation. *)
Definition listing : StoreNode := mkNode META_ROOT EmptyString true
  [mkNode (META_ROOT +:+ "/z1") EmptyString true [meta_node encode "z1/doppler/0" a]].

Definition legacy_event : WatchEvent :=
  mkWatchEvent CreateEvent (Some (mkNode (LEGACY_ROOT +:+ "/z1/doppler/0") "10.0.0.1" false [])) None.

Definition before : list stimulus := [Op (Put "z1/doppler/0" a)]%string.
Definition after : list stimulus :=
  [LegacyInput (GotEvent legacy_event); Op (Put "z1/doppler/1" b); Op (Remove true "z1/doppler/0")]%string.

End FinderExample.


Lemma announcement_round_trip_witness : exists n,
  Announce FinderExample.marshal (fun _ => None) "10.0.0.1" 10000000000 (mkAnnounceConfig "z1" "doppler" "0" 3457 8081)
  = Returns [CallCreate n; CallMaintainNode n]
  /\ node n = meta_node FinderExample.encode "z1/doppler/0" FinderExample.a
  /\ parseNode FinderExample.unmarshal_map (NewFinder 3457 8082 ["ws"%string] EmptyString) (node n) Meta
     = Returns ("z1/doppler/0"%string, MetaValue FinderExample.a)
  /\ forall x, serves (NewFinder 3457 8082 ["ws"%string] EmptyString) {["z1/doppler/0"%string := FinderExample.a]} x
               <-> x = "10.0.0.1:8082"%string.
Proof.
  exact (announcement_round_trip FinderExample.marshal FinderExample.encode (fun _ => None)
    FinderExample.unmarshal_map (NewFinder 3457 8082 ["ws"%string] EmptyString) "10.0.0.1" 10000000000
    (mkAnnounceConfig "z1" "doppler" "0" 3457 8081) (fun m => eq_refl) FinderExample.decode_map
    (fun n => eq_refl) eq_refl).
Defined.
