(* ===== verification/WebsocketServer.v ===== *)
(** * doppler/internal/sinkserver/websocketserver: streams over websockets

    websocket_server.go: requests are dispatched on their path, upgraded, and served from
    the sink manager: streams and firehoses are sinks registered while the connection is
    alive, recent logs and container metrics are written at once.  Sockets, the upgrade and
    protobuf are arguments; the connection's life ends when the keep-alive ([KeepAlive])
    returns. *)

From Stdlib Require Import Ascii.
From S2P Require Import Prelude Go Events Sinks StreamingSinks GroupedSinks Blacklist SyslogWriter.
From S2P Require Import SinkManager Conversion Http.

#[local] Open Scope go_scope.

(** ** Counters *)

(** A call on the metric batcher: a name and its tags. *)
Record batch_call : Type := mkCall { call_name : string; call_tags : list (string * string) }.

Record envelopeCounter : Type := mkEnvelopeCounter { endpoint : string }.

Definition sent_envelopes (endpoint : string) (typ : V1.EventType) : batch_call :=
  mkCall "sentEnvelopes"
    [("protocol", "ws"); ("event_type", EventType_String typ); ("endpoint", endpoint)]%string.

Definition envelopeCounter_Increment (c : envelopeCounter) (typ : V1.EventType) : list batch_call :=
  [sent_envelopes (endpoint c) typ].

Definition newStreamCounter : envelopeCounter := mkEnvelopeCounter "stream".

Record firehoseCounter : Type := mkFirehoseCounter { fc_counter : envelopeCounter; subscriptionID : string }.

Definition newFirehoseCounter (subscriptionID : string) : firehoseCounter :=
  mkFirehoseCounter (mkEnvelopeCounter "firehose") subscriptionID.

Definition firehoseCounter_Increment (f : firehoseCounter) (typ : V1.EventType) : list batch_call :=
  mkCall "sentMessagesFirehose" [("subscription_id"%string, subscriptionID f)]
  :: envelopeCounter_Increment (fc_counter f) typ.

(** The counter of a websocket sink ([Counter]). *)
Inductive counter : Type := CStream (c : envelopeCounter) | CFirehose (f : firehoseCounter).

Definition Increment (c : counter) (typ : V1.EventType) : list batch_call :=
  match c with
  | CStream c => envelopeCounter_Increment c typ
  | CFirehose f => firehoseCounter_Increment f typ
  end.

(** ** Dispatch *)

(** [http.Error] *)
Definition http_Error (w : ResponseWriter) (error : string) (code : Z) : ResponseWriter :=
  let w := SetHeader w "Content-Type" "text/plain; charset=utf-8" in
  let w := SetHeader w "X-Content-Type-Options" "nosniff" in
  Write (WriteHeader w code) (error +:+ String "010" EmptyString).

(** The closures the dispatch builds. *)
Inductive wsHandler : Type :=
| HStreamFirehose (subscriptionId : string)
| HStreamLogs (appId : string)
| HRecentLogs (appId : string)
| HLatestContainerMetrics (appId : string).

Definition firehoseHandler (paths : list string) (writer : ResponseWriter) (request : Request)
  : ResponseWriter * result wsHandler :=
  match paths with
  | [_; _; firehoseSubscriptionId] => (writer, Ok (HStreamFirehose firehoseSubscriptionId))
  | _ =>
      (http_Error writer ("missing subscription id in firehose request: " +:+ rq_Path request) StatusBadRequest,
       Err ("missing subscription id in firehose request: (returning 400) " +:+ rq_Path request))
  end.

(** A refusal that asks for authentication. *)
Definition refuse (writer : ResponseWriter) (status : Z) (text : string) : ResponseWriter :=
  Write (WriteHeader (SetHeader writer "WWW-Authenticate" "Basic") status) text.

Definition appHandler (paths : list string) (writer : ResponseWriter) (request : Request)
  : ResponseWriter * result wsHandler :=
  match paths with
  | [_; apps; appId; endpoint] =>
      if negb (bool_decide (apps = "apps"%string)) then
        (refuse writer StatusNotFound "Resource Not Found.", Err ("Resource Not Found. " +:+ rq_Path request))
      else if Str.empty appId then
        (refuse writer StatusBadRequest ("App ID missing. Make request to /apps/APP_ID/" +:+ endpoint),
         Err "Validation error (returning 400): No AppId")
      else if bool_decide (endpoint = "stream"%string) then (writer, Ok (HStreamLogs appId))
      else if bool_decide (endpoint = "recentlogs"%string) then (writer, Ok (HRecentLogs appId))
      else if bool_decide (endpoint = "containermetrics"%string) then (writer, Ok (HLatestContainerMetrics appId))
      else (http_Error writer "Invalid path" StatusBadRequest,
            Err ("Invalid path (returning 400): invalid path " +:+ rq_Path request))
  | _ => (refuse writer StatusNotFound "Resource Not Found.", Err ("Resource Not Found. " +:+ rq_Path request))
  end.

Inductive served : Type := Replied (w : ResponseWriter) | Upgraded (h : wsHandler).

(** [ServeHTTP] up to the call of the handler; [upgrade] is what the upgrade answers. *)
Definition ServeHTTP (upgrade : result unit) (writer : ResponseWriter) (request : Request) : outcome served :=
  let paths := Str.Split (rq_Path request) "/" in
  match paths with
  | _ :: endpointName :: _ =>
      let '(writer, handler) :=
        if bool_decide (endpointName = "firehose"%string)
        then firehoseHandler paths writer request else appHandler paths writer request in
      Returns match handler with
              | Err _ => Replied writer
              | Ok handler =>
                  match upgrade with
                  | Err err => Replied (http_Error writer err 400)
                  | Ok _ => Upgraded handler
                  end
              end
  | _ => Panics "index out of range"
  end.

(** ** Handlers *)

(** A stream: the registry it is in, the sink and its counter. *)
Record session : Type := mkSession { firehose : bool; websocketSink : Sink; sessionCounter : counter }.

(** The place of the registry the sink takes. *)
Definition session_place (s : session) : place :=
  (firehose s, AppID (websocketSink s), Identifier (websocketSink s)).

Record WebsocketServer : Type := mkServer { sinkManager : SinkManager; sessions : list session }.

(** [streamWebsocket] up to the keep-alive: the result of the registration is not used. *)
Definition streamWebsocket (w : WebsocketServer) (s : session) : WebsocketServer :=
  let register := if firehose s then RegisterFirehose else RegisterSink in
  mkServer (fst (register (websocketSink s) (sinkManager w))) (sessions w ++ [s]).

(** Its deferred call, when the keep-alive has returned. *)
Definition endSession (w : WebsocketServer) (i : nat) : outcome WebsocketServer :=
  match sessions w !! i with
  | None => Returns w
  | Some s =>
      let unregister := if firehose s then UnregisterFirehoseSink else UnregisterSink in
      let! sm := unregister (websocketSink s) (sinkManager w) in
      Returns (mkServer sm (delete i (sessions w)))
  end.

Definition streamLogs (w : WebsocketServer) (appId remoteAddr : string) : WebsocketServer :=
  let '(r, sm) := new_ref (sinkManager w) in
  streamWebsocket (mkServer sm (sessions w))
    (mkSession false (SWebsocket r appId remoteAddr) (CStream newStreamCounter)).

Definition streamFirehose (w : WebsocketServer) (subscriptionId remoteAddr : string) : WebsocketServer :=
  let '(r, sm) := new_ref (sinkManager w) in
  streamWebsocket (mkServer sm (sessions w))
    (mkSession true (SWebsocket r subscriptionId remoteAddr) (CFirehose (newFirehoseCounter subscriptionId))).

Section Replies.

(** [proto.Marshal], and whether the socket takes a frame after those already written. *)
Context (Marshal : V1.Envelope -> result string) (accepts : list string -> string -> bool).

(** One turn of the loop: the frames written and the calls counted. *)
Definition send_one (endpoint : string) (acc : list string * list batch_call) (e : V1.Envelope)
  : list string * list batch_call :=
  match Marshal e with
  | Err _ => acc
  | Ok envelopeBytes =>
      if accepts acc.1 envelopeBytes
      then (acc.1 ++ [envelopeBytes], acc.2 ++ [sent_envelopes endpoint (V1.GetEventType e)])
      else acc
  end.

Definition sendMessagesToWebsocket (endpoint : string) (envelopes : list V1.Envelope)
  : list string * list batch_call := foldl (send_one endpoint) ([], []) envelopes.

Definition recentLogs (dumps : gmap nat Sinks.Dump.DumpSink) (w : WebsocketServer) (appId : string)
  : outcome (list string * list batch_call) :=
  let! logMessages := RecentLogsFor dumps appId (sinkManager w) in
  Returns (sendMessagesToWebsocket "recentlogs" logMessages).

Definition latestContainerMetrics (caches : gmap nat Sinks.ContainerMetric.ContainerMetricSink)
  (ord : RangeOrder Z) (now : Z) (w : WebsocketServer) (appId : string)
  : outcome (gmap nat Sinks.ContainerMetric.ContainerMetricSink * (list string * list batch_call)) :=
  let! (caches, metrics) := LatestContainerMetrics caches ord now appId (sinkManager w) in
  Returns (caches, sendMessagesToWebsocket "containermetrics" metrics).

End Replies.

(** ** Executions *)

(** The manager's events that do not come from this server. *)
Definition internal (e : event) : bool :=
  match e with
  | EvRegister _ | EvUnregister _ | EvRegisterFirehose _ | EvUnregisterFirehose _ => false
  | _ => true
  end.

Inductive server_event : Type :=
| EvRequest (upgrade : result unit) (request : Request)
| EvKeepAliveReturns (i : nat)
| EvManager (e : event).

Section Server.

Context (parseIPv6 : string -> option (list Z)) (ResolveIPAddr : string -> result string)
  (url_Parse : string -> result URL) (blacklistIPs : list IPRange) (skipCertVerify : bool) (sinkIOTimeout : Z)
  (wrap_error : string -> string -> result V1.Envelope) (GetAppId : V1.Envelope -> string).

Abbreviation manager_step :=
  (SinkManager.step parseIPv6 ResolveIPAddr url_Parse blacklistIPs skipCertVerify sinkIOTimeout wrap_error GetAppId).

(** A panic of a handler is recovered by the HTTP server; the endpoints that reply at once
    leave the registry as it is. *)
Definition server_step (w : WebsocketServer) (e : server_event) : outcome WebsocketServer :=
  match e with
  | EvRequest upgrade request =>
      match ServeHTTP upgrade NewResponse request with
      | Returns (Upgraded (HStreamFirehose id)) => Returns (streamFirehose w id (rq_RemoteAddr request))
      | Returns (Upgraded (HStreamLogs app)) => Returns (streamLogs w app (rq_RemoteAddr request))
      | _ => Returns w
      end
  | EvKeepAliveReturns i => endSession w i
  | EvManager e =>
      if internal e then let! sm := manager_step (sinkManager w) e in Returns (mkServer sm (sessions w))
      else Returns w
  end.

(** *** What the manager does to the streams of the server *)

(** A place that only this server fills. *)
Definition streaming (p : place) (wr : SinkWrapper) : bool := p.1.1 || is_websocket (wrapped wr).

Definition no_new (sm sm' : SinkManager) : Prop :=
  forall p wr, registered (sinks sm') p = Some wr -> streaming p wr = true -> registered (sinks sm) p = Some wr.

#[local] Instance no_new_preorder : PreOrder no_new.
Proof. split; [by intros sm p wr|]. intros a b c Hab Hbc p wr H Hs. by apply Hab, Hs; apply Hbc. Qed.

Lemma same_maps_no_new sm sm' :
  apps (sinks sm') = apps (sinks sm) -> firehoses (sinks sm') = firehoses (sinks sm) -> no_new sm sm'.
Proof. intros Ha Hf [[[] key] id] wr; unfold registered, groups; by rewrite ?Ha, ?Hf. Qed.

Lemma RegisterSink_places s sm p wr :
  registered (sinks (fst (RegisterSink s sm))) p = Some wr ->
  registered (sinks sm) p = Some wr \/ (p = (false, AppID s, Identifier s) /\ wrapped wr = s).
Proof.
  unfold RegisterSink. cbn [make_chan]. set (w := mkWorld _ _ _ _ _).
  destruct (RegisterAppSink_cases (next_chan (store (sinks sm))) s (set_store (sinks sm) w))
    as [->|(_ & _ & _ & ->)]; cbn [negb fst sinks set_sinks set_metrics spawn].
  - intros H. left. by destruct p as [[[] ?] ?].
  - rewrite registered_insert. case_decide as Hp; [intros [= <-]; by right|].
    intros H. left. by destruct p as [[[] ?] ?].
Qed.

Lemma RegisterFirehose_places s sm p wr :
  registered (sinks (fst (RegisterFirehose s sm))) p = Some wr ->
  registered (sinks sm) p = Some wr \/ (p = (true, AppID s, Identifier s) /\ wrapped wr = s).
Proof.
  unfold RegisterFirehose. cbn [make_chan]. set (w := mkWorld _ _ _ _ _).
  destruct (RegisterFirehoseSink_cases (next_chan (store (sinks sm))) s (set_store (sinks sm) w))
    as [->|(_ & _ & ->)]; cbn [negb fst sinks set_sinks set_metrics spawn].
  - intros H. left. by destruct p as [[[] ?] ?].
  - rewrite registered_insert. case_decide as Hp; [intros [= <-]; by right|].
    intros H. left. by destruct p as [[[] ?] ?].
Qed.

Lemma RegisterSink_no_new s sm : is_websocket s = false -> no_new sm (fst (RegisterSink s sm)).
Proof.
  intros Hs p wr H Hst. apply RegisterSink_places in H as [H|[-> Hw]]; [done|].
  unfold streaming in Hst. by rewrite Hw, Hs in Hst.
Qed.

Lemma remove_place_registered fh key id g w p wr :
  is_Some (groups fh g !! key) ->
  registered (remove_place fh key id g w) p = Some wr -> p <> (fh, key, id) /\ registered g p = Some wr.
Proof. intros [x Hx]. rewrite (registered_remove _ _ _ _ _ _ x Hx). by case_decide. Qed.

(** After [unregister], the place is free and nothing else changed. *)
Definition frees (p : place) (sm sm' : SinkManager) : Prop :=
  forall q wr, registered (sinks sm') q = Some wr -> q <> p /\ registered (sinks sm) q = Some wr.

Lemma frees_no_new p sm sm' : frees p sm sm' -> no_new sm sm'.
Proof. intros H q wr Hq _. by destruct (H q wr Hq). Qed.

Lemma UnregisterSink_frees s sm sm' :
  GroupedSinks.Inv (sinks sm) -> UnregisterSink s sm = Returns sm' ->
  frees (false, AppID s, Identifier s) sm sm'.
Proof.
  intros H. unfold UnregisterSink.
  destruct (CloseAndDelete_returns s (sinks sm) H) as [[Hn ->]|(wr & w & Hr & N & Hst & ->)]; cbn [obind negb];
    intros [= <-] q wr' Hq.
  - cbn [sinks set_sinks] in Hq. split; [|done]. intros ->. by rewrite Hn in Hq.
  - assert (forall sm s, sinks (disconnect sm s) = sinks sm) as E by (by intros ? []).
    rewrite E in Hq. cbn [sinks set_metrics set_sinks] in Hq. eapply remove_place_registered; [|exact Hq].
    simpl in Hr. apply bind_Some in Hr as (x & Hx & _). eauto.
Qed.

Lemma UnregisterFirehoseSink_frees s sm sm' :
  GroupedSinks.Inv (sinks sm) -> UnregisterFirehoseSink s sm = Returns sm' ->
  frees (true, AppID s, Identifier s) sm sm'.
Proof.
  intros H. unfold UnregisterFirehoseSink.
  destruct (CloseAndDeleteFirehose_returns s (sinks sm) H) as [[Hn ->]|(wr & w & Hr & N & Hst & ->)];
    cbn [obind negb]; intros [= <-] q wr' Hq.
  - cbn [sinks set_sinks] in Hq. split; [|done]. intros ->. by rewrite Hn in Hq.
  - cbn [sinks set_metrics set_sinks] in Hq. eapply remove_place_registered; [|exact Hq].
    simpl in Hr. apply bind_Some in Hr as (x & Hx & _). eauto.
Qed.

Lemma sink_returns_no_new i sm sm' :
  GroupedSinks.Inv (sinks sm) -> sink_returns i sm = Returns sm' -> no_new sm sm'.
Proof.
  intros H. unfold sink_returns. destruct (goroutines sm !! i) as [r|]; [|by intros [= <-]].
  set (sm0 := mkManager _ _ _ _ _ _ _). destruct (g_firehose r); intros E p wr Hp Hs.
  - by destruct (UnregisterFirehoseSink_frees (g_sink r) sm0 sm' H E p wr Hp).
  - by destruct (UnregisterSink_frees (g_sink r) sm0 sm' H E p wr Hp).
Qed.

Lemma RegisterSink_new_ref_no_new s sm :
  is_websocket s = false ->
  no_new sm (fst (RegisterSink s (snd (new_ref sm)))).
Proof. intros Hs. transitivity (snd (new_ref sm)); [by apply same_maps_no_new|by apply RegisterSink_no_new]. Qed.

Lemma ensure_no_new app sm : no_new sm (ensureContainerMetricsSinkFor app (ensureRecentLogsSinkFor app sm)).
Proof.
  transitivity (ensureRecentLogsSinkFor app sm).
  - unfold ensureRecentLogsSinkFor. case_match; [reflexivity|].
    by apply (RegisterSink_new_ref_no_new (SDump _ app)).
  - unfold ensureContainerMetricsSinkFor. case_match; [reflexivity|].
    by apply (RegisterSink_new_ref_no_new (SContainerMetric _ app)).
Qed.

Lemma manager_no_new sm e sm' :
  SMInv sm -> internal e = true -> manager_step sm e = Returns sm' -> no_new sm sm'.
Proof.
  intros H Hi. destruct e as [ch env|s|s|s|s|i|a|a|ch|c n]; simpl; try done.
  - unfold route, SendTo. set (sm1 := ensureContainerMetricsSinkFor _ _).
    destruct (Broadcast _ _ _ _) as [g|] eqn:E; simpl; [|done]. intros [= <-].
    etransitivity; [apply (ensure_no_new (GetAppId env))|]. apply Broadcast_same_maps in E as [Ha Hf].
    by apply same_maps_no_new.
  - apply sink_returns_no_new, H.
  - intros [= <-]. unfold registerNewSyslogSink, SendSyslogErrorToLoggregator.
    destruct (CheckUrl _ _ _ _ _); [destruct (NewWriter _ _ _ _ _)|].
    + by apply (RegisterSink_new_ref_no_new (SSyslog _ _ _)).
    + repeat case_match; try reflexivity; by apply same_maps_no_new.
    + repeat case_match; try reflexivity; by apply same_maps_no_new.
  - destruct (DrainFor _ _ _) as [s|]; [|intros [= <-]; reflexivity].
    intros E. eapply frees_no_new, UnregisterSink_frees; [apply H|done].
  - unfold errorMessage. destruct (Chan.try_recv (errorChannel sm)) as [m c| |]; [|intros [= <-]; reflexivity..].
    destruct (BroadcastError _ _ _ _) as [g|] eqn:E; simpl; [|done]. intros [= <-].
    apply BroadcastError_same_maps in E as [Ha Hf]. by apply same_maps_no_new.
  - intros [= <-]. by apply same_maps_no_new.
Qed.

(** *** Invariant *)

(** Every stream in the registry has a session that is still open. *)
Definition no_leak (w : WebsocketServer) : Prop :=
  forall p wr, registered (sinks (sinkManager w)) p = Some wr -> streaming p wr = true ->
    exists s, s ∈ sessions w /\ session_place s = p.

Definition ServerInv (w : WebsocketServer) : Prop := SMInv (sinkManager w) /\ no_leak w.

Lemma streamWebsocket_Inv w s : ServerInv w -> ServerInv (streamWebsocket w s).
Proof.
  intros [H Hl]. unfold streamWebsocket. split; cbn [sinkManager sessions].
  - destruct (firehose s); [by apply RegisterFirehose_SMInv|by apply RegisterSink_SMInv].
  - intros p wr Hp Hs. cbn [sinkManager sessions] in *.
    assert (registered (sinks (sinkManager w)) p = Some wr \/ p = session_place s) as [Hr| ->].
    { unfold session_place. destruct (firehose s);
        [apply RegisterFirehose_places in Hp|apply RegisterSink_places in Hp]; naive_solver. }
    + destruct (Hl p wr Hr Hs) as (s' & Hin & <-). exists s'. set_solver.
    + exists s. set_solver.
Qed.

Lemma ServerInv_new_ref w : ServerInv w ->
  ServerInv (mkServer (snd (new_ref (sinkManager w))) (sessions w)).
Proof. intros [H Hl]. split; [by apply SMInv_bump|]. exact Hl. Qed.

Lemma endSession_Inv w i : ServerInv w -> exists w', endSession w i = Returns w' /\ ServerInv w'.
Proof.
  intros [H Hl]. unfold endSession. destruct (sessions w !! i) as [s|] eqn:Hi; [|by exists w].
  assert (exists sm, (if firehose s then UnregisterFirehoseSink else UnregisterSink) (websocketSink s) (sinkManager w)
    = Returns sm /\ SMInv sm /\ frees (session_place s) (sinkManager w) sm) as (sm & E & Hsm & Hf).
  { unfold session_place. destruct (firehose s).
    - pose proof (UnregisterFirehoseSink_returns (websocketSink s) (sinkManager w) _ H
        (still_served_all _ true _ H)) as (sm & E & Hsm). rewrite with_goroutines_id in E.
      exists sm. split; [done|]. split; [done|]. eapply UnregisterFirehoseSink_frees; [apply H|done].
    - pose proof (UnregisterSink_returns (websocketSink s) (sinkManager w) _ H
        (still_served_all _ false _ H)) as (sm & E & Hsm). rewrite with_goroutines_id in E.
      exists sm. split; [done|]. split; [done|]. eapply UnregisterSink_frees; [apply H|done]. }
  rewrite E. cbn [obind]. eexists. split; [done|]. split; [done|].
  intros p wr Hp Hs. cbn [sinkManager sessions] in *. apply Hf in Hp as [Hne Hp].
  destruct (Hl p wr Hp Hs) as (s' & Hin & Hs'). exists s'. split; [|done].
  eapply ListFacts.elem_of_delete_ne; [done|done|]. intros ->. done.
Qed.

Lemma server_step_Inv w e : ServerInv w -> exists w', server_step w e = Returns w' /\ ServerInv w'.
Proof.
  intros H. destruct e as [up rq|i|e]; simpl.
  - destruct (ServeHTTP up NewResponse rq) as [[|[]]|]; try by exists w.
    + eexists. split; [done|]. by apply streamWebsocket_Inv, ServerInv_new_ref.
    + eexists. split; [done|]. by apply streamWebsocket_Inv, ServerInv_new_ref.
  - by apply endSession_Inv.
  - destruct (internal e) eqn:Hi; [|by exists w]. destruct H as [H Hl].
    destruct (manager_step_SMInv parseIPv6 ResolveIPAddr url_Parse blacklistIPs skipCertVerify sinkIOTimeout
      wrap_error GetAppId (sinkManager w) e H) as (sm & E & Hsm).
    rewrite E. cbn [obind]. eexists. split; [done|]. split; [done|].
    intros p wr Hp Hs. cbn [sinkManager sessions] in *. apply Hl with wr; [|done].
    by eapply manager_no_new.
Qed.

(** C19: Whatever requests arrive (malformed ones included), connections end and manager
    events happen, in any order, the server's steps return (the registry's channels are
    never closed twice), the manager's invariant holds, and every websocket stream and every
    firehose in the registry belongs to a session that has not ended: none is leaked.  Once
    all sessions have ended no firehose is left and the firehose gauge is 0. *)
Theorem websocket_streams_not_leaked l : exists w,
  ofold server_step l (mkServer SinkManager.New []) = Returns w
  /\ SMInv (sinkManager w)
  /\ (forall p wr, registered (sinks (sinkManager w)) p = Some wr -> p.1.1 || is_websocket (wrapped wr) = true ->
        exists s, s ∈ sessions w /\ session_place s = p)
  /\ (sessions w = [] ->
        (forall key id, registered (sinks (sinkManager w)) (true, key, id) = None)
        /\ Words.wrap 32 (Metrics.firehoseSinks (metrics (sinkManager w))) = 0%Z).
Proof.
  destruct (ofold_returns ServerInv server_step l (mkServer SinkManager.New [])) as (w & Hw & Hsm & Hl).
  { intros w e Hw _. by apply server_step_Inv. }
  { split; [apply New_SMInv|]. intros [[[] key] id] wr; simpl; by rewrite lookup_empty. }
  exists w. do 2 (split; [done|]). split; [exact Hl|]. intros Hnil.
  assert (forall key id, registered (sinks (sinkManager w)) (true, key, id) = None) as Hnone.
  { intros key id. destruct (registered _ _) as [wr|] eqn:E; [|done].
    destruct (Hl _ wr E eq_refl) as (s & Hin & _). rewrite Hnil in Hin. by apply elem_of_nil in Hin. }
  split; [done|]. rewrite (sm_firehose _ Hsm).
  assert (flat true (sinks (sinkManager w)) = ∅) as ->.
  { apply map_empty. intros [key id]. rewrite flat_lookup. apply Hnone. }
  by rewrite map_size_empty.
Qed.

End Server.

(** ** What the dispatch accepts *)

(** The path below the first slash that reaches a handler. *)
Definition route_of (h : wsHandler) : list string :=
  match h with
  | HStreamFirehose id => ["firehose"; id]
  | HStreamLogs app => ["apps"; app; "stream"]
  | HRecentLogs app => ["apps"; app; "recentlogs"]
  | HLatestContainerMetrics app => ["apps"; app; "containermetrics"]
  end%string.

Definition has_app (h : wsHandler) : bool :=
  match h with
  | HStreamFirehose _ => true
  | HStreamLogs app | HRecentLogs app | HLatestContainerMetrics app => negb (Str.empty app)
  end.

(** The shapes that are not answered with 404. *)
Definition known_shape (paths : list string) : bool :=
  match paths with
  | _ :: endpointName :: rest =>
      bool_decide (endpointName = "firehose"%string)
      || (bool_decide (length rest = 2) && bool_decide (endpointName = "apps"%string))
  | _ => false
  end.

Lemma Split_one s c : (exists w, Str.Split s c = [w]) <-> Str.IndexOf s c = None.
Proof.
  split; [|intros H; exists s; by apply Str.Split_no_sep].
  induction s as [|a s IH]; intros [w H]; cbn [Str.Split Str.IndexOf] in *; [done|].
  destruct (ascii_dec a c).
  - injection H as _ H. by apply Str.Split_nonempty in H.
  - destruct (Str.Split s c) as [|v vs] eqn:E; [by apply Str.Split_nonempty in E|].
    injection H as <- ->. rewrite IH by eauto. done.
Qed.

Lemma route_of_inj h h' : route_of h = route_of h' -> h = h'.
Proof. by destruct h, h'; cbn [route_of]; intros [=]; subst. Qed.

Lemma route_of_firehose h rest : "firehose"%string :: rest = route_of h -> exists id, rest = [id].
Proof. destruct h; cbn [route_of]; intros [=]; eauto. Qed.

Lemma firehoseHandler_cases pre rest rq :
  let paths := pre :: "firehose"%string :: rest in
  (exists id, rest = [id] /\ firehoseHandler paths NewResponse rq = (NewResponse, Ok (HStreamFirehose id)))
  \/ (length rest <> 1 /\ exists w err, firehoseHandler paths NewResponse rq = (w, Err err) /\ status_of w = 400%Z).
Proof.
  destruct rest as [|id [|x rest]]; cbn [firehoseHandler length].
  - right. split; [lia|]. by eexists _, _.
  - left. by exists id.
  - right. split; [lia|]. by eexists _, _.
Qed.

Lemma appHandler_cases paths rq :
  (exists pre h, paths = pre :: route_of h /\ hd EmptyString (route_of h) = "apps"%string /\ has_app h = true
     /\ appHandler paths NewResponse rq = (NewResponse, Ok h))
  \/ exists w err, appHandler paths NewResponse rq = (w, Err err)
       /\ (forall pre h, has_app h = true -> hd EmptyString (route_of h) = "apps"%string -> paths <> pre :: route_of h)
       /\ status_of w = if bool_decide (length paths = 4) && bool_decide (paths !! 1 = Some "apps"%string)
                        then 400%Z else 404%Z.
Proof.
  assert (length paths = 4 \/ length paths <> 4) as [Hlen|Hlen] by lia.
  - destruct paths as [|pre [|apps [|app [|ep [|? ?]]]]]; try done. clear Hlen.
    cbn [appHandler length lookup list_lookup]. rewrite (bool_decide_eq_true_2 (4 = 4)) by done.
    destruct (decide (apps = "apps"%string)) as [->|Ha].
    2:{ right. rewrite bool_decide_eq_false_2 by done. cbn [negb]. eexists _, _. split; [done|].
        split; [|by rewrite bool_decide_eq_false_2 by congruence]. intros ? [] ? ? [=]; simplify_eq. }
    rewrite !bool_decide_eq_true_2 by done. cbn [negb andb].
    destruct (Str.empty app) eqn:Hemp.
    { right. eexists _, _. split; [done|]. split; [|done]. intros ? [] Hh ? [=]; simplify_eq;
        cbn [has_app] in Hh; by rewrite Hemp in Hh. }
    destruct (decide (ep = "stream"%string)) as [->|H1].
    { left. exists pre, (HStreamLogs app). cbn [has_app]. by rewrite Hemp. }
    rewrite (bool_decide_eq_false_2 (ep = "stream"%string)) by done.
    destruct (decide (ep = "recentlogs"%string)) as [->|H2].
    { left. exists pre, (HRecentLogs app). cbn [has_app]. by rewrite Hemp. }
    rewrite (bool_decide_eq_false_2 (ep = "recentlogs"%string)) by done.
    destruct (decide (ep = "containermetrics"%string)) as [->|H3].
    { left. exists pre, (HLatestContainerMetrics app). cbn [has_app]. by rewrite Hemp. }
    rewrite (bool_decide_eq_false_2 (ep = "containermetrics"%string)) by done.
    right. eexists _, _. split; [done|]. split; [|done]. intros ? [] ? ? [=]; simplify_eq.
  - right. rewrite (bool_decide_eq_false_2 (length paths = 4)) by done. cbn [andb].
    exists (refuse NewResponse StatusNotFound "Resource Not Found."), ("Resource Not Found. " +:+ rq_Path rq).
    split; [|split; [|done]].
    + by destruct paths as [|? [|? [|? [|? [|? ?]]]]].
    + intros pre [] ? ? ->; done.
Qed.

(** The dispatch on a request path: a path without a slash panics (an index out of
    range); a handler is reached exactly by the path of its route after any first segment,
    with a non-empty application, when the upgrade succeeds; everything else is answered
    with 404 when the path is neither a firehose's nor of the form /apps/x/y, and with 400
    otherwise, a refused upgrade included. *)
Theorem websocket_dispatch upgrade rq :
  ((exists why, ServeHTTP upgrade NewResponse rq = Panics why) <-> Str.IndexOf (rq_Path rq) "/" = None)
  /\ (forall h, ServeHTTP upgrade NewResponse rq = Returns (Upgraded h)
       <-> is_ok upgrade = true /\ has_app h = true /\ exists pre, Str.Split (rq_Path rq) "/" = pre :: route_of h)
  /\ (forall w, ServeHTTP upgrade NewResponse rq = Returns (Replied w) ->
       status_of w = if known_shape (Str.Split (rq_Path rq) "/") then 400%Z else 404%Z).
Proof.
  unfold ServeHTTP. rewrite <- Split_one.
  destruct (Str.Split (rq_Path rq) "/") as [|pre [|name rest]] eqn:Hs.
  - by apply Str.Split_nonempty in Hs.
  - split; [split; eauto|]. split; [|done]. intros h. split; [done|]. intros (_ & _ & pre' & [=]). by destruct h.
  - split; [split; [|by intros [? ?]]|].
    { intros [? H]. by destruct (if bool_decide _ then _ else _). }
    cbn [known_shape].
    destruct (decide (name = "firehose"%string)) as [->|Hne].
    + rewrite (bool_decide_eq_true_2 ("firehose"%string = _)) by done. cbn [orb].
      destruct (firehoseHandler_cases pre rest rq) as [(id & -> & ->)|(Hl & w & err & -> & Hw)].
      * destruct upgrade as [[]|err]; (split; [|by intros ? [= <-]]); intros h; split.
        -- intros [= <-]. eauto.
        -- intros (_ & _ & ? & [= _ Heq]). by apply (route_of_inj (HStreamFirehose id)) in Heq as ->.
        -- done.
        -- by intros [? _].
      * split; [|by intros ? [= <-]]. intros h. split; [done|]. intros (_ & _ & ? & [= _ Heq]).
        by apply route_of_firehose in Heq as [id ->].
    + rewrite !(bool_decide_eq_false_2 (name = "firehose"%string)) by done. cbn [orb].
      destruct (appHandler_cases (pre :: name :: rest) rq) as [(pre' & h & Hp & Hh & Ha & ->)|(w & err & -> & Hno & Hw)].
      * destruct upgrade as [[]|err]; (split; [intros h'; split|]).
        -- intros [= <-]. eauto.
        -- intros (_ & _ & pre'' & Hp'). rewrite Hp in Hp'. injection Hp' as _ Hr.
           by apply route_of_inj in Hr as ->.
        -- done.
        -- done.
        -- by intros [? _].
        -- intros w [= <-]. injection Hp as _ Hp. by destruct h; injection Hp as -> ->.
      * split.
        -- intros h. split; [done|]. intros (_ & Ha & pre' & Hp). exfalso. apply (Hno pre' h Ha); [|done].
           injection Hp as _ Hp. destruct h; [|done..]. by injection Hp as ->.
        -- intros ? [= <-]. rewrite Hw. cbn [length lookup list_lookup].
           rewrite (bool_decide_ext (S (S (length rest)) = 4) (length rest = 2)) by lia.
           by rewrite (bool_decide_ext (Some name = Some "apps"%string) (name = "apps"%string)) by naive_solver.
Qed.

(** Every frame written is counted once, whatever fails, and a socket that takes all frames
    receives every envelope that can be encoded, in order. *)
Lemma replies_counted Marshal accepts endpoint envelopes :
  let '(frames, calls) := sendMessagesToWebsocket Marshal accepts endpoint envelopes in
  length calls = length frames
  /\ frames `sublist_of` omap (fun e => match Marshal e with Ok b => Some b | Err _ => None end) envelopes
  /\ ((forall sent b, accepts sent b = true) ->
      frames = omap (fun e => match Marshal e with Ok b => Some b | Err _ => None end) envelopes).
Proof.
  unfold sendMessagesToWebsocket.
  enough (forall frames calls, length calls = length frames ->
    let '(frames', calls') := foldl (send_one Marshal accepts endpoint) (frames, calls) envelopes in
    length calls' = length frames'
    /\ exists new, frames' = frames ++ new
       /\ new `sublist_of` omap (fun e => match Marshal e with Ok b => Some b | Err _ => None end) envelopes
       /\ ((forall sent b, accepts sent b = true) ->
           new = omap (fun e => match Marshal e with Ok b => Some b | Err _ => None end) envelopes)) as H.
  { specialize (H [] [] eq_refl). destruct (foldl _ _ _) as [frames calls].
    destruct H as (? & new & -> & ? & ?). done. }
  induction envelopes as [|e l IH]; intros frames calls Hlen; cbn [foldl omap list_omap].
  { split; [done|]. exists []. rewrite app_nil_r. done. }
  unfold send_one at 2. destruct (Marshal e) as [b|err]; cbn [fst snd].
  - destruct (accepts frames b) eqn:Ha.
    + specialize (IH (frames ++ [b]) (calls ++ [sent_envelopes endpoint (V1.GetEventType e)])).
      rewrite !length_app in IH. specialize (IH ltac:(simpl; lia)). destruct (foldl _ _ l) as [f' c'].
      destruct IH as (? & new & -> & Hsub & Hall). split; [done|]. exists (b :: new).
      rewrite <- app_assoc. split; [done|]. split; [by constructor|]. intros Hacc. by rewrite Hall.
    + specialize (IH frames calls Hlen). destruct (foldl _ _ l) as [f' c'].
      destruct IH as (? & new & -> & Hsub & Hall). split; [done|]. exists new. split; [done|].
      split; [by constructor|]. intros Hacc. by rewrite Hacc in Ha.
  - specialize (IH frames calls Hlen). by destruct (foldl _ _ l) as [f' c'].
Qed.
