(* ===== verification/Config.v ===== *)
(** * The configurations of doppler, metron, the traffic controller and the drain binder

    doppler/app/config.go, metron/app/config.go, trafficcontroller/app/config.go and
    syslog_drain_binder/config/config.go: a JSON file is decoded over the initial values,
    checked and completed with defaults.  Decoding and reading the file are arguments. *)

From Stdlib Require Import Ascii.
From S2P Require Import Prelude Go Events TruncatingBuffer Sinks Blacklist StreamingSinks.

Local Open Scope Z_scope.

Record MetronConfig : Type := mkMetronConfig { UDPAddress : string; GRPCAddress : string }.

(** The TLS files of an etcd client. *)
Record EtcdTLSClientConfig : Type := mkEtcdTLS { etcd_CertFile : string; etcd_KeyFile : string; etcd_CAFile : string }.

Definition etcd_incomplete (c : EtcdTLSClientConfig) : bool :=
  Str.empty (etcd_CertFile c) || Str.empty (etcd_KeyFile c) || Str.empty (etcd_CAFile c).

Record GRPC : Type := mkGRPC {
  Port : Z; CAFile : string; CertFile : string; KeyFile : string; CipherSuites : list string }.

Definition with_port (g : GRPC) (p : Z) : GRPC := mkGRPC p (CAFile g) (CertFile g) (KeyFile g) (CipherSuites g).

Definition or_default {A} `{EqDecision A} (zero x d : A) : A := if bool_decide (x = zero) then d else x.

(** The checks shared by doppler and the traffic controller, in their order. *)
Definition validate_grpc (g : GRPC) : option string :=
  if Str.empty (CAFile g) then Some "invalid doppler config, no GRPC.CAFile provided"%string
  else if Str.empty (CertFile g) then Some "invalid doppler config, no GRPC.CertFile provided"%string
  else if Str.empty (KeyFile g) then Some "invalid doppler config, no GRPC.KeyFile provided"%string
  else None.

(** [ParseConfig] of all four: reading the file, then parsing it. *)
Definition ParseConfig {C} (ReadFile : string -> result string) (Parse : string -> result C) (configFile : string)
  : result C :=
  match ReadFile configFile with Err err => Err err | Ok b => Parse b end.

(** ** doppler/app/config.go *)

Module Doppler.

Record Config : Type := mkConfig {
  DisableSyslogDrains : bool; DisableAnnounce : bool;
  BlackListIps : option (list IPRange);
  ContainerMetricTTLSeconds : Z; IncomingUDPPort : Z; EtcdMaxConcurrentRequests : Z;
  EtcdUrls : list string; EtcdRequireTLS : bool; EtcdTLSClientConfig_ : EtcdTLSClientConfig;
  Index : string; JobName : string; IP : string;
  MaxRetainedLogMessages : Z; MessageDrainBufferSize : Z; MetricBatchIntervalMilliseconds : Z;
  MetronConfig_ : MetronConfig; MonitorIntervalSeconds : Z; WebsocketHost : string; OutgoingPort : Z;
  GRPC_ : GRPC; SharedSecret : string; SinkDialTimeoutSeconds : Z; SinkIOTimeoutSeconds : Z;
  SinkInactivityTimeoutSeconds : Z; SinkSkipCertVerify : bool; UnmarshallerCount : Z;
  WebsocketWriteTimeoutSeconds : Z; Zone : string; PPROFPort : Z; HealthAddr : string
}.

Definition initial : Config :=
  mkConfig false false None 0 3456 0 [] false (mkEtcdTLS EmptyString EmptyString EmptyString) EmptyString
    EmptyString EmptyString 0 0 0 (mkMetronConfig EmptyString EmptyString) 0 EmptyString 0
    (mkGRPC 0 EmptyString EmptyString EmptyString []) EmptyString 0 0 0 false 0 0 EmptyString 0 EmptyString.

Section Parse.

Context (parseIPv6 : string -> option (list Z)).

(** [json.Unmarshal] over an existing value. *)
Context (Unmarshal : string -> Config -> result Config).

(** [None] is valid. *)
Definition validate (c : Config) : option string :=
  if Str.empty (IP c) then Some "invalid doppler config, no IP provided"%string
  else if bool_decide (MaxRetainedLogMessages c = 0)
  then Some "Need max number of log messages to retain per application"%string
  else match match BlackListIps c with Some l => ValidateIpAddresses parseIPv6 l | None => None end with
       | Some err => Some err
       | None =>
           if EtcdRequireTLS c && etcd_incomplete (EtcdTLSClientConfig_ c)
           then Some "invalid etcd TLS client configuration"%string
           else validate_grpc (GRPC_ c)
       end.

(** The defaults at the end of [Parse]. *)
Definition with_defaults (c : Config) : Config :=
  mkConfig (DisableSyslogDrains c) (DisableAnnounce c) (BlackListIps c) (ContainerMetricTTLSeconds c)
    (IncomingUDPPort c) (if bool_decide (EtcdMaxConcurrentRequests c < 1) then 1 else EtcdMaxConcurrentRequests c)
    (EtcdUrls c) (EtcdRequireTLS c) (EtcdTLSClientConfig_ c) (Index c) (JobName c) (IP c)
    (MaxRetainedLogMessages c) (MessageDrainBufferSize c)
    (or_default 0 (MetricBatchIntervalMilliseconds c) 5000) (MetronConfig_ c)
    (or_default 0 (MonitorIntervalSeconds c) 60) (WebsocketHost c) (OutgoingPort c)
    (with_port (GRPC_ c) (or_default 0 (Port (GRPC_ c)) 8082)) (SharedSecret c)
    (or_default 0 (SinkDialTimeoutSeconds c) 1) (SinkIOTimeoutSeconds c) (SinkInactivityTimeoutSeconds c)
    (SinkSkipCertVerify c) (or_default 0 (UnmarshallerCount c) 1)
    (or_default 0 (WebsocketWriteTimeoutSeconds c) 30) (Zone c) (PPROFPort c)
    (or_default EmptyString (HealthAddr c) "localhost:14825"%string).

Definition Parse (confData : string) : result Config :=
  match Unmarshal confData initial with
  | Err err => Err err
  | Ok config =>
      match validate config with
      | Some err => Err err
      | None => Ok (with_defaults config)
      end
  end.

End Parse.
End Doppler.

(** ** trafficcontroller/app/config.go *)

Module TrafficController.

Record CCTLSClientConfig : Type := mkCCTLS {
  cc_CertFile : string; cc_KeyFile : string; cc_CAFile : string; ServerName : string }.

(** The gRPC part has no cipher suites here: the list stays empty. *)
Record Config : Type := mkConfig {
  EtcdUrls : list string; EtcdMaxConcurrentRequests : Z; EtcdRequireTLS : bool;
  EtcdTLSClientConfig_ : EtcdTLSClientConfig; IP : string; ApiHost : string;
  CCTLSClientConfig_ : CCTLSClientConfig; DopplerPort : Z; DopplerAddrs : list string;
  OutgoingDropsondePort : Z; MetronConfig_ : MetronConfig; GRPC_ : GRPC; SystemDomain : string;
  SkipCertVerify : bool; UaaHost : string; UaaClient : string; UaaClientSecret : string;
  MonitorIntervalSeconds : Z; SecurityEventLog : string; PPROFPort : Z; MetricEmitterInterval : string;
  MetricEmitterDuration : Z; HealthAddr : string
}.

Definition initial : Config :=
  mkConfig [] 0 false (mkEtcdTLS EmptyString EmptyString EmptyString) EmptyString EmptyString
    (mkCCTLS EmptyString EmptyString EmptyString EmptyString) 0 [] 0 (mkMetronConfig EmptyString EmptyString)
    (mkGRPC 0 EmptyString EmptyString EmptyString []) EmptyString false EmptyString EmptyString EmptyString
    0 EmptyString 0 EmptyString 0 EmptyString.

Section Parse.

(** The JSON decoder and [time.ParseDuration]. *)
Context (Decode : string -> Config -> result Config) (ParseDuration : string -> result Z).

Definition setDefaults (c : Config) : Config :=
  mkConfig (EtcdUrls c)
    (if bool_decide (EtcdMaxConcurrentRequests c < 1) then 10 else EtcdMaxConcurrentRequests c) (EtcdRequireTLS c)
    (EtcdTLSClientConfig_ c) (IP c) (ApiHost c) (CCTLSClientConfig_ c) (DopplerPort c) (DopplerAddrs c)
    (OutgoingDropsondePort c) (MetronConfig_ c) (with_port (GRPC_ c) (or_default 0 (Port (GRPC_ c)) 8082))
    (SystemDomain c) (SkipCertVerify c) (UaaHost c) (UaaClient c) (UaaClientSecret c)
    (or_default 0 (MonitorIntervalSeconds c) 60) (SecurityEventLog c) (PPROFPort c) (MetricEmitterInterval c)
    (match ParseDuration (MetricEmitterInterval c) with Err _ => 60000000000 | Ok duration => duration end)
    (or_default EmptyString (HealthAddr c) "localhost:14825"%string).

Definition validate (c : Config) : option string :=
  if Str.empty (SystemDomain c) then Some "Need system domain in order to create the proxies"%string
  else if Str.empty (IP c) then Some "Need IP address for access logging"%string
  else if EtcdRequireTLS c && etcd_incomplete (EtcdTLSClientConfig_ c)
  then Some "invalid etcd TLS client configuration"%string
  else match validate_grpc (GRPC_ c) with
       | Some err => Some err
       | None => if Str.empty (UaaClientSecret c) then Some "missing UAA client secret"%string else None
       end.

Definition Parse (r : string) : result Config :=
  match Decode r initial with
  | Err err => Err err
  | Ok config =>
      let config := setDefaults config in
      match validate config with Some err => Err err | None => Ok config end
  end.

End Parse.
End TrafficController.

(** ** metron/app/config.go *)

Module Metron.

Record Config : Type := mkConfig {
  Deployment : string; Zone : string; Job : string; Index : string; IP : string;
  Tags : gmap string string; DisableUDP : bool; IncomingUDPPort : Z; HealthEndpointPort : Z;
  GRPC_ : GRPC; DopplerAddr : string; MetricBatchIntervalMilliseconds : Z;
  RuntimeStatsIntervalMilliseconds : Z; PPROFPort : Z
}.

Definition initial : Config :=
  mkConfig EmptyString EmptyString EmptyString EmptyString EmptyString ∅ false 0 0
    (mkGRPC 0 EmptyString EmptyString EmptyString []) EmptyString 5000 15000 0.

Definition Parse (Decode : string -> Config -> result Config) (reader : string) : result Config :=
  match Decode reader initial with
  | Err err => Err err
  | Ok config => if Str.empty (DopplerAddr config) then Err "DopplerAddr is required" else Ok config
  end.

End Metron.

(** ** syslog_drain_binder/config/config.go *)

Module Binder.

Record MutualTLSConfig : Type := mkMutualTLS { m_CertFile : string; m_KeyFile : string; m_CAFile : string }.

Record Config : Type := mkConfig {
  DisableSyslogDrains : bool; InstanceName : string; DrainUrlTtlSeconds : Z; UpdateIntervalSeconds : Z;
  EtcdMaxConcurrentRequests : Z; EtcdUrls : list string; EtcdRequireTLS : bool;
  EtcdTLSClientConfig_ : EtcdTLSClientConfig; MetronAddress : string; CloudControllerAddress : string;
  CloudControllerTLSConfig : MutualTLSConfig; PollingBatchSize : Z; SkipCertVerify : bool; PPROFPort : Z
}.

Definition initial : Config :=
  mkConfig false EmptyString 0 0 0 [] false (mkEtcdTLS EmptyString EmptyString EmptyString) EmptyString EmptyString
    (mkMutualTLS EmptyString EmptyString EmptyString) 0 false 0.

(** The sign of the message is U+2265 in UTF-8. *)
Definition at_least : string := String "226"%char (String "137"%char (String "165"%char EmptyString)).

Definition validate (c : Config) : option string :=
  if Str.empty (MetronAddress c) then Some "Need Metron address (host:port)"%string
  else if bool_decide (EtcdMaxConcurrentRequests c < 1)
  then Some ("Need EtcdMaxConcurrentRequests " +:+ at_least +:+ " 1, received "
             +:+ Strconv.Itoa (EtcdMaxConcurrentRequests c))
  else if EtcdRequireTLS c && etcd_incomplete (EtcdTLSClientConfig_ c)
  then Some "Invalid etcd TLS client configuration"%string
  else None.

(** The decoding and checking of the binder's [ParseConfig]. *)
Definition Parse (Decode : string -> Config -> result Config) (file : string) : result Config :=
  match Decode file initial with
  | Err err => Err err
  | Ok config => match validate config with Some err => Err err | None => Ok config end
  end.

End Binder.

(** ** What a configuration that was accepted guarantees *)

Definition nonempty (s : string) : Prop := s <> EmptyString.

Definition tls_files (c : EtcdTLSClientConfig) : Prop :=
  nonempty (etcd_CertFile c) /\ nonempty (etcd_KeyFile c) /\ nonempty (etcd_CAFile c).

Definition grpc_files (g : GRPC) : Prop := nonempty (CAFile g) /\ nonempty (CertFile g) /\ nonempty (KeyFile g).

Lemma empty_false s : Str.empty s = false <-> nonempty s.
Proof. unfold nonempty. by destruct s. Qed.

Lemma etcd_complete c : etcd_incomplete c = false <-> tls_files c.
Proof. unfold etcd_incomplete, tls_files. rewrite !orb_false_iff, !empty_false. tauto. Qed.

Lemma etcd_check b c : b && etcd_incomplete c = false <-> (b = true -> tls_files c).
Proof. rewrite <- etcd_complete. destruct b; simpl; naive_solver. Qed.

Lemma validate_grpc_spec g : validate_grpc g = None <-> grpc_files g.
Proof.
  unfold validate_grpc, grpc_files. rewrite <- !empty_false.
  destruct (Str.empty (CAFile g)), (Str.empty (CertFile g)), (Str.empty (KeyFile g)); naive_solver.
Qed.

Lemma or_default_nonzero {A} `{EqDecision A} (zero x d : A) : d <> zero -> or_default zero x d <> zero.
Proof. intros Hd. unfold or_default. by case_bool_decide. Qed.

Module Checked.

(** What doppler needs of its configuration. *)
Definition doppler (p6 : string -> option (list Z)) (c : Doppler.Config) : Prop :=
  nonempty (Doppler.IP c) /\ Doppler.MaxRetainedLogMessages c <> 0
  /\ (forall l, Doppler.BlackListIps c = Some l -> ValidateIpAddresses p6 l = None)
  /\ (Doppler.EtcdRequireTLS c = true -> tls_files (Doppler.EtcdTLSClientConfig_ c))
  /\ grpc_files (Doppler.GRPC_ c).

Definition controller (c : TrafficController.Config) : Prop :=
  nonempty (TrafficController.SystemDomain c) /\ nonempty (TrafficController.IP c)
  /\ (TrafficController.EtcdRequireTLS c = true -> tls_files (TrafficController.EtcdTLSClientConfig_ c))
  /\ grpc_files (TrafficController.GRPC_ c) /\ nonempty (TrafficController.UaaClientSecret c).

Definition binder (c : Binder.Config) : Prop :=
  nonempty (Binder.MetronAddress c) /\ 1 <= Binder.EtcdMaxConcurrentRequests c
  /\ (Binder.EtcdRequireTLS c = true -> tls_files (Binder.EtcdTLSClientConfig_ c)).

End Checked.

Lemma doppler_validate_spec p6 c : Doppler.validate p6 c = None <-> Checked.doppler p6 c.
Proof.
  unfold Doppler.validate, Checked.doppler. rewrite <- empty_false, <- etcd_check, <- validate_grpc_spec.
  destruct (Str.empty (Doppler.IP c)); [naive_solver|].
  case_bool_decide; [naive_solver|].
  destruct (Doppler.BlackListIps c) as [l|]; [|destruct (_ && _); naive_solver].
  destruct (ValidateIpAddresses p6 l) eqn:E; [|destruct (_ && _); naive_solver].
  split; [done|]. intros (_ & _ & Hl & _). specialize (Hl l eq_refl). congruence.
Qed.

Lemma controller_validate_spec c : TrafficController.validate c = None <-> Checked.controller c.
Proof.
  unfold TrafficController.validate, Checked.controller. rewrite <- !empty_false, <- etcd_check, <- validate_grpc_spec.
  destruct (Str.empty (TrafficController.SystemDomain c)); [naive_solver|].
  destruct (Str.empty (TrafficController.IP c)); [naive_solver|].
  destruct (_ && _); [naive_solver|]. destruct (validate_grpc _); [naive_solver|].
  destruct (Str.empty _); naive_solver.
Qed.

Lemma binder_validate_spec c : Binder.validate c = None <-> Checked.binder c.
Proof.
  unfold Binder.validate, Checked.binder. rewrite <- !empty_false, <- etcd_check.
  destruct (Str.empty (Binder.MetronAddress c)); [naive_solver|].
  case_bool_decide; [split; [done|lia]|]. destruct (_ && _); [naive_solver|]. split; [|done]. intros _. lia.
Qed.

(** A process starts exactly on the configurations that decode and pass the checks, and
    then runs with every required value and default in place: doppler with addresses and
    TLS files, a blacklist of well-formed ranges, at least one retained message, one etcd
    request and non-zero intervals and ports; the traffic controller likewise with its
    secret; metron with the address of doppler; the binder with that of metron and at least
    one etcd request. *)
Theorem configs_checked p6 unmarshal decode duration decode_metron decode_binder text :
  (match Doppler.Parse p6 unmarshal text, unmarshal text Doppler.initial with
   | Ok c, Ok c0 => Checked.doppler p6 c0 /\ c = Doppler.with_defaults c0 /\ Checked.doppler p6 c
       /\ 1 <= Doppler.EtcdMaxConcurrentRequests c /\ Port (Doppler.GRPC_ c) <> 0
       /\ Doppler.MetricBatchIntervalMilliseconds c <> 0 /\ Doppler.MonitorIntervalSeconds c <> 0
       /\ Doppler.UnmarshallerCount c <> 0 /\ nonempty (Doppler.HealthAddr c)
   | Ok _, Err _ => False
   | Err _, Ok c0 => ~ Checked.doppler p6 c0
   | Err e, Err e0 => e = e0
   end)
  /\ (match TrafficController.Parse decode duration text, decode text TrafficController.initial with
      | Ok c, Ok c0 => Checked.controller c /\ c = TrafficController.setDefaults duration c0
          /\ 1 <= TrafficController.EtcdMaxConcurrentRequests c /\ Port (TrafficController.GRPC_ c) <> 0
          /\ TrafficController.MonitorIntervalSeconds c <> 0 /\ nonempty (TrafficController.HealthAddr c)
      | Ok _, Err _ => False
      | Err _, Ok c0 => ~ Checked.controller c0
      | Err e, Err e0 => e = e0
      end)
  /\ (forall c, Metron.Parse decode_metron text = Ok c <->
       decode_metron text Metron.initial = Ok c /\ nonempty (Metron.DopplerAddr c))
  /\ (forall c, Binder.Parse decode_binder text = Ok c <->
       decode_binder text Binder.initial = Ok c /\ Checked.binder c).
Proof.
  split_and!.
  - unfold Doppler.Parse. destruct (unmarshal text Doppler.initial) as [c0|err]; [|done].
    destruct (Doppler.validate p6 c0) as [err|] eqn:E.
    + intros H. apply doppler_validate_spec in H. congruence.
    + apply doppler_validate_spec in E. do 2 (split; [done|]). split; [exact E|].
      split; [simpl; case_bool_decide; lia|]. repeat split; by apply or_default_nonzero.
  - unfold TrafficController.Parse. destruct (decode text TrafficController.initial) as [c0|err]; [|done].
    destruct (TrafficController.validate _) as [err|] eqn:E.
    + intros H. assert (Checked.controller (TrafficController.setDefaults duration c0)) as H' by exact H.
      apply controller_validate_spec in H'. congruence.
    + apply controller_validate_spec in E. do 2 (split; [done|]).
      split; [simpl; case_bool_decide; lia|]. repeat split; by apply or_default_nonzero.
  - intros c. unfold Metron.Parse. destruct (decode_metron text Metron.initial) as [c0|err]; [|naive_solver].
    destruct (Str.empty (Metron.DopplerAddr c0)) eqn:E; [|apply empty_false in E; naive_solver].
    split; [done|]. intros [[= <-] H]. apply empty_false in H. congruence.
  - intros c. unfold Binder.Parse. destruct (decode_binder text Binder.initial) as [c0|err]; [|naive_solver].
    destruct (Binder.validate c0) as [err|] eqn:E.
    + split; [done|]. intros [[= <-] H]. apply binder_validate_spec in H. congruence.
    + apply binder_validate_spec in E. naive_solver.
Qed.

(** The size of the sinks' buffers is not checked: a configuration without it is accepted,
    and the first sink panics. *)
Lemma buffer_size_unchecked p6 : exists c0 text unmarshal,
  Doppler.Parse p6 unmarshal text = Ok (Doppler.with_defaults c0)
  /\ exists why, RunTruncatingBuffer (Doppler.MessageDrainBufferSize (Doppler.with_defaults c0)) None = Panics why.
Proof.
  exists (Doppler.mkConfig false false None 0 3456 0 [] false (mkEtcdTLS EmptyString EmptyString EmptyString) EmptyString
    EmptyString "10.0.0.1"%string 100 0 0 (mkMetronConfig EmptyString EmptyString) 0 EmptyString 0
    (mkGRPC 0 "ca" "crt" "key" [])%string EmptyString 0 0 0 false 0 0 EmptyString 0 EmptyString).
  exists "{}"%string, (fun _ _ => Ok (Doppler.mkConfig false false None 0 3456 0 [] false (mkEtcdTLS EmptyString EmptyString EmptyString) EmptyString
    EmptyString "10.0.0.1"%string 100 0 0 (mkMetronConfig EmptyString EmptyString) 0 EmptyString 0
    (mkGRPC 0 "ca" "crt" "key" [])%string EmptyString 0 0 0 false 0 0 EmptyString 0 EmptyString)).
  split; [reflexivity|]. eexists. reflexivity.
Qed.
