(* ===== verification/Doppler.v ===== *)
(** * doppler: the message router over the sink manager and the gRPC router

    doppler/internal/sinkserver/message_router.go hands every envelope to its senders, and
    doppler/main.go gives it the sink manager and the gRPC router.  Senders are an interface
    ([EnvelopeSender]) with what the message router relies on ([SenderLaws]); both senders
    implement it, and doppler's guarantee is composed from theirs. *)

From S2P Require Import Prelude Go Events Router StreamingSinks GroupedSinks Blacklist SyslogWriter SinkManager.
From S2P Require Import Diode MetricEmitter WebsocketServer GrpcServer.

#[local] Open Scope go_scope.

(** ** message_router.go *)

(** A sender with a state [S]; [C] are the choices the runtime makes during a call. *)
Class EnvelopeSender (S C : Type) : Type := SendTo : C -> string -> V1.Envelope -> S -> outcome S.

(** A sender keeps its invariant and does not panic. *)
Class SenderLaws (S C : Type) `{EnvelopeSender S C} (ok : S -> Prop) (legal : C -> Prop) : Prop :=
  SendTo_safe : forall c app e s, legal c -> ok s -> exists s', SendTo c app e s = Returns s' /\ ok s'.

(** The loop over the senders: first one, then the other. *)
#[export] Instance senders {S C T D} `{EnvelopeSender S C} `{EnvelopeSender T D} : EnvelopeSender (S * T) (C * D) :=
  fun c app e s =>
    let! s1 := SendTo c.1 app e s.1 in
    let! s2 := SendTo c.2 app e s.2 in
    Returns (s1, s2).

#[export] Instance senders_laws {S C T D} `{SenderLaws S C ok legal} `{SenderLaws T D ok' legal'} :
  SenderLaws (S * T) (C * D) (fun s => ok s.1 /\ ok' s.2) (fun c => legal c.1 /\ legal' c.2).
Proof.
  intros [c d] app e [s t] [Hc Hd] [Hs Ht]. unfold SendTo, senders. cbn [fst snd] in *.
  destruct (SendTo_safe c app e s Hc Hs) as (s' & -> & Hs').
  destruct (SendTo_safe d app e t Hd Ht) as (t' & E & Ht'). cbn [obind].
  match type of E with ?lhs = _ => change (SendTo d app e t) with lhs end. rewrite E. by exists (s', t').
Qed.

Section MessageRouter.

Context (GetAppId : V1.Envelope -> string).
Context {S C : Type} `{EnvelopeSender S C}.

(** One turn of [Start]. *)
Definition MessageRouter_turn (c : C) (envelope : V1.Envelope) (s : S) : outcome S :=
  let appId := GetAppId envelope in SendTo c appId envelope s.

End MessageRouter.

(** ** The senders of doppler *)

#[export] Instance manager_sender : EnvelopeSender SinkManager choices :=
  fun ch app e sm => SinkManager.SendTo ch app e sm.

#[export] Instance manager_laws : SenderLaws SinkManager choices SMInv (fun _ => True).
Proof. intros ch app e sm _ Hsm. by apply SinkManager.SendTo_returns. Qed.

(** The dumper of the gRPC queries: the sink manager with the contents of its caches. *)
Record Caches : Type := mkCaches {
  manager : SinkManager;
  dumps : gmap nat Sinks.Dump.DumpSink;
  caches : gmap nat Sinks.ContainerMetric.ContainerMetricSink
}.

Definition manager_dumper (ord : RangeOrder Z) (now : Z) : DataDumper Caches := {|
  GrpcServer.LatestContainerMetrics app s :=
    let! (cs, l) := SinkManager.LatestContainerMetrics (caches s) ord now app (manager s) in
    Returns (mkCaches (manager s) (dumps s) cs, l);
  GrpcServer.RecentLogsFor app s := SinkManager.RecentLogsFor (dumps s) app (manager s)
|}.

(** The order of the router's maps and its random draws. *)
Abbreviation router_choices := (RangeOrder string * (filter_ -> string -> nat -> nat))%type.

Section Senders.

Context {D : Type} {HD : Diode string D} {laws : DiodeLaws string D}.
Context {B : Type} {HB : Diode V1.Envelope B} {laws_B : DiodeLaws V1.Envelope B}.

(** [envelope.Marshal()], and the application of an envelope. *)
Context (marshal : V1.Envelope -> option string) (GetAppId : V1.Envelope -> string).
Context (parseIPv6 : string -> option (list Z)) (ResolveIPAddr : string -> result string)
  (url_Parse : string -> result URL) (blacklistIPs : list IPRange) (skipCertVerify : bool) (sinkIOTimeout : Z)
  (wrap_error : string -> string -> result V1.Envelope).

(** The gRPC router, whose setters are the diodes of the gRPC server's calls. *)
#[export] Instance router_sender : EnvelopeSender (DopplerServer D) router_choices :=
  fun c app e m => GrpcServer.SendTo marshal c.1 c.2 app e m.

#[export] Instance router_laws g0 :
  SenderLaws (DopplerServer D) router_choices (ServerInv g0) (fun c => Router.in_range c.2).
Proof. intros [ord draw] app e m Hc Hm. by apply send_Inv. Qed.

(** ** Executions of doppler *)

Abbreviation doppler := (SinkManager * DopplerServer D)%type.

(** Doppler with the diode between its ingress and the message router, and the counter of the
    envelopes the diode shed. *)
Record Node : Type := mkNode {
  envelopeBuffer : Tally V1.Envelope B;
  droppedMetric : Counter;
  core : doppler
}.

(** The alert of the diode. *)
Definition shed (missed : nat) (c : Counter) : Counter :=
  if bool_decide (missed = 0) then c else MetricEmitter.Increment c (Words.uint64 (Z.of_nat missed)).

(** An ingress server or listener sets an envelope, the message router takes one, or the sink
    manager or the gRPC server has another event. *)
Inductive doppler_event : Type :=
| Ingress (envelope : V1.Envelope)
| Route (c : choices * router_choices)
| Manage (e : event)
| Grpc (e : server_event).

(** One turn of [Start]; it waits on an empty diode. *)
Definition MessageRouter_Start (c : choices * router_choices) (n : Node) : outcome Node :=
  let '(t, missed, x) := take_next (envelopeBuffer n) in
  let metric := shed missed (droppedMetric n) in
  match x with
  | None => Returns (mkNode t metric (core n))
  | Some envelope =>
      let! d := MessageRouter_turn GetAppId c envelope (core n) in
      Returns (mkNode t metric d)
  end.

Definition doppler_step (n : Node) (e : doppler_event) : outcome Node :=
  let d := core n in
  match e with
  | Ingress envelope => Returns (mkNode (put envelope (envelopeBuffer n)) (droppedMetric n) d)
  | Route c => MessageRouter_Start c n
  | Manage e =>
      let! sm := SinkManager.step parseIPv6 ResolveIPAddr url_Parse blacklistIPs skipCertVerify sinkIOTimeout
                   wrap_error GetAppId d.1 e in
      Returns (mkNode (envelopeBuffer n) (droppedMetric n) (sm, d.2))
  | Grpc e =>
      let! m := server_step marshal d.2 e in
      Returns (mkNode (envelopeBuffer n) (droppedMetric n) (d.1, m))
  end.

Definition ingress_dropped (ord : RangeOrder string) (c : MetricEmitter.Client) : Counter :=
  Client_NewCounter ord c "dropped"
    [WithVersion ord 2 0; WithTags ord {["direction"%string := "ingress"%string]}].

Definition start (ord : RangeOrder string) (c : MetricEmitter.Client) (h : Health.Registrar) : Node :=
  mkNode empty_tally (ingress_dropped ord c) (SinkManager.New, NewDopplerServer ord NewRouter c h).

Definition legal_event (e : doppler_event) : Prop :=
  match e with
  | Route c => Router.in_range c.2.2
  | Grpc e => legal_draw e
  | _ => True
  end.

Definition ingested (l : list doppler_event) : list V1.Envelope :=
  omap (fun e => match e with Ingress env => Some env | _ => None end) l.

Record NodeInv (g0 : Z) (n : Node) : Prop := {
  node_tally : tally_ok (envelopeBuffer n);
  node_shed : GetDelta (droppedMetric n) = Words.uint64 (Z.of_nat (missed (envelopeBuffer n)));
  node_manager : SMInv (core n).1;
  node_server : ServerInv g0 (core n).2
}.

Lemma shed_delta k c n :
  GetDelta c = Words.uint64 (Z.of_nat n) -> GetDelta (shed k c) = Words.uint64 (Z.of_nat (n + k)).
Proof.
  intros Hc. unfold shed. case_bool_decide as Ek; [by rewrite Ek, Nat.add_0_r|].
  unfold GetDelta in *. cbn. unfold Words.add. rewrite Hc, Words.wrap_add_l, Words.wrap_add_r by lia. f_equal. lia.
Qed.

Lemma route_Inv g0 c n : Router.in_range c.2.2 -> NodeInv g0 n ->
  exists n', MessageRouter_Start c n = Returns n' /\ NodeInv g0 n' /\ offered (envelopeBuffer n') = offered (envelopeBuffer n).
Proof.
  intros Hc [Ht Hs Hm Hr]. unfold MessageRouter_Start. destruct (take_next (envelopeBuffer n)) as [[t k] x] eqn:Et.
  pose proof (take_next_ok _ _ _ _ Ht Et) as Ht'.
  assert (offered t = offered (envelopeBuffer n) /\ missed t = missed (envelopeBuffer n) + k) as [E1 E2].
  { unfold take_next in Et. destruct (TryNext _) as [[d j] o]. by simplify_eq/=. }
  pose proof (shed_delta k _ _ Hs) as Hs'. rewrite <- E2 in Hs'.
  destruct x as [env|]; [|by eexists].
  destruct (senders_laws (ok := SMInv) (ok' := ServerInv g0) c (GetAppId env) env (core n) (conj I Hc) (conj Hm Hr))
    as (d & E & Hd1 & Hd2).
  assert (MessageRouter_turn GetAppId c env (core n) = Returns d) as -> by exact E. by eexists.
Qed.

Lemma doppler_step_Inv g0 n e : legal_event e -> NodeInv g0 n ->
  exists n', doppler_step n e = Returns n' /\ NodeInv g0 n' /\
    offered (envelopeBuffer n') = offered (envelopeBuffer n) ++ ingested [e].
Proof.
  intros He Hn. pose proof Hn as [Ht Hs Hm Hr]. destruct e as [env|c|e|e]; cbn [doppler_step ingested omap list_omap].
  - eexists. split; [done|]. split; [|done]. split; [by apply put_ok|done..].
  - destruct (route_Inv g0 c n He Hn) as (n' & -> & Hn' & E). exists n'. by rewrite app_nil_r.
  - destruct (manager_step_SMInv parseIPv6 ResolveIPAddr url_Parse blacklistIPs skipCertVerify
      sinkIOTimeout wrap_error GetAppId (core n).1 e Hm) as (sm & -> & Hsm).
    eexists. split; [done|]. split; [by split|by rewrite app_nil_r].
  - destruct (grpc_step_Inv marshal g0 (core n).2 e He Hr) as (m & -> & Hm').
    eexists. split; [done|]. split; [by split|by rewrite app_nil_r].
Qed.

Lemma doppler_run_Inv g0 l n : Forall legal_event l -> NodeInv g0 n ->
  exists n', ofold doppler_step l n = Returns n' /\ NodeInv g0 n' /\
    offered (envelopeBuffer n') = offered (envelopeBuffer n) ++ ingested l.
Proof.
  intros Hl. revert n. induction Hl as [|e l He Hl IH]; intros n Hn; [exists n; by rewrite app_nil_r|].
  destruct (doppler_step_Inv g0 n e He Hn) as (n1 & E & Hn1 & Ho). simpl ofold. rewrite E. cbn [obind].
  destruct (IH n1 Hn1) as (n2 & -> & Hn2 & Ho2). exists n2. split; [done|]. split; [done|].
  rewrite Ho2, Ho, <- app_assoc. unfold ingested. by rewrite <- omap_app.
Qed.

Lemma doppler_start_Inv ord c h g0 :
  Health.gauges h !! GrpcServer.subscriptionCount = Some g0 -> NodeInv g0 (start ord c h).
Proof. intros Hg. split; [apply empty_tally_ok|done|apply New_SMInv|by apply NewDopplerServer_Inv]. Qed.

(** *** What the sink manager's sinks receive *)

Definition wrapper_chan (sm : SinkManager) (wr : SinkWrapper) : option (Chan.t V1.Envelope) :=
  chans (store (sinks sm)) !! InputChan wr.

(** Registrations keep the other sinks and their channels. *)
Definition keeps (sm sm' : SinkManager) : Prop :=
  forall p wr, registered (sinks sm) p = Some wr ->
    registered (sinks sm') p = Some wr /\ wrapper_chan sm' wr = wrapper_chan sm wr.

Lemma RegisterSink_keeps s sm : SMInv sm -> keeps sm (fst (RegisterSink s sm)).
Proof.
  intros H p wr Hp.
  assert (wrapper_chan (fst (RegisterSink s sm)) wr = wrapper_chan sm wr) as Hch.
  { unfold wrapper_chan. rewrite RegisterSink_store. cbn [make_chan snd chans]. rewrite lookup_insert_ne; [done|].
    intros E. pose proof (inv_open _ (sm_registry _ H) _ _ Hp) as Ho.
    pose proof (inv_fresh _ (sm_registry _ H) (InputChan wr)) as Hf. rewrite Ho in Hf. specialize (Hf ltac:(eauto)). lia. }
  split; [|done]. unfold RegisterSink. cbn [make_chan]. set (w := mkWorld _ _ _ _ _).
  destruct (RegisterAppSink_cases (next_chan (store (sinks sm))) s (set_store (sinks sm) w))
    as [->|(Hn & _ & _ & ->)]; cbn [negb fst sinks set_sinks set_metrics spawn].
  - by destruct p as [[[] ?] ?].
  - rewrite registered_insert. assert (registered (set_store (sinks sm) w) p = Some wr) as Hp' by
      (by destruct p as [[[] ?] ?]). case_decide as E; [|done]. subst p. congruence.
Qed.

Lemma ensure_keeps app sm :
  SMInv sm -> keeps sm (ensureContainerMetricsSinkFor app (ensureRecentLogsSinkFor app sm)).
Proof.
  intros H p wr Hp.
  assert (SMInv (ensureRecentLogsSinkFor app sm) /\ keeps sm (ensureRecentLogsSinkFor app sm)) as [H1 K1].
  { unfold ensureRecentLogsSinkFor. case_match; [by split|]. cbn [new_ref].
    split; [by apply RegisterSink_SMInv, SMInv_bump|].
    exact (RegisterSink_keeps (SDump (next_ref sm) app) _ (SMInv_bump sm _ H)). }
  destruct (K1 p wr Hp) as [Hp1 Hc1]. unfold ensureContainerMetricsSinkFor. case_match; [by split|].
  cbn [new_ref]. destruct (RegisterSink_keeps (SContainerMetric (next_ref (ensureRecentLogsSinkFor app sm)) app) _
    (SMInv_bump _ (S (next_ref (ensureRecentLogsSinkFor app sm))) H1) p wr Hp1) as [Hp2 Hc2].
  split; [exact Hp2|]. etrans; [exact Hc2|exact Hc1].
Qed.

(** A sink that is registered for the envelope's application, or picked for a firehose, has
    the envelope pushed on its channel. *)
Lemma manager_pushes ch app e sm :
  SMInv sm -> (forall key n, 0 < n -> Intn ch key n < n) ->
  exists sm', SinkManager.SendTo ch app e sm = Returns sm' /\
    (forall id wr, registered (sinks sm) (false, app, id) = Some wr ->
       wrapper_chan sm' wr = push e <$> wrapper_chan sm wr) /\
    (forall key id wr, registered (sinks sm) (true, key, id) = Some wr ->
       exists id' wr', registered (sinks sm) (true, key, id') = Some wr' /\
         wrapper_chan sm' wr' = push e <$> wrapper_chan sm wr').
Proof.
  intros H HI. unfold SinkManager.SendTo.
  set (sm1 := ensureContainerMetricsSinkFor app (ensureRecentLogsSinkFor app sm)).
  pose proof (ensure_SMInv app sm H) as H1. pose proof (ensure_keeps app sm H) as K. fold sm1 in H1, K.
  rewrite Broadcast_offers.
  destruct (offers_exact e (targets ch app (sinks sm1)) (store (sinks sm1))) as (w & -> & Hw & _).
  { by apply targets_NoDup, H1. } { intros i Hi. by eapply targets_open; [apply H1|]. }
  cbn [obind]. eexists. split; [done|]. split.
  - intros id wr Hp. destruct (K _ _ Hp) as [Hp1 <-]. unfold wrapper_chan. cbn [sinks set_sinks store set_store].
    rewrite Hw, decide_True by (by eapply targets_app). done.
  - intros key id wr Hp. destruct (K _ _ Hp) as [Hp1 _].
    assert (exists x, firehoses (sinks sm1) !! key = Some x) as [x Hx].
    { simpl in Hp1. apply bind_Some in Hp1 as (x & Hx & _). eauto. }
    destruct (picks_total ch (sinks sm1) key x (sm_registry _ H1) HI Hx) as [wr' Hin].
    destruct (picks_elem _ _ _ _ Hin) as (x' & id' & Hx' & Hid & _).
    assert (registered (sinks sm1) (true, key, id') = Some wr') as Hp2 by (simpl; by rewrite Hx').
    pose proof (ensure_no_new app sm (true, key, id') wr' Hp2 eq_refl) as Hp0.
    exists id', wr'. split; [exact Hp0|]. destruct (K _ _ Hp0) as [_ <-].
    unfold wrapper_chan. cbn [sinks set_sinks store set_store]. rewrite Hw, decide_True; [done|].
    unfold targets. apply elem_of_app. right. apply list_elem_of_fmap. exists wr'. split; [done|].
    apply list_elem_of_fmap. by exists (key, wr').
Qed.

(** The message router hands an envelope to everybody it is meant for. *)
Lemma router_turn_reaches g0 d ch ord draw env b :
  SMInv d.1 -> ServerInv g0 d.2 -> (forall key n, 0 < n -> Intn ch key n < n) -> Router.in_range draw ->
  marshal env = Some b -> GetAppId env <> EmptyString ->
  exists d' grpc, MessageRouter_turn GetAppId (ch, (ord, draw)) env d = Returns d' /\
    (forall id wr, registered (sinks d.1) (false, GetAppId env, id) = Some wr ->
       wrapper_chan d'.1 wr = push env <$> wrapper_chan d.1 wr) /\
    (forall key id wr, registered (sinks d.1) (true, key, id) = Some wr ->
       exists id' wr', registered (sinks d.1) (true, key, id') = Some wr' /\
         wrapper_chan d'.1 wr' = push env <$> wrapper_chan d.1 wr') /\
    reaches d.2 (GetAppId env) env grpc /\
    (forall i c, calls d.2 !! i = Some c -> exists c', calls d'.2 !! i = Some c' /\
       c_offered c' = c_offered c ++ if decide (i ∈ grpc) then [b] else []).
Proof.
  intros Hsm Hr HI Hdraw Hb Happ.
  destruct (manager_pushes ch (GetAppId env) env d.1 Hsm HI) as (sm' & Es & Happs & Hfire).
  destruct (SendTo_offers marshal g0 d.2 ord draw (GetAppId env) env b Hr Hdraw Hb Happ) as (grpc & Em & Hnd & Hreach).
  exists (sm', offers b grpc d.2), grpc. split; [|split_and!; try done; intros i c Hi; by apply offers_offered].
  unfold MessageRouter_turn, SendTo, senders. cbn [fst snd].
  change (SendTo ch (GetAppId env) env d.1) with (SinkManager.SendTo ch (GetAppId env) env d.1). rewrite Es. cbn [obind].
  change (SendTo (ord, draw) (GetAppId env) env d.2) with (GrpcServer.SendTo marshal ord draw (GetAppId env) env d.2).
  by rewrite Em.
Qed.


End Senders.

Module DopplerExample.

Definition app_of (e : V1.Envelope) : string := "a".

#[global] Instance envelope_ring : Diode V1.Envelope (list V1.Envelope) := last_values 10.
#[global] Instance envelope_ring_laws : DiodeLaws V1.Envelope (list V1.Envelope) := last_values_laws 10.

Definition draws : choices * router_choices :=
  (Registry_example.runtime, (default_order, Subscribe_example.last_draw)).

(** A drain and a firehose in the registry, two gRPC subscriptions, and two envelopes, one of
    which is routed. *)
Definition events : list doppler_event :=
  Manage (EvRegister Registry_example.drain_a) :: Manage (EvRegisterFirehose Registry_example.fire_1)
  :: Ingress log_envelope :: Ingress log_envelope :: Route draws
  :: (Grpc <$> [Call (mkRequest EmptyString None); Call (mkRequest "shard" (Some ("a"%string, LogOnly)));
        Next 0 None None; Next 0 None None; Next 1 None None; Next 1 None None]).

Definition step : Node (D := list string) (B := list V1.Envelope) -> doppler_event -> outcome Node :=
  doppler_step Subscribe_example.bytes app_of (fun _ => None) Manager_example.unresolved Manager_example.parse [] false 0
    Manager_example.no_wrap.

Definition begin : Node (D := list string) (B := list V1.Envelope) :=
  start default_order Subscribe_example.metrics Subscribe_example.gauges.

(** The second envelope reaches both subscriptions. *)
Example both_reached : exists n, ofold step (events ++ [Route draws]) begin = Returns n /\
  (c_offered <$> calls (core n).2) = [["bytes"]; ["bytes"]]%string.
Proof. eexists. split; [vm_compute; reflexivity|]. vm_compute. done. Qed.

End DopplerExample.

