(* ===== verification/EndToEnd.v ===== *)
(** * From the dopplers to a client of the reverse log proxy

    The composition along which an envelope travels: the ingress diode and the message router
    of each doppler ([Doppler]), the gRPC call that serves a subscription ([GrpcServer]), the
    goroutine of plumbing/grpc_connector.go that reads the stream ([DopplerStreams]), and the
    subscription at the reverse log proxy ([Rlp]), which converts the envelope and sends it to
    the client.  All of them take their steps in any order. *)

From S2P Require Import Prelude Go Events Diode Router StreamingSinks GroupedSinks Blacklist SyslogWriter SinkManager.
From S2P Require Import MetricEmitter DopplerStreams WebsocketServer Rlp GrpcServer Doppler.

#[local] Open Scope go_scope.

(** ** What flows through a call *)

Section Flow.

Context {D : Type} {HD : Diode string D} {laws : DiodeLaws string D}.
Context (marshal : V1.Envelope -> option string).

(** What a call has sent, tried to send, or may still send. *)
Definition flow (c : call D) : list string := c_sent c ++ c_failed c ++ unread (c_diode c).

(** A step of a call sends, fails or loses values, and never adds one. *)
Definition flows_to (c c' : call D) : Prop :=
  c_req c' = c_req c /\ flow c' `sublist_of` flow c /\ c_sent c `prefix_of` c_sent c'.

Lemma flows_to_refl c : flows_to c c.
Proof. done. Qed.

#[local] Hint Resolve flows_to_refl : core.

Lemma turn_flow i c send ctx (m : DopplerServer D) :
  call_ok c -> c_phase c = Looping ->
  exists c', calls (sendData_turn i c send ctx m) = <[i := c']> (calls m) /\ flows_to c c'.
Proof.
  intros Hok Hp. pose proof (ok_failed c Hok) as Hf. rewrite Hp in Hf.
  unfold sendData_turn. destruct (c_done c); [eexists; split; [done|]; by split_and!|].
  destruct (TryNext (c_diode c)) as [[d k] data] eqn:Ht.
  set (m1 := if bool_decide (k = 0) then m else Alert (Z.of_nat k) m).
  assert (calls m1 = calls m) as E1 by (unfold m1; by case_bool_decide).
  assert (forall x, data = Some x -> c_sent c ++ x :: unread d `sublist_of` flow c) as Hx.
  { intros x ->. destruct (unread_some _ _ _ _ Ht) as (lost & Hu & _). unfold flow. rewrite Hf, Hu. simpl.
    apply sublist_app; [done|]. by apply sublist_inserts_l. }
  destruct data as [x|]; [specialize (Hx x eq_refl); destruct send as [err|]|].
  - eexists. split; [simpl; by rewrite E1|]. split_and!; [done| |done]. unfold flow at 1. simpl. by rewrite Hf.
  - eexists. split; [simpl; by rewrite E1|]. split_and!; [done| |by apply prefix_app_r].
    unfold flow at 1. simpl. by rewrite Hf, <- app_assoc.
  - eexists. split; [simpl; by rewrite E1|]. destruct (unread_none _ _ _ Ht) as [Hu _].
    split_and!; [done| |done]. unfold flow. simpl. by rewrite Hu.
Qed.

Lemma next_flow i c send ctx (m m' : DopplerServer D) :
  call_ok c -> calls m !! i = Some c -> Subscribe_next i c send ctx m = Returns m' ->
  exists c', calls m' = <[i := c']> (calls m) /\ flows_to c c'.
Proof.
  intros Hok Hi. assert (calls m = <[i := c]> (calls m)) as Hid by (by rewrite list_insert_id).
  unfold Subscribe_next. destruct (c_phase c) eqn:Hp.
  - destruct (Health.Inc _ _); [|done]. intros [= <-]. by eexists.
  - intros [= <-]. by eexists.
  - intros [= <-]. by apply turn_flow.
  - destruct (Health.Dec _ _); [|done]. intros [= <-]. by eexists.
  - intros [= <-]. by eexists.
  - intros [= <-]. exists c. done.
Qed.

(** A step of the server other than an envelope. *)
Lemma server_flow g0 (m m' : DopplerServer D) ev :
  ServerInv g0 m -> match ev with Envelope _ _ _ _ => False | _ => True end ->
  server_step marshal m ev = Returns m' ->
  (forall req, ev = Call req -> calls m' = calls m ++ [mkCall D req Counted false NewDiode [] [] [] 0]) /\
  ((forall req, ev <> Call req) -> length (calls m') = length (calls m) /\
    forall i c', calls m' !! i = Some c' -> exists c, calls m !! i = Some c /\ flows_to c c').
Proof.
  intros Hm Hev. destruct ev as [req|i send ctx|i|ord draw app e|]; cbn [server_step].
  - intros [= <-]. split; [|naive_solver]. by intros ? [= <-].
  - intros Hs. split; [done|]. intros _. destruct (calls m !! i) as [c|] eqn:Hi; [|injection Hs as <-; eauto].
    destruct (next_flow i c send ctx m m') as (c' & Hc' & Hf); [eapply Forall_lookup_1; [apply Hm|done]|done|done|].
    rewrite Hc', length_insert. split; [done|]. intros j x. destruct (decide (j = i)) as [->|Hne].
    + rewrite list_lookup_insert_eq by (by eapply lookup_lt_Some). intros [= <-]. eauto.
    + rewrite list_lookup_insert_ne by done. eauto.
  - intros Hs. split; [done|]. intros _. destruct (calls m !! i) as [c|] eqn:Hi; injection Hs as <-; [|eauto].
    cbn [calls set_call]. rewrite length_insert. split; [done|]. intros j x. destruct (decide (j = i)) as [->|Hne].
    + rewrite list_lookup_insert_eq by (by eapply lookup_lt_Some). intros [= <-]. exists c. split; [done|].
      unfold monitorContext. by destruct (c_phase c).
    + rewrite list_lookup_insert_ne by done. eauto.
  - done.
  - intros [= <-]. split; [done|]. eauto.
Qed.

End Flow.

(** ** What flows through a doppler *)

Section Node.

Context {D : Type} {HD : Diode string D} {laws : DiodeLaws string D}.
Context {B : Type} {HB : Diode V1.Envelope B} {laws_B : DiodeLaws V1.Envelope B}.
Context (marshal : V1.Envelope -> option string) (GetAppId : V1.Envelope -> string).
Context (parseIPv6 : string -> option (list Z)) (ResolveIPAddr : string -> result string)
  (url_Parse : string -> result URL) (blacklistIPs : list IPRange) (skipCertVerify : bool) (sinkIOTimeout : Z)
  (wrap_error : string -> string -> result V1.Envelope).

Abbreviation node := (Node (D := D) (B := B)).
Abbreviation step := (doppler_step (D := D) (B := B) marshal GetAppId parseIPv6 ResolveIPAddr url_Parse blacklistIPs
  skipCertVerify sinkIOTimeout wrap_error).
Abbreviation node_calls n := (calls (core n).2).

(** The payloads a request asks for, of a list of envelopes. *)
Definition matching (req : SubscriptionRequest) (l : list V1.Envelope) : list string :=
  omap (fun env => if matches (GetAppId env) env (convertFilter req) then marshal env else None) l.

Lemma matching_app req l k : matching req (l ++ k) = matching req l ++ matching req k.
Proof. apply omap_app. Qed.

(** What was read from a doppler before a call, followed by what flows through the call, is
    what the call's request asks for of the envelopes routed, in order. *)
Definition Prov (before : list (list string)) (n : node) : Prop :=
  forall i c b, node_calls n !! i = Some c -> before !! i = Some b ->
    (b ++ flow c) `sublist_of` matching (c_req c) (taken (envelopeBuffer n)).

(** Envelopes reach the calls through the message router only. *)
Definition wired (e : doppler_event) : Prop :=
  match e with Grpc (Envelope _ _ _ _) => False | _ => True end.

Definition not_call (e : doppler_event) : Prop :=
  match e with Grpc (Call _) => False | _ => True end.

(** Envelopes without an application are delivered twice ([router_duplicates_without_app]). *)
Definition has_app (e : doppler_event) : Prop :=
  match e with Ingress env => GetAppId env <> EmptyString | _ => True end.

(** The calls of a node go on in another. *)
Definition continues (n n' : node) : Prop :=
  length (node_calls n') = length (node_calls n) /\
  forall i c', node_calls n' !! i = Some c' -> exists c, node_calls n !! i = Some c /\
    c_req c' = c_req c /\ c_sent c `prefix_of` c_sent c'.

Lemma continues_same n n' : node_calls n' = node_calls n -> continues n n'.
Proof. intros E. split; [by rewrite E|]. intros i c'. rewrite E. eauto. Qed.

Lemma turn_calls ch ord draw env (d d' : SinkManager * DopplerServer D) :
  MessageRouter_turn (H := senders (H0 := router_sender marshal)) GetAppId (ch, (ord, draw)) env d = Returns d' ->
  GrpcServer.SendTo marshal ord draw (GetAppId env) env d.2 = Returns d'.2.
Proof.
  unfold MessageRouter_turn, Doppler.SendTo, senders, router_sender. cbn [fst snd].
  destruct (Doppler.SendTo ch (GetAppId env) env d.1) as [sm|why]; cbn [obind]; [|done].
  destruct (Doppler.SendTo (ord, draw) (GetAppId env) env d.2) as [m|why] eqn:E; cbn [obind]; [|done].
  intros [= <-]. exact E.
Qed.

(** An envelope is offered to the calls whose request it matches. *)
Lemma envelope_flow g0 (m m' : DopplerServer D) ord draw env :
  ServerInv g0 m -> Router.in_range draw -> GetAppId env <> EmptyString ->
  GrpcServer.SendTo marshal ord draw (GetAppId env) env m = Returns m' ->
  length (calls m') = length (calls m) /\
  forall i c', calls m' !! i = Some c' -> exists c, calls m !! i = Some c /\ c_req c' = c_req c /\ c_sent c' = c_sent c /\
    flow c' `sublist_of` flow c ++ matching (c_req c) [env].
Proof.
  intros Hm Hd Happ HS. destruct (marshal env) as [b|] eqn:Hb.
  2:{ unfold GrpcServer.SendTo, Router.SendTo in HS. rewrite Hb in HS. injection HS as <-. split; [done|].
      intros i c' Hi. exists c'. split_and!; try done. apply sublist_inserts_r. done. }
  destruct (SendTo_offers marshal g0 m ord draw (GetAppId env) env b Hm Hd Hb Happ) as (l & E & Hl & Hr & _).
  rewrite E in HS. injection HS as <-. split; [simpl; apply offers_length|].
  intros i c'. cbn [calls offers]. rewrite offers_lookup. destruct (calls m !! i) as [c|] eqn:Hi; [|done].
  cbn [fmap option_fmap option_map]. rewrite filter_eq_NoDup by done. intros [= <-].
  exists c. split_and!; try done. unfold flow. cbn [c_sent c_failed c_diode].
  case_decide as Hin; [|cbn; by apply sublist_inserts_r].
  cbn. rewrite unread_set, !app_assoc. apply sublist_app; [done|].
  destruct (Hr i Hin) as (f & id & (c0 & Hc0 & _ & <- & _) & Hf). assert (c0 = c) as -> by congruence.
  unfold matching. cbn. destruct (matches _ _ _); [|done]. by rewrite Hb.
Qed.

(** The envelopes in the ingress diode have an application. *)
Definition apps_ok (n : node) : Prop := Forall (fun env => GetAppId env <> EmptyString) (offered (envelopeBuffer n)).

Lemma taken_app g0 (n : node) env : NodeInv g0 n -> apps_ok n -> env ∈ taken (envelopeBuffer n) -> GetAppId env <> EmptyString.
Proof.
  intros [[Ho _] _ _ _] Ha He. unfold apps_ok in Ha. rewrite Forall_forall in Ha. apply Ha.
  eapply elem_of_submseteq; [|by apply sublist_submseteq]. set_solver.
Qed.

(** A turn of the message router. *)
Lemma route_Prov g0 before c (n n' : node) :
  NodeInv g0 n -> NodeInv g0 n' -> apps_ok n' -> Router.in_range c.2.2 ->
  MessageRouter_Start marshal GetAppId c n = Returns n' -> Prov before n -> continues n n' /\ Prov before n'.
Proof.
  intros Hn Hn' Ha Hc HS Hp. unfold MessageRouter_Start, take_next in HS.
  destruct (TryNext (diode (envelopeBuffer n))) as [[t k] x] eqn:Et.
  destruct x as [env|].
  2:{ injection HS as <-. split; [by apply continues_same|]. intros i c0 b Hi Hb. simpl. rewrite app_nil_r. eauto. }
  destruct (MessageRouter_turn GetAppId c env (core n)) as [d|why] eqn:Em; cbn [obind] in HS; [|done]. injection HS as <-.
  assert (GetAppId env <> EmptyString) as Happ.
  { eapply taken_app; [exact Hn'|exact Ha|]. simpl. set_solver. }
  destruct c as [ch [ord draw]]. apply turn_calls in Em.
  destruct (envelope_flow g0 (core n).2 d.2 ord draw env (node_server _ _ Hn) Hc Happ Em) as [Hlen Hf].
  split.
  - split; [done|]. intros i c' Hi. destruct (Hf i c' Hi) as (c0 & Hc0 & Hr & Hs & _). exists c0. by rewrite Hs.
  - intros i c' b Hi Hb. destruct (Hf i c' Hi) as (c0 & Hc0 & Hr & _ & Hfl). rewrite Hr. simpl.
    rewrite matching_app. etrans; [apply sublist_app; [reflexivity|exact Hfl]|]. rewrite app_assoc.
    apply sublist_app; [by eapply Hp|done].
Qed.

Lemma node_flow g0 before e (n n' : node) :
  NodeInv g0 n -> NodeInv g0 n' -> apps_ok n' -> legal_event e -> wired e -> not_call e ->
  step n e = Returns n' -> Prov before n -> continues n n' /\ Prov before n'.
Proof.
  intros Hn Hn' Ha He Hw Hnc HS Hp. destruct e as [env|c|e|e]; cbn [doppler_step] in HS.
  - injection HS as <-. split; [by apply continues_same|exact Hp].
  - by eapply route_Prov.
  - destruct (SinkManager.step _ _ _ _ _ _ _ _ _ _) as [sm|why]; cbn [obind] in HS; [|done]. injection HS as <-.
    split; [by apply continues_same|exact Hp].
  - destruct (server_step marshal (core n).2 e) as [m|why] eqn:Es; cbn [obind] in HS; [|done]. injection HS as <-.
    destruct (server_flow marshal g0 (core n).2 m e (node_server _ _ Hn)) as [_ Hf]; [by destruct e|done|].
    destruct Hf as [Hlen Hf]; [intros req ->; by apply Hnc|]. split.
    + split; [done|]. intros i c' Hi. destruct (Hf i c' Hi) as (c0 & Hc0 & Hr & _ & Hs). eauto.
    + intros i c' b Hi Hb. destruct (Hf i c' Hi) as (c0 & Hc0 & Hr & Hfl & _). rewrite Hr. simpl.
      etrans; [apply sublist_app; [reflexivity|exact Hfl]|]. by eapply Hp.
Qed.

(** A new call, after [x] was read. *)
Lemma call_flow g0 before req x (n n' : node) :
  NodeInv g0 n -> length before = length (node_calls n) -> step n (Grpc (Call req)) = Returns n' ->
  Prov before n -> x `sublist_of` matching req (taken (envelopeBuffer n)) ->
  node_calls n' = node_calls n ++ [mkCall D req Counted false NewDiode [] [] [] 0] /\ Prov (before ++ [x]) n'.
Proof.
  intros Hn Hlen HS Hp Hx. cbn in HS. injection HS as <-. split; [done|].
  intros i c b Hi Hb. cbn in Hi. simpl.
  destruct (decide (i < length (node_calls n))) as [Hlt|Hge].
  - rewrite lookup_app_l in Hi by done. rewrite lookup_app_l in Hb by lia. by eapply Hp.
  - rewrite lookup_app_r in Hi by lia. rewrite lookup_app_r in Hb by lia. rewrite Hlen in Hb.
    destruct (i - length (node_calls n)) as [|j]; [|done]. simplify_eq/=. unfold flow. simpl. rewrite unread_new.
    by rewrite app_nil_r.
Qed.

End Node.

(** ** The system *)

Section System.

Context {D : Type} {HD : Diode string D} {laws : DiodeLaws string D}.
Context {B : Type} {HB : Diode V1.Envelope B} {laws_B : DiodeLaws V1.Envelope B}.
Context {E : Type} {conv : EnvelopeConverter E} {conv_total : ConverterTotal E}.
Context (marshal : V1.Envelope -> option string) (GetAppId : V1.Envelope -> string).
Context (parseIPv6 : string -> option (list Z)) (ResolveIPAddr : string -> result string)
  (url_Parse : string -> result URL) (blacklistIPs : list IPRange) (skipCertVerify : bool) (sinkIOTimeout : Z)
  (wrap_error : string -> string -> result V1.Envelope).

Abbreviation node := (Node (D := D) (B := B)).
Abbreviation node_step := (doppler_step (D := D) (B := B) marshal GetAppId parseIPv6 ResolveIPAddr url_Parse blacklistIPs
  skipCertVerify sinkIOTimeout wrap_error).
Abbreviation node_calls n := (calls (core n).2).
Abbreviation node_step_Inv := (doppler_step_Inv (D := D) (B := B) marshal GetAppId parseIPv6 ResolveIPAddr url_Parse
  blacklistIPs skipCertVerify sinkIOTimeout wrap_error).
Abbreviation node_step_flow := (node_flow (D := D) (B := B) marshal GetAppId parseIPv6 ResolveIPAddr url_Parse
  blacklistIPs skipCertVerify sinkIOTimeout wrap_error).
Abbreviation node_call_flow := (call_flow (D := D) (B := B) marshal GetAppId parseIPv6 ResolveIPAddr url_Parse
  blacklistIPs skipCertVerify sinkIOTimeout wrap_error).

(** A doppler, the call that serves the subscription with the number of payloads read from
    its stream, and what had been read from the doppler before each of its calls. *)
Record Site : Type := mkSite {
  site_node : node;
  before : list (list string);
  link : option (nat * nat)
}.

Record System : Type := mkSystem {
  sites : list Site;
  streams : Streams.state;
  sub : subscription (E := E)
}.

Inductive system_event : Type :=
| AtDoppler (d : nat) (e : doppler_event)
| Connect (d : nat)
| ReadStream (d : nat)
| OfferStream (d : nat) (chooseCtx : bool)
| CancelContext
| Consume
| StreamError
| SendClient (ok : bool).

Definition set_site (d : nat) (st : Site) (s : System) : System :=
  mkSystem (<[d := st]> (sites s)) (streams s) (sub s).

Definition set_streams (x : Streams.state) (s : System) : System := mkSystem (sites s) x (sub s).

(** The connector subscribes at a doppler with the converted request; a stream delivers what
    the doppler sent, in order. *)
Definition system_step (s : System) (e : system_event) : outcome System :=
  match e with
  | AtDoppler d e =>
      match sites s !! d with
      | None => Returns s
      | Some st =>
          let! n := node_step (site_node st) e in
          let b := match e with Grpc (Call _) => before st ++ [[]] | _ => before st end in
          Returns (set_site d (mkSite n b (link st)) s)
      end
  | Connect d =>
      match sites s !! d with
      | None => Returns s
      | Some st =>
          let! n := node_step (site_node st) (Grpc (Call (convertRequest (request (sub s))))) in
          Returns (set_site d (mkSite n (before st ++ [Streams.of_doppler d (Streams.read_ (streams s))])
            (Some (length (node_calls (site_node st)), 0))) s)
      end
  | ReadStream d =>
      match sites s !! d with
      | None => Returns s
      | Some st =>
          match link st with
          | None => Returns s
          | Some (i, k) =>
              match node_calls (site_node st) !! i ≫= (fun c => c_sent c !! k), Streams.pending (streams s) !! d with
              | Some p, None =>
                  Returns (set_streams (Streams.step (streams s) (Streams.Read d p))
                    (set_site d (mkSite (site_node st) (before st) (Some (i, S k))) s))
              | _, _ => Returns s
              end
          end
      end
  | OfferStream d choose => Returns (set_streams (Streams.step (streams s) (Streams.Offer d choose)) s)
  | CancelContext => Returns (set_streams (Streams.step (streams s) Streams.Cancel) s)
  | Consume =>
      match Streams.buffered (streams s) with
      | (d, p) :: _ =>
          if receiving (sub s) then
            let! x := Rlp.server_step (sub s) (RxData p) in
            Returns (mkSystem (sites s) (Streams.step (streams s) Streams.RecvData) x)
          else Returns s
      | [] => Returns s
      end
  | StreamError =>
      let! x := Rlp.server_step (sub s) RxError in Returns (mkSystem (sites s) (streams s) x)
  | SendClient ok =>
      let! x := Rlp.server_step (sub s) (SendNext ok) in Returns (mkSystem (sites s) (streams s) x)
  end.

(** [n] dopplers and a subscription with the connector's buffer of 1000 payloads. *)
Definition system_start (n : nat) (ord : RangeOrder string) (c : MetricEmitter.Client) (hd h : Health.Registrar)
  (r : EgressRequest) : outcome System :=
  let! x := Receiver_start h r true in
  Returns (mkSystem (replicate n (mkSite (start ord c hd) [] None)) (Streams.Subscribe 1000) x).

Definition legal_system_event (e : system_event) : Prop :=
  match e with AtDoppler _ e => legal_event e /\ wired e /\ has_app GetAppId e | _ => True end.

Definition ingested_at (d : nat) (l : list system_event) : list V1.Envelope :=
  omap (fun e => match e with AtDoppler d' (Ingress env) => if decide (d' = d) then Some env else None | _ => None end) l.

(** The envelope a payload becomes. *)
Definition converted (r : EgressRequest) (p : string) : option E :=
  match Convert p (UsePreferredTags r) with Returns (Ok e) => Some e | _ => None end.

(** ** The invariant *)

(** What was read from a doppler and what may still come from it are what the request asks
    for of the envelopes the doppler routed. *)
Definition link_ok (req : SubscriptionRequest) (st : Site) (l : list string) : Prop :=
  match link st with
  | None => l = []
  | Some (i, k) => exists c b, node_calls (site_node st) !! i = Some c /\ before st !! i = Some b /\
      c_req c = req /\ l = b ++ take k (c_sent c) /\ k <= length (c_sent c)
  end.

Record site_ok (g0 : Z) (req : SubscriptionRequest) (ing : list V1.Envelope) (l : list string) (st : Site) : Prop := {
  site_inv : NodeInv g0 (site_node st);
  site_ingested : offered (envelopeBuffer (site_node st)) = ing;
  site_apps : apps_ok GetAppId (site_node st);
  site_prov : Prov marshal GetAppId (before st) (site_node st);
  site_before : length (before st) = length (node_calls (site_node st));
  site_link : link_ok req st l
}.

Record SystemInv (g0 : Z) (h0 : Health.Registrar) (r : EgressRequest) (n : nat) (ing : nat -> list V1.Envelope)
  (s : System) : Prop := {
  sys_sites : length (sites s) = n;
  sys_site d st : sites s !! d = Some st ->
    site_ok g0 (convertRequest r) (ing d) (Streams.of_doppler d (Streams.read_ (streams s))) st;
  sys_no_site d : sites s !! d = None -> Streams.of_doppler d (Streams.read_ (streams s)) = [];
  sys_streams : Streams.Inv (streams s);
  sys_sub : sub_ok h0 (sub s);
  sys_request : request (sub s) = r;
  sys_received : received (sub s) = omap (converted r) (Streams.received (streams s)).*2
}.

Lemma link_sublist g0 req ing l st :
  site_ok g0 req ing l st -> l `sublist_of` matching marshal GetAppId req (taken (envelopeBuffer (site_node st))).
Proof.
  intros [_ _ _ Hp _ Hl]. unfold link_ok in Hl. destruct (link st) as [[i k]|]; [|subst; apply sublist_nil_l].
  destruct Hl as (c & b & Hc & Hb & <- & -> & _). etrans; [|by eapply Hp].
  apply sublist_app; [done|]. unfold flow. apply sublist_inserts_r. apply sublist_take.
Qed.

Lemma link_continues req st n' b l :
  continues (site_node st) n' -> b = before st -> link_ok req st l -> link_ok req (mkSite n' b (link st)) l.
Proof.
  intros [Hlen Hc] -> Hl. unfold link_ok in *. cbn [link site_node before]. destruct (link st) as [[i k]|]; [|done].
  destruct Hl as (c & x & Hi & Hx & <- & -> & Hk).
  destruct (lookup_lt_is_Some_2 (node_calls n') i) as [c' Hi']; [rewrite Hlen; by eapply lookup_lt_Some|].
  destruct (Hc i c' Hi') as (c0 & Hc0 & Hr & [t Ht]). assert (c0 = c) as -> by congruence.
  exists c', x. split_and!; [done|done|by rewrite Hr| |].
  - rewrite Ht, take_app_le by done. done.
  - rewrite Ht, length_app. lia.
Qed.

Lemma link_new_call st n' c b x l req :
  node_calls n' = node_calls (site_node st) ++ [c] -> b = before st ++ [x] ->
  length (before st) = length (node_calls (site_node st)) ->
  link_ok req st l -> link_ok req (mkSite n' b (link st)) l.
Proof.
  intros Hc -> Hlen Hl. unfold link_ok in *. cbn [link site_node before]. destruct (link st) as [[i k]|]; [|done].
  destruct Hl as (c0 & y & Hi & Hy & Hr & -> & Hk). exists c0, y. rewrite Hc.
  split_and!; [by apply lookup_app_l_Some|by apply lookup_app_l_Some|done..].
Qed.

(** A step of a doppler. *)
Lemma site_step_ok g0 req ing l st e n' :
  legal_event e -> wired e -> has_app GetAppId e -> site_ok g0 req ing l st -> node_step (site_node st) e = Returns n' ->
  site_ok g0 req (ing ++ ingested [e]) l
    (mkSite n' (match e with Grpc (Call _) => before st ++ [[]] | _ => before st end) (link st)).
Proof.
  intros He Hw Ha [Hn Hing Happ Hp Hlen Hl] HS.
  destruct (node_step_Inv g0 (site_node st) e He Hn) as (n2 & E2 & Hn2 & Ho2).
  assert (n2 = n') as -> by congruence.
  assert (apps_ok GetAppId n') as Happ'.
  { unfold apps_ok in *. rewrite Ho2. apply Forall_app. split; [done|]. destruct e; cbn; repeat constructor. exact Ha. }
  rewrite Hing in Ho2.
  destruct e as [env|c|ev|[req'|i send ctx|i|? ? ? ?|]]; try done;
    try (destruct (node_step_flow g0 (before st) _ (site_node st) n' Hn Hn2 Happ' He Hw I HS Hp) as [Hc Hp'];
      split; cbn [site_node before]; try done; [by rewrite (proj1 Hc)|by apply link_continues]).
  destruct (node_call_flow g0 (before st) req' [] (site_node st) n' Hn Hlen HS Hp (sublist_nil_l _)) as [Hc Hp'].
  split; cbn [site_node before]; try done.
  - rewrite Hc, !length_app, Hlen. done.
  - by eapply link_new_call.
Qed.

(** The connector subscribes at a doppler. *)
Lemma site_connect_ok g0 req ing l st n' :
  site_ok g0 req ing l st -> node_step (site_node st) (Grpc (Call req)) = Returns n' ->
  site_ok g0 req ing l (mkSite n' (before st ++ [l]) (Some (length (node_calls (site_node st)), 0))).
Proof.
  intros Hst HS. pose proof (link_sublist _ _ _ _ _ Hst) as Hl. destruct Hst as [Hn Hing Happ Hp Hlen _].
  destruct (node_step_Inv g0 (site_node st) (Grpc (Call req)) I Hn) as (n2 & E2 & Hn2 & Ho2).
  assert (n2 = n') as -> by congruence. cbn in Ho2. rewrite app_nil_r in Ho2.
  destruct (node_call_flow g0 (before st) req l (site_node st) n' Hn Hlen HS Hp Hl) as [Hc Hp'].
  split; cbn [site_node before]; try done.
  - by rewrite Ho2.
  - unfold apps_ok. by rewrite Ho2.
  - rewrite Hc, !length_app, Hlen. done.
  - unfold link_ok. cbn [link site_node before]. eexists _, l. rewrite Hc.
    split_and!; [by apply list_lookup_middle|by rewrite <- Hlen; apply list_lookup_middle|done| |simpl; lia].
    simpl. by rewrite app_nil_r.
Qed.

(** The goroutine of a doppler reads the next payload. *)
Lemma site_read_ok g0 req ing l st i k c p :
  site_ok g0 req ing l st -> link st = Some (i, k) -> node_calls (site_node st) !! i = Some c -> c_sent c !! k = Some p ->
  site_ok g0 req ing (l ++ [p]) (mkSite (site_node st) (before st) (Some (i, S k))).
Proof.
  intros [Hn Hing Happ Hp Hlen Hl] Hk Hc Hs. split; try done. unfold link_ok in *. rewrite Hk in Hl. cbn [link].
  destruct Hl as (c' & b & Hc' & Hb & Hr & -> & Hle). assert (c' = c) as -> by congruence.
  exists c, b. split_and!; try done.
  - by rewrite (take_S_r _ _ _ Hs), app_assoc.
  - apply lookup_lt_Some in Hs. cbn [site_node]. lia.
Qed.

(** Steps of the connector's goroutines other than a read. *)
Lemma streams_keep x e :
  match e with Streams.Offer _ _ | Streams.Cancel => True | _ => False end ->
  Streams.read_ (Streams.step x e) = Streams.read_ x /\ Streams.received (Streams.step x e) = Streams.received x.
Proof.
  destruct e as [|d choose| |]; try done. cbn [Streams.step].
  destruct (Streams.pending x !! d); [|done]. repeat case_match; done.
Qed.

Lemma streams_recv x d p rest :
  Streams.Inv x -> Streams.buffered x = (d, p) :: rest ->
  Streams.read_ (Streams.step x Streams.RecvData) = Streams.read_ x /\
  Streams.received (Streams.step x Streams.RecvData) = Streams.received x ++ [(d, p)].
Proof.
  intros [Hd _ _ _ _ _ _] Hb. cbn [Streams.step]. unfold Chan.try_recv. by rewrite Hd, Hb.
Qed.

Lemma set_streams_Inv g0 h0 r n ing s x :
  SystemInv g0 h0 r n ing s -> Streams.Inv x -> Streams.read_ x = Streams.read_ (streams s) ->
  Streams.received x = Streams.received (streams s) -> SystemInv g0 h0 r n ing (set_streams x s).
Proof.
  intros [Hl Hs Hno Hst Hsub Hreq Hrec] Hx Hr Hc. split; simpl; rewrite ?Hr, ?Hc; done.
Qed.

Lemma set_sub_Inv g0 h0 r n ing s x :
  SystemInv g0 h0 r n ing s -> sub_ok h0 x -> request x = request (sub s) -> received x = received (sub s) ->
  SystemInv g0 h0 r n ing (mkSystem (sites s) (streams s) x).
Proof. intros [Hl Hs Hno Hst Hsub Hreq Hrec] Hx Hr Hc. split; simpl; rewrite ?Hr, ?Hc; done. Qed.

(** What the steps of the subscription do to what it received. *)
Lemma sub_received (x x' : subscription (E := E)) ev :
  Rlp.server_step x ev = Returns x' ->
  request x' = request x /\
  received x' = received x ++ match ev with
    | RxData p => if receiving x then option_list (converted (request x) p) else []
    | _ => []
    end.
Proof.
  destruct ev as [|p|ok]; cbn [Rlp.server_step]; rewrite ?app_nil_r.
  - destruct (receiving x); [|by intros [= <-]]. unfold stop_receiving. destruct (Chan.close _); [|done]. by intros [= <-].
  - destruct (receiving x); [|intros [= <-]; by rewrite app_nil_r]. unfold consumeReceiver_turn, converted.
    destruct (Convert p (UsePreferredTags (request x))) as [[e|err]|why]; [| |done].
    + destruct (Chan.try_send (buffer x) e); [by intros [= <-]..|done].
    + unfold stop_receiving. destruct (Chan.close _); [|done]. intros [= <-]. simpl. by rewrite app_nil_r.
  - destruct (Rlp.returned x); [by intros [= <-]|]. unfold send_turn, finish.
    destruct (Chan.try_recv (buffer x)) as [e c| |]; [destruct ok| |]; cbn [Rlp.health];
      try (destruct (Health.Dec _ _); [|done]); by intros [= <-].
Qed.

Lemma site_Inv g0 h0 r n ing ing' s d st st' :
  SystemInv g0 h0 r n ing s -> sites s !! d = Some st ->
  site_ok g0 (convertRequest r) (ing' d) (Streams.of_doppler d (Streams.read_ (streams s))) st' ->
  (forall e, e <> d -> ing' e = ing e) -> SystemInv g0 h0 r n ing' (set_site d st' s).
Proof.
  intros [Hl Hs Hno Hst Hsub Hreq Hrec] Hd Hst' Hing. split; simpl; try done.
  - by rewrite length_insert.
  - intros e st0. destruct (decide (e = d)) as [->|Hne].
    + rewrite list_lookup_insert_eq by (by eapply lookup_lt_Some). by intros [= <-].
    + rewrite list_lookup_insert_ne, Hing by done. apply Hs.
  - intros e He. apply Hno. destruct (decide (e = d)) as [->|Hne]; [|by rewrite list_lookup_insert_ne in He].
    rewrite list_lookup_insert_eq in He by (by eapply lookup_lt_Some). done.
Qed.

Lemma read_event_Inv g0 h0 r n ing s d st i k c p :
  SystemInv g0 h0 r n ing s -> sites s !! d = Some st -> link st = Some (i, k) ->
  node_calls (site_node st) !! i = Some c -> c_sent c !! k = Some p -> Streams.pending (streams s) !! d = None ->
  SystemInv g0 h0 r n ing (set_streams (Streams.step (streams s) (Streams.Read d p))
    (set_site d (mkSite (site_node st) (before st) (Some (i, S k))) s)).
Proof.
  intros [Hl Hs Hno Hst Hsub Hreq Hrec] Hd Hlk Hc Hp Hpd.
  assert (Streams.read_ (Streams.step (streams s) (Streams.Read d p)) = Streams.read_ (streams s) ++ [(d, p)] /\
    Streams.received (Streams.step (streams s) (Streams.Read d p)) = Streams.received (streams s)) as [Er Ec].
  { cbn [Streams.step]. by rewrite Hpd. }
  split; cbn [sites set_streams set_site sub streams]; rewrite ?Er, ?Ec; try done.
  - by rewrite length_insert.
  - intros e st0. rewrite Streams.of_doppler_app, Streams.of_doppler_one. destruct (decide (e = d)) as [->|Hne].
    + rewrite list_lookup_insert_eq by (by eapply lookup_lt_Some). intros [= <-]. rewrite decide_True by done.
      eapply site_read_ok; [by apply Hs|done..].
    + rewrite list_lookup_insert_ne, decide_False, app_nil_r by done. apply Hs.
  - intros e He. destruct (decide (e = d)) as [->|Hne].
    + rewrite list_lookup_insert_eq in He by (by eapply lookup_lt_Some). done.
    + rewrite list_lookup_insert_ne in He by done.
      rewrite Streams.of_doppler_app, Streams.of_doppler_one, decide_False, app_nil_r by done. by apply Hno.
  - by apply Streams.streams_step_Inv.
Qed.

Lemma consume_event_Inv g0 h0 r n ing s d p rest :
  is_Some (Health.gauges h0 !! Rlp.subscriptionCount) ->
  SystemInv g0 h0 r n ing s -> Streams.buffered (streams s) = (d, p) :: rest -> receiving (sub s) = true ->
  exists x, Rlp.server_step (sub s) (RxData p) = Returns x /\
    SystemInv g0 h0 r n ing (mkSystem (sites s) (Streams.step (streams s) Streams.RecvData) x).
Proof.
  intros Hg [Hl Hs Hno Hst Hsub Hreq Hrec] Hb Hrc.
  destruct (server_step_ok h0 (sub s) (RxData p) Hg Hsub) as (x & Ex & Hx).
  destruct (sub_received _ _ _ Ex) as [Er Erc]. rewrite Hrc in Erc.
  destruct (streams_recv (streams s) d p rest Hst Hb) as [E1 E2].
  exists x. split; [done|]. split; cbn [sites streams sub]; rewrite ?E1, ?E2; try done.
  - by apply Streams.streams_step_Inv.
  - by rewrite Er.
  - rewrite Erc, Hrec, Hreq, fmap_app, omap_app. simpl. by destruct (converted r p).
Qed.

(** No envelope is ingested by the other events. *)
Lemma same_ingested g0 h0 r n ing s ev :
  match ev with AtDoppler _ (Ingress _) => False | _ => True end -> SystemInv g0 h0 r n ing s ->
  SystemInv g0 h0 r n (fun d => ing d ++ ingested_at d [ev]) s.
Proof.
  intros Hev [Hl Hst Hno Hx Hsub Hreq Hrec]. split; try done. intros d st Hd.
  assert (ingested_at d [ev] = []) as -> by (by destruct ev as [? []| | | | | | |]). rewrite app_nil_r. by apply Hst.
Qed.

Lemma doppler_event_Inv g0 h0 r n ing s d e :
  legal_system_event (AtDoppler d e) -> SystemInv g0 h0 r n ing s ->
  exists s', system_step s (AtDoppler d e) = Returns s' /\
    SystemInv g0 h0 r n (fun d' => ing d' ++ ingested_at d' [AtDoppler d e]) s'.
Proof.
  intros (He & Hw & Ha) Hs. cbn [system_step]. destruct (sites s !! d) as [st|] eqn:Hd.
  - pose proof (sys_site _ _ _ _ _ _ Hs d st Hd) as Hst.
    destruct (node_step_Inv g0 (site_node st) e He (site_inv _ _ _ _ _ Hst)) as (n' & En & _ & _). rewrite En. cbn [obind].
    eexists. split; [done|]. eapply site_Inv; [done|done| |].
    + pose proof (site_step_ok _ _ _ _ _ _ _ He Hw Ha Hst En) as Hok. cbn beta.
      replace (ingested_at d [AtDoppler d e]) with (ingested [e]); [exact Hok|].
      destruct e; try done. cbn. by rewrite decide_True.
    + intros x Hx. cbn beta. destruct e as [env| | |]; cbn; try apply app_nil_r. rewrite decide_False by done. apply app_nil_r.
  - eexists. split; [done|]. destruct Hs as [Hl Hs Hno Hx Hsub Hreq Hrec]. split; try done. intros x st Hx'.
    assert (ingested_at x [AtDoppler d e] = []) as ->; [|rewrite app_nil_r; by apply Hs].
    destruct e as [env| | |]; try done. cbn. rewrite decide_False; [done|]. intros ->. congruence.
Qed.

Lemma connect_event_Inv g0 h0 r n ing s d :
  SystemInv g0 h0 r n ing s ->
  exists s', system_step s (Connect d) = Returns s' /\ SystemInv g0 h0 r n ing s'.
Proof.
  intros Hs. cbn [system_step]. destruct (sites s !! d) as [st|] eqn:Hd; [|eauto].
  pose proof (sys_site _ _ _ _ _ _ Hs d st Hd) as Hst. rewrite (sys_request _ _ _ _ _ _ Hs).
  destruct (node_step_Inv g0 (site_node st) (Grpc (Call (convertRequest r))) I (site_inv _ _ _ _ _ Hst)) as (n' & En & _ & _).
  rewrite En. cbn [obind]. eexists. split; [done|]. eapply site_Inv; [done|done| |done]. by apply site_connect_ok.
Qed.

Lemma sub_event_Inv g0 h0 r n ing s ev :
  is_Some (Health.gauges h0 !! Rlp.subscriptionCount) -> match ev with RxData _ => False | _ => True end ->
  SystemInv g0 h0 r n ing s ->
  exists x, Rlp.server_step (sub s) ev = Returns x /\ SystemInv g0 h0 r n ing (mkSystem (sites s) (streams s) x).
Proof.
  intros Hg Hev Hs. destruct (server_step_ok h0 (sub s) ev Hg (sys_sub _ _ _ _ _ _ Hs)) as (x & Ex & Hx). exists x.
  split; [done|]. destruct (sub_received _ _ _ Ex) as [Er Erc]. apply set_sub_Inv; try done.
  rewrite Erc. destruct ev; [|done|]; by rewrite app_nil_r.
Qed.

Lemma log_path_step g0 h0 r n ing s e :
  is_Some (Health.gauges h0 !! Rlp.subscriptionCount) -> legal_system_event e -> SystemInv g0 h0 r n ing s ->
  exists s', system_step s e = Returns s' /\ SystemInv g0 h0 r n (fun d => ing d ++ ingested_at d [e]) s'.
Proof.
  intros Hg He Hs. destruct e as [d e|d|d|d choose| | | |ok]; [by apply doppler_event_Inv|..];
    pose proof (fun s' => same_ingested g0 h0 r n ing s') as Hsame; cbn [system_step].
  - destruct (connect_event_Inv g0 h0 r n ing s d Hs) as (s' & Es & Hs'). exists s'. split; [exact Es|]. by apply Hsame.
  - destruct (sites s !! d) as [st|] eqn:Hd; [|eexists; split; [done|]; by apply Hsame].
    destruct (link st) as [[i k]|] eqn:Hlk; [|eexists; split; [done|]; by apply Hsame].
    destruct (node_calls (site_node st) !! i) as [c|] eqn:Hc; [|eexists; split; [done|]; by apply Hsame]. cbn [mbind option_bind].
    destruct (c_sent c !! k) as [p|] eqn:Hp; [|eexists; split; [done|]; by apply Hsame].
    destruct (Streams.pending (streams s) !! d) as [q|] eqn:Hpd; (eexists; split; [done|]); apply Hsame; try done.
    by eapply read_event_Inv.
  - eexists. split; [done|]. apply Hsame; [done|]. destruct (streams_keep (streams s) (Streams.Offer d choose) I) as [E1 E2].
    apply set_streams_Inv; try done. by apply Streams.streams_step_Inv, Hs.
  - eexists. split; [done|]. apply Hsame; [done|]. apply set_streams_Inv; try done. by apply Streams.streams_step_Inv, Hs.
  - destruct (Streams.buffered (streams s)) as [|[d p] rest] eqn:Eb; [eexists; split; [done|]; by apply Hsame|].
    destruct (receiving (sub s)) eqn:Er; [|eexists; split; [done|]; by apply Hsame].
    destruct (consume_event_Inv g0 h0 r n ing s d p rest Hg Hs Eb Er) as (x & -> & Hx).
    eexists. split; [done|]. by apply Hsame.
  - destruct (sub_event_Inv g0 h0 r n ing s RxError Hg I Hs) as (x & -> & Hx). eexists. split; [done|]. by apply Hsame.
  - destruct (sub_event_Inv g0 h0 r n ing s (SendNext ok) Hg I Hs) as (x & -> & Hx). eexists. split; [done|]. by apply Hsame.
Qed.

(** A subscription begins with nothing received or sent. *)
Lemma receiver_started h r (x : subscription (E := E)) : Receiver_start h r true = Returns x ->
  request x = r /\ received x = [] /\ Rlp.sent x = [].
Proof.
  unfold Receiver_start. destruct (Health.Inc _ _); [|done]. unfold finish. cbn [Rlp.health negb].
  destruct (invalid_request r); [|by intros [= <-]]. destruct (Health.Dec _ _); [|done]. by intros [= <-].
Qed.

Lemma system_start_Inv n ord c hd h r g0 s0 :
  is_Some (Health.gauges h !! Rlp.subscriptionCount) -> Health.gauges hd !! GrpcServer.subscriptionCount = Some g0 ->
  system_start n ord c hd h r = Returns s0 -> SystemInv g0 h r n (fun _ => []) s0.
Proof.
  intros Hg Hd Hs. unfold system_start in Hs.
  destruct (Receiver_start_ok (E := E) h r true Hg) as (x & Ex & Hx & _). rewrite Ex in Hs. cbn [obind] in Hs.
  injection Hs as <-.
  destruct (receiver_started _ _ _ Ex) as (Hr & Hc & _).
  split; cbn [sites streams sub]; try done; [by rewrite length_replicate| |by split; try done; apply Chan.make_wf].
  intros d st [-> _]%lookup_replicate. split; cbn [site_node before]; try done; [by apply doppler_start_Inv|constructor].
Qed.

Lemma log_path_events g0 h r n l :
  is_Some (Health.gauges h !! Rlp.subscriptionCount) -> Forall legal_system_event l ->
  forall s0 ing, SystemInv g0 h r n ing s0 -> exists s,
    ofold system_step l s0 = Returns s /\ SystemInv g0 h r n (fun d => ing d ++ ingested_at d l) s.
Proof.
  intros Hg. induction 1 as [|e l He Hl IH]; intros s0 ing H0.
  - exists s0. split; [done|]. destruct H0 as [Hl Hs Hno Hx Hsub Hreq Hrec]. split; try done.
    intros d st Hd'. rewrite app_nil_r. by apply Hs.
  - destruct (log_path_step g0 h r n ing s0 e Hg He H0) as (s1 & E1 & H1). simpl ofold. rewrite E1. cbn [obind].
    destruct (IH s1 _ H1) as (s & Es & Hs). exists s. split; [done|].
    destruct Hs as [Hl' Hs Hno Hx Hsub Hreq Hrec]. split; try done. intros d st Hd'. specialize (Hs d st Hd').
    rewrite <- app_assoc in Hs. unfold ingested_at in Hs |- *. by rewrite <- omap_app in Hs.
Qed.

Lemma log_path_run n ord c hd h r g0 l :
  is_Some (Health.gauges h !! Rlp.subscriptionCount) -> Health.gauges hd !! GrpcServer.subscriptionCount = Some g0 ->
  Forall legal_system_event l ->
  exists s0 s, system_start n ord c hd h r = Returns s0 /\ ofold system_step l s0 = Returns s /\
    SystemInv g0 h r n (fun d => ingested_at d l) s.
Proof.
  intros Hg Hd Hl. destruct (system_start n ord c hd h r) as [s0|why] eqn:E0.
  - destruct (log_path_events g0 h r n l Hg Hl s0 (fun _ => [])) as (s & Es & Hs); [by eapply system_start_Inv|].
    by exists s0, s.
  - unfold system_start in E0. destruct (Receiver_start_ok (E := E) h r true Hg) as (x & Ex & _). by rewrite Ex in E0.
Qed.

(** ** What the client receives *)

Lemma sublist_omap {X Y} (f : X -> option Y) l k : l `sublist_of` k -> omap f l `sublist_of` omap f k.
Proof.
  induction 1 as [|x l k Hl IH|x l k Hl IH]; [done|..]; cbn [omap list_omap]; destruct (f x); try done.
  - by constructor.
  - by constructor.
Qed.

Lemma sublist_filter {X} (P : X -> Prop) `{forall x, Decision (P x)} l k :
  l `sublist_of` k -> filter P l `sublist_of` filter P k.
Proof.
  induction 1 as [|x l k Hl IH|x l k Hl IH]; [done|..]; rewrite !filter_cons; case_decide; try done.
  - by constructor.
  - by constructor.
Qed.

Lemma sublist_of_fmap {X Y} (f : X -> Y) l k : l `sublist_of` f <$> k -> exists k', k' `sublist_of` k /\ f <$> k' = l.
Proof.
  revert l. induction k as [|x k IH]; intros l; cbn [fmap list_fmap].
  - intros ->%sublist_nil_r. by exists [].
  - intros [Hl|(l' & -> & Hl)]%sublist_cons_r.
    + destruct (IH l Hl) as (k' & Hk & <-). exists k'. split; [by constructor|done].
    + destruct (IH l' Hl) as (k' & Hk & <-). exists (x :: k'). split; [by constructor|done].
Qed.

(** The envelopes a doppler contributed. *)
Definition from_doppler (d : nat) (out : list (nat * E)) : list E := (filter (fun x => x.1 = d) out).*2.

(** The payloads received, with the dopplers they came from, as envelopes. *)
Definition tagged (r : EgressRequest) (l : list (nat * string)) : list (nat * E) :=
  omap (fun x => (fun e => (x.1, e)) <$> converted r x.2) l.

Lemma tagged_snd r l : (tagged r l).*2 = omap (converted r) l.*2.
Proof. induction l as [|[d p] l IH]; [done|]. cbn. unfold tagged in IH. destruct (converted r p); cbn; by rewrite ?IH. Qed.

Lemma tagged_from d r l : from_doppler d (tagged r l) = omap (converted r) (Streams.of_doppler d l).
Proof.
  unfold from_doppler, Streams.of_doppler. induction l as [|[e p] l IH]; [done|]. cbn [tagged omap list_omap]. unfold tagged in IH.
  rewrite (filter_cons _ (e, p)). cbn [fst snd]. destruct (converted r p) as [x|] eqn:Ep; cbn [fmap option_fmap option_map].
  - rewrite filter_cons. cbn [fst]. case_decide; cbn; rewrite ?Ep; by rewrite IH.
  - case_decide; cbn; rewrite ?Ep; by rewrite IH.
Qed.

(** The call [i] of a doppler has been read to its end and has lost nothing. *)
Definition lossless (st : Site) (i : nat) (c : call D) : Prop :=
  node_calls (site_node st) !! i = Some c /\ link st = Some (i, length (c_sent c)) /\ c_failed c = [] /\
  unread (c_diode c) = [] /\ c_missed c = 0.

Lemma lossless_offered c : call_ok c -> c_failed c = [] -> unread (c_diode c) = [] -> c_missed c = 0 -> c_sent c = c_offered c.
Proof.
  intros [Ho Hm _] Hf Hu Hz. rewrite Hf, Hu, app_nil_r in Ho, Hm. apply Streams.sublist_same_length; [done|].
  rewrite Hm, Hz. simpl. lia.
Qed.

(** The envelopes of a doppler, in a state with an attribution [out]. *)
Lemma attributed g0 h r n ing s out d :
  SystemInv g0 h r n ing s -> out `sublist_of` tagged r (Streams.received (streams s)) ->
  from_doppler d out `sublist_of` omap (converted r) (Streams.of_doppler d (Streams.read_ (streams s))).
Proof.
  intros Hs Hout. etrans; [apply fmap_sublist, sublist_filter, Hout|].
  fold (from_doppler d (tagged r (Streams.received (streams s)))). rewrite tagged_from. apply sublist_omap.
  etrans; [|apply (Streams.i_order _ (sys_streams _ _ _ _ _ _ Hs))]. by apply sublist_inserts_r.
Qed.

Lemma nothing_lost g0 h r n ing s d st i x :
  SystemInv g0 h r n ing s -> Streams.ctx_done (streams s) = false -> Streams.buffered (streams s) = [] ->
  sites s !! d = Some st -> Streams.pending (streams s) !! d = None -> lossless st i x ->
  exists b, before st !! i = Some b /\
    from_doppler d (tagged r (Streams.received (streams s))) = omap (converted r) (b ++ c_offered x).
Proof.
  intros Hs Hctx Hbuf Hd Hpd (Hx & Hlk & Hf & Hu & Hz). pose proof (sys_site _ _ _ _ _ _ Hs d st Hd) as Hok.
  pose proof (site_link _ _ _ _ _ Hok) as Hl. unfold link_ok in Hl. rewrite Hlk in Hl.
  destruct Hl as (x' & b & Hx' & Hb & _ & Hread & _). assert (x' = x) as -> by congruence.
  assert (call_ok x) as Hcx by (eapply Forall_lookup_1; [apply Hok|done]).
  exists b. split; [done|]. rewrite tagged_from, (Streams.all_received _ d (sys_streams _ _ _ _ _ _ Hs)) by done.
  by rewrite <- (lossless_offered x Hcx Hf Hu Hz), Hread, firstn_all.
Qed.


End System.

Module PathExample.

Definition path_draws : choices * router_choices := DopplerExample.draws.

Definition req : EgressRequest := mkEgressRequest EmptyString (Some (mkV2Filter "a" (Some Filter_Log))) false.

(** The subscription connects to the first of two dopplers, which routes two of three logs; the
    client is sent both. *)
Definition events : list system_event :=
  [Connect 0; AtDoppler 0 (Grpc (Next 0 None None)); AtDoppler 0 (Grpc (Next 0 None None));
   AtDoppler 0 (Ingress log_envelope); AtDoppler 0 (Ingress log_envelope); AtDoppler 0 (Route path_draws);
   AtDoppler 0 (Ingress log_envelope); AtDoppler 0 (Route path_draws); AtDoppler 0 (Grpc (Next 0 None None)); ReadStream 0;
   OfferStream 0 false; AtDoppler 0 (Grpc (Next 0 None None)); ReadStream 0; Consume; OfferStream 0 false; Consume;
   SendClient true; SendClient true].

Definition step : System (D := list string) (B := list V1.Envelope) (E := owned_envelope) -> system_event ->
    outcome System :=
  system_step Subscribe_example.bytes DopplerExample.app_of (fun _ => None) Manager_example.unresolved
    Manager_example.parse [] false 0 Manager_example.no_wrap.

Definition begin : outcome (System (D := list string) (B := list V1.Envelope) (E := owned_envelope)) :=
  system_start 2 default_order Subscribe_example.metrics Subscribe_example.gauges RlpExample.registrar req.

Example two_sent : exists s, obind begin (ofold step events) = Returns s /\ length (Rlp.sent (sub s)) = 2.
Proof. eexists. split; [vm_compute; reflexivity|]. vm_compute. done. Qed.

End PathExample.

