(* ===== verification/FullPath.v ===== *)
(** * From an application to a client: metron, doppler and the reverse log proxy

    The whole v2 path.  Each metron's transponder and client pool ([MetronEgress]) send batches
    over streams; a stream hands them, in order, to the ingress server of the doppler it leads
    to (grpcmanager/v2/ingress_server.go), which converts every envelope and puts it into the
    buffer of its message router; from there the path of [EndToEnd] leads to a client of the
    reverse log proxy.  All of them take their steps in any order. *)

From S2P Require Import Prelude Go Events Diode Router Conversion ConversionRoundTrip SinkManager SyslogWriter Blacklist.
From S2P Require Import StreamingSinks GroupedSinks MetricEmitter DopplerStreams WebsocketServer Rlp GrpcServer Doppler.
From S2P Require Import ClientPool MetronV2 MetronEgress EndToEnd.

#[local] Open Scope go_scope.

Abbreviation envelope := (V2.EnvelopeOf (gmap string string)).

(** ** The ingress server *)

Section Ingress.

Context (sprintf_f : float64 -> string) (Method_value PeerType_value : string -> Z) (ord : RangeOrder string).

Definition with_ref (e : envelope) (r : ref) : env2 :=
  V2.mkEnvelope (V2.Timestamp e) (V2.SourceId e) (V2.InstanceId e) (V2.DeprecatedTags e) r (V2.Message_ e).

(** A decoded envelope has a map of its own, or none when it has no tags. *)
Definition received_from_wire (e : envelope) : Heap * env2 :=
  if bool_decide (V2.Tags e = ∅) then (mkHeap ∅ 0, with_ref e None)
  else let '(h, i) := alloc (mkHeap ∅ 0) (V2.Tags e) in (h, with_ref e (Some i)).

Definition owned (h : Heap) (v : env1) : V1.Envelope :=
  V1.mkEnvelope (V1.Origin v) (V1.EventTypeF v) (V1.Timestamp v) (V1.Deployment v) (V1.Job v) (V1.Index v) (V1.Ip v)
    (read h (V1.Tags v)) (V1.HttpStartStopF v) (V1.LogMessageF v) (V1.ValueMetricF v) (V1.CounterEventF v) (V1.ErrorF v)
    (V1.ContainerMetricF v).

(** The envelopes the server sets on its buffer for one it receives. *)
Definition ingress_of (e : envelope) : list V1.Envelope :=
  let '(h, e) := received_from_wire e in
  let s := Ingress.receive sprintf_f Method_value PeerType_value ord (Ingress.mkServer h [] 0 0 0 true) e in
  owned (Ingress.heap s) <$> Ingress.envelopeBuffer s.

Definition typed (v : env1) : Prop := is_Some (V1.EventTypeF v).

#[export] Instance typed_dec v : Decision (typed v).
Proof. unfold typed. apply _. Defined.

Lemma set_all_v1 l : forall s,
  Ingress.envelopeBuffer (foldl Ingress.set_v1 s l) = Ingress.envelopeBuffer s ++ filter typed l /\
  Ingress.heap (foldl Ingress.set_v1 s l) = Ingress.heap s.
Proof.
  induction l as [|v l IH]; intros s; cbn [foldl]; [by rewrite app_nil_r|].
  destruct (IH (Ingress.set_v1 s v)) as [-> ->]. rewrite filter_cons. unfold Ingress.set_v1.
  case_decide as Ht; unfold typed in Ht; destruct (V1.EventTypeF v) as [t|] eqn:Et.
  - cbn. by rewrite <- app_assoc.
  - by destruct Ht.
  - by destruct Ht.
  - done.
Qed.

Lemma ingress_of_ToV1 e :
  ingress_of e =
    let '(h, e) := received_from_wire e in
    let '(h, l) := ToV1 sprintf_f Method_value PeerType_value ord h e in owned h <$> filter typed l.
Proof.
  unfold ingress_of, Ingress.receive. destruct (received_from_wire e) as [h e']. cbn [Ingress.heap].
  destruct (ToV1 sprintf_f Method_value PeerType_value ord h e') as [h' l].
  cbn [Ingress.heap Ingress.envelopeBuffer Ingress.totalReceived Ingress.ingress Ingress.streams Ingress.open_].
  destruct (set_all_v1 l (Ingress.mkServer h' [] 0 0 0 true)) as [-> ->]. done.
Qed.

(** What a conversion to v1 says of its application. *)
Definition names_app (source : string) (v : env1) : Prop :=
  match V1.EventTypeF v with
  | Some V1.Envelope_LogMessage => V1.LogMessageF v ≫= V1.lm_AppId = Some source
  | Some V1.Envelope_ContainerMetric => V1.ContainerMetricF v ≫= V1.cm_ApplicationId = Some source
  | _ => True
  end.

Lemma gauge_loop_apps (e : env2) metrics : forall h results, Forall (names_app (V2.SourceId e)) results ->
  Forall (names_app (V2.SourceId e)) (convertGauge_loop sprintf_f ord h e metrics results).2.
Proof.
  induction metrics as [|[key m] metrics IH]; intros h results Hr; cbn [convertGauge_loop]; [done|].
  destruct (createBaseV1 sprintf_f ord h e) as [h' v]. destruct m as [m|]; [|by constructor].
  apply IH, Forall_app. split; [done|]. by repeat constructor.
Qed.

Lemma ToV1_apps h (e : env2) :
  Forall (names_app (V2.SourceId e)) (ToV1 sprintf_f Method_value PeerType_value ord h e).2.
Proof.
  unfold ToV1. destruct (createBaseV1 sprintf_f ord h e) as [h' v].
  destruct (V2.Message_ e) as [[l|c|g|t]|]; [| | | |by constructor].
  - unfold convertLog, recoverError. destruct (decide _); by repeat constructor.
  - by repeat constructor.
  - unfold convertGauge. destruct (tryConvertContainerMetric sprintf_f ord h' e g) as [h2 [cm|]] eqn:E;
      [|by apply gauge_loop_apps].
    unfold tryConvertContainerMetric in E. destruct (createBaseV1 sprintf_f ord h' e) as [h3 v3].
    repeat case_bool_decide; simplify_eq/=. by repeat constructor.
  - by repeat constructor.
Qed.

(** ** Applications *)

(** [envelope_extensions.GetAppId]: a log message and a container metric carry the id of their
    application, other events have one of their own or belong to the system. *)
Class AppIds (GetAppId : V1.Envelope -> string) : Prop := {
  app_of_log v : V1.EventTypeF v = Some V1.Envelope_LogMessage -> GetAppId v = str (V1.LogMessageF v ≫= V1.lm_AppId);
  app_of_container v : V1.EventTypeF v = Some V1.Envelope_ContainerMetric ->
    GetAppId v = str (V1.ContainerMetricF v ≫= V1.cm_ApplicationId);
  app_of_other v t : V1.EventTypeF v = Some t -> t <> V1.Envelope_LogMessage -> t <> V1.Envelope_ContainerMetric ->
    GetAppId v <> EmptyString
}.

Lemma ingress_app GetAppId e v : AppIds GetAppId -> V2.SourceId e <> EmptyString -> v ∈ ingress_of e ->
  GetAppId v <> EmptyString.
Proof.
  intros Hl Hs Hv. rewrite ingress_of_ToV1 in Hv. destruct (received_from_wire e) as [h e'] eqn:Ew.
  assert (V2.SourceId e' = V2.SourceId e) as He.
  { unfold received_from_wire in Ew. case_bool_decide; by simplify_eq/=. }
  pose proof (ToV1_apps h e') as Ha. destruct (ToV1 sprintf_f Method_value PeerType_value ord h e') as [h' l].
  apply list_elem_of_fmap in Hv as (w & -> & [Ht Hw]%list_elem_of_filter). cbn [snd] in Ha.
  rewrite Forall_forall in Ha. specialize (Ha w Hw). unfold names_app in Ha. destruct Ht as [t Ht]. rewrite Ht in Ha.
  assert (V1.EventTypeF (owned h' w) = Some t) as Ho by done. rewrite He in Ha.
  destruct t; try (eapply app_of_other; [exact Ho|done|done]).
  - rewrite app_of_log by exact Ho. cbn. by rewrite Ha.
  - rewrite app_of_container by exact Ho. cbn. by rewrite Ha.
Qed.

(** ** Log messages *)

(** The type a deprecated tag claims an envelope had; the doppler believes it. *)
Definition v1_type_tag (e : envelope) : option string :=
  match V2.DeprecatedTags e !! "__v1_type"%string with Some (Some v) => value_text sprintf_f v | _ => None end.

(** A log of one of the two types, which does not say that it was an error. *)
Definition plain_log (e : envelope) : Prop :=
  v1_type_tag e <> Some "Error"%string /\
  exists l, V2.Message_ e = Some (V2.Envelope_Log l) /\ (V2.Type_ l = V2.Log_OUT \/ V2.Type_ l = V2.Log_ERR).

Lemma read_update h i f : read (update h i f) (Some i) = default ∅ (f <$> maps h !! i).
Proof. unfold read, update. cbn. by rewrite lookup_alter_eq. Qed.

Lemma read_deleted h i k : read (update h i (delete k)) (Some i) !! k = None.
Proof. rewrite read_update. destruct (maps h !! i); cbn; [apply lookup_delete_eq|apply lookup_empty]. Qed.

Lemma read_still_none h i f k :
  (forall m, m !! k = None -> f m !! k = None) -> read h (Some i) !! k = None -> read (update h i f) (Some i) !! k = None.
Proof.
  intros Hf. rewrite read_update. unfold read. cbn. destruct (maps h !! i); cbn; [apply Hf|by intros _].
Qed.

(** The base envelope has the timestamp, and its map has lost the type. *)
Lemma createBaseV1_base h (e : env2) :
  let '(h', v) := createBaseV1 sprintf_f ord h e in
  V1.Timestamp v = Some (V2.Timestamp e) /\ read h' (V2.Tags e) !! "__v1_type"%string = None.
Proof.
  unfold createBaseV1. destruct (convertTags sprintf_f ord h e) as [h1 i] eqn:Et. split; [done|].
  destruct (V2.Tags e) as [j|] eqn:Ej; [|apply lookup_empty].
  assert (i = j) as -> by (unfold convertTags in Et; rewrite Ej in Et; by simplify_eq).
  cbn [delete_keys foldl delete_key].
  assert (forall k m, m !! "__v1_type"%string = None -> delete k m !! "__v1_type"%string = (None : option string)) as Hd
    by (intros k m; rewrite lookup_delete_None; auto).
  destruct (Str.empty (V2.SourceId e)), (Str.empty (V2.InstanceId e));
    repeat first [apply read_deleted|apply read_still_none; [first [apply Hd|intros m Hm; by rewrite lookup_insert_ne]|]].
Qed.

Lemma messageType_same l : V2.Type_ l = V2.Log_OUT \/ V2.Type_ l = V2.Log_ERR ->
  convertLogMessageType (messageType l) = V2.Type_ l.
Proof. unfold messageType. by intros [-> | ->]. Qed.

(** A log becomes one log message. *)
Lemma ingress_of_log e : plain_log e -> exists v m,
  ingress_of e = [v] /\ V1.EventTypeF v = Some V1.Envelope_LogMessage /\ V1.Timestamp v = Some (V2.Timestamp e) /\
  V1.LogMessageF v = Some m /\ V1.lm_AppId m = Some (V2.SourceId e) /\ V1.lm_SourceInstance m = Some (V2.InstanceId e) /\
  V2.Message_ e = Some (V2.Envelope_Log (V2.mkLog (V1.lm_Message m) (convertLogMessageType (V1.GetMessageType m)))).
Proof.
  intros (Ht & [pl ty] & Hm & Hty). rewrite ingress_of_ToV1. destruct (received_from_wire e) as [h e'] eqn:Ew.
  assert (exists r, e' = with_ref e r) as [r ->].
  { unfold received_from_wire in Ew. case_bool_decide; simplify_eq/=; eauto. }
  unfold ToV1. pose proof (createBaseV1_base h (with_ref e r)) as Hb.
  destruct (createBaseV1 sprintf_f ord h (with_ref e r)) as [h' v]. destruct Hb as [Hts Hn].
  change (V2.Message_ (with_ref e r)) with (V2.Message_ e). rewrite Hm. unfold convertLog. rewrite decide_False.
  2:{ unfold getV2Tag. rewrite Hn. change (V2.DeprecatedTags (with_ref e r)) with (V2.DeprecatedTags e).
      unfold v1_type_tag in Ht. destruct (V2.DeprecatedTags e !! _) as [[d|]|]; [|done|done].
      destruct (value_text sprintf_f d); [|done]. intros Heq. apply Ht. cbn in Heq. by rewrite Heq. }
  eexists _, _. rewrite filter_cons, decide_True by (by eexists). rewrite filter_nil.
  split_and!; [reflexivity|done|exact Hts|reflexivity|done|done|]. cbn [V1.lm_Message V1.GetMessageType V1.lm_MessageType].
  cbn. by rewrite messageType_same.
Qed.

End Ingress.

(** ** The reverse log proxy *)

Section Proxy.

Context (Unmarshal : string -> result V1.Envelope) (Method_name PeerType_name : Z -> string) (ord : RangeOrder string).

#[local] Existing Instance envelopeConverter.
Abbreviation conv := (envelopeConverter Unmarshal Method_name PeerType_name ord).

(** What the converter makes of an envelope it can decode. *)
Lemma converted_fields r p v w : Unmarshal p = Ok v -> converted (conv := conv) r p = Some w ->
  V2.Timestamp w.2 = V1.GetTimestamp v /\
  V2.SourceId w.2 = v2_source (Rlp.with_tags v (Some 0)) (V1.Tags v) /\
  V2.InstanceId w.2 = v2_instance (Rlp.with_tags v (Some 0)) (V1.Tags v) /\
  V2.Message_ w.2 = v2_message (Rlp.with_tags v (Some 0)).
Proof.
  intros Hu. unfold converted, Convert, conv, envelopeConverter_Convert. rewrite Hu. cbn [alloc maps next_map].
  destruct (UsePreferredTags r).
  - pose proof (ToV2_preferred Method_name PeerType_name ord (mkHeap (<[0 := V1.Tags v]> ∅) 1) (Rlp.with_tags v (Some 0)) 0
      (V1.Tags v) eq_refl (lookup_insert_eq _ _ _)) as Hp. unfold toV2 in Hp. rewrite Hp. by intros [= <-].
  - rewrite ToV2_deprecated. intros [= <-]. cbn [snd v2_of V2.Timestamp V2.SourceId V2.InstanceId V2.Message_].
    assert (read (mkHeap (<[0 := V1.Tags v]> ∅) 1) (Some 0) = V1.Tags v) as ->; [|done].
    unfold read. cbn. by rewrite lookup_insert_eq.
Qed.

(** A log passes the doppler and the proxy unchanged. *)
Lemma log_unchanged sprintf_f Method_value PeerType_value r e v p w :
  V2.SourceId e <> EmptyString -> plain_log sprintf_f e -> v ∈ ingress_of sprintf_f Method_value PeerType_value ord e ->
  Unmarshal p = Ok v -> converted (conv := conv) r p = Some w ->
  V2.Timestamp w.2 = V2.Timestamp e /\ V2.SourceId w.2 = V2.SourceId e /\ V2.InstanceId w.2 = V2.InstanceId e /\
  V2.Message_ w.2 = V2.Message_ e.
Proof.
  intros Hs Hl Hv Hu Hw. destruct (ingress_of_log sprintf_f Method_value PeerType_value ord e Hl)
    as (v' & m & Ei & Ht & Hts & Hm & Ha & Hi & He). rewrite Ei in Hv. apply list_elem_of_singleton in Hv as ->.
  destruct (converted_fields r p v' w Hu Hw) as (-> & -> & -> & ->).
  assert (V1.GetEventType (Rlp.with_tags v' (Some 0)) = V1.Envelope_LogMessage) as Hg
    by (unfold V1.GetEventType; cbn; by rewrite Ht).
  unfold v2_source, v2_instance, v2_message. rewrite Hg. cbn [Rlp.with_tags V1.LogMessageF]. rewrite Hm. cbn [mbind option_bind].
  rewrite Ha, Hi. cbn [str]. split_and!; [unfold V1.GetTimestamp; by rewrite Hts|by apply nonempty_app|done|by rewrite He].
Qed.

End Proxy.

(** ** The metrons *)

Section Metron.

Context (sha1 : string -> string) (value_String : option V2.Value -> string) (ord : RangeOrder string).
Context (tags : gmap string string) (batchSize : Z) (maxWrites : nat -> Z).

Abbreviation metron_step := (egress_step sha1 value_String ord tags batchSize maxWrites).
Abbreviation MetronInv := (EgressInv sha1 value_String ord tags batchSize maxWrites).

(** The envelopes a metron has read. *)
Definition reads (s : Egress) : list envelope := omap next (turns s) ++ omap next (option_list (waiting s)).

(** The aggregator passes an envelope on, or replaces its counter by one of the same name. *)
Definition totalled (y x : envelope) : Prop :=
  x = y \/ exists c c', counter_of y = Some c /\ V2.c_Name c' = V2.c_Name c /\ x = with_counter y c'.

(** What a metron makes of an envelope it reads. *)
Definition relayed (a x : envelope) : Prop := totalled (MetronV2.tagged tags a) x.

Lemma totalled_in_Write l : forall totals x, x ∈ (CounterAggregator_Write sha1 value_String ord totals l).2 ->
  exists y, y ∈ l /\ totalled y x.
Proof.
  induction l as [|e l IH]; intros totals x; cbn [CounterAggregator_Write]; [set_solver|].
  destruct (aggregate sha1 value_String ord totals e) as [totals1 e1] eqn:Ea.
  destruct (CounterAggregator_Write sha1 value_String ord totals1 l) as [totals2 l'] eqn:Ew. cbn [snd].
  intros [->|Hx]%elem_of_cons.
  - exists e. split; [set_solver|]. unfold aggregate in Ea.
    destruct (counter_of e) as [c|] eqn:Ec; injection Ea as _ <-; [right; exists c; eexists; split_and!; [done| |reflexivity]; done|by left].
  - destruct (IH totals1 x) as (y & Hy & Ht); [by rewrite Ew|]. exists y. split; [set_solver|done].
Qed.

Lemma totalled_in_totals l : forall hist x, x ∈ totals_from sha1 value_String ord hist l -> exists y, y ∈ l /\ totalled y x.
Proof.
  induction l as [|e l IH]; intros hist x; cbn [totals_from]; [set_solver|].
  destruct (counter_of e) as [c|] eqn:Ec; intros [->|Hx]%elem_of_cons.
  - exists e. split; [set_solver|]. right. exists c. eexists. split_and!; [done| |reflexivity]. done.
  - destruct (IH _ _ Hx) as (y & Hy & Ht). exists y. split; [set_solver|done].
  - exists e. split; [set_solver|by left].
  - destruct (IH _ _ Hx) as (y & Hy & Ht). exists y. split; [set_solver|done].
Qed.

(** The envelopes a batch under way is made of. *)
Lemma turn_batch_from gc gs n s u b y :
  MetronInv gc gs n s -> turn_batch sha1 value_String ord tags batchSize (tx s) u = Some b -> y ∈ b ->
  exists a, a ∈ omap next (turns s) ++ option_list (next u) /\ relayed a y.
Proof.
  intros HI Hb Hy. unfold turn_batch in Hb. destruct (_ && _); [done|]. destruct (batchReady _ _ _); [|done].
  injection Hb as <-. apply totalled_in_Write in Hy as (z & Hz & Ht).
  destruct (turns_transponded sha1 value_String ord tags batchSize (turns s)) as [(d & Hd & _) _ _ _ _].
  rewrite <- (e_tx _ _ _ _ _ _ _ _ _ _ HI) in Hd.
  assert (z ∈ batch (tx s) -> exists a, a ∈ omap next (turns s) ++ option_list (next u) /\ relayed a y) as Hbatch.
  { intros Hin. assert (z ∈ MetronV2.tagged tags <$> omap next (turns s)) as (a & -> & Ha)%list_elem_of_fmap
      by (rewrite Hd; set_solver). exists a. split; [set_solver|done]. }
  destruct (next u) as [a|]; [|auto]. apply elem_of_app in Hz as [Hz|Hz]; [auto|].
  apply list_elem_of_singleton in Hz as ->. exists a. split; [set_solver|]. by rewrite addTags_tagged in Ht.
Qed.

(** A stream carries what the metron read. *)
Lemma transmitted_from gc gs n s b x :
  MetronInv gc gs n s -> b ∈ (transmitted (pool s)).*2 -> x ∈ b -> exists a, a ∈ reads s /\ relayed a x.
Proof.
  intros HI Hb Hx. pose proof HI as [Hp _ Htx Hpooled Hw]. rewrite (i_sent _ _ _ _ Hp) in Hb. apply elem_of_app in Hb as [Hb|Hb].
  - destruct (turns_transponded sha1 value_String ord tags batchSize (turns s)) as [(d & Hd & Hc & _) _ _ _ _].
    rewrite <- Htx, Hpooled in *.
    assert (x ∈ totals_from sha1 value_String ord [] d) as (y & Hy & Ht)%totalled_in_totals.
    { rewrite <- Hc. apply list_elem_of_In, in_concat. exists b.
      rewrite <- !list_elem_of_In. split; [|done]. unfold answers, accepted in *.
      apply list_elem_of_fmap in Hb as ([b' tried] & -> & Hb). apply list_elem_of_fmap in Hb as ([r ok] & E & Hb).
      apply list_elem_of_filter in Hb as [_ Hb]. cbn in E. subst r. rewrite <- list_fmap_compose.
      apply list_elem_of_fmap. by exists (b', tried, ok). }
    assert (y ∈ MetronV2.tagged tags <$> omap next (turns s)) as (a & -> & Ha)%list_elem_of_fmap by (rewrite Hd; set_solver).
    exists a. split; [unfold reads; set_solver|done].
  - unfold in_flight in Hb. destruct (calling (pool s)) as [k|] eqn:Hk; [|set_solver].
    destruct (waiting s) as [u|] eqn:Ew; [|done]. destruct Hw as (k' & Hk' & Hbt). assert (k' = k) as -> by congruence.
    assert (b = msgs k) as -> by (repeat case_match; set_solver).
    destruct (turn_batch_from _ _ _ _ _ _ _ HI Hbt Hx) as (a & Ha & Hr). exists a. split; [|done].
    unfold reads. rewrite Ew. cbn. by destruct (next u).
Qed.

(** Steps of a metron read at most the envelope of the event, and only add to its streams. *)
Definition read_by (e : egress_event) : list envelope :=
  match e with TxTurn u _ => option_list (next u) | _ => [] end.

Lemma on_manager_transmitted {A} (max : nat -> Z) i st (p p' : ClientPool A) :
  on_manager max i st p = Returns p' -> transmitted p' = transmitted p.
Proof.
  unfold on_manager. destruct (managers p !! i); [|done]. destruct (ofold _ _ _); [|done]. by intros [= <-].
Qed.

Lemma after_step_transmitted {A} k i (p : ClientPool A) : transmitted (after_step k i p) = transmitted p.
Proof. unfold after_step. by repeat case_match. Qed.

Lemma Write_turn_transmitted {A} (max : nat -> Z) err (p p' : ClientPool A) :
  Write_turn max err p = Returns p' -> transmitted p `prefix_of` transmitted p'.
Proof.
  unfold Write_turn. destruct (calling p) as [k|]; [|by intros [= <-]]. destruct (inside k) as [i|].
  - destruct (managers p !! i ≫= _) as [st|]; [|by intros [= <-]].
    assert (forall q s, on_manager max i s p = Returns q -> transmitted p `prefix_of` transmitted q) as Hq
      by (intros q s' ->%on_manager_transmitted; done).
    destruct st; [destruct (on_manager max i (WriteSend 0 err) p) as [q|] eqn:Eq|
      destruct (on_manager max i (WriteNext 0) p) as [q|] eqn:Eq..]; cbn [obind]; try done; intros [= <-];
      rewrite ?after_step_transmitted; [|by eapply Hq..].
    destruct err; cbn; [by eapply Hq|]. apply prefix_app_r. by eapply Hq.
  - case_bool_decide; [by intros [= <-]|]. destruct (pool_index _ _ _) as [i|]; cbn [obind]; [|done].
    destruct (on_manager max i (WriteLoad 0 (msgs k)) p) as [q|] eqn:Eq; cbn [obind]; [|done]. intros [= <-].
    rewrite after_step_transmitted. by rewrite (on_manager_transmitted _ _ _ _ _ Eq).
Qed.

Lemma metron_step_reads s e s' : metron_step s e = Returns s' ->
  reads s' ⊆ reads s ++ read_by e /\ transmitted (pool s) `prefix_of` transmitted (pool s').
Proof.
  destruct e as [u sd|err|i tick f]; cbn [egress_step read_by].
  - intros [= <-]. unfold reads. destruct (waiting s) as [w|] eqn:Ew; [rewrite Ew; by set_solver|].
    destruct (turn_batch _ _ _ _ _ _ _) as [b|]; cbn [turns waiting pool].
    + split; [cbn; destruct (next u); set_solver|]. unfold Write_begin. by destruct (calling (pool s)).
    + split; [|done]. rewrite omap_app. cbn. destruct (next u); set_solver.
  - destruct (Write_turn maxWrites err (pool s)) as [p|] eqn:Ep; cbn [obind]; [|done].
    apply Write_turn_transmitted in Ep. intros [= <-]. unfold reads.
    destruct (waiting s) as [u|] eqn:Ew; [|cbn; split; [set_solver|done]].
    destruct (calling p); cbn [turns waiting pool]; (split; [|done]); [set_solver|].
    rewrite omap_app. cbn. destruct (next u); set_solver.
  - unfold maintain_turn. case_bool_decide; cbn [obind]; [|by intros [= <-]; rewrite app_nil_r].
    destruct (on_manager _ _ _ _) as [p|] eqn:Ep; cbn [obind]; [|done]. apply on_manager_transmitted in Ep.
    intros [= <-]. cbn [pool]. rewrite Ep, app_nil_r. done.
Qed.

End Metron.

(** ** The whole path *)

Section Full.

Context {D : Type} {HD : Diode string D} {laws : DiodeLaws string D}.
Context {B : Type} {HB : Diode V1.Envelope B} {laws_B : DiodeLaws V1.Envelope B}.
(** The metrons: their tags, and the limits of their connections. *)
Context (sha1 : string -> string) (value_String : option V2.Value -> string) (ord : RangeOrder string).
Context (tags : nat -> gmap string string) (batchSize : Z) (maxWrites : nat -> nat -> Z).
(** The wire format, and the enumerations of sonde-go. *)
Context (sprintf_f : float64 -> string) (Method_name PeerType_name : Z -> string) (Method_value PeerType_value : string -> Z).
Context (marshal : V1.Envelope -> option string) (Unmarshal : string -> result V1.Envelope).
Context (decodes : forall v p, marshal v = Some p -> Unmarshal p = Ok v).
Context (GetAppId : V1.Envelope -> string) (apps : AppIds GetAppId).
(** The dopplers. *)
Context (parseIPv6 : string -> option (list Z)) (ResolveIPAddr : string -> result string)
  (url_Parse : string -> result URL) (blacklistIPs : list IPRange) (skipCertVerify : bool) (sinkIOTimeout : Z)
  (wrap_error : string -> string -> result V1.Envelope).
(** The doppler that a metron's connection, of one of its managers, leads to. *)
Context (target : nat * nat * nat -> nat).

Abbreviation conv := (envelopeConverter Unmarshal Method_name PeerType_name ord).
Abbreviation conv_total := (envelopeConverter_total Unmarshal Method_name PeerType_name ord).
Abbreviation system := (System (D := D) (B := B) (E := owned_envelope)).
Abbreviation dopplers_step := (system_step (D := D) (B := B) (E := owned_envelope) (conv := conv) marshal GetAppId parseIPv6
  ResolveIPAddr url_Parse blacklistIPs skipCertVerify sinkIOTimeout wrap_error).
Abbreviation DopplersInv := (SystemInv (D := D) (B := B) (E := owned_envelope) (conv := conv) marshal GetAppId).
Abbreviation ingress := (ingress_of sprintf_f Method_value PeerType_value ord).
Abbreviation step_of m := (egress_step sha1 value_String ord (tags m) batchSize (maxWrites m)).
Abbreviation InvOf m := (EgressInv sha1 value_String ord (tags m) batchSize (maxWrites m)).

(** [arrivals] are the v1 envelopes the ingress servers have set, with the connection over
    which each came. *)
Record Full : Type := mkFull {
  metrons : list Egress;
  arrivals : list (nat * nat * nat * V1.Envelope);
  dopplers : system
}.

Inductive full_event : Type :=
| AtMetron (m : nat) (e : egress_event)
| Arrive (m i c : nat)
| AtDopplers (e : system_event).

(** What connection [c] of manager [i] has carried, as the doppler will set it. *)
Definition carried (g : Egress) (i c : nat) : list V1.Envelope :=
  concat (filter (fun t => t.1 = (i, c)) (transmitted (pool g))).*2 ≫= ingress.

Definition of_connection (k : nat * nat * nat) (l : list (nat * nat * nat * V1.Envelope)) : list V1.Envelope :=
  (filter (fun x => x.1 = k) l).*2.

(** A connection hands its envelopes to the ingress server in order, one at a time. *)
Definition full_step (s : Full) (e : full_event) : outcome Full :=
  match e with
  | AtMetron m e =>
      match metrons s !! m with
      | None => Returns s
      | Some g => let! g := step_of m g e in Returns (mkFull (<[m := g]> (metrons s)) (arrivals s) (dopplers s))
      end
  | Arrive m i c =>
      match metrons s !! m ≫= fun g => carried g i c !! length (of_connection (m, i, c) (arrivals s)) with
      | None => Returns s
      | Some v =>
          let! d := dopplers_step (dopplers s) (AtDoppler (target (m, i, c)) (Ingress v)) in
          Returns (mkFull (metrons s) (arrivals s ++ [((m, i, c), v)]) d)
      end
  | AtDopplers e => let! d := dopplers_step (dopplers s) e in Returns (mkFull (metrons s) (arrivals s) d)
  end.

Definition full_start (nm nk n : nat) (hm hd h : Health.Registrar) (c : MetricEmitter.Client) (r : EgressRequest)
  : outcome Full :=
  let! d := system_start n ord c hd h r in Returns (mkFull (replicate nm (NewEgress nk hm)) [] d).

(** Applications have a source id; the dopplers' buffers are filled by the metrons only. *)
Definition legal_full (nk : nat) (e : full_event) : Prop :=
  match e with
  | AtMetron _ e => legal_egress nk e /\ Forall (fun a => V2.SourceId a <> EmptyString) (read_by e)
  | Arrive _ _ _ => True
  | AtDopplers e => match e with AtDoppler _ (Ingress _) => False | _ => legal_system_event GetAppId e end
  end.

(** What a doppler's ingress servers have set. *)
Definition arrived_at (d : nat) (l : list (nat * nat * nat * V1.Envelope)) : list V1.Envelope :=
  (filter (fun x => target x.1 = d) l).*2.

Record FullInv (gc gs g0 : Z) (nk n : nat) (h0 : Health.Registrar) (r : EgressRequest) (s : Full) : Prop := {
  full_metron m g : metrons s !! m = Some g ->
    InvOf m gc gs nk g /\ Forall (fun a => V2.SourceId a <> EmptyString) (reads g);
  full_arrivals m i c : of_connection (m, i, c) (arrivals s) `prefix_of`
    (match metrons s !! m with Some g => carried g i c | None => [] end);
  full_dopplers : DopplersInv g0 h0 r n (fun d => arrived_at d (arrivals s)) (dopplers s)
}.

Lemma DopplersInv_ext g0 h0 r n ing ing' s : (forall d, ing d = ing' d) -> DopplersInv g0 h0 r n ing s ->
  DopplersInv g0 h0 r n ing' s.
Proof. intros E [Hl Hs Hno Hx Hsub Hreq Hrec]. split; try done. intros d st Hd. rewrite <- E. by apply Hs. Qed.

Lemma prefix_bind {X Y} (f : X -> list Y) l k : l `prefix_of` k -> (l ≫= f) `prefix_of` (k ≫= f).
Proof. intros [t ->]. exists (t ≫= f). by rewrite bind_app. Qed.

Lemma carried_grows g g' i c : transmitted (pool g) `prefix_of` transmitted (pool g') -> carried g i c `prefix_of` carried g' i c.
Proof.
  intros [t E]. unfold carried. apply prefix_bind. rewrite E, filter_app, fmap_app, concat_app. by apply prefix_app_r.
Qed.

(** What a connection carries comes from an envelope with a source. *)
Lemma carried_from gc gs nk m g i c y :
  InvOf m gc gs nk g -> y ∈ carried g i c -> exists a x, a ∈ reads g /\ relayed (tags m) a x /\ y ∈ ingress x.
Proof.
  intros HI Hy. apply list_elem_of_bind in Hy as (x & Hy & Hx). apply list_elem_of_In, in_concat in Hx as (b & Hb & Hx).
  apply list_elem_of_In in Hb, Hx. apply list_elem_of_fmap in Hb as (t & -> & [_ Ht]%list_elem_of_filter).
  destruct (transmitted_from sha1 value_String ord (tags m) batchSize (maxWrites m) gc gs nk g t.2 x HI) as (a & Ha & Hr);
    [apply list_elem_of_fmap; eauto|done|]. by exists a, x.
Qed.

Lemma relayed_source t a x : relayed t a x -> V2.SourceId x = V2.SourceId a.
Proof. by intros [->|(c & c' & _ & _ & ->)]. Qed.

(** The metron leaves a log as it is, but for its tags. *)
Lemma log_relayed t f a x : relayed t a x -> plain_log f x ->
  V2.Timestamp x = V2.Timestamp a /\ V2.SourceId x = V2.SourceId a /\ V2.InstanceId x = V2.InstanceId a /\
  V2.Message_ x = V2.Message_ a.
Proof. intros [->|(c & c' & _ & _ & ->)] (_ & l & Hl & _); [done|discriminate]. Qed.

Lemma of_connection_snoc k l x :
  of_connection k (l ++ [x]) = of_connection k l ++ (if decide (x.1 = k) then [x.2] else []).
Proof. unfold of_connection. rewrite filter_app, fmap_app, filter_cons. by case_decide. Qed.

Lemma arrived_snoc d l x : arrived_at d (l ++ [x]) = arrived_at d l ++ (if decide (target x.1 = d) then [x.2] else []).
Proof. unfold arrived_at. rewrite filter_app, fmap_app, filter_cons. by case_decide. Qed.

Lemma metron_event_Inv gc gs g0 nk n h0 r s m e :
  legal_full nk (AtMetron m e) -> FullInv gc gs g0 nk n h0 r s ->
  exists s', full_step s (AtMetron m e) = Returns s' /\ FullInv gc gs g0 nk n h0 r s'.
Proof.
  intros [He Hsrc] HI. cbn [full_step]. destruct (metrons s !! m) as [g|] eqn:Hm; [|eauto].
  destruct HI as [Hg Ha Hd]. destruct (Hg m g Hm) as [Hi Hr].
  destruct (egress_step_Inv _ _ _ _ _ _ gc gs nk g e Hi He) as (g' & E & Hi'). rewrite E. cbn [obind].
  apply metron_step_reads in E as [Hreads Hpre]. eexists. split; [done|]. split; cbn [metrons arrivals dopplers].
  - intros m' x. rewrite list_lookup_insert_Some. intros [(<- & <- & _)|[_ Hx]]; [|by apply Hg].
    split; [done|]. apply Forall_forall. intros a [Hin|Hin]%Hreads%elem_of_app; [|by eapply Forall_forall in Hsrc].
    by eapply Forall_forall in Hr.
  - intros m' i c. etrans; [apply Ha|]. destruct (decide (m' = m)) as [->|Hne].
    + rewrite list_lookup_insert_eq, Hm by (by eapply lookup_lt_Some). by apply carried_grows.
    + by rewrite list_lookup_insert_ne.
  - done.
Qed.

Lemma arrive_event_Inv gc gs g0 nk n h0 r s m i c :
  is_Some (Health.gauges h0 !! Rlp.subscriptionCount) -> FullInv gc gs g0 nk n h0 r s ->
  exists s', full_step s (Arrive m i c) = Returns s' /\ FullInv gc gs g0 nk n h0 r s'.
Proof.
  intros Hh HI. cbn [full_step].
  destruct (metrons s !! m ≫= _) as [v|] eqn:Hv; [|eauto]. apply bind_Some in Hv as (g & Hm & Hv).
  pose proof HI as [Hg Ha Hd]. destruct (Hg m g Hm) as [Hi Hr].
  destruct (carried_from gc gs nk m g i c v Hi) as (a & x & Hin & Hx & Hvx); [by eapply list_elem_of_lookup_2|].
  destruct (log_path_step (E := owned_envelope) (conv := conv) (conv_total := conv_total) marshal GetAppId parseIPv6 ResolveIPAddr
    url_Parse blacklistIPs skipCertVerify sinkIOTimeout wrap_error g0 h0 r n (fun d => arrived_at d (arrivals s)) (dopplers s)
    (AtDoppler (target (m, i, c)) (Ingress v)) Hh) as (d & -> & Hd'); [|exact Hd|].
  { split_and!; [done|done|]. eapply ingress_app; [done| |done]. rewrite (relayed_source _ _ _ Hx).
    by eapply Forall_forall in Hr. }
  cbn [obind]. eexists. split; [done|]. split; cbn [metrons arrivals dopplers]; [done| |].
  - intros m' i' c'. rewrite of_connection_snoc. cbn [fst snd]. case_decide as Hk; [|by rewrite app_nil_r].
    injection Hk as <- <- <-. specialize (Ha m i c). rewrite Hm in *. destruct Ha as [t Et]. rewrite Et in Hv |- *.
    rewrite lookup_app_r, Nat.sub_diag in Hv by done. destruct t as [|y t]; [done|]. injection Hv as ->.
    exists t. by rewrite <- app_assoc.
  - eapply DopplersInv_ext; [|exact Hd']. intros d'. rewrite arrived_snoc. cbn. by case_decide.
Qed.

Lemma full_step_Inv gc gs g0 nk n h0 r s e :
  is_Some (Health.gauges h0 !! Rlp.subscriptionCount) -> legal_full nk e -> FullInv gc gs g0 nk n h0 r s ->
  exists s', full_step s e = Returns s' /\ FullInv gc gs g0 nk n h0 r s'.
Proof.
  intros Hh He HI. destruct e as [m e|m i c|e]; [by apply metron_event_Inv|by apply arrive_event_Inv|].
  destruct HI as [Hg Ha Hd]. cbn [full_step].
  destruct (log_path_step (E := owned_envelope) (conv := conv) (conv_total := conv_total) marshal GetAppId parseIPv6 ResolveIPAddr
    url_Parse blacklistIPs skipCertVerify sinkIOTimeout wrap_error g0 h0 r n (fun d => arrived_at d (arrivals s)) (dopplers s) e Hh) as (d & -> & Hd');
    [by destruct e as [? []| | | | | | |]|exact Hd|].
  cbn [obind]. eexists. split; [done|]. split; try done. eapply DopplersInv_ext; [|exact Hd'].
  intros d'. cbn beta. destruct e as [? []| | | | | | |]; try done; apply app_nil_r.
Qed.

Lemma full_start_Inv nm nk n hm hd h c r gc gs g0 s :
  is_Some (Health.gauges h !! Rlp.subscriptionCount) -> Health.gauges hd !! GrpcServer.subscriptionCount = Some g0 ->
  Health.gauges hm !! connectionsGauge = Some gc -> Health.gauges hm !! streamsGauge = Some gs ->
  full_start nm nk n hm hd h c r = Returns s -> FullInv gc gs g0 nk n h r s.
Proof.
  intros Hh Hd Hc Hs. unfold full_start.
  destruct (system_start n ord c hd h r) as [d|why] eqn:E; cbn [obind]; [|done]. intros [= <-].
  split; cbn [metrons arrivals dopplers].
  - intros m g [-> _]%lookup_replicate. split; [by apply NewEgress_Inv|by constructor].
  - intros m i k. apply prefix_nil.
  - eapply DopplersInv_ext; [|by eapply system_start_Inv]. done.
Qed.

Lemma full_run nm nk n hm hd h c r gc gs g0 l :
  is_Some (Health.gauges h !! Rlp.subscriptionCount) -> Health.gauges hd !! GrpcServer.subscriptionCount = Some g0 ->
  Health.gauges hm !! connectionsGauge = Some gc -> Health.gauges hm !! streamsGauge = Some gs ->
  Forall (legal_full nk) l ->
  exists s0 s, full_start nm nk n hm hd h c r = Returns s0 /\ ofold full_step l s0 = Returns s /\
    FullInv gc gs g0 nk n h r s.
Proof.
  intros Hh Hd Hc Hs Hl. destruct (full_start nm nk n hm hd h c r) as [s0|why] eqn:E.
  - exists s0. destruct (ofold_returns (FullInv gc gs g0 nk n h r) full_step l s0) as (s & Es & HI); [|by eapply full_start_Inv|eauto].
    intros s e HI He. rewrite Forall_forall in Hl. apply full_step_Inv; auto.
  - unfold full_start, system_start in E. destruct (Receiver_start_ok (E := owned_envelope) h r true Hh) as (x & Ex & _).
    by rewrite Ex in E.
Qed.

(** An envelope sent to the client, in a state with an attribution to the dopplers. *)
Lemma sent_from gc gs g0 nk n h r s (out : list (nat * owned_envelope)) w :
  FullInv gc gs g0 nk n h r s ->
  (forall d, from_doppler d out `sublist_of`
     omap (converted (conv := conv) r) (matching marshal GetAppId (convertRequest r) (arrived_at d (arrivals s)))) ->
  w ∈ out.*2 ->
  exists m g a x y p, metrons s !! m = Some g /\ a ∈ reads g /\ relayed (tags m) a x /\ y ∈ ingress x /\
    matches (GetAppId y) y (convertFilter (convertRequest r)) = true /\ marshal y = Some p /\
    converted (conv := conv) r p = Some w.
Proof.
  intros [Hg Ha _] Hout Hw. apply list_elem_of_fmap in Hw as ([d w'] & -> & Hw). cbn [snd].
  assert (w' ∈ from_doppler d out) as Hfrom.
  { apply list_elem_of_fmap. exists (d, w'). split; [done|]. by apply list_elem_of_filter. }
  assert (w' ∈ omap (converted (conv := conv) r) (matching marshal GetAppId (convertRequest r) (arrived_at d (arrivals s))))
    as (p & Hp & Hc)%list_elem_of_omap by (by eapply elem_of_submseteq, sublist_submseteq).
  apply list_elem_of_omap in Hp as (y & Hy & Hm). destruct (matches _ _ _) eqn:Em; [|done].
  apply list_elem_of_fmap in Hy as ([[[m i] c] y'] & -> & [_ Hy]%list_elem_of_filter). cbn [snd] in *.
  assert (y' ∈ of_connection (m, i, c) (arrivals s)) as Hin.
  { apply list_elem_of_fmap. exists ((m, i, c), y'). split; [done|]. by apply list_elem_of_filter. }
  destruct (Ha m i c) as [t Et]. destruct (metrons s !! m) as [g|] eqn:Hmg; 
    [|symmetry in Et; apply app_eq_nil in Et as [E0 _]; rewrite E0 in Hin; by apply not_elem_of_nil in Hin].
  destruct (carried_from gc gs nk m g i c y' (proj1 (Hg m g Hmg))) as (a & x & Har & Hr & Hyx); [rewrite Et; apply elem_of_app; by left|].
  by exists m, g, a, x, y', p.
Qed.

(** The envelopes of each doppler are what the request asks for of what arrived there. *)
Lemma attribution gc gs g0 nk n h r s : FullInv gc gs g0 nk n h r s ->
  exists out, out.*2 = Rlp.sent (sub (dopplers s)) /\ forall d, from_doppler d out `sublist_of`
    omap (converted (conv := conv) r) (matching marshal GetAppId (convertRequest r) (arrived_at d (arrivals s))).
Proof.
  intros [_ _ Hd]. pose proof Hd as [Hn Hst Hno _ Hsub _ Hrec].
  destruct (sublist_of_fmap snd (Rlp.sent (sub (dopplers s))) (EndToEnd.tagged (conv := conv) r (Streams.received (streams (dopplers s)))))
    as (out & Hout & Ho).
  { rewrite tagged_snd, <- Hrec. etrans; [|apply (Rlp.ok_order _ _ Hsub)]. by apply sublist_inserts_r. }
  exists out. split; [done|]. intros d. pose proof (attributed _ _ _ _ _ _ _ _ out d Hd Hout) as Hfrom.
  destruct (sites (dopplers s) !! d) as [st|] eqn:Hs.
  - etrans; [exact Hfrom|]. apply sublist_omap. pose proof (Hst d st Hs) as Hok.
    etrans; [by eapply link_sublist|]. apply sublist_omap. destruct Hok as [[[Ht _] _ _ _] <- _ _ _ _].
    etrans; [|exact Ht]. by apply sublist_inserts_r.
  - rewrite (Hno d Hs) in Hfrom. apply sublist_nil_r in Hfrom as ->. apply sublist_nil_l.
Qed.


End Full.

(** ** Example: a log travels from an application to a client *)

Module FullExample.

Definition app_id (v : V1.Envelope) : string :=
  match V1.EventTypeF v with
  | Some V1.Envelope_LogMessage => str (V1.LogMessageF v ≫= V1.lm_AppId)
  | Some V1.Envelope_ContainerMetric => str (V1.ContainerMetricF v ≫= V1.cm_ApplicationId)
  | _ => "system"
  end.

#[export] Instance app_id_laws : AppIds app_id.
Proof.
  split; unfold app_id.
  - by intros v ->.
  - by intros v ->.
  - intros v t ->. by destruct t.
Qed.

Definition no_float (f : float64) : string := EmptyString.

(** A log of application [a]. *)
Definition log : envelope :=
  V2.mkEnvelope 7 "a" "3" ∅ {["color"%string := "red"%string]} (Some (V2.Envelope_Log (V2.mkLog "hello" V2.Log_ERR))).

(** What the doppler makes of it, and a wire format for that. *)
Definition at_doppler : list V1.Envelope :=
  ingress_of no_float number_value number_value default_order
    (MetronV2.tagged {["deployment"%string := "cf"%string]} log).

Definition encode (v : V1.Envelope) : option string :=
  if bool_decide (head at_doppler = Some v) then Some "bytes"%string else None.

Definition decode (p : string) : result V1.Envelope :=
  match head at_doppler with Some v => Ok v | None => Err "proto: illegal wireType" end.

Lemma wire_round_trip v p : encode v = Some p -> decode p = Ok v.
Proof. unfold encode, decode. case_bool_decide as H; [|done]. by rewrite H. Qed.

Definition target (k : nat * nat * nat) : nat := 0.

Definition path_step : Full (D := list string) (B := list V1.Envelope) -> full_event -> outcome Full :=
  full_step (fun s => s) (fun _ => EmptyString) default_order (fun _ => {["deployment"%string := "cf"%string]}) 1
    (fun _ _ => 100%Z) no_float number_name number_name number_value number_value encode decode app_id (fun _ => None)
    Manager_example.unresolved Manager_example.parse [] false 0 Manager_example.no_wrap target.

Definition begin : outcome (Full (D := list string) (B := list V1.Envelope)) :=
  full_start default_order 1 1 1 EgressExample.gauges Subscribe_example.gauges RlpExample.registrar
    Subscribe_example.metrics PathExample.req.

Definition events : list full_event :=
  (AtMetron 0 <$> EgressExample.connect 0) ++
  [AtMetron 0 (TxTurn (mkTurn (Some log) false false false) 0);
   AtMetron 0 (PoolStep None); AtMetron 0 (PoolStep None)] ++
  (AtDopplers <$> [Connect 0; AtDoppler 0 (Grpc (Next 0 None None)); AtDoppler 0 (Grpc (Next 0 None None))]) ++
  [Arrive 0 0 0] ++
  (AtDopplers <$> [AtDoppler 0 (Route PathExample.path_draws); AtDoppler 0 (Grpc (Next 0 None None)); ReadStream 0;
     OfferStream 0 false; Consume; SendClient true]).

Example log_sent :
  obind (obind begin (ofold path_step events)) (fun s => Returns ((fun w => (V2.SourceId w.2, V2.Message_ w.2)) <$>
    Rlp.sent (sub (dopplers s)))) = Returns [(V2.SourceId log, V2.Message_ log)].
Proof. vm_compute. reflexivity. Qed.

End FullExample.

