(* ===== verification/Process.v ===== *)
(** * Processes: how doppler, metron and the binder are put together

    The main functions run once, start goroutines and then wait.  A process is a computation
    that records what it did (listening sockets, registered gauges, goroutines, store
    connections) and may end early by [log.Fatal] or a panic; what the operating system and
    the third-party packages answer is an environment with laws.  [healthendpoint.New] and
    [StartServer], profiler/server.go, grpc_listener.go, the main functions of doppler and the
    drain binder. *)

From S2P Require Import Prelude Go Events Http DrainBinder Tls MetricEmitter Finder Config.

Local Open Scope Z_scope.

(** ** The monad of processes *)

Inductive halt : Type := Fatal (msg : string) | Panic (msg : string).

Record GaugeOpts : Type := mkGaugeOpts { Namespace : string; Subsystem : string; Name : string; Help : string }.

(** [etcdstoreadapter.ETCDOptions]; without TLS the files are not set. *)
Record ETCDOptions : Type := mkETCDOptions {
  ClusterUrls : list string; IsSSL : bool; opt_CertFile : string; opt_KeyFile : string; opt_CAFile : string }.

(** The goroutines that [go] statements of the processes start. *)
Inductive routine : Type :=
| ServeHealth (addr : string)
| DopplerStart (disableSyslogDrains : bool) (store : option ETCDOptions)
| ServeGRPC
| WatchDrains (store : option ETCDOptions)
| ListenUDP (host : string)
| ForwardUDP
| VerifySignatures
| RunSinkManager
| RouteMessages
| ServeWebsockets
| MonitorUptime
| MonitorFiles
| ServeProfiler (port : Z)
| MetronV1App
| MetronV2App
| ServeProxy (addr : string) (accessLog : bool).

Inductive effect : Type :=
| Bound (network addr : string)
| Registered (g : GaugeOpts)
| Connected (store : ETCDOptions)
| Announced (call : store_call)
| Spawned (r : routine).

Definition proc (A : Type) : Type := list effect -> list effect * (halt + A).

#[global] Instance proc_ret : MRet proc := fun _ a tr => (tr, inr a).
#[global] Instance proc_bind : MBind proc := fun _ _ f m tr =>
  match m tr with
  | (tr, inl h) => (tr, inl h)
  | (tr, inr a) => f a tr
  end.

#[global] Instance proc_fmap : FMap proc := fun _ _ f m => m ≫= fun a => mret (f a).

Definition stop {A} (h : halt) : proc A := fun tr => (tr, inl h).
Definition emit (e : effect) : proc unit := fun tr => (tr ++ [e], inr tt).
Definition go (r : routine) : proc unit := emit (Spawned r).

(** [if err != nil { log.Fatalf(...) }] and the like. *)
Definition check {A} (r : result A) (onError : string -> halt) : proc A :=
  match r with Ok a => mret a | Err err => stop (onError err) end.

Definition succeed (err : option string) (onError : string -> halt) : proc unit :=
  match err with None => mret tt | Some err => stop (onError err) end.

Definition may_panic {A} (o : outcome A) : proc A :=
  match o with Returns a => mret a | Panics why => stop (Panic why) end.

(** ** The environment *)

(** A name of letters only is a valid metric name. *)
Definition letter (c : Ascii.ascii) : bool :=
  let n := Ascii.N_of_ascii c in bool_decide (65 <= n <= 90)%N || bool_decide (97 <= n <= 122)%N.

Definition letters (s : string) : bool := negb (Str.empty s) && forallb letter (String.list_ascii_of_string s).

Definition valid_opts (g : GaugeOpts) : bool := letters (Namespace g) && letters (Subsystem g) && letters (Name g).

Class Environment (Cert CAs : Type) : Type := {
  LoadX509KeyPair : string -> string -> result Cert;
  ReadFile : string -> result string;
  AppendCertsFromPEM : string -> option CAs;
  ParseAndVerify : Cert -> CAs -> option string;
  net_Listen : string -> string -> option string;
  grpc_Dial : string -> option string;
  dropsonde_Initialize : string -> string -> option string;
  NewWorkPool : Z -> option string;
  etcd_New : ETCDOptions -> option string;
  etcd_Connect : ETCDOptions -> option string;
  Register : list GaugeOpts -> GaugeOpts -> option string;
  MaintainNode : ttlNode -> option string;
  json_Marshal : DopplerMeta -> result string;
  ParseIPv6 : string -> option (list Z);
  ParseDuration : string -> result Z;
  doppler_Unmarshal : string -> Doppler.Config -> result Doppler.Config;
  controller_Decode : string -> TrafficController.Config -> result TrafficController.Config;
  metron_Decode : string -> Metron.Config -> result Metron.Config;
  binder_Decode : string -> Binder.Config -> result Binder.Config
}.

(** What the packages document: a work pool needs at least one worker, and a registry refuses
    a collector only when its name is malformed or already taken. *)
Class EnvironmentLaws (Cert CAs : Type) `{Environment Cert CAs} : Prop := {
  NewWorkPool_positive n : 1 <= n -> NewWorkPool n = None;
  Register_distinct l g : valid_opts g = true ->
    (forall g', g' ∈ l -> Namespace g' = Namespace g /\ Subsystem g' = Subsystem g /\ Name g' <> Name g) ->
    Register l g = None
}.

Section Processes.

Context {Cert CAs : Type} `{Environment Cert CAs}.

Definition listen (network addr : string) (onError : string -> halt) : proc unit :=
  succeed (net_Listen network addr) onError;; emit (Bound network addr).

(** ** healthendpoint *)

(** The gauges that have been registered so far. *)
Definition registered (tr : list effect) : list GaugeOpts :=
  omap (fun e => match e with Registered g => Some g | _ => None end) tr.

(** [MustRegister] of the process's only registry. *)
Definition MustRegister (g : GaugeOpts) : proc unit := fun tr =>
  match Register (registered tr) g with
  | Some err => (tr, inl (Panic err))
  | None => (tr ++ [Registered g], inr tt)
  end.

Fixpoint register_all (l : list (string * GaugeOpts)) : proc unit :=
  match l with
  | [] => mret tt
  | (_, c) :: l => MustRegister c;; register_all l
  end.

Definition health_New (ord : RangeOrder string) (gauges : gmap string GaugeOpts) : proc Health.Registrar :=
  register_all (range_map ord gauges);;
  mret (Health.mkRegistrar ((fun _ => 0) <$> gauges)).

Definition StartServer (addr : string) : proc unit :=
  listen "tcp" addr (fun err => Fatal ("Unable to setup Health endpoint (" +:+ addr +:+ "): " +:+ err));;
  go (ServeHealth addr).

(** ** The TLS credentials of the processes *)

Definition NewClientCredentials (certFile keyFile caCertFile serverName : string) : result (Tls.Config (Cert := Cert) (Pool := CAs)) :=
  NewClientMutualTLSConfig LoadX509KeyPair ReadFile AppendCertsFromPEM ParseAndVerify certFile keyFile caCertFile serverName.

Definition NewServerCredentials (certFile keyFile caCertFile : string) (opts : list (ConfigOption (Cert := Cert) (Pool := CAs)))
  : outcome (result (Tls.Config (Cert := Cert) (Pool := CAs))) :=
  NewServerMutualTLSConfig LoadX509KeyPair ReadFile AppendCertsFromPEM ParseAndVerify certFile keyFile caCertFile opts.

(** [if len(suites) > 0 { opts = append(opts, WithCipherSuites(suites)) }] *)
Definition cipher_options (suites : list string) : list (ConfigOption (Cert := Cert) (Pool := CAs)) :=
  if bool_decide (0 < Z.of_nat (length suites)) then [WithCipherSuites suites] else [].

Definition grpc_credentials (g : GRPC) (serverName : string) : result (Tls.Config (Cert := Cert) (Pool := CAs)) :=
  NewClientCredentials (CertFile g) (KeyFile g) (CAFile g) serverName.

(** ** etcd *)

Definition etcd_options (urls : list string) (requireTLS : bool) (t : EtcdTLSClientConfig) : ETCDOptions :=
  if requireTLS then mkETCDOptions urls true (etcd_CertFile t) (etcd_KeyFile t) (etcd_CAFile t)
  else mkETCDOptions urls false EmptyString EmptyString EmptyString.

Definition etcd_adapter (workers : Z) (options : ETCDOptions) : proc ETCDOptions :=
  succeed (NewWorkPool workers) Panic;;
  succeed (etcd_New options) Panic;;
  mret options.

(** ** profiler/server.go *)

Definition Profiler_Start (port : Z) : proc unit :=
  listen "tcp" ("localhost:" +:+ Strconv.Itoa port) (fun err => Panic ("Error creating pprof listener: " +:+ err)).

(** ** listeners/grpc_listener.go *)

(** The services registered on the server are those of [GrpcServer], [Router] and [MetronV2]. *)
Definition NewGRPCListener (conf : GRPC) : proc (result unit) :=
  r ← may_panic (NewServerCredentials (CertFile conf) (KeyFile conf) (CAFile conf) (cipher_options (CipherSuites conf)));
  match r with
  | Err err => mret (Err err)
  | Ok _ =>
      match net_Listen "tcp" (":" +:+ Strconv.Itoa (Port conf)) with
      | Some err => mret (Err err)
      | None => emit (Bound "tcp" (":" +:+ Strconv.Itoa (Port conf)));; mret (Ok tt)
      end
  end.

(** ** doppler/main.go *)

Definition dopplerOrigin : string := "DopplerServer".

Definition gauge_opts (subsystem name help : string) : string * GaugeOpts :=
  (name, mkGaugeOpts "loggregator" subsystem name help).

Definition doppler_gauges : gmap string GaugeOpts := list_to_map
  [gauge_opts "doppler" "ingressStreamCount" "Number of open ingress streams";
   gauge_opts "doppler" "subscriptionCount" "Number of open subscriptions";
   gauge_opts "doppler" "recentLogCacheCount" "Number of recent log caches";
   gauge_opts "doppler" "containerMetricCacheCount" "Number of container metric caches"].

Definition setupMetricsEmitter (conf : Doppler.Config) : proc unit :=
  check (grpc_credentials (Doppler.GRPC_ conf) "metron")
    (fun err => Fatal ("Could not use GRPC creds for server: " +:+ err));;
  succeed (grpc_Dial (GRPCAddress (Doppler.MetronConfig_ conf)))
    (fun err => Fatal ("Could not configure metric emitter: " +:+ err)).

Definition doppler_etcd (conf : Doppler.Config) : ETCDOptions :=
  etcd_options (Doppler.EtcdUrls conf) (Doppler.EtcdRequireTLS conf) (Doppler.EtcdTLSClientConfig_ conf).

Definition connectToEtcd (conf : Doppler.Config) : proc ETCDOptions :=
  options ← etcd_adapter (Doppler.EtcdMaxConcurrentRequests conf) (doppler_etcd conf);
  succeed (etcd_Connect options) Panic;;
  emit (Connected options);;
  mret options.

(** The goroutine [start]: [WatchDrains] is the call of [appStoreWatcher.Run]. *)
Definition doppler_start (udpHost : string) (store : option ETCDOptions) (disableSyslogDrains : bool) : proc unit :=
  go ServeGRPC;;
  (if disableSyslogDrains then mret tt else go (WatchDrains store));;
  go (ListenUDP udpHost);;
  go ForwardUDP;;
  go VerifySignatures;;
  go RunSinkManager;;
  go RouteMessages;;
  go ServeWebsockets;;
  go MonitorUptime;;
  go MonitorFiles.

Definition HeartbeatInterval : Z := 10 * 1000000000.

Definition announce_config (conf : Doppler.Config) : AnnounceConfig :=
  mkAnnounceConfig (Doppler.Zone conf) (Doppler.JobName conf) (Doppler.Index conf) (Doppler.IncomingUDPPort conf)
    (Doppler.OutgoingPort conf).

Fixpoint announced (l : list store_call) : proc unit :=
  match l with [] => mret tt | c :: l => emit (Announced c);; announced l end.

(** The announcement needs the adapter: a nil one panics. *)
Definition announce (conf : Doppler.Config) (store : option ETCDOptions) : proc unit :=
  match store with
  | None => stop (Panic "invalid memory address or nil pointer dereference")
  | Some _ =>
      a ← may_panic (Announce json_Marshal MaintainNode (Doppler.IP conf) HeartbeatInterval (announce_config conf));
      announced a;;
      b ← may_panic (AnnounceLegacy MaintainNode (Doppler.IP conf) HeartbeatInterval (announce_config conf));
      announced b
  end.

(** A doppler that waits for the signal to end. *)
Record running_doppler : Type := mkRunning {
  r_conf : Doppler.Config; r_health : Health.Registrar; r_store : option ETCDOptions }.

Definition doppler_main (ord : RangeOrder string) (configFile : string) : proc running_doppler :=
  conf ← check (ParseConfig ReadFile (Doppler.Parse ParseIPv6 doppler_Unmarshal) configFile)
    (fun err => Fatal ("Unable to parse config: " +:+ err));
  succeed (dropsonde_Initialize (UDPAddress (Doppler.MetronConfig_ conf)) dopplerOrigin) Fatal;;
  setupMetricsEmitter conf;;
  StartServer (Doppler.HealthAddr conf);;
  healthRegistrar ← health_New ord doppler_gauges;
  storeAdapter ← (if negb (Doppler.DisableAnnounce conf) || negb (Doppler.DisableSyslogDrains conf)
                  then Some <$> connectToEtcd conf else mret None);
  grpcListener ← NewGRPCListener (Doppler.GRPC_ conf);
  check grpcListener (fun err => Panic ("Failed to create grpcListener: " +:+ err));;
  listen "tcp" (Doppler.WebsocketHost conf +:+ ":" +:+ Strconv.Itoa (Doppler.OutgoingPort conf))
    (fun err => Panic ("Failed to create the websocket server: " +:+ err));;
  go (DopplerStart (Doppler.DisableSyslogDrains conf) storeAdapter);;
  (if Doppler.DisableAnnounce conf then mret tt else announce conf storeAdapter);;
  go (ServeProfiler (Doppler.PPROFPort conf));;
  mret (mkRunning conf healthRegistrar storeAdapter).

End Processes.

(** ** Running processes *)

Lemma bind_run {A B} (m : proc A) (f : A -> proc B) tr :
  (m ≫= f) tr = match m tr with (tr, inl h) => (tr, inl h) | (tr, inr a) => f a tr end.
Proof. reflexivity. Qed.

Lemma check_run {A B} (r : result A) h (f : A -> proc B) tr :
  (check r h ≫= f) tr = match r with Ok a => f a tr | Err err => (tr, inl (h err)) end.
Proof. by destruct r. Qed.

Lemma succeed_run {B} e h (f : unit -> proc B) tr :
  (succeed e h ≫= f) tr = match e with None => f tt tr | Some err => (tr, inl (h err)) end.
Proof. by destruct e. Qed.

Lemma emit_run {B} e (f : unit -> proc B) tr : (emit e ≫= f) tr = f tt (tr ++ [e]).
Proof. reflexivity. Qed.

Lemma bind_assoc_run {A B C} (m : proc A) (f : A -> proc B) (g : B -> proc C) tr :
  ((m ≫= f) ≫= g) tr = (m ≫= fun a => f a ≫= g) tr.
Proof. rewrite !bind_run. destruct (m tr) as [tr' [h|a]]; reflexivity. Qed.

Lemma mret_run {A B} (a : A) (f : A -> proc B) tr : (mret a ≫= f) tr = f a tr.
Proof. reflexivity. Qed.

Lemma announced_run {B} l (f : unit -> proc B) tr : (announced l ≫= f) tr = f tt (tr ++ (Announced <$> l)).
Proof.
  revert tr. induction l as [|c l IH]; intros tr; cbn [announced fmap list_fmap].
  - rewrite mret_run. by rewrite app_nil_r.
  - by rewrite bind_assoc_run, emit_run, IH, <- app_assoc.
Qed.

(** The first of the checks of a process that fails. *)
Definition first_failure (l : list (option halt)) : option halt := head (omap id l).

Definition error_of {A} (r : result A) : option string := match r with Ok _ => None | Err err => Some err end.

Section Laws.

Context {Cert CAs : Type} `{EnvironmentLaws Cert CAs}.

(** Gauges of one subsystem under their own names. *)
Definition wf_gauges (subsystem : string) (gs : gmap string GaugeOpts) : Prop :=
  map_Forall (fun k g => Namespace g = "loggregator"%string /\ Subsystem g = subsystem /\ Name g = k
    /\ valid_opts g = true) gs.

Lemma registered_snoc tr g : registered (tr ++ [Registered g]) = registered tr ++ [g].
Proof. unfold registered. by rewrite omap_app. Qed.

Lemma register_all_run subsystem (l : list (string * GaugeOpts)) tr :
  Forall (fun p => Namespace p.2 = "loggregator"%string /\ Subsystem p.2 = subsystem /\ Name p.2 = p.1
    /\ valid_opts p.2 = true) l ->
  NoDup l.*1 ->
  (forall g, g ∈ registered tr -> Namespace g = "loggregator"%string /\ Subsystem g = subsystem /\ Name g ∉ l.*1) ->
  register_all l tr = (tr ++ (Registered <$> l.*2), inr tt).
Proof.
  intros Hl Hnd. revert tr. induction Hl as [|[k g] l (Hn & Hs & Hk & Hv) Hl IH]; intros tr Htr.
  - cbn [register_all fmap list_fmap]. by rewrite app_nil_r.
  - cbn [register_all fmap list_fmap fst snd] in *. apply NoDup_cons in Hnd as [Hk' Hnd].
    rewrite bind_run. unfold MustRegister. rewrite Register_distinct; [|done|].
    + rewrite IH, <- app_assoc; [done..|]. rewrite registered_snoc.
      intros g' [Hg'|Hg']%elem_of_app.
      * destruct (Htr g' Hg') as (? & ? & Hnot). split_and!; [done..|]. set_solver.
      * apply list_elem_of_singleton in Hg' as ->. by rewrite Hk.
    + intros g' Hg'. destruct (Htr g' Hg') as (? & ? & Hnot). split_and!; [congruence..|]. set_solver.
Qed.

(** The gauges of a process are registered without a panic, and the registrar has them all. *)
Lemma health_New_run {B} ord subsystem gs (f : Health.Registrar -> proc B) tr :
  wf_gauges subsystem gs -> registered tr = [] ->
  (health_New ord gs ≫= f) tr =
    f (Health.mkRegistrar ((fun _ => 0) <$> gs)) (tr ++ (Registered <$> (range_map ord gs).*2)).
Proof.
  intros Hwf Htr. unfold health_New. rewrite bind_assoc_run, bind_run.
  rewrite (register_all_run subsystem); [reflexivity| |apply range_keys_NoDup|rewrite Htr; set_solver].
  apply Forall_forall. intros [k g] Hk%range_elem. by apply Hwf in Hk.
Qed.

Lemma doppler_gauges_wf : wf_gauges "doppler" doppler_gauges.
Proof. unfold doppler_gauges, wf_gauges. apply (bool_decide_unpack _). vm_compute. exact I. Qed.

(** *** doppler *)

Definition uses_store (conf : Doppler.Config) : bool :=
  negb (Doppler.DisableAnnounce conf) || negb (Doppler.DisableSyslogDrains conf).

Definition store_of (conf : Doppler.Config) : option ETCDOptions :=
  if uses_store conf then Some (doppler_etcd conf) else None.

Definition grpc_addr (g : GRPC) : string := ":" +:+ Strconv.Itoa (Port g).

Definition websocket_addr (conf : Doppler.Config) : string :=
  Doppler.WebsocketHost conf +:+ ":" +:+ Strconv.Itoa (Doppler.OutgoingPort conf).

Definition listener_failure (g : GRPC) : option halt :=
  match NewServerCredentials (CertFile g) (KeyFile g) (CAFile g) (cipher_options (CipherSuites g)) with
  | Panics why => Some (Panic why)
  | Returns (Err err) => Some (Panic ("Failed to create grpcListener: " +:+ err))
  | Returns (Ok _) => (fun err => Panic ("Failed to create grpcListener: " +:+ err)) <$> net_Listen "tcp" (grpc_addr g)
  end.

Definition announcements (conf : Doppler.Config) : outcome (list store_call) :=
  (let! a := Announce json_Marshal MaintainNode (Doppler.IP conf) HeartbeatInterval (announce_config conf) in
   let! b := AnnounceLegacy MaintainNode (Doppler.IP conf) HeartbeatInterval (announce_config conf) in
   Returns (a ++ b))%go.

(** The operations of the environment that can end the set-up of doppler, in their order. *)
Definition doppler_checks (conf : Doppler.Config) : list (option halt) :=
  [Fatal <$> dropsonde_Initialize (UDPAddress (Doppler.MetronConfig_ conf)) dopplerOrigin;
   (fun err => Fatal ("Could not use GRPC creds for server: " +:+ err))
     <$> error_of (grpc_credentials (Doppler.GRPC_ conf) "metron");
   (fun err => Fatal ("Could not configure metric emitter: " +:+ err))
     <$> grpc_Dial (GRPCAddress (Doppler.MetronConfig_ conf));
   (fun err => Fatal ("Unable to setup Health endpoint (" +:+ Doppler.HealthAddr conf +:+ "): " +:+ err))
     <$> net_Listen "tcp" (Doppler.HealthAddr conf);
   (if uses_store conf then Panic <$> etcd_New (doppler_etcd conf) else None);
   (if uses_store conf then Panic <$> etcd_Connect (doppler_etcd conf) else None);
   listener_failure (Doppler.GRPC_ conf);
   (fun err => Panic ("Failed to create the websocket server: " +:+ err))
     <$> net_Listen "tcp" (websocket_addr conf);
   (if Doppler.DisableAnnounce conf then None
    else match announcements conf with Panics why => Some (Panic why) | Returns _ => None end)].

Definition doppler_trace (ord : RangeOrder string) (conf : Doppler.Config) : list effect :=
  [Bound "tcp" (Doppler.HealthAddr conf); Spawned (ServeHealth (Doppler.HealthAddr conf))]
  ++ (Registered <$> (range_map ord doppler_gauges).*2)
  ++ (if uses_store conf then [Connected (doppler_etcd conf)] else [])
  ++ [Bound "tcp" (grpc_addr (Doppler.GRPC_ conf)); Bound "tcp" (websocket_addr conf);
      Spawned (DopplerStart (Doppler.DisableSyslogDrains conf) (store_of conf))]
  ++ (if Doppler.DisableAnnounce conf then []
      else Announced <$> match announcements conf with Returns l => l | Panics _ => [] end)
  ++ [Spawned (ServeProfiler (Doppler.PPROFPort conf))].

Lemma announce_run {B} conf store (f : unit -> proc B) tr :
  match announcements conf with
  | Returns l => (announce conf (Some store) ≫= f) tr = f tt (tr ++ (Announced <$> l))
  | Panics why => exists l, (announce conf (Some store) ≫= f) tr = (tr ++ (Announced <$> l), inl (Panic why))
  end.
Proof.
  unfold announcements, announce. destruct (Announce _ _ _ _ _) as [a|why]; cbn [obind may_panic].
  - rewrite bind_assoc_run, mret_run, bind_assoc_run, announced_run.
    destruct (AnnounceLegacy _ _ _ _) as [b|why]; cbn [obind may_panic].
    + rewrite bind_assoc_run, mret_run, announced_run. by rewrite fmap_app, app_assoc.
    + by exists a.
  - exists []. by rewrite app_nil_r.
Qed.

Lemma NewGRPCListener_run {B} g (f : unit -> proc B) tr :
  (NewGRPCListener g ≫= fun r => check r (fun err => Panic ("Failed to create grpcListener: " +:+ err)) ≫= f) tr =
    match listener_failure g with
    | Some h => (tr, inl h)
    | None => f tt (tr ++ [Bound "tcp" (grpc_addr g)])
    end.
Proof.
  unfold NewGRPCListener, listener_failure. rewrite bind_assoc_run.
  destruct (NewServerCredentials _ _ _ _) as [[c|err]|why]; [|reflexivity..].
  cbn [may_panic]. rewrite mret_run. change (":" +:+ Strconv.Itoa (Port g)) with (grpc_addr g).
  by destruct (net_Listen _ _).
Qed.

Lemma parsed_workers file conf :
  ParseConfig ReadFile (Doppler.Parse ParseIPv6 doppler_Unmarshal) file = Ok conf ->
  1 <= Doppler.EtcdMaxConcurrentRequests conf.
Proof.
  unfold ParseConfig, Doppler.Parse. destruct (ReadFile file) as [b|]; [|done].
  destruct (doppler_Unmarshal b _) as [c0|]; [|done]. destruct (Doppler.validate _ _); [done|].
  intros [= <-]. simpl. case_bool_decide; lia.
Qed.

Lemma connectToEtcd_run {B} conf (f : ETCDOptions -> proc B) tr :
  1 <= Doppler.EtcdMaxConcurrentRequests conf ->
  (connectToEtcd conf ≫= f) tr =
    match first_failure [Panic <$> etcd_New (doppler_etcd conf); Panic <$> etcd_Connect (doppler_etcd conf)] with
    | Some h => (tr, inl h)
    | None => f (doppler_etcd conf) (tr ++ [Connected (doppler_etcd conf)])
    end.
Proof.
  intros Hn. unfold connectToEtcd, etcd_adapter. rewrite !bind_assoc_run, NewWorkPool_positive by done.
  cbn [succeed]. rewrite mret_run, bind_assoc_run, succeed_run. destruct (etcd_New _); [reflexivity|].
  rewrite mret_run, bind_assoc_run, succeed_run. by destruct (etcd_Connect _).
Qed.

Lemma store_run {B} conf (f : option ETCDOptions -> proc B) tr :
  1 <= Doppler.EtcdMaxConcurrentRequests conf ->
  ((if uses_store conf then Some <$> connectToEtcd conf else mret None) ≫= f) tr =
    match first_failure [if uses_store conf then Panic <$> etcd_New (doppler_etcd conf) else None;
                         if uses_store conf then Panic <$> etcd_Connect (doppler_etcd conf) else None] with
    | Some h => (tr, inl h)
    | None => f (store_of conf) (tr ++ (if uses_store conf then [Connected (doppler_etcd conf)] else []))
    end.
Proof.
  intros Hn. unfold store_of. destruct (uses_store conf).
  - unfold fmap, proc_fmap. rewrite bind_assoc_run, connectToEtcd_run by done.
    by destruct (first_failure _).
  - rewrite mret_run. by rewrite app_nil_r.
Qed.

(** The watcher of the drains runs only with a store. *)
Lemma watcher_has_store conf host s :
  Spawned (WatchDrains s) ∈ (doppler_start host (store_of conf) (Doppler.DisableSyslogDrains conf) []).1 -> is_Some s.
Proof.
  unfold store_of, uses_store. destruct (Doppler.DisableSyslogDrains conf), (Doppler.DisableAnnounce conf); cbn; set_solver.
Qed.

(** C22: How doppler is set up.  A configuration that cannot be read or is invalid ends the
    process.  Otherwise the set-up fails with the first of the operating system's and the
    packages' operations that fails (metric emitters, credentials, the listening sockets and,
    unless both announcements and syslog drains are disabled, the store), before the profiler,
    whose socket tells that doppler is ready, is started; registering the health gauges and
    creating the work pool of the store client never fail.  If no operation fails, doppler has
    bound its sockets, registered its gauges, announced itself unless that is disabled, and
    started its goroutines, in this order; the watcher of the drains never runs without a
    store. *)
Theorem doppler_sets_up ord file :
  match ParseConfig ReadFile (Doppler.Parse ParseIPv6 doppler_Unmarshal) file with
  | Err err => doppler_main ord file [] = ([], inl (Fatal ("Unable to parse config: " +:+ err)))
  | Ok conf =>
      match first_failure (doppler_checks conf) with
      | Some h => exists tr, doppler_main ord file [] = (tr, inl h) /\
          (forall port, Spawned (ServeProfiler port) ∉ tr)
      | None =>
          doppler_main ord file [] = (doppler_trace ord conf,
            inr (mkRunning conf (Health.mkRegistrar ((fun _ => 0) <$> doppler_gauges)) (store_of conf))) /\
          forall host s,
            Spawned (WatchDrains s) ∈ (doppler_start host (store_of conf) (Doppler.DisableSyslogDrains conf) []).1 ->
            is_Some s
      end
  end.
Proof.
  unfold doppler_main. rewrite check_run. destruct (ParseConfig _ _ _) as [conf|err] eqn:E; [|done].
  apply parsed_workers in E. rewrite succeed_run. unfold doppler_checks.
  destruct (dropsonde_Initialize _ _) as [err|]; [exists []; set_solver|].
  unfold setupMetricsEmitter. rewrite bind_assoc_run, check_run.
  destruct (grpc_credentials _ _) as [c|err]; [|exists []; set_solver].
  rewrite succeed_run. destruct (grpc_Dial _) as [err|]; [exists []; set_solver|].
  unfold StartServer, listen. rewrite !bind_assoc_run, succeed_run.
  destruct (net_Listen "tcp" (Doppler.HealthAddr conf)) as [err|]; [exists []; set_solver|].
  rewrite emit_run. unfold go. rewrite emit_run. rewrite (health_New_run ord "doppler") by (apply doppler_gauges_wf || done).
  set (tr1 := _ ++ _). assert (forall port, Spawned (ServeProfiler port) ∉ tr1) as H1.
  { intros port. unfold tr1. rewrite elem_of_app, list_elem_of_fmap. set_solver. }
  rewrite (store_run conf) by done.
  destruct (if uses_store conf then Panic <$> etcd_New _ else None) as [h|]; [by exists tr1|].
  destruct (if uses_store conf then Panic <$> etcd_Connect _ else None) as [h|]; [by exists tr1|].
  set (tr2 := tr1 ++ _). assert (forall port, Spawned (ServeProfiler port) ∉ tr2) as H2.
  { intros port. unfold tr2. destruct (uses_store conf); set_solver. }
  cbn [first_failure omap list_omap fmap option_fmap option_map id error_of]. rewrite NewGRPCListener_run.
  destruct (listener_failure _) as [h|]; [by exists tr2|].
  rewrite bind_assoc_run, succeed_run. fold (websocket_addr conf).
  destruct (net_Listen "tcp" (websocket_addr conf)) as [err|]; [eexists; split; [reflexivity|set_solver]|].
  rewrite !emit_run. set (tr3 := ((tr2 ++ _) ++ _) ++ _).
  assert (forall port, Spawned (ServeProfiler port) ∉ tr3) as H3 by (intros port; unfold tr3; set_solver).
  unfold doppler_trace. destruct (Doppler.DisableAnnounce conf) eqn:Ea.
  - split; [|apply watcher_has_store]. cbn [first_failure omap list_omap]. rewrite mret_run, emit_run.
    unfold tr3, tr2, tr1. by rewrite <- !app_assoc.
  - assert (store_of conf = Some (doppler_etcd conf)) as Es by (unfold store_of, uses_store; by rewrite Ea).
    rewrite Es. change (first_failure [None; None]) with (@None halt). cbv iota.
    match goal with |- context [(announce _ _ ≫= ?f) ?tr] =>
      pose proof (announce_run conf (doppler_etcd conf) f tr) as Han end.
    destruct (announcements conf) as [l|why].
    + split; [|rewrite <- Es; apply watcher_has_store]. rewrite Han, emit_run.
      unfold tr3, tr2, tr1. by rewrite <- !app_assoc, Es.
    + destruct Han as [l ->]. eexists. split; [reflexivity|]. intros port.
      rewrite elem_of_app, list_elem_of_fmap. set_solver.
Qed.

End Laws.

(** ** An environment in which everything works *)

Module WorkingEnv.

Definition doppler_conf : Doppler.Config :=
  Doppler.mkConfig false false None 120 3456 4 ["http://etcd"] false (mkEtcdTLS EmptyString EmptyString EmptyString)
    "0" "doppler" "10.0.0.1" 100 100 0 (mkMetronConfig "localhost:3457" "localhost:3458") 0 EmptyString 8081
    (mkGRPC 0 "ca" "crt" "key" []) "secret" 0 0 0 false 0 0 "z1" 0 EmptyString.

Definition controller_conf : TrafficController.Config :=
  TrafficController.mkConfig [] 0 false (mkEtcdTLS EmptyString EmptyString EmptyString) "10.0.0.2" "api"
    (TrafficController.mkCCTLS "crt" "key" "ca" "cc") 8081 ["10.0.0.1:8082"] 8080
    (mkMetronConfig "localhost:3457" "localhost:3458") (mkGRPC 0 "ca" "crt" "key" []) "example.com" false "uaa" "client"
    "secret" 0 EmptyString 0 EmptyString 0 EmptyString.

Definition metron_conf : Metron.Config :=
  Metron.mkConfig "cf" "z1" "job" "0" "10.0.0.3" ∅ false 3457 14824 (mkGRPC 3458 "ca" "crt" "key" []) "doppler:8082"
    5000 15000 0.

(** A binder without an update interval. *)
Definition binder_conf : Binder.Config :=
  Binder.mkConfig false "binder" 60 0 10 [] false (mkEtcdTLS EmptyString EmptyString EmptyString) "localhost:3457" "cc"
    (Binder.mkMutualTLS "crt" "key" "ca") 100 false 0.

#[export] Instance env : Environment string string := {|
  LoadX509KeyPair := fun certFile _ => Ok certFile;
  ReadFile := fun file => Ok file;
  AppendCertsFromPEM := Some;
  ParseAndVerify := fun _ _ => None;
  net_Listen := fun _ _ => None;
  grpc_Dial := fun _ => None;
  dropsonde_Initialize := fun _ _ => None;
  NewWorkPool := fun n => if bool_decide (n < 1) then Some "must provide positive maxWorkers"%string else None;
  etcd_New := fun _ => None;
  etcd_Connect := fun _ => None;
  Register := fun l g =>
    if existsb (fun g' => bool_decide (Name g' = Name g)) l then Some "duplicate metrics collector"%string else None;
  MaintainNode := fun _ => None;
  json_Marshal := fun _ => Ok "{}"%string;
  ParseIPv6 := fun _ => None;
  ParseDuration := fun _ => Err "no duration"%string;
  doppler_Unmarshal := fun _ _ => Ok doppler_conf;
  controller_Decode := fun _ _ => Ok controller_conf;
  metron_Decode := fun _ _ => Ok metron_conf;
  binder_Decode := fun _ _ => Ok binder_conf
|}.

#[export] Instance env_laws : EnvironmentLaws string string.
Proof.
  split.
  - intros n Hn. simpl. by rewrite bool_decide_eq_false_2 by lia.
  - intros l g _ Hl. simpl. replace (existsb _ l) with false; [done|]. symmetry.
    apply not_true_is_false. intros (g' & Hg'%list_elem_of_In & E%bool_decide_eq_true_1)%existsb_exists.
    by destruct (Hl g' Hg') as (_ & _ & Hne).
Qed.

End WorkingEnv.

Lemma doppler_sets_up_witness :
  first_failure (doppler_checks (H := WorkingEnv.env) (Doppler.with_defaults WorkingEnv.doppler_conf)) = None /\
  (doppler_main (H := WorkingEnv.env) default_order "doppler.json" []).1 =
    doppler_trace (H := WorkingEnv.env) default_order (Doppler.with_defaults WorkingEnv.doppler_conf).
Proof.
  split; [vm_compute; reflexivity|].
  pose proof (doppler_sets_up (H := WorkingEnv.env) (H0 := WorkingEnv.env_laws) default_order "doppler.json") as Hd.
  change (ParseConfig _ _ _) with (Ok (Doppler.with_defaults WorkingEnv.doppler_conf)) in Hd. cbv iota in Hd.
  change (first_failure _) with (@None halt) in Hd. cbv iota in Hd. destruct Hd as [-> _]. reflexivity.
Defined.
