(* ===== verification/Processes.v ===== *)
(** * The set-up of metron, the traffic controller, the reverse log proxy and the drain binder

    metron/main.go with app_v1.go and app_v2.go, trafficcontroller/main.go with
    traffic_controller.go, rlp/main.go, syslog_drain_binder/main.go, as processes of
    [Process].  The health gauges each process registers are those its components use. *)

From Stdlib Require Import Ascii.
From S2P Require Import Prelude Go Events Http DrainBinder Tls MetricEmitter Finder Config Process.

Local Open Scope Z_scope.

Section Mains.

Context {Cert CAs : Type} `{Environment Cert CAs}.

Abbreviation creds := (Tls.Config (Cert := Cert) (Pool := CAs)).

(** ** metron *)

Definition metron_gauges : gmap string GaugeOpts := list_to_map
  [gauge_opts "metron" "dopplerConnections" "Number of connections open to dopplers";
   gauge_opts "metron" "dopplerV1Streams" "Number of V1 gRPC streams to dopplers";
   gauge_opts "metron" "dopplerV2Streams" "Number of V2 gRPC streams to dopplers"].

Definition startHealthEndpoint (ord : RangeOrder string) (addr : string) : proc Health.Registrar :=
  StartServer addr;;
  health_New ord metron_gauges.

(** What one of the two apps of metron connects to: the balancers' addresses in their order,
    the maximal writes of its connection managers. *)
Record pool_setup : Type := mkPoolSetup { balancers : list string; maxWrites : list Z }.

(** [setupGRPC] of app_v1.go and [initializePool] of app_v2.go after their credentials; [draws]
    are the values of [rand.Int63n(1000)]. *)
Definition setup_pool (config : Metron.Config) (draws : list Z) : pool_setup :=
  mkPoolSetup [Metron.Zone config +:+ "." +:+ Metron.DopplerAddr config; Metron.DopplerAddr config]
    ((fun d => 100000 + d) <$> take 5 draws).

Definition setupGRPC (config : Metron.Config) (c : option creds) (draws : list Z) : option pool_setup :=
  match c with
  | None => None
  | Some _ => Some (setup_pool config draws)
  end.

Definition initializePool (config : Metron.Config) (c : option creds) (draws : list Z) : proc pool_setup :=
  match c with
  | None => stop (Panic "Failed to load TLS client config")
  | Some _ => mret (setup_pool config draws)
  end.

(** [AppV1.Start]: what it serves until the socket is closed, [None] when UDP is disabled. *)
Definition AppV1_Start (config : Metron.Config) (c : option creds) (draws : list Z) : proc (option (option pool_setup)) :=
  if Metron.DisableUDP config then mret None
  else
    let writer := setupGRPC config c draws in
    let metronAddress := "127.0.0.1:" +:+ Strconv.Itoa (Metron.IncomingUDPPort config) in
    listen "udp4" metronAddress (fun err => Panic ("Failed to listen on " +:+ metronAddress +:+ ": " +:+ err));;
    mret (Some writer).

Definition AppV2_Start (config : Metron.Config) (clientCreds serverCreds : option creds) (draws : list Z)
  : proc pool_setup :=
  match serverCreds with
  | None => stop (Panic "Failed to load TLS server config")
  | Some _ =>
      pool ← initializePool config clientCreds draws;
      listen "tcp" ("127.0.0.1:" +:+ Strconv.Itoa (Port (Metron.GRPC_ config)))
        (fun err => Fatal ("failed to listen: " +:+ err));;
      mret pool
  end.

Record running_metron : Type := mkRunningMetron {
  m_config : Metron.Config; m_client : creds; m_server : creds; m_health : Health.Registrar }.

(** [main] up to the profiler, which it runs itself. *)
Definition metron_main (ord : RangeOrder string) (configFile : string) : proc running_metron :=
  config ← check (ParseConfig ReadFile (Metron.Parse metron_Decode) configFile)
    (fun err => Fatal ("Unable to parse config: " +:+ err));
  clientCreds ← check (grpc_credentials (Metron.GRPC_ config) "doppler")
    (fun err => Fatal ("Could not use GRPC creds for client: " +:+ err));
  r ← may_panic (NewServerCredentials (CertFile (Metron.GRPC_ config)) (KeyFile (Metron.GRPC_ config))
    (CAFile (Metron.GRPC_ config)) (cipher_options (CipherSuites (Metron.GRPC_ config))));
  serverCreds ← check r (fun err => Fatal ("Could not use GRPC creds for server: " +:+ err));
  check (grpc_credentials (Metron.GRPC_ config) "metron")
    (fun err => Fatal ("Could not use GRPC creds for server: " +:+ err));;
  succeed (grpc_Dial ("localhost:" +:+ Strconv.Itoa (Port (Metron.GRPC_ config))))
    (fun err => Fatal ("Could not configure metric emitter: " +:+ err));;
  healthRegistrar ← startHealthEndpoint ord (":" +:+ Strconv.Itoa (Metron.HealthEndpointPort config));
  go MetronV1App;;
  go MetronV2App;;
  mret (mkRunningMetron config clientCreds serverCreds healthRegistrar).

(** ** traffic controller *)

Definition controller_gauges : gmap string GaugeOpts := list_to_map
  [gauge_opts "trafficcontroller" "firehoseStreamCount" "Number of open firehose streams";
   gauge_opts "trafficcontroller" "appStreamCount" "Number of open app streams"].

(** [setupDefaultEmitter]; [NewUdpEmitter] is the environment's. *)
Definition setupDefaultEmitter (NewUdpEmitter : string -> option string) (origin destination : string) : option string :=
  if Str.empty origin then Some "Cannot initialize metrics with an empty origin"%string
  else if Str.empty destination then Some "Cannot initialize metrics with an empty destination"%string
  else match NewUdpEmitter destination with
       | Some err => Some ("Failed to initialize dropsonde: " +:+ err)
       | None => None
       end.

(** Where the dopplers are found: the configured addresses, or the store. *)
Inductive finder_choice : Type := Static (addrs : list string) | Etcd (options : ETCDOptions).

Definition controller_etcd (conf : TrafficController.Config) : ETCDOptions :=
  etcd_options (TrafficController.EtcdUrls conf) (TrafficController.EtcdRequireTLS conf)
    (TrafficController.EtcdTLSClientConfig_ conf).

Definition choose_finder (conf : TrafficController.Config) : proc finder_choice :=
  match TrafficController.DopplerAddrs conf with
  | _ :: _ => mret (Static (TrafficController.DopplerAddrs conf))
  | [] =>
      etcdAdapter ← etcd_adapter (TrafficController.EtcdMaxConcurrentRequests conf) (controller_etcd conf);
      succeed (etcd_Connect etcdAdapter) (fun err => Panic ("Unable to connect to ETCD: " +:+ err));;
      emit (Connected etcdAdapter);;
      mret (Etcd etcdAdapter)
  end.

Record running_controller : Type := mkRunningController {
  t_conf : TrafficController.Config; t_health : Health.Registrar; t_finder : finder_choice; t_emitter : bool }.

(** [Start] up to the wait for the signal; [OpenFile] opens the access log.  A failure of the
    metric emitter is logged and replaced by a null emitter. *)
Definition TrafficController_Start (NewUdpEmitter OpenFile : string -> option string) (ord : RangeOrder string)
  (conf : TrafficController.Config) : proc running_controller :=
  let err := setupDefaultEmitter NewUdpEmitter "LoggregatorTrafficController"
               (UDPAddress (TrafficController.MetronConfig_ conf)) in
  go MonitorUptime;;
  go MonitorFiles;;
  StartServer (TrafficController.HealthAddr conf);;
  healthRegistry ← health_New ord controller_gauges;
  check (grpc_credentials (TrafficController.GRPC_ conf) "doppler")
    (fun err => Fatal ("Could not use GRPC creds for server: " +:+ err));;
  f ← choose_finder conf;
  (if Str.empty (TrafficController.SecurityEventLog conf) then mret tt
   else succeed (OpenFile (TrafficController.SecurityEventLog conf))
          (fun err => Panic ("Unable to open access log: " +:+ err)));;
  go (ServeProxy (":" +:+ Strconv.Itoa (TrafficController.OutgoingDropsondePort conf))
        (negb (Str.empty (TrafficController.SecurityEventLog conf))));;
  go (ServeProfiler (TrafficController.PPROFPort conf));;
  mret (mkRunningController conf healthRegistry f (match err with None => true | Some _ => false end)).

(** [uaaHTTPClient] and [ccHTTPClient]: the TLS configurations of the two clients. *)
Definition with_skip_verify (c : creds) (skip : bool) : creds :=
  Tls.mkConfig skip (MinVersion c) (Tls.CipherSuites c) (Certificates c) (Tls.ServerName c) (ClientAuth c) (RootCAs c)
    (ClientCAs c).

Definition uaaHTTPClient (conf : TrafficController.Config) : creds :=
  with_skip_verify NewTLSConfig (TrafficController.SkipCertVerify conf).

Definition ccHTTPClient (conf : TrafficController.Config) : proc creds :=
  let cc := TrafficController.CCTLSClientConfig_ conf in
  tlsConfig ← check (NewClientMutualTLSConfig LoadX509KeyPair ReadFile AppendCertsFromPEM ParseAndVerify
      (TrafficController.cc_CertFile cc) (TrafficController.cc_KeyFile cc) (TrafficController.cc_CAFile cc)
      (TrafficController.ServerName cc))
    (fun err => Fatal ("Unable to create CC HTTP Client: " +:+ err));
  mret (with_skip_verify tlsConfig (TrafficController.SkipCertVerify conf)).

Definition controller_main (NewUdpEmitter OpenFile : string -> option string) (ord : RangeOrder string)
  (configFile : string) : proc running_controller :=
  conf ← check (ParseConfig ReadFile (TrafficController.Parse controller_Decode ParseDuration) configFile)
    (fun err => Panic ("Unable to parse config: " +:+ err));
  check (grpc_credentials (TrafficController.GRPC_ conf) "metron")
    (fun err => Fatal ("Could not use GRPC creds for client: " +:+ err));;
  succeed (grpc_Dial (GRPCAddress (TrafficController.MetronConfig_ conf)))
    (fun err => Fatal ("Couldn't connect to metric emitter: " +:+ err));;
  ccHTTPClient conf;;
  TrafficController_Start NewUdpEmitter OpenFile ord conf.

(** ** reverse log proxy *)

Record rlp_flags : Type := mkRlpFlags {
  egress_port : Z; ingress_addrs : string; pprof_port : Z; health_addr : string;
  ca : string; cert : string; key : string; cipher_suites : string; metron_addr : string }.

(** The flags' defaults. *)
Definition default_flags : rlp_flags :=
  mkRlpFlags 0 EmptyString 6061 "localhost:14825" EmptyString EmptyString EmptyString EmptyString "localhost:3458".

(** The settings [main] hands to [NewRLP]. *)
Record rlp_settings : Type := mkRlpSettings {
  s_port : Z; s_addrs : list string; s_dial : creds; s_serve : creds; s_health : string }.

Definition rlp_main (flags : rlp_flags) : proc rlp_settings :=
  dopplerCredentials ← check (NewClientCredentials (cert flags) (key flags) (ca flags) "doppler")
    (fun err => Fatal ("Could not use TLS config: " +:+ err));
  let cipherSuites := Str.Split (cipher_suites flags) ":" in
  r ← may_panic (NewServerCredentials (cert flags) (key flags) (ca flags) (cipher_options cipherSuites));
  rlpCredentials ← check r (fun err => Fatal ("Could not use TLS config: " +:+ err));
  let hostPorts := Str.Split (ingress_addrs flags) "," in
  (if bool_decide (length hostPorts = 0%nat) then stop (Fatal "no Ingress Addrs were provided") else mret tt);;
  check (NewClientCredentials (cert flags) (key flags) (ca flags) "metron")
    (fun err => Fatal ("Could not use TLS config: " +:+ err));;
  succeed (grpc_Dial (metron_addr flags)) (fun err => Fatal ("Couldn't connect to metric emitter: " +:+ err));;
  mret (mkRlpSettings (egress_port flags) hostPorts dopplerCredentials rlpCredentials (health_addr flags)).

(** ** syslog drain binder *)

Definition binder_etcd (conf : Binder.Config) : ETCDOptions :=
  etcd_options (Binder.EtcdUrls conf) (Binder.EtcdRequireTLS conf) (Binder.EtcdTLSClientConfig_ conf).

(** What the loop of the binder runs with: intervals in nanoseconds. *)
Record running_binder : Type := mkRunningBinder {
  b_conf : Binder.Config; b_tls : creds; b_store : ETCDOptions; updateInterval : Z; drainTTL : Z }.

(** [main] up to its loop; [None] is the endless sleep of a binder that is disabled.  The error
    of the metric emitter is ignored.  [NewElector] retries until the store is connected;
    [NewTicker] panics on an interval that is not positive. *)
Definition binder_main (configFile : string) : proc (option running_binder) :=
  conf ← check (ParseConfig ReadFile (Binder.Parse binder_Decode) configFile) Panic;
  if Binder.DisableSyslogDrains conf then mret None
  else
    go (ServeProfiler (Binder.PPROFPort conf));;
    let cc := Binder.CloudControllerTLSConfig conf in
    tlsConfig ← check (NewClientMutualTLSConfig LoadX509KeyPair ReadFile AppendCertsFromPEM ParseAndVerify
        (Binder.m_CertFile cc) (Binder.m_KeyFile cc) (Binder.m_CAFile cc) "cloud-controller-ng.service.cf.internal") Panic;
    adapter ← etcd_adapter (Binder.EtcdMaxConcurrentRequests conf) (binder_etcd conf);
    let updateInterval := Words.int64 (Binder.UpdateIntervalSeconds conf * 1000000000) in
    emit (Connected adapter);;
    let drainTTL := Words.int64 (Binder.DrainUrlTtlSeconds conf * 1000000000) in
    (if bool_decide (updateInterval <= 0) then stop (Panic "non-positive interval for NewTicker") else mret tt);;
    mret (Some (mkRunningBinder conf (with_skip_verify tlsConfig (Binder.SkipCertVerify conf)) adapter
      updateInterval drainTTL)).

End Mains.

(** ** The health gauges of the processes *)

Lemma bind_inv {A B} (m : proc A) (f : A -> proc B) tr tr' b :
  (m ≫= f) tr = (tr', inr b) -> exists tr1 a, m tr = (tr1, inr a) /\ f a tr1 = (tr', inr b).
Proof. rewrite bind_run. destruct (m tr) as [tr1 [h|a]]; [done|]. eauto. Qed.

Ltac proc_inv H :=
  repeat match type of H with
  | ((_ ≫= _) _ = (_, inr _)) => let a := fresh "a" in let tr := fresh "tr" in let E := fresh "E" in
      apply bind_inv in H as (tr & a & E & H)
  end.

Lemma health_New_inv {Cert CAs} `{Environment Cert CAs} ord gs tr tr' h :
  health_New ord gs tr = (tr', inr h) -> h = Health.mkRegistrar ((fun _ => 0) <$> gs).
Proof. unfold health_New. intros E. proc_inv E. by injection E. Qed.

(** A call of a component on the registrar of its process. *)
Inductive health_call : Type := CallInc (name : string) | CallDec (name : string) | CallSet (name : string) (value : Z).

Definition call_name (c : health_call) : string := match c with CallInc n | CallDec n | CallSet n _ => n end.

Definition do_call (h : Health.Registrar) (c : health_call) : outcome Health.Registrar :=
  match c with
  | CallInc n => Health.Inc h n
  | CallDec n => Health.Dec h n
  | CallSet n v => Health.Set_ h n v
  end.

(** The names the components of each process pass: doppler_server.go, ingestor_server.go and
    ingress_server.go, dump_sink.go, container_metric_sink.go; the fetchers of both client
    pools; doppler_proxy.go; egress/server.go. *)
Definition doppler_health_names : list string :=
  ["subscriptionCount"; "ingressStreamCount"; "recentLogCacheCount"; "containerMetricCacheCount"]%string.
Definition metron_health_names : list string := ["dopplerConnections"; "dopplerV1Streams"; "dopplerV2Streams"]%string.
Definition controller_health_names : list string := ["firehoseStreamCount"; "appStreamCount"]%string.
Definition rlp_health_names : list string := ["subscriptionCount"]%string.

Definition health_safe (h : Health.Registrar) (names : list string) : Prop :=
  forall calls, Forall (fun c => call_name c ∈ names) calls ->
  exists h', ofold do_call calls h = Returns h' /\ dom (Health.gauges h') = dom (Health.gauges h).

Lemma do_call_returns h c :
  call_name c ∈ dom (Health.gauges h) ->
  exists h', do_call h c = Returns h' /\ dom (Health.gauges h') = dom (Health.gauges h).
Proof.
  intros [g Hg]%elem_of_dom.
  destruct c as [n|n|n v]; cbn [do_call call_name] in *; unfold Health.Inc, Health.Dec, Health.Set_, Health.update;
    rewrite Hg; eexists; (split; [reflexivity|]); cbn [Health.gauges]; rewrite dom_insert_L;
    assert (n ∈ dom (Health.gauges h)) by (apply elem_of_dom; eauto); set_solver.
Qed.

Lemma zero_gauges_safe (gs : gmap string GaugeOpts) names :
  Forall (fun n => n ∈ dom gs) names -> health_safe (Health.mkRegistrar ((fun _ => 0) <$> gs)) names.
Proof.
  intros Hn calls Hc.
  apply (ofold_returns (fun h => dom (Health.gauges h) = dom (Health.gauges (Health.mkRegistrar ((fun _ => 0) <$> gs))))
    do_call calls _); [|done].
  intros h c Hh Hin. rewrite Forall_forall in Hc. rewrite Forall_forall in Hn. destruct (do_call_returns h c) as (h' & E & Hd).
  - rewrite Hh. cbn [Health.gauges]. rewrite dom_fmap_L. by apply Hn, Hc.
  - exists h'. split; [done|]. by rewrite Hd.
Qed.

Section Health.

Context {Cert CAs : Type} `{Environment Cert CAs}.

Lemma doppler_health ord file tr p :
  doppler_main ord file [] = (tr, inr p) -> r_health p = Health.mkRegistrar ((fun _ => 0) <$> doppler_gauges).
Proof.
  unfold doppler_main. intros Hm. proc_inv Hm. injection Hm as _ <-. simpl. by eapply health_New_inv.
Qed.

Lemma metron_health ord file tr p :
  metron_main ord file [] = (tr, inr p) -> m_health p = Health.mkRegistrar ((fun _ => 0) <$> metron_gauges).
Proof.
  unfold metron_main, startHealthEndpoint. intros Hm. proc_inv Hm. injection Hm as _ <-. simpl.
  match goal with E : (StartServer _ ≫= _) _ = _ |- _ => proc_inv E; by eapply health_New_inv end.
Qed.

Lemma controller_health udp openFile ord file tr p :
  controller_main udp openFile ord file [] = (tr, inr p) ->
  t_health p = Health.mkRegistrar ((fun _ => 0) <$> controller_gauges).
Proof.
  unfold controller_main, TrafficController_Start. intros Hm. proc_inv Hm. injection Hm as _ <-. simpl.
  by eapply health_New_inv.
Qed.

End Health.

(** ** What else the set-ups guarantee *)

Section Setups.

Context {Cert CAs : Type} `{EnvironmentLaws Cert CAs}.

(** Both apps of a metron whose main function returned find their credentials: the v2 app
    fails only if it cannot listen, and each app has five connection managers, recycled after
    100000 to 100999 writes, that prefer the dopplers of the zone. *)
Lemma metron_apps_start ord file tr p draws :
  metron_main ord file [] = (tr, inr p) -> length draws = 5%nat -> Forall (fun d => 0 <= d < 1000) draws ->
  let pool := setup_pool (m_config p) draws in
  balancers pool = [Metron.Zone (m_config p) +:+ "." +:+ Metron.DopplerAddr (m_config p); Metron.DopplerAddr (m_config p)]
  /\ length (maxWrites pool) = 5%nat /\ Forall (fun n => 100000 <= n < 101000) (maxWrites pool)
  /\ setupGRPC (m_config p) (Some (m_client p)) draws = Some pool
  /\ Metron.DopplerAddr (m_config p) <> EmptyString
  /\ (forall tr0, (AppV2_Start (m_config p) (Some (m_client p)) (Some (m_server p)) draws tr0).2 =
       match net_Listen "tcp" ("127.0.0.1:" +:+ Strconv.Itoa (Port (Metron.GRPC_ (m_config p)))) with
       | None => inr pool
       | Some err => inl (Fatal ("failed to listen: " +:+ err))
       end).
Proof.
  intros Hm Hl Hd pool. split_and!; [done| | |done| |].
  - cbn [pool setup_pool maxWrites]. rewrite length_fmap, length_take. lia.
  - cbn [pool setup_pool maxWrites]. apply Forall_fmap, Forall_take. eapply Forall_impl; [exact Hd|].
    intros d Hd'. simpl in *. lia.
  - unfold metron_main in Hm. apply bind_inv in Hm as (tr1 & config & Hc & Hm). proc_inv Hm. injection Hm as _ <-.
    simpl. unfold check in Hc. destruct (ParseConfig _ _ _) as [c|] eqn:Ep; [|done]. injection Hc as _ <-.
    unfold ParseConfig, Metron.Parse in Ep. destruct (ReadFile file); [|done]. destruct (metron_Decode _ _); [|done].
    destruct (Str.empty (Metron.DopplerAddr _)) eqn:Ee; [done|]. injection Ep as <-.
    apply empty_false in Ee. exact Ee.
  - intros tr0. cbn [AppV2_Start initializePool]. rewrite mret_run. unfold listen. rewrite bind_assoc_run, succeed_run.
    by destruct (net_Listen _ _).
Qed.

(** The traffic controller uses the store only without configured addresses, and then never
    panics for lack of workers. *)
Lemma controller_finder file conf tr :
  ParseConfig ReadFile (TrafficController.Parse controller_Decode ParseDuration) file = Ok conf ->
  choose_finder conf tr =
    match TrafficController.DopplerAddrs conf with
    | _ :: _ => (tr, inr (Static (TrafficController.DopplerAddrs conf)))
    | [] =>
        match first_failure [Panic <$> etcd_New (controller_etcd conf);
          (fun err => Panic ("Unable to connect to ETCD: " +:+ err)) <$> etcd_Connect (controller_etcd conf)] with
        | Some h => (tr, inl h)
        | None => (tr ++ [Connected (controller_etcd conf)], inr (Etcd (controller_etcd conf)))
        end
    end.
Proof.
  intros Hp. assert (1 <= TrafficController.EtcdMaxConcurrentRequests conf) as Hw.
  { unfold ParseConfig, TrafficController.Parse in Hp. destruct (ReadFile file); [|done].
    destruct (controller_Decode _ _); [|done]. destruct (TrafficController.validate _); [done|]. injection Hp as <-.
    simpl. case_bool_decide; lia. }
  unfold choose_finder. destruct (TrafficController.DopplerAddrs conf); [|done].
  unfold etcd_adapter. rewrite bind_assoc_run, NewWorkPool_positive by done. cbn [succeed]. rewrite mret_run.
  rewrite bind_assoc_run, succeed_run. destruct (etcd_New _); [done|]. rewrite mret_run, succeed_run.
  by destruct (etcd_Connect _).
Qed.

(** The reverse log proxy without the flag for cipher suites: splitting the empty string gives
    one empty name, so the option is used, names no suite and panics. *)
Lemma rlp_needs_cipher_suites flags c c' tr :
  cipher_suites flags = EmptyString ->
  NewClientCredentials (cert flags) (key flags) (ca flags) "doppler" = Ok c ->
  newMutualTLSConfig LoadX509KeyPair ReadFile AppendCertsFromPEM ParseAndVerify (cert flags) (key flags) (ca flags)
    EmptyString false = Ok c' ->
  rlp_main flags tr = (tr, inl (Panic "no valid ciphers provided for TLS configuration")).
Proof.
  intros Hs Hc Hc'. unfold rlp_main. rewrite check_run, Hc, Hs. unfold NewServerCredentials, NewServerMutualTLSConfig.
  rewrite Hc'. reflexivity.
Qed.

(** The check for missing ingress addresses never fires, for the same reason. *)
Lemma rlp_addresses_unchecked flags tr : (rlp_main flags tr).2 <> inl (Fatal "no Ingress Addrs were provided").
Proof.
  unfold rlp_main. rewrite check_run. destruct (NewClientCredentials _ _ _ "doppler") as [c|]; [|done].
  destruct (NewServerCredentials _ _ _ _) as [r|]; [|done]. cbn [may_panic].
  rewrite mret_run, check_run. destruct r as [r|]; [|done]. rewrite bool_decide_eq_false_2.
  2:{ intros E%length_zero_iff_nil. by eapply Str.Split_nonempty. }
  rewrite mret_run, check_run. destruct (NewClientCredentials _ _ _ "metron"); [|done].
  rewrite succeed_run. by destruct (grpc_Dial _).
Qed.

End Setups.

(** A binder whose configuration has no update interval is accepted and panics. *)
Lemma binder_interval_unchecked :
  Binder.validate WorkingEnv.binder_conf = None /\
  (binder_main (H := WorkingEnv.env) "binder.json" []).2 = inl (Panic "non-positive interval for NewTicker").
Proof. split; vm_compute; reflexivity. Qed.
