(* ===== verification/RlpApp.v ===== *)
(** * rlp/app/rlp.go: the reverse log proxy as a process

    [NewRLP] with its options, [Start] and [Stop] as they interleave with each other, with the
    gRPC server and with the connector's goroutines.  The main function starts the proxy in a
    goroutine and stops it when a signal arrives.  The connector's invariant here holds for
    every interleaving, also when goroutines are late. *)

From S2P Require Import Prelude Go Http DrainBinder Tls MetricEmitter Finder Config Process Processes GrpcConnector.

Local Open Scope Z_scope.

(** ** The connector when its finder is stopped *)

(** What every step of the connector keeps: connections only for clients, references counted. *)
Record counted (c : GRPCConnector) : Prop := {
  k_pool : forall u, u ∈ pool c -> exists i, i ∈ clients c /\ uri (info c i) = u;
  k_count : forall i, refCount (info c i) = running_on i (goroutines c);
  k_goroutines : forall g, g ∈ goroutines c -> is_Some (infos c !! g_client g);
  k_clients : forall i, i ∈ clients c -> is_Some (infos c !! i);
  k_removed : forall i, is_Some (infos c !! i) -> i ∈ clients c \/ disconnect (info c i) = true
}.

(** Clients that only wait for their goroutines. *)
Definition draining (c : GRPCConnector) : Prop :=
  forall i, i ∈ clients c -> disconnect (info c i) = true /\ 0 < refCount (info c i).

(** [Pool.Close] called from outside the connector. *)
Definition close_address (addr : string) (c : GRPCConnector) : GRPCConnector := set_pool c (pool c ∖ {[addr]}).

Lemma NewGRPCConnector_counted : counted NewGRPCConnector.
Proof.
  split; simpl; [set_solver|done|set_solver|set_solver|]. intros i [x Hi]. by rewrite lookup_empty in Hi.
Qed.

Lemma info_same_uri c i x j : uri x = uri (info c i) -> uri (info (set_info c i x) j) = uri (info c j).
Proof. intros Hx. rewrite info_set_info. by case_decide as E; [subst|]. Qed.

(** Replacing the record of a client, with the same address. *)
Lemma set_info_counted c i x gs :
  counted c -> is_Some (infos c !! i) -> uri x = uri (info c i) -> (i ∈ clients c \/ disconnect x = true) ->
  (forall j, refCount (info (set_info c i x) j) = running_on j gs) ->
  (forall g, g ∈ gs -> g_client g = i \/ exists g', g' ∈ goroutines c /\ g_client g' = g_client g) ->
  counted (set_goroutines (set_info c i x) gs).
Proof.
  intros [] Hi Hu Hr Hc Hg.
  assert (forall j, is_Some (infos c !! j) -> is_Some (<[i := x]> (infos c) !! j)) as Hk.
  { intros j Hj. apply lookup_insert_is_Some. destruct (decide (i = j)); auto. }
  split; simpl; [| |intros g Hin; apply Hk; destruct (Hg g Hin) as [->|(g' & Hg' & <-)]; auto|auto|].
  - intros u (j & Hj & <-)%k_pool0. exists j. split; [done|]. by apply (info_same_uri c i x j).
  - intros j. apply (Hc j).
  - intros j Hj. change (j ∈ clients c \/ disconnect (info (set_info c i x) j) = true). rewrite info_set_info.
    case_decide as E; [by subst|]. rewrite lookup_insert_ne in Hj by done. auto.
Qed.

Lemma set_disconnect_counted b i c :
  counted c -> is_Some (infos c !! i) -> (i ∈ clients c \/ b = true) -> counted (set_disconnect b i c).
Proof.
  intros Hc Hi Hb. apply (set_info_counted c i _ (goroutines c) Hc Hi); [done|done| |eauto].
  intros j. rewrite info_set_info. case_decide as E; [subst; apply Hc|apply Hc].
Qed.

Lemma remove_client_counted i c :
  counted c -> disconnect (info c i) = true -> counted (close i (set_pool c (pool c ∖ {[uri (info c i)]}))).
Proof.
  intros [] Hdis. split; simpl; [|done|done| |].
  - intros u [Hu Hne]%elem_of_difference. destruct (k_pool0 u Hu) as (j & Hj & E). exists j. split; [|done].
    apply list_elem_of_filter. split; [|done]. intros ->. set_solver.
  - intros j [_ Hj]%list_elem_of_filter. auto.
  - intros j Hj. destruct (decide (j = i)) as [->|Hne]; [by right|].
    destruct (k_removed0 j Hj) as [Hin|Hd]; [|by right]. left. by apply list_elem_of_filter.
Qed.

Lemma close_address_counted a c : counted c -> counted (close_address a c).
Proof. intros []. split; simpl; [|done..]. intros u [Hu _]%elem_of_difference. auto. Qed.

Lemma drop_client_counted c i : counted c -> is_Some (infos c !! i) -> counted (drop_client c i).
Proof.
  intros Hc Hi. unfold drop_client. pose proof (set_disconnect_counted true i c Hc Hi (or_intror eq_refl)).
  case_bool_decide; [|done]. apply remove_client_counted; [done|].
  unfold set_disconnect. rewrite info_set_info. by rewrite decide_True.
Qed.

Lemma running_on_none i l : (forall g, g ∈ l -> g_client g <> i) -> running_on i l = 0.
Proof.
  induction l as [|g l IH]; intros Hl; simpl; [done|].
  rewrite bool_decide_eq_false_2 by (apply Hl; set_solver). rewrite IH; [done|set_solver].
Qed.

Lemma add_client_counted c a : counted c -> counted (add_client c a).
Proof.
  intros []. unfold add_client. set (n := fresh (dom (infos c))).
  assert (infos c !! n = None) as Hn by (apply not_elem_of_dom, is_fresh).
  assert (forall j, j <> n -> info (set_info c n (mkInfo a false 0)) j = info c j) as Hold.
  { intros j Hj. rewrite info_set_info. by rewrite decide_False. }
  assert (info (set_info c n (mkInfo a false 0)) n = mkInfo a false 0) as Hnn
    by (rewrite info_set_info; by rewrite decide_True).
  unfold info in Hold, Hnn. simpl in Hold, Hnn.
  assert (forall j, is_Some (infos c !! j) -> is_Some (<[n := mkInfo a false 0]> (infos c) !! j)) as Hk.
  { intros j Hj. apply lookup_insert_is_Some. destruct (decide (n = j)); auto. }
  split; simpl.
  - intros u [Hu| ->%elem_of_singleton]%elem_of_union.
    + destruct (k_pool0 u Hu) as (j & Hj & <-). exists j. split; [set_solver|].
      unfold info. simpl. rewrite Hold; [done|]. intros ->. destruct (k_clients0 n Hj). congruence.
    + exists n. split; [set_solver|]. unfold info. simpl. by rewrite Hnn.
  - intros j. rewrite running_on_app, (running_on_starting _ (_ <$> _)), Z.add_0_r
      by (by apply Forall_fmap, Forall_true). unfold info. simpl.
    destruct (decide (j = n)) as [->|Hne]; [|rewrite Hold by done; apply k_count0].
    rewrite Hnn. simpl. symmetry. apply running_on_none. intros g Hg E. destruct (k_goroutines0 g Hg). congruence.
  - intros g [Hg|(k & -> & _)%list_elem_of_fmap]%elem_of_app; [auto|]. simpl. by rewrite lookup_insert_eq.
  - intros j [Hj| ->%list_elem_of_singleton]%elem_of_app; [auto|]. by rewrite lookup_insert_eq.
  - intros j Hj. rewrite elem_of_app. destruct (decide (j = n)) as [->|Hne]; [set_solver|].
    rewrite lookup_insert_ne in Hj by done. unfold info. simpl. rewrite Hold by done.
    destruct (k_removed0 j Hj); auto.
Qed.

(** The steps keep the records of all clients. *)
Lemma drop_client_infos c i j : is_Some (infos c !! j) -> is_Some (infos (drop_client c i) !! j).
Proof.
  intros Hj. unfold drop_client. assert (is_Some (infos (set_disconnect true i c) !! j)) as H.
  { simpl. apply lookup_insert_is_Some. destruct (decide (i = j)); auto. }
  by case_bool_decide.
Qed.

Lemma drops_counted l c :
  counted c -> Forall (fun i => is_Some (infos c !! i)) l -> counted (foldl drop_client c l).
Proof.
  revert c. induction l as [|i l IH]; intros c Hc Hl; [done|]. apply Forall_cons in Hl as [Hi Hl]. simpl.
  apply IH; [by apply drop_client_counted|]. eapply Forall_impl; [exact Hl|]. intros j. apply drop_client_infos.
Qed.

Lemma adds_counted l c : counted c -> counted (foldl add_client c l).
Proof. revert c. induction l as [|a l IH]; intros c Hc; [done|]. simpl. by apply IH, add_client_counted. Qed.

Lemma adds_infos l c j : is_Some (infos c !! j) -> is_Some (infos (foldl add_client c l) !! j).
Proof.
  revert c. induction l as [|a l IH]; intros c Hj; [done|]. simpl. apply IH. unfold add_client. simpl.
  apply lookup_insert_is_Some. by destruct (decide (fresh (dom (infos c)) = j)); auto.
Qed.

Lemma subtract_elem c l u i r : subtractClient c l u = Some (i, r) -> i ∈ l /\ forall j, j ∈ r -> j ∈ l.
Proof.
  revert r. induction l as [|k l IH]; intros r; simpl; [done|]. case_bool_decide; [intros [= <- <-]; set_solver|].
  destruct (subtractClient c l u) as [[x r']|]; [|done]. intros [= <- <-]. destruct (IH r' eq_refl). set_solver.
Qed.

Lemma delta_counted uris c :
  counted c -> let '(c', _, dead) := delta uris c in
  counted c' /\ Forall (fun i => i ∈ clients c') dead.
Proof.
  intros Hc. unfold delta. set (f := fun '(_, _, _) => _).
  enough (forall l c add dead, counted c -> Forall (fun i => i ∈ clients c) dead ->
    let '(c', _, dead) := foldl f (c, add, dead) l in counted c' /\ Forall (fun i => i ∈ clients c') dead) as H.
  { apply H; [done|]. by apply Forall_forall. }
  clear c Hc. induction l as [|u l IH]; intros c add dead Hc Hd; [done|]. simpl.
  destruct (subtractClient c dead u) as [[i r]|] eqn:E; [|by apply IH].
  apply subtract_elem in E as [Hi Hr]. rewrite Forall_forall in Hd. apply IH.
  - apply set_disconnect_counted; [done|by apply Hc, Hd|auto].
  - apply Forall_forall. intros j Hj. simpl. auto.
Qed.

Lemma handleFinderEvent_counted uris c : counted c -> counted (handleFinderEvent uris c).
Proof.
  intros Hc. unfold handleFinderEvent. pose proof (delta_counted uris c Hc) as Hd.
  destruct (delta uris c) as [[c' add] dead]. destruct Hd as [Hc' Hd].
  apply drops_counted; [by apply adds_counted|]. eapply Forall_impl; [exact Hd|]. intros i Hi. apply adds_infos. by apply Hc'.
Qed.

Lemma Subscribe_counted c k c' : counted c -> Subscribe c = Ok (k, c') -> counted c'.
Proof.
  intros []. unfold Subscribe. destruct (addConsumerState _ _ _); [|done]. intros [= <- <-].
  split; simpl; [done| | |done..].
  - intros i. rewrite running_on_app, (running_on_starting _ (_ <$> _)), Z.add_0_r
      by (by apply Forall_fmap, Forall_true). apply k_count0.
  - intros g [Hg|(i & -> & Hi)%list_elem_of_fmap]%elem_of_app; [auto|]. simpl. auto.
Qed.

Lemma set_consumer_counted k x c : counted c -> counted (set_consumer c k x).
Proof. intros []. by split. Qed.

Lemma set_goroutines_delete_counted n g c :
  counted c -> goroutines c !! n = Some g -> g_running g = false ->
  counted (set_goroutines c (delete n (goroutines c))).
Proof.
  intros [] Hn Hg. split; simpl; [done| | |done..].
  - intros i. change (refCount (info c i) = running_on i (delete n (goroutines c))).
    rewrite (k_count0 i), (running_on_lookup i _ n g Hn), Hg, andb_false_r. lia.
  - intros g' Hg'. apply k_goroutines0. rewrite (delete_Permutation _ _ _ Hn). set_solver.
Qed.

Lemma consumeSubscription_counted n c : counted c -> counted (consumeSubscription n c).
Proof.
  intros Hc. unfold consumeSubscription, tryAddDoppler. destruct (goroutines c !! n) as [[k i [|]]|] eqn:En; [done| |done].
  case_bool_decide; [by eapply set_goroutines_delete_counted|].
  set (c1 := set_consumer c k _). assert (counted c1) as H1 by (by apply set_consumer_counted).
  assert (is_Some (infos c !! i)) as Hi by (apply (k_goroutines c Hc (mkGoroutine k i false)); by eapply list_elem_of_lookup_2).
  apply (set_info_counted c1 i _ _ H1); [done|done|by apply Hc| |].
  - intros j. rewrite info_set_info, (running_on_insert j _ n _ _ En). cbn [g_client g_running].
    pose proof (k_count c Hc j) as Hj. rewrite (running_on_lookup j _ n _ En) in Hj. cbn [g_client g_running] in Hj.
    rewrite andb_false_r in Hj. rewrite andb_true_r. case_decide as E; cbn [refCount].
    + subst j. rewrite bool_decide_eq_true_2 by done. change (info c1 i) with (info c i). lia.
    + rewrite bool_decide_eq_false_2 by done. change (info c1 j) with (info c j). lia.
  - intros g Hg. apply list_elem_of_lookup in Hg as [m Hm]. apply list_lookup_insert_Some in Hm as [(-> & <- & _)|[_ Hm]].
    + by left.
    + right. exists g. split; [by eapply list_elem_of_lookup_2|done].
Qed.

Lemma consume_return_counted n c : counted c -> counted (consume_return n c).
Proof.
  intros Hc. unfold consume_return. destruct (goroutines c !! n) as [[k i [|]]|] eqn:En; [|done..].
  destruct (dead _ || _); [|done].
  set (x := mkInfo _ _ _). set (c1 := set_info c i x).
  assert (is_Some (infos c !! i)) as Hi by (apply (k_goroutines c Hc (mkGoroutine k i true)); by eapply list_elem_of_lookup_2).
  assert (counted (set_goroutines c1 (delete n (goroutines c)))) as H1.
  { apply (set_info_counted c i x _ Hc Hi); [done|by apply Hc| |].
    - intros j. rewrite info_set_info. pose proof (k_count c Hc j) as Hj.
      rewrite (running_on_lookup j _ n _ En) in Hj. cbn [g_client g_running] in Hj. rewrite andb_true_r in Hj.
      destruct (decide (i = j)) as [<-|E]; unfold x; cbn [refCount].
      + rewrite bool_decide_eq_true_2 in Hj by done. lia.
      + rewrite bool_decide_eq_false_2 in Hj by done. lia.
    - intros g Hg. right. exists g. split; [|done]. rewrite (delete_Permutation _ _ _ En). set_solver. }
  assert (uri x = uri (info (set_goroutines c1 (delete n (goroutines c))) i)) as Hx.
  { change (info (set_goroutines c1 (delete n (goroutines c))) i) with (info c1 i). unfold c1. rewrite info_set_info.
    by rewrite decide_True. }
  destruct (_ && _) eqn:Eb.
  - apply andb_true_iff in Eb as [_ Eb]. apply (remove_client_counted i) in H1;
      [|change (info (set_goroutines c1 (delete n (goroutines c))) i) with (info c1 i); unfold c1; rewrite info_set_info;
        by rewrite decide_True]. rewrite <- Hx in H1. exact (set_consumer_counted k _ _ H1).
  - exact (set_consumer_counted k _ _ H1).
Qed.

(** *** After the last announcement *)

Lemma drops_draining l c :
  counted c -> Forall (fun i => is_Some (infos c !! i)) l ->
  forall i, i ∈ clients (foldl drop_client c l) ->
    i ∈ clients c /\ (disconnect (info (foldl drop_client c l) i) = true /\ 0 < refCount (info (foldl drop_client c l) i)
      \/ i ∉ l /\ info (foldl drop_client c l) i = info c i).
Proof.
  revert c. induction l as [|j l IH]; intros c Hc Hl i Hi; [set_solver|]. apply Forall_cons in Hl as [Hj Hl].
  cbn [foldl] in *. assert (counted (drop_client c j)) as Hc1 by (by apply drop_client_counted).
  assert (Forall (fun i => is_Some (infos (drop_client c j) !! i)) l) as Hl1.
  { eapply Forall_impl; [exact Hl|]. intros k. apply drop_client_infos. }
  destruct (IH _ Hc1 Hl1 i Hi) as [Hi1 Hd].
  assert (forall k, info (drop_client c j) k = info (set_disconnect true j c) k) as Hinfo
    by (intros k; unfold drop_client; by case_bool_decide).
  assert (i ∈ clients c /\ (i = j -> refCount (info c j) <> 0)) as [Hic Hne].
  { revert Hi1. unfold drop_client. case_bool_decide as E; simpl.
    - intros [Hij Hin]%list_elem_of_filter. split; [done|]. by intros ->.
    - intros Hin. split; [done|]. intros _ E'. apply E. unfold set_disconnect. rewrite info_set_info.
      by rewrite decide_True. }
  split; [done|]. destruct Hd as [Hd|[Hnl Hd]]; [by left|]. rewrite Hd, Hinfo. unfold set_disconnect.
  rewrite info_set_info. case_decide as E.
  - subst j. left. simpl. split; [done|]. specialize (Hne eq_refl). rewrite (k_count c Hc) in *.
    pose proof (running_on_nonneg i (goroutines c)). lia.
  - right. split; [set_solver|done].
Qed.

(** An announcement of no dopplers leaves only clients whose goroutines still run. *)
Lemma handleFinderEvent_nil_draining c : counted c -> draining (handleFinderEvent [] c).
Proof.
  intros Hc i Hi. unfold handleFinderEvent, delta in *. cbn [foldl] in *.
  assert (Forall (fun i => is_Some (infos c !! i)) (clients c)) as Hk by (apply Forall_forall, Hc).
  destruct (drops_draining (clients c) c Hc Hk i Hi) as [Hin [H|[Hn _]]]; [done|contradiction].
Qed.

Lemma Subscribe_draining c k c' : draining c -> Subscribe c = Ok (k, c') -> draining c'.
Proof. unfold Subscribe. intros Hd. destruct (addConsumerState _ _ _); [|done]. by intros [= <- <-]. Qed.

Lemma consumeSubscription_draining n c : draining c -> draining (consumeSubscription n c).
Proof.
  intros Hd. unfold consumeSubscription, tryAddDoppler. destruct (goroutines c !! n) as [[k i [|]]|]; [done| |done].
  case_bool_decide; [done|]. intros j Hj.
  change (disconnect (info (set_info c i (mkInfo (uri (info c i)) (disconnect (info c i)) (refCount (info c i) + 1))) j) = true
    /\ 0 < refCount (info (set_info c i (mkInfo (uri (info c i)) (disconnect (info c i)) (refCount (info c i) + 1))) j)).
  rewrite info_set_info. destruct (Hd j Hj). case_decide as E; [|done]. subst j. simpl. split; [done|lia].
Qed.

Lemma consume_return_draining n c : counted c -> draining c -> draining (consume_return n c).
Proof.
  intros Hc Hd. unfold consume_return. destruct (goroutines c !! n) as [[k i [|]]|] eqn:En; [|done..].
  destruct (dead _ || _); [|done]. set (x := mkInfo _ _ _).
  assert (forall j, info (set_info c i x) j = if decide (i = j) then x else info c j) as Hinfo
    by (intros j; apply info_set_info).
  case_bool_decide as E; cbn [andb].
  - destruct (disconnect x) eqn:Edis.
    + intros j Hj. apply list_elem_of_filter in Hj as [Hne Hj].
      change (disconnect (info (set_info c i x) j) = true /\ 0 < refCount (info (set_info c i x) j)).
      rewrite Hinfo, decide_False by done. by apply Hd.
    + intros j Hj. change (disconnect (info (set_info c i x) j) = true /\ 0 < refCount (info (set_info c i x) j)).
      rewrite Hinfo. destruct (Hd j Hj) as [Hj1 Hj2]. case_decide as Eij; [|done]. subst j.
      unfold x in Edis. simpl in Edis. congruence.
  - intros j Hj. change (disconnect (info (set_info c i x) j) = true /\ 0 < refCount (info (set_info c i x) j)).
    rewrite Hinfo. destruct (Hd j Hj) as [Hj1 Hj2]. case_decide as Eij; [|done]. subst j. split; [done|lia].
Qed.

(** When the goroutines have returned nothing is connected any more. *)
Lemma drained c : counted c -> draining c -> goroutines c = [] -> clients c = [] /\ pool c = ∅.
Proof.
  intros Hc Hd Hg. assert (clients c = []) as Hnil.
  { destruct (clients c) as [|i l] eqn:E; [done|]. destruct (Hd i) as [_ Hr]; [rewrite E; set_solver|].
    rewrite (k_count c Hc), Hg in Hr. simpl in Hr. lia. }
  split; [done|]. apply set_eq. intros u. split; [|set_solver].
  intros (i & Hi & _)%(k_pool c Hc). rewrite Hnil in Hi. set_solver.
Qed.

(** ** rlp.go *)

(** Where the goroutine of [Start] is: it is between two statements of [Start] and
    [setupIngress], or in [Serve]. *)
Inductive start_pc : Type := SHealth | SFinder | SConnector | SEgress | SServe | SReturned.

(** Where [Stop] is; before it the main goroutine waits for the signal. *)
Inductive stop_pc : Type := TSignal | TFinder | TClose (addrs : list string) | TWait | TReturned.

(** The goroutine that calls [GracefulStop]. *)
Inductive graceful_pc : Type := GNone | GCall | GStopping | GDone.

#[global] Instance start_pc_eq_dec : EqDecision start_pc.
Proof. solve_decision. Defined.
#[global] Instance stop_pc_eq_dec : EqDecision stop_pc.
Proof. solve_decision. Defined.
#[global] Instance graceful_pc_eq_dec : EqDecision graceful_pc.
Proof. solve_decision. Defined.

Section App.

Context {Cert CAs : Type} `{Environment Cert CAs}.
Context {DialOption ServerOption : Type} (WithInsecure : DialOption) (ord : RangeOrder string).

(** The fields of [RLP]; [connector] stands for the pool and what is built on it, [None] for a
    nil pointer.  The program counters of the goroutines and what the process did follow. *)
Record RLP : Type := mkRLP {
  ctx_done : bool;
  egressPort : Z;
  egressServerOpts : list ServerOption;
  maxEgressConnections : Z;
  ingressAddrs : list string;
  ingressDialOpts : list DialOption;
  healthAddr : string;
  health : option Health.Registrar;
  finder : option StaticFinder.t;
  connector : option GRPCConnector;
  egressServer : bool;
  start_at : start_pc;
  stop_at : stop_pc;
  graceful : graceful_pc;
  effects : list effect
}.

Definition RLPOption : Type := RLP -> RLP.

Definition WithEgressPort (port : Z) : RLPOption := fun r =>
  mkRLP (ctx_done r) port (egressServerOpts r) (maxEgressConnections r) (ingressAddrs r) (ingressDialOpts r)
    (healthAddr r) (health r) (finder r) (connector r) (egressServer r) (start_at r) (stop_at r) (graceful r) (effects r).
Definition WithEgressServerOptions (opts : list ServerOption) : RLPOption := fun r =>
  mkRLP (ctx_done r) (egressPort r) opts (maxEgressConnections r) (ingressAddrs r) (ingressDialOpts r)
    (healthAddr r) (health r) (finder r) (connector r) (egressServer r) (start_at r) (stop_at r) (graceful r) (effects r).
Definition WithIngressAddrs (addrs : list string) : RLPOption := fun r =>
  mkRLP (ctx_done r) (egressPort r) (egressServerOpts r) (maxEgressConnections r) addrs (ingressDialOpts r)
    (healthAddr r) (health r) (finder r) (connector r) (egressServer r) (start_at r) (stop_at r) (graceful r) (effects r).
Definition WithIngressDialOptions (opts : list DialOption) : RLPOption := fun r =>
  mkRLP (ctx_done r) (egressPort r) (egressServerOpts r) (maxEgressConnections r) (ingressAddrs r) opts
    (healthAddr r) (health r) (finder r) (connector r) (egressServer r) (start_at r) (stop_at r) (graceful r) (effects r).
Definition WithHealthAddr (addr : string) : RLPOption := fun r =>
  mkRLP (ctx_done r) (egressPort r) (egressServerOpts r) (maxEgressConnections r) (ingressAddrs r) (ingressDialOpts r)
    addr (health r) (finder r) (connector r) (egressServer r) (start_at r) (stop_at r) (graceful r) (effects r).
Definition WithMaxEgressConnections (max : Z) : RLPOption := fun r =>
  mkRLP (ctx_done r) (egressPort r) (egressServerOpts r) max (ingressAddrs r) (ingressDialOpts r)
    (healthAddr r) (health r) (finder r) (connector r) (egressServer r) (start_at r) (stop_at r) (graceful r) (effects r).

Definition default_rlp : RLP :=
  mkRLP false 0 [] 500 ["doppler.service.cf.internal"]%string [WithInsecure] "localhost:33333" None None None false
    SHealth TSignal GNone [].

Definition set_effects (r : RLP) (tr : list effect) : RLP :=
  mkRLP (ctx_done r) (egressPort r) (egressServerOpts r) (maxEgressConnections r) (ingressAddrs r) (ingressDialOpts r)
    (healthAddr r) (health r) (finder r) (connector r) (egressServer r) (start_at r) (stop_at r) (graceful r) tr.

Definition startEgressListener (r : RLP) : proc unit :=
  let port := Strconv.Itoa (egressPort r) in
  listen "tcp" (":" +:+ port) (fun err => Fatal ("failed to listen on port: " +:+ port +:+ ": " +:+ err)).

(** [NewRLP]: the options over the defaults, and the listening socket. *)
Definition NewRLP (opts : list RLPOption) : halt + RLP :=
  let r := foldl (fun r o => o r) default_rlp opts in
  match startEgressListener r (effects r) with
  | (_, inl h) => inl h
  | (tr, inr _) => inr (set_effects r tr)
  end.

Definition rlp_gauges : gmap string GaugeOpts := list_to_map
  [gauge_opts "reverseLogProxy" "subscriptionCount" "Number of open subscriptions"].

Definition setupHealthEndpoint (r : RLP) : proc Health.Registrar :=
  StartServer (healthAddr r);;
  health_New ord rlp_gauges.

(** One atomic part of the state. *)
Definition with_start (r : RLP) (h : option Health.Registrar) (f : option StaticFinder.t) (c : option GRPCConnector)
  (s : bool) (pc : start_pc) (tr : list effect) : RLP :=
  mkRLP (ctx_done r) (egressPort r) (egressServerOpts r) (maxEgressConnections r) (ingressAddrs r) (ingressDialOpts r)
    (healthAddr r) h f c s pc (stop_at r) (graceful r) tr.

Definition with_stop (r : RLP) (done : bool) (f : option StaticFinder.t) (c : option GRPCConnector) (pc : stop_pc)
  (g : graceful_pc) : RLP :=
  mkRLP done (egressPort r) (egressServerOpts r) (maxEgressConnections r) (ingressAddrs r) (ingressDialOpts r)
    (healthAddr r) (health r) f c (egressServer r) (start_at r) pc g (effects r).

(** The next statement of [Start], with those of [setupIngress]. *)
Definition Start_step (r : RLP) : halt + RLP :=
  match start_at r with
  | SHealth =>
      match setupHealthEndpoint r (effects r) with
      | (_, inl h) => inl h
      | (tr, inr reg) => inr (with_start r (Some reg) (finder r) (connector r) (egressServer r) SFinder tr)
      end
  | SFinder => inr (with_start r (health r) (Some (StaticFinder.NewStaticFinder (ingressAddrs r))) (connector r)
      (egressServer r) SConnector (effects r))
  | SConnector => inr (with_start r (health r) (finder r) (Some NewGRPCConnector) (egressServer r) SEgress (effects r))
  | SEgress => inr (with_start r (health r) (finder r) (connector r) true SServe (effects r))
  | SServe | SReturned => inr r
  end.

(** [serveEgress] when [Serve] returns, with [isDone]. *)
Definition serve_returns (err : option string) (r : RLP) : halt + RLP :=
  match start_at r with
  | SServe =>
      match err with
      | Some e => if ctx_done r then inr (with_start r (health r) (finder r) (connector r) (egressServer r) SReturned (effects r))
                  else inl (Fatal ("failed to serve: " +:+ e))
      | None => inr (with_start r (health r) (finder r) (connector r) (egressServer r) SReturned (effects r))
      end
  | _ => inr r
  end.

Definition nil_pointer : halt := Panic "invalid memory address or nil pointer dereference".

(** The signal arrives: [Stop] cancels the context and starts the goroutine. *)
Definition Stop_enter (r : RLP) : RLP :=
  match stop_at r with
  | TSignal => with_stop r true (finder r) (connector r) TFinder GCall
  | _ => r
  end.

(** The next statement of [Stop]; its return waits for the goroutine. *)
Definition Stop_step (r : RLP) : halt + RLP :=
  match stop_at r with
  | TSignal | TReturned => inr r
  | TFinder =>
      match finder r with
      | None => inl nil_pointer
      | Some f => inr (with_stop r (ctx_done r) (Some (StaticFinder.Stop f)) (connector r) (TClose (ingressAddrs r)) (graceful r))
      end
  | TClose (addr :: addrs) =>
      match connector r with
      | None => inl nil_pointer
      | Some c => inr (with_stop r (ctx_done r) (finder r) (Some (close_address addr c)) (TClose addrs) (graceful r))
      end
  | TClose [] => inr (with_stop r (ctx_done r) (finder r) (connector r) TWait (graceful r))
  | TWait =>
      if bool_decide (graceful r = GDone)
      then inr (with_stop r (ctx_done r) (finder r) (connector r) TReturned (graceful r)) else inr r
  end.

(** The goroutine of [Stop]; [GracefulStop] returns when the calls of the clients have. *)
Definition graceful_step (r : RLP) : halt + RLP :=
  match graceful r with
  | GCall => if egressServer r then inr (with_stop r (ctx_done r) (finder r) (connector r) (stop_at r) GStopping)
             else inl nil_pointer
  | GStopping => inr (with_stop r (ctx_done r) (finder r) (connector r) (stop_at r) GDone)
  | GNone | GDone => inr r
  end.

(** The connector's goroutines. *)
Inductive connector_step : Type :=
| CNext
| CSubscribe
| CContextDone (k : nat)
| CStart (n : nat)
| CReturn (n : nat).

Definition on_connector (r : RLP) (f : GRPCConnector -> GRPCConnector) : RLP :=
  with_stop r (ctx_done r) (finder r) (f <$> connector r) (stop_at r) (graceful r).

Definition step_connector (e : connector_step) (r : RLP) : RLP :=
  match e with
  | CNext =>
      match connector r, finder r ≫= StaticFinder.Next with
      | Some c, Some (ev, rest) =>
          with_stop r (ctx_done r) (Some rest) (Some (handleFinderEvent (GRPCDopplers ev) c)) (stop_at r) (graceful r)
      | _, _ => r
      end
  | CSubscribe => on_connector r (fun c => match Subscribe c with Ok (_, c') => c' | Err _ => c end)
  | CContextDone k => on_connector r (context_done k)
  | CStart n => on_connector r (consumeSubscription n)
  | CReturn n => on_connector r (consume_return n)
  end.

Inductive app_event : Type :=
| StartStep
| ServeReturns (err : option string)
| Signal
| StopStep
| GracefulStep
| ConnectorStep (e : connector_step).

Definition app_step (r : RLP) (e : app_event) : halt + RLP :=
  match e with
  | StartStep => Start_step r
  | ServeReturns err => serve_returns err r
  | Signal => inr (Stop_enter r)
  | StopStep => Stop_step r
  | GracefulStep => graceful_step r
  | ConnectorStep e => inr (step_connector e r)
  end.

Fixpoint app_run (l : list app_event) (r : RLP) : halt + RLP :=
  match l with
  | [] => inr r
  | e :: l => match app_step r e with inl h => inl h | inr r => app_run l r end
  end.

(** *** Invariant *)

Definition stop_event : Event := mkEvent [] [] [] [].

Definition past_finder (pc : stop_pc) : bool := match pc with TSignal | TFinder => false | _ => true end.
Definition has_finder (pc : start_pc) : bool := match pc with SHealth | SFinder => false | _ => true end.
Definition has_connector (pc : start_pc) : bool := match pc with SHealth | SFinder | SConnector => false | _ => true end.
Definition serving (pc : start_pc) : bool := match pc with SServe | SReturned => true | _ => false end.

(** The announcement of [Stop] is the last one, or it has been handled. *)
Definition finishing (q : StaticFinder.t) (c : option GRPCConnector) : Prop :=
  (exists q', q = q' ++ [stop_event]) \/ (q = [] /\ exists c', c = Some c' /\ draining c').

Record AppInv (r : RLP) : Prop := {
  a_finder : if has_finder (start_at r) then is_Some (finder r) else finder r = None;
  a_connector : if has_connector (start_at r) then is_Some (connector r) else connector r = None;
  a_server : egressServer r = serving (start_at r);
  a_counted : forall c, connector r = Some c -> counted c;
  a_ctx : stop_at r <> TSignal -> ctx_done r = true;
  a_graceful : graceful r = GNone <-> stop_at r = TSignal;
  a_finished : past_finder (stop_at r) = true -> exists q, finder r = Some q /\ finishing q (connector r)
}.

(** The options of rlp.go. *)
Inductive rlp_option : RLPOption -> Prop :=
| opt_port p : rlp_option (WithEgressPort p)
| opt_server x : rlp_option (WithEgressServerOptions x)
| opt_addrs x : rlp_option (WithIngressAddrs x)
| opt_dial x : rlp_option (WithIngressDialOptions x)
| opt_health x : rlp_option (WithHealthAddr x)
| opt_max x : rlp_option (WithMaxEgressConnections x).

Lemma NewRLP_Inv opts r : Forall rlp_option opts -> NewRLP opts = inr r -> AppInv r /\ stop_at r = TSignal.
Proof.
  intros Hopts. unfold NewRLP. set (f := fun r o => o r).
  enough (AppInv (foldl f default_rlp opts) /\ stop_at (foldl f default_rlp opts) = TSignal) as [[] Hs].
  { destruct (startEgressListener _ _) as [tr [h|u]]; [done|]. intros [= <-]. by split; [split|]. }
  assert (AppInv default_rlp /\ stop_at default_rlp = TSignal) as H0 by (by split; [split|]).
  revert H0. generalize default_rlp. induction Hopts as [|o opts Ho _ IH]; intros r0 [Hr Hs]; [done|]. simpl. apply IH.
  unfold f. destruct Hr. by destruct Ho; (split; [split|]).
Qed.

Lemma Start_step_Inv r r' : AppInv r -> Start_step r = inr r' -> AppInv r'.
Proof.
  intros []. unfold Start_step. destruct (start_at r) eqn:Es; simpl in *.
  - destruct (setupHealthEndpoint _ _) as [tr [h|reg]]; [done|]. intros [= <-]. by split.
  - intros [= <-]. split; simpl; try done. intros Hp. destruct (a_finished0 Hp) as (q & Hq & _). congruence.
  - intros [= <-]. split; simpl; try done.
    + intros c [= <-]. apply NewGRPCConnector_counted.
    + intros Hp. destruct (a_finished0 Hp) as (q & Hq & [Hf|(-> & c & Hc & _)]); [|congruence].
      exists q. split; [done|]. by left.
  - intros [= <-]. by split.
  - intros [= <-]. split; simpl; rewrite ?Es; done.
  - intros [= <-]. split; simpl; rewrite ?Es; done.
Qed.

Lemma serve_returns_Inv err r r' : AppInv r -> serve_returns err r = inr r' -> AppInv r'.
Proof.
  intros HI. unfold serve_returns. destruct (start_at r) eqn:Es; try (by intros [= <-]).
  assert (AppInv (with_start r (health r) (finder r) (connector r) (egressServer r) SReturned (effects r))) as Hr.
  { destruct HI. rewrite Es in *. by split. }
  destruct err as [e|]; [destruct (ctx_done r); [|done]|]; by intros [= <-].
Qed.

Lemma Stop_enter_Inv r : AppInv r -> AppInv (Stop_enter r).
Proof. intros HI. unfold Stop_enter. destruct (stop_at r) eqn:Es; try done. destruct HI. by split. Qed.

Lemma close_address_draining a c : draining c -> draining (close_address a c).
Proof. done. Qed.

Lemma Stop_step_Inv r r' : AppInv r -> Stop_step r = inr r' -> AppInv r'.
Proof.
  intros HI. unfold Stop_step. destruct (stop_at r) as [| |[|a l]| |] eqn:Es; try (by intros [= <-]).
  - destruct (finder r) as [f|] eqn:Ef; [|done]. intros [= <-]. destruct HI. rewrite Es, Ef in *.
    split; simpl; try done; [by destruct (has_finder _)|naive_solver..|]. intros _. exists (StaticFinder.Stop f).
    split; [done|]. left. by exists f.
  - intros [= <-]. destruct HI. rewrite Es in *. split; simpl; try done; naive_solver.
  - destruct (connector r) as [c|] eqn:Ec; [|done]. intros [= <-]. destruct HI. rewrite Es, Ec in *.
    split; simpl; try done; [by destruct (has_connector _)| |naive_solver..|].
    + intros c' [= <-]. apply close_address_counted; auto.
    + intros Hp. destruct (a_finished0 Hp) as (q & Hq & [Hf|(-> & c' & [= <-] & Hd)]); exists q || exists []; (split; [done|]).
      * by left.
      * right. split; [done|]. eauto using close_address_draining.
  - case_bool_decide as Hg; intros [= <-]; [|done]. destruct HI. rewrite Es, Hg in *. split; simpl; rewrite ?Hg; naive_solver.
Qed.

Lemma graceful_step_Inv r r' : AppInv r -> graceful_step r = inr r' -> AppInv r'.
Proof.
  intros HI. unfold graceful_step. destruct (graceful r) eqn:Eg; try (by intros [= <-]).
  - destruct (egressServer r); [|done]. intros [= <-]. destruct HI. rewrite Eg in *. split; simpl; try done. naive_solver.
  - intros [= <-]. destruct HI. rewrite Eg in *. split; simpl; try done. naive_solver.
Qed.

Lemma on_connector_Inv r f :
  (forall c, counted c -> counted (f c)) -> (forall c, counted c -> draining c -> draining (f c)) ->
  AppInv r -> AppInv (on_connector r f).
Proof.
  intros Hf Hd []. split; simpl; try done.
  - destruct (has_connector _); [by apply fmap_is_Some|by rewrite a_connector0].
  - intros c (c' & Hc & ->)%fmap_Some. auto.
  - intros Hp. destruct (a_finished0 Hp) as (q & Hq & [He|(-> & c & Hc & Hdr)]); [exists q|exists []]; (split; [done|]); [by left|].
    right. split; [done|]. exists (f c). rewrite Hc. split; [done|]. auto.
Qed.

Lemma step_connector_Inv e r : AppInv r -> AppInv (step_connector e r).
Proof.
  intros HI. destruct e as [| |k|n|n]; simpl.
  - destruct (connector r) as [c|] eqn:Ec; [|done]. destruct (finder r) as [q|] eqn:Ef; simpl; [|done].
    destruct q as [|ev rest]; simpl; [done|]. destruct HI. rewrite Ec, Ef in *. split; simpl; try done.
    + by destruct (has_finder _).
    + by destruct (has_connector _).
    + intros c' [= <-]. apply handleFinderEvent_counted; auto.
    + intros Hp. destruct (a_finished0 Hp) as (q & [= <-] & [(q' & Hq)|(? & _)]); [|done].
      exists rest. split; [done|]. destruct q' as [|ev' q']; injection Hq as -> ->; [|left; by exists q'].
      right. split; [done|]. eexists. split; [done|]. apply handleFinderEvent_nil_draining. auto.
  - apply on_connector_Inv; [| |done]; intros c Hc; destruct (Subscribe c) as [[k c']|] eqn:E; try done.
    + by eapply Subscribe_counted.
    + intros Hd. by eapply Subscribe_draining.
  - apply on_connector_Inv; [| |done]; intros c Hc; [by apply set_consumer_counted|done].
  - apply on_connector_Inv; [| |done]; intros c Hc; [by apply consumeSubscription_counted|].
    intros Hd. by apply consumeSubscription_draining.
  - apply on_connector_Inv; [| |done]; intros c Hc; [by apply consume_return_counted|].
    intros Hd. by apply consume_return_draining.
Qed.

Lemma app_step_Inv e r r' : AppInv r -> app_step r e = inr r' -> AppInv r'.
Proof.
  intros HI. destruct e; simpl.
  - by apply Start_step_Inv.
  - by apply serve_returns_Inv.
  - intros [= <-]. by apply Stop_enter_Inv.
  - by apply Stop_step_Inv.
  - by apply graceful_step_Inv.
  - intros [= <-]. by apply step_connector_Inv.
Qed.

Lemma app_run_Inv l r r' : AppInv r -> app_run l r = inr r' -> AppInv r'.
Proof.
  revert r. induction l as [|e l IH]; intros r HI; simpl; [by intros [= <-]|].
  destruct (app_step r e) as [h|r1] eqn:E; [done|]. apply IH. by eapply app_step_Inv.
Qed.

(** *** After the signal *)

(** [Stop] is running and was called when [Start] had set everything up. *)
Definition stopping (r : RLP) : Prop := AppInv r /\ serving (start_at r) = true /\ stop_at r <> TSignal.

Lemma app_step_stopping r e : stopping r -> exists r', app_step r e = inr r' /\ stopping r'.
Proof.
  intros (HI & Hs & Ht). enough (exists r', app_step r e = inr r' /\ serving (start_at r') = true /\ stop_at r' <> TSignal)
    as (r' & E & Hs' & Ht') by (exists r'; split; [done|]; by split; [eapply app_step_Inv|]).
  pose proof (a_ctx _ HI Ht) as Hc. pose proof (a_finder _ HI) as Hf. pose proof (a_connector _ HI) as Hn.
  pose proof (a_server _ HI) as Hv.
  assert (is_Some (finder r) /\ is_Some (connector r) /\ egressServer r = true) as ([f Ef] & [c Ec] & Ev)
    by (destruct (start_at r); done).
  destruct e as [|err| | | |e]; simpl.
  - unfold Start_step. destruct (start_at r) eqn:Es; try done; exists r; by rewrite Es.
  - unfold serve_returns. destruct (start_at r) eqn:Es; try done; [|exists r; by rewrite Es].
    rewrite Hc. destruct err; (eexists; split; [reflexivity|done]).
  - exists (Stop_enter r). unfold Stop_enter. by destruct (stop_at r) eqn:Et; rewrite ?Et.
  - unfold Stop_step. rewrite Ef, Ec. destruct (stop_at r) as [| |[|a l]| |] eqn:Et; try (by eexists; split; [reflexivity|]).
    + case_bool_decide; (eexists; split; [reflexivity|]); by rewrite ?Et.
    + exists r. by rewrite Et.
  - unfold graceful_step. rewrite Ev. destruct (graceful r); by (eexists; split; [reflexivity|]).
  - exists (step_connector e r). split; [done|]. destruct e; simpl; rewrite ?Ef, ?Ec; try done.
    simpl. by destruct f as [|ev f].
Qed.

Lemma app_run_stopping l r : stopping r -> exists r', app_run l r = inr r' /\ stopping r'.
Proof.
  revert r. induction l as [|e l IH]; intros r Hr; simpl; [eauto|].
  destruct (app_step_stopping r e Hr) as (r1 & -> & H1). by apply IH.
Qed.

Lemma app_run_app l k r : app_run (l ++ k) r = match app_run l r with inl h => inl h | inr r => app_run k r end.
Proof. revert r. induction l as [|e l IH]; intros r; simpl; [done|]. destruct (app_step r e); auto. Qed.

(** Some schedule leads from one state to the other. *)
Definition reaches (r r' : RLP) : Prop := exists l, app_run l r = inr r'.

Lemma reaches_refl r : reaches r r.
Proof. by exists []. Qed.

Lemma reaches_step r e r1 r' : app_step r e = inr r1 -> reaches r1 r' -> reaches r r'.
Proof. intros E [l Hl]. exists (e :: l). simpl. by rewrite E. Qed.

Lemma reaches_trans r r1 r' : reaches r r1 -> reaches r1 r' -> reaches r r'.
Proof. intros [l Hl] [k Hk]. exists (l ++ k). by rewrite app_run_app, Hl. Qed.

Lemma reaches_stopping r r' : stopping r -> reaches r r' -> stopping r'.
Proof. intros Hr [l Hl]. destruct (app_run_stopping l r Hr) as (x & E & Hx). congruence. Qed.

(** [Stop] gets to its wait. *)
Lemma reaches_wait r : stopping r -> exists r', reaches r r' /\ (stop_at r' = TWait \/ stop_at r' = TReturned).
Proof.
  intros Hr. assert (exists r', reaches r r' /\ stopping r' /\ stop_at r' <> TFinder) as (r1 & H1 & Hr1 & Hne).
  { destruct (decide (stop_at r = TFinder)) as [E|E]; [|exists r; eauto using reaches_refl].
    destruct (app_step_stopping r StopStep Hr) as (r' & Es & Hr'). exists r'.
    split; [by eapply reaches_step, reaches_refl|]. split; [done|].
    simpl in Es. unfold Stop_step in Es. rewrite E in Es. destruct (finder r); [|done]. by injection Es as <-. }
  enough (exists r', reaches r1 r' /\ (stop_at r' = TWait \/ stop_at r' = TReturned)) as (r' & H2 & Hr')
    by (exists r'; eauto using reaches_trans).
  destruct (stop_at r1) as [| |l| |] eqn:Es; [by destruct Hr1 as (_ & _ & Ht)|done| |eauto using reaches_refl..].
  clear -Hr1 Es. revert r1 Hr1 Es. induction l as [|a l IH]; intros r1 Hr1 Es;
    destruct (app_step_stopping r1 StopStep Hr1) as (r2 & E2 & Hr2); pose proof E2 as E2';
    simpl in E2'; unfold Stop_step in E2'; rewrite Es in E2'.
  - injection E2' as <-. eexists. split; [by eapply reaches_step, reaches_refl|by left].
  - destruct (connector r1); [|done]. injection E2' as <-.
    destruct (IH _ Hr2 eq_refl) as (r' & Hr' & Ht). exists r'. split; [by eapply reaches_step|done].
Qed.

(** [GracefulStop] returns. *)
Lemma reaches_graceful r : stopping r -> exists r', reaches r r' /\ graceful r' = GDone /\ stop_at r' = stop_at r.
Proof.
  intros (HI & Hs & Ht). pose proof (a_graceful _ HI) as Hg. pose proof (a_server _ HI) as Hv. rewrite Hs in Hv.
  destruct (graceful r) eqn:Eg.
  - by destruct Ht, Hg as [Hg _]; apply Hg.
  - eexists. split; [|split].
    + eapply (reaches_step _ GracefulStep); [simpl; unfold graceful_step; rewrite Eg, Hv; reflexivity|].
      eapply (reaches_step _ GracefulStep); [reflexivity|]. apply reaches_refl.
    + done.
    + done.
  - eexists. split; [|split].
    + eapply (reaches_step _ GracefulStep); [simpl; unfold graceful_step; rewrite Eg; reflexivity|]. apply reaches_refl.
    + done.
    + done.
  - exists r. eauto using reaches_refl.
Qed.

Lemma reaches_returned r : stopping r -> exists r', reaches r r' /\ stop_at r' = TReturned.
Proof.
  intros Hr. destruct (reaches_wait r Hr) as (r1 & H1 & [E|E]); [|by exists r1].
  pose proof (reaches_stopping _ _ Hr H1) as Hr1. destruct (reaches_graceful r1 Hr1) as (r2 & H2 & Eg & E2).
  eexists. split; [eapply reaches_trans, reaches_trans; [exact H1|exact H2|]|].
  - eapply (reaches_step _ StopStep), reaches_refl. simpl. unfold Stop_step. rewrite E2, E.
    rewrite bool_decide_eq_true_2 by done. reflexivity.
  - done.
Qed.

(** The connector handles the announcements that are left. *)
Lemma reaches_handled r : stopping r -> stop_at r = TReturned ->
  exists r', reaches r r' /\ stop_at r' = TReturned /\ finder r' = Some [].
Proof.
  intros Hr Et. pose proof Hr as (HI & Hs & _). destruct (a_finished _ HI) as (q & Hq & _); [by rewrite Et|].
  revert r Hr Et HI Hs Hq. induction q as [|ev q IH]; intros r Hr Et HI Hs Hq; [exists r; eauto using reaches_refl|].
  pose proof (a_connector _ HI) as Hn. assert (is_Some (connector r)) as [c Ec] by (destruct (start_at r); done).
  assert (app_step r (ConnectorStep CNext) =
    inr (with_stop r (ctx_done r) (Some q) (Some (handleFinderEvent (GRPCDopplers ev) c)) (stop_at r) (graceful r))) as E.
  { simpl. by rewrite Ec, Hq. }
  destruct (app_step_stopping r (ConnectorStep CNext) Hr) as (r1 & E1 & Hr1). rewrite E in E1. injection E1 as <-.
  destruct (IH _ Hr1) as (r' & H' & Hr'); [done|apply Hr1|done|done|]. exists r'. split; [by eapply reaches_step|done].
Qed.

Lemma disconnected c g : counted c -> draining c -> g ∈ goroutines c -> disconnect (info c (g_client g)) = true.
Proof. intros Hc Hd Hg. destruct (k_removed c Hc (g_client g)) as [Hin|H1]; [by apply Hc|by apply Hd|done]. Qed.

(** A goroutine of a stopped connector runs to its end. *)
Lemma goroutine_returns c : counted c -> draining c -> goroutines c <> [] ->
  exists c', (c' = consumeSubscription 0 c \/ c' = consume_return 0 c \/ c' = consume_return 0 (consumeSubscription 0 c))
    /\ (length (goroutines c') < length (goroutines c))%nat.
Proof.
  intros Hc Hd Hne. destruct (goroutines c) as [|[k i b] l] eqn:Eg; [done|].
  assert (disconnect (info c i) = true) as Hi.
  { apply (disconnected c (mkGoroutine k i b)); [done|done|]. rewrite Eg. set_solver. }
  destruct b.
  - exists (consume_return 0 c). split; [by auto|]. unfold consume_return. rewrite Eg. cbn [lookup list_lookup].
    rewrite Hi, orb_true_r. destruct (_ && _); simpl; rewrite ?Eg; simpl; lia.
  - destruct (decide (uri (info c i) ∈ dopplers (consumer c k))) as [Hin|Hin].
    + exists (consumeSubscription 0 c). split; [by auto|]. unfold consumeSubscription, tryAddDoppler. rewrite Eg. cbn [lookup list_lookup].
      rewrite bool_decide_eq_true_2 by done. simpl. lia.
    + exists (consume_return 0 (consumeSubscription 0 c)). split; [by auto|].
      set (c1 := consumeSubscription 0 c).
      assert (goroutines c1 = mkGoroutine k i true :: l /\ disconnect (info c1 i) = true) as [Eg1 Hi1].
      { unfold c1, consumeSubscription, tryAddDoppler. rewrite Eg. cbn [lookup list_lookup].
        rewrite bool_decide_eq_false_2 by done. split; [by simpl; rewrite Eg|]. unfold info. simpl.
        rewrite lookup_insert_eq. done. }
      unfold consume_return. rewrite Eg1. cbn [lookup list_lookup]. rewrite Hi1, orb_true_r.
      destruct (_ && _); simpl; rewrite ?Eg1; simpl; lia.
Qed.

(** All goroutines of the connector return. *)
Lemma reaches_idle r c : stopping r -> stop_at r = TReturned -> finder r = Some [] -> connector r = Some c ->
  exists r' c', reaches r r' /\ stop_at r' = TReturned /\ finder r' = Some [] /\ connector r' = Some c' /\ goroutines c' = [].
Proof.
  remember (length (goroutines c)) as n eqn:En. revert r c En.
  induction n as [n IH] using lt_wf_ind. intros r c -> Hr Et Ef Ec.
  destruct (decide (goroutines c = [])) as [E|E]; [exists r, c; eauto 10 using reaches_refl|].
  pose proof Hr as (HI & _ & _). destruct (a_finished _ HI) as (q & Hq & Hfin); [by rewrite Et|].
  assert (draining c) as Hd.
  { rewrite Ef in Hq. injection Hq as <-. destruct Hfin as [(q' & Hq')|(_ & c' & Hc' & Hd)]; [by destruct q'|].
    by assert (c' = c) as <- by congruence. }
  destruct (goroutine_returns c) as (c' & Hc' & Hlt); [by apply (a_counted _ HI)|done|done|].
  assert (reaches r (on_connector r (fun _ => c'))) as H1.
  { unfold on_connector. rewrite Ec. simpl.
    destruct Hc' as [-> | [-> | ->]].
    - eapply (reaches_step _ (ConnectorStep (CStart 0))), reaches_refl. simpl. unfold on_connector. by rewrite Ec.
    - eapply (reaches_step _ (ConnectorStep (CReturn 0))), reaches_refl. simpl. unfold on_connector. by rewrite Ec.
    - eapply (reaches_step _ (ConnectorStep (CStart 0))); [reflexivity|].
      eapply (reaches_step _ (ConnectorStep (CReturn 0))), reaches_refl. simpl. unfold on_connector. by rewrite Ec. }
  destruct (IH (length (goroutines c')) Hlt (on_connector r (fun _ => c')) c') as (r' & c'' & H2 & H3); [done| |done|done| |].
  - by eapply reaches_stopping.
  - unfold on_connector. by rewrite Ec.
  - exists r', c''. split; [by eapply reaches_trans|done].
Qed.

(** The connector of a stopping proxy is clean once it is idle. *)
Lemma stopping_clean r c : stopping r -> past_finder (stop_at r) = true -> finder r = Some [] -> connector r = Some c ->
  goroutines c = [] -> clients c = [] /\ pool c = ∅.
Proof.
  intros (HI & _ & _) Hp Hf Hc. apply drained; [by apply (a_counted _ HI)|].
  destruct (a_finished _ HI Hp) as (q & Hq & [(q' & ->)|(_ & c' & Hc' & Hd)]).
  - rewrite Hf in Hq. injection Hq as Hq. by destruct q'.
  - by assert (c' = c) as <- by congruence.
Qed.


End App.

(** ** The gauges of all processes *)

Section Health.

Context {Cert CAs : Type} `{Environment Cert CAs}.
Context {DialOption ServerOption : Type} (WithInsecure : DialOption) (ord : RangeOrder string).

Abbreviation RLP_ := (RLP (DialOption := DialOption) (ServerOption := ServerOption)).

Definition health_ok (r : RLP_) : Prop :=
  forall h, health r = Some h -> h = Health.mkRegistrar ((fun _ => 0) <$> rlp_gauges).

Lemma app_step_health r e r' : health_ok r -> app_step ord r e = inr r' -> health_ok r'.
Proof.
  intros Hr. destruct e as [|err| | | |e]; simpl.
  - unfold Start_step. destruct (start_at r); try (by intros [= <-]).
    destruct (setupHealthEndpoint _ _ _) as [tr [x|reg]] eqn:E; [done|]. intros [= <-] h [= <-].
    unfold setupHealthEndpoint in E. proc_inv E.
    by eapply health_New_inv.
  - unfold serve_returns. destruct (start_at r); try (by intros [= <-]).
    destruct err, (ctx_done r); try done; by intros [= <-].
  - intros [= <-]. unfold Stop_enter. by destruct (stop_at r).
  - unfold Stop_step. destruct (stop_at r) as [| |[|a l]| |]; try (by intros [= <-]).
    + destruct (finder r); [|done]. by intros [= <-].
    + destruct (connector r); [|done]. by intros [= <-].
    + case_bool_decide; by intros [= <-].
  - unfold graceful_step. destruct (graceful r), (egressServer r); try done; by intros [= <-].
  - intros [= <-]. destruct e; try done. simpl. destruct (connector r); [|done].
    by destruct (finder r ≫= StaticFinder.Next) as [[ev rest]|].
Qed.

Lemma app_run_health l r r' : health_ok r -> app_run ord l r = inr r' -> health_ok r'.
Proof.
  revert r. induction l as [|e l IH]; intros r Hr; simpl; [by intros [= <-]|].
  destruct (app_step ord r e) as [h|r1] eqn:E; [done|]. apply IH. by eapply app_step_health.
Qed.

Lemma NewRLP_health opts r : Forall rlp_option opts -> NewRLP WithInsecure opts = inr r -> health_ok r.
Proof.
  intros Hopts. unfold NewRLP. set (f := fun r o => o r).
  enough (health (foldl f (default_rlp WithInsecure) opts) = None) as Hn.
  { destruct (startEgressListener _ _) as [tr [h|u]]; [done|]. intros [= <-] h. simpl. congruence. }
  assert (health (default_rlp (ServerOption := ServerOption) WithInsecure) = None) as H0 by done.
  revert H0. generalize (default_rlp (ServerOption := ServerOption) WithInsecure).
  induction Hopts as [|o opts Ho _ IH]; intros r0 Hr; [done|]. simpl. apply IH. by destruct Ho.
Qed.


End Health.

(** ** Examples *)

Import WorkingEnv.

Module RlpExample.

Abbreviation start := (NewRLP (Cert := string) (CAs := string) (ServerOption := string) "insecure"%string
  [WithIngressAddrs ["10.0.0.1:8082"; "10.0.0.2:8082"]; WithEgressPort 8088]%string).

Abbreviation run := (app_run (Cert := string) (CAs := string) (DialOption := string) (ServerOption := string) default_order).

Definition started : RLP :=
  match start with
  | inl _ => default_rlp "insecure"%string
  | inr r => match run [StartStep; StartStep; StartStep; StartStep; ConnectorStep CNext; ConnectorStep CSubscribe;
                        ConnectorStep (CStart 0)] r with inr r => r | inl _ => r end
  end.

End RlpExample.

(** A signal before [Start] has created the finder makes [Stop] dereference a nil pointer. *)
Lemma rlp_early_signal r0 : RlpExample.start = inr r0 -> RlpExample.run [Signal; StopStep] r0 = inl nil_pointer.
Proof. intros [= <-]. reflexivity. Qed.

Lemma run_signal s r' : RlpExample.run [Signal] s = inr r' -> r' = Stop_enter s.
Proof. by intros [= <-]. Qed.


