(* ===== verification/Probe.v ===== *)
(** * tools/rlpwriter and tools/rlpreader: a probe of the reverse log proxy

    rlpwriter stands in for a doppler and sends numbered log envelopes, rlpreader subscribes at
    the reverse log proxy and remembers the last number it saw; comparing the two numbers shows
    what is lost in between.  [Probe] puts the subscription of [Rlp] between them.  The
    command line flags, the wire format and the random source are arguments. *)

From Stdlib Require Import Ascii.
From S2P Require Import Prelude Go Events Router Conversion ConversionRoundTrip MetricEmitter Rlp EndToEnd Tls Config Process.

Local Open Scope Z_scope.

(** ** rlpwriter/main.go *)

Module RlpWriter.

(** [strings.Repeat] of a character. *)
Fixpoint Repeat (a : ascii) (n : nat) : string :=
  match n with O => EmptyString | S n => String a (Repeat a n) end.

Definition msg1K : string := Repeat "J" (N.to_nat 1024).

Record server : Type := mkServer { report : gmap string Z }.

Definition newServer : server := mkServer ∅.

Definition set (appID : string) (v : Z) (s : server) : server := mkServer (<[appID := v]> (report s)).

(** [ServeHTTP] encodes the report. *)
Definition ServeHTTP (Encode : gmap string Z -> string) (s : server) : string := Encode (report s).

Definition envelope (appID : string) (lastIdx : Z) : V1.Envelope :=
  V1.mkEnvelope (Some "rlpwriter"%string) (Some V1.Envelope_LogMessage) None None None None None
    {["idx"%string := Strconv.Itoa lastIdx]} None
    (Some (V1.mkLogMessage msg1K (Some V1.LogMessage_OUT) (Some 1234) (Some appID) None None)) None None None None.

(** Where a call of [Subscribe] is: before [Send] of the index, before [set], or returned. *)
Inductive phase : Type := Sending (lastIdx : Z) | Setting (lastIdx : Z) | Returned.

Section Subscribe.

Context (marshal : V1.Envelope -> option string).

(** The address of a field of a nil filter panics; [err] is the answer of [Send]. *)
Definition Subscribe_send (req : SubscriptionRequest) (lastIdx : Z) (err : option string)
  : halt + (phase * option string) :=
  match Filter req with
  | None => inl (Panic "invalid memory address or nil pointer dereference")
  | Some (appID, _) =>
      match marshal (envelope appID lastIdx) with
      | None => inl (Fatal "error while marshalling")
      | Some data =>
          match err with
          | Some _ => inr (Returned, None)
          | None => inr (Setting lastIdx, Some data)
          end
      end
  end.

Definition Subscribe_set (req : SubscriptionRequest) (lastIdx : Z) (s : server) : halt + (phase * server) :=
  match Filter req with
  | None => inl (Panic "invalid memory address or nil pointer dereference")
  | Some (appID, _) => inr (Sending (Words.int64 (lastIdx + 1)), set appID lastIdx s)
  end.

End Subscribe.

(** What [main] sets up before it serves gRPC and HTTP. *)
Record flags : Type := mkFlags { grpcAddr : string; httpAddr : string; certFile : string; keyFile : string; caFile : string }.

Definition main {Cert CAs} `{Environment Cert CAs} (f : flags) : proc server :=
  r ← may_panic (NewServerCredentials (certFile f) (keyFile f) (caFile f) []);
  check r Fatal;;
  listen "tcp" (grpcAddr f) (fun err => Fatal ("failed to listen: " +:+ err));;
  listen "tcp" (httpAddr f) Fatal;;
  mret newServer.

End RlpWriter.

(** ** rlpreader/main.go *)

Module RlpReader.

(** [randString] of what [rand.Read] answers. *)
Definition randString (b : result (list Z)) : halt + string :=
  match b with
  | Err err => inl (Panic ("unable to read randomness " +:+ err +:+ ":"))
  | Ok b => inr (hex b)
  end.

Definition buildShardId (b : result (list Z)) : halt + string :=
  match randString b with inl h => inl h | inr s => inr ("rlp-reader-" +:+ s) end.

(** The request [main] sends. *)
Definition egress_request (shard appID : string) : EgressRequest :=
  mkEgressRequest shard (Some (mkV2Filter appID (Some Filter_Log))) true.

Record flags : Type := mkFlags {
  target : string; httpAddr : string; appID : string; certFile : string; keyFile : string; caFile : string }.

(** [main] up to the call of [Receiver]. *)
Definition main {Cert CAs} `{Environment Cert CAs} (f : flags) (random : result (list Z)) : proc EgressRequest :=
  check (NewClientCredentials (certFile f) (keyFile f) (caFile f) "reverselogproxy") Fatal;;
  succeed (grpc_Dial (target f)) Fatal;;
  match buildShardId random with
  | inl h => stop h
  | inr shard => mret (egress_request shard (appID f))
  end.

Record idxReporter : Type := mkReporter { lastIdx : Z }.

Definition set (v : Z) (r : idxReporter) : idxReporter := mkReporter v.

(** [ServeHTTP] encodes the number. *)
Definition ServeHTTP (r : idxReporter) : string := Strconv.Itoa (lastIdx r).

(** A turn of the goroutine that reads: the envelope it receives. *)
Definition read_turn (env : owned_envelope) (r : idxReporter) : halt + idxReporter :=
  match Strconv.ParseInt (str (read env.1 (V2.Tags env.2) !! "idx"%string)) 64 with
  | None => inl (Fatal "strconv.ParseInt: parsing: invalid syntax")
  | Some lastIdx => inr (set lastIdx r)
  end.

End RlpReader.

(** ** The probe *)

Section Probe.

Context (marshal : V1.Envelope -> option string) (Unmarshal : string -> result V1.Envelope).
Context (Method_name PeerType_name : Z -> string) (ord : RangeOrder string).
(** What protobuf documents: a log envelope can be encoded, and decodes to itself. *)
Context (encodes : forall appID i, 0 <= i < 2 ^ 63 -> is_Some (marshal (RlpWriter.envelope appID i))).
Context (decodes : forall v p, marshal v = Some p -> Unmarshal p = Ok v).

#[local] Instance probe_conv : EnvelopeConverter owned_envelope := envelopeConverter Unmarshal Method_name PeerType_name ord.
#[local] Instance probe_total : ConverterTotal owned_envelope := envelopeConverter_total Unmarshal Method_name PeerType_name ord.

(** The writer with what its streams have accepted, how much of it the proxy has received, the
    proxy's subscription, and the reader with the envelopes and numbers it has read. *)
Record Probe : Type := mkProbe {
  writer : RlpWriter.server; at_ : RlpWriter.phase; wrote : list string; forwarded : nat;
  sub : subscription (E := owned_envelope);
  reporter : RlpReader.idxReporter; got : list owned_envelope; seen : list Z
}.

Inductive probe_event : Type :=
| WriterSend (err : option string)
| WriterSet
| ProxyReceives
| ProxyLoses
| ProxySends (ok : bool)
| ReaderReceives.

Definition on_proxy (p : Probe) (n : nat) (ev : server_event) : halt + Probe :=
  match Rlp.server_step (sub p) ev with
  | Panics why => inl (Panic why)
  | Returns x => inr (mkProbe (writer p) (at_ p) (wrote p) n x (reporter p) (got p) (seen p))
  end.

Definition probe_step (p : Probe) (e : probe_event) : halt + Probe :=
  let req := convertRequest (request (sub p)) in
  match e with
  | WriterSend err =>
      match at_ p with
      | RlpWriter.Sending i =>
          match RlpWriter.Subscribe_send marshal req i err with
          | inl h => inl h
          | inr (ph, data) => inr (mkProbe (writer p) ph (wrote p ++ option_list data) (forwarded p) (sub p) (reporter p)
                                     (got p) (seen p))
          end
      | _ => inr p
      end
  | WriterSet =>
      match at_ p with
      | RlpWriter.Setting i =>
          match RlpWriter.Subscribe_set req i (writer p) with
          | inl h => inl h
          | inr (ph, s) => inr (mkProbe s ph (wrote p) (forwarded p) (sub p) (reporter p) (got p) (seen p))
          end
      | _ => inr p
      end
  | ProxyReceives =>
      match wrote p !! forwarded p with
      | None => inr p
      | Some data => on_proxy p (S (forwarded p)) (RxData data)
      end
  | ProxyLoses => on_proxy p (forwarded p) RxError
  | ProxySends ok => on_proxy p (forwarded p) (SendNext ok)
  | ReaderReceives =>
      match Rlp.sent (sub p) !! length (got p) with
      | None => inr p
      | Some env =>
          match RlpReader.read_turn env (reporter p) with
          | inl h => inl h
          | inr r => inr (mkProbe (writer p) (at_ p) (wrote p) (forwarded p) (sub p) r (got p ++ [env])
                            (seen p ++ [RlpReader.lastIdx r]))
          end
      end
  end.

Fixpoint probe_run (l : list probe_event) (p : Probe) : halt + Probe :=
  match l with
  | [] => inr p
  | e :: l => match probe_step p e with inl h => inl h | inr p => probe_run l p end
  end.

Definition probe_start (h : Health.Registrar) (shard appID : string) : outcome Probe :=
  match Receiver_start h (RlpReader.egress_request shard appID) true with
  | Panics why => Panics why
  | Returns x => Returns (mkProbe RlpWriter.newServer (RlpWriter.Sending 0) [] 0 x (RlpReader.mkReporter 0) [] [])
  end.

(** *** What the reader finds in an envelope of the writer *)

Definition index_of (env : owned_envelope) : option Z :=
  Strconv.ParseInt (str (read env.1 (V2.Tags env.2) !! "idx"%string)) 64.

Lemma converted_index shard appID i p w : 0 <= i < 2 ^ 63 ->
  marshal (RlpWriter.envelope appID i) = Some p -> converted (RlpReader.egress_request shard appID) p = Some w ->
  index_of w = Some i.
Proof.
  intros Hi Hp. unfold converted, Convert, probe_conv, envelopeConverter, envelopeConverter_Convert. rewrite (decodes _ _ Hp).
  set (e := RlpWriter.envelope appID i). cbn [alloc maps next_map UsePreferredTags RlpReader.egress_request].
  pose proof (ToV2_preferred Method_name PeerType_name ord (mkHeap (<[0%nat := V1.Tags e]> ∅) 1) (Rlp.with_tags e (Some 0%nat)) 0
    (V1.Tags e) eq_refl (lookup_insert_eq _ _ _)) as H2. unfold toV2 in H2. rewrite H2. intros [= <-].
  unfold index_of. cbn [fst snd v2_shared V2.Tags]. rewrite read_cell, v2_tags_other, set_all_lookup_ne.
  - rewrite lookup_singleton_eq. cbn [str default]. apply Strconv.ParseInt_Itoa. lia.
  - by vm_compute; set_solver.
  - by vm_compute; set_solver.
  - done.
  - done.
Qed.

(** *** Invariant *)

Definition written (appID : string) (n : nat) (l : list string) : Prop :=
  Forall2 (fun i p => marshal (RlpWriter.envelope appID (Z.of_nat i)) = Some p) (seq 0 n) l.

(** The last number the writer has reported. *)
Definition reported (appID : string) (n : nat) (s : RlpWriter.server) : Prop :=
  RlpWriter.report s !! appID = match n with O => None | S k => Some (Z.of_nat k) end.

Definition phase_ok (appID : string) (n : nat) (p : Probe) : Prop :=
  match at_ p with
  | RlpWriter.Sending i => i = Z.of_nat n /\ reported appID n (writer p)
  | RlpWriter.Setting i => exists k, n = S k /\ i = Z.of_nat k /\ reported appID k (writer p)
  | RlpWriter.Returned => reported appID n (writer p)
  end.

Record probe_ok (h : Health.Registrar) (shard appID : string) (n : nat) (p : Probe) : Prop := {
  p_phase : phase_ok appID n p;
  p_wrote : written appID n (wrote p);
  p_sub : sub_ok h (sub p);
  p_request : request (sub p) = RlpReader.egress_request shard appID;
  p_received : received (sub p) `sublist_of`
    omap (converted (RlpReader.egress_request shard appID)) (take (forwarded p) (wrote p));
  p_got : got p `prefix_of` Rlp.sent (sub p);
  p_seen : Forall2 (fun w i => index_of w = Some i) (got p) (seen p);
  p_last : RlpReader.lastIdx (reporter p) = default 0 (last (seen p))
}.

(** The numbers of envelopes that came from the writer. *)
Lemma indices_written shard appID n l w :
  Z.of_nat n <= 2 ^ 63 -> written appID n l -> w `sublist_of` omap (converted (RlpReader.egress_request shard appID)) l ->
  omap index_of w `sublist_of` Z.of_nat <$> seq 0 n /\ Forall (fun e => is_Some (index_of e)) w.
Proof.
  unfold written. intros Hn Hl Hw. revert w Hw. assert (forall i, i ∈ seq 0 n -> 0 <= Z.of_nat i < 2 ^ 63) as Hb
    by (intros i Hi%elem_of_seq; lia). revert Hb.
  induction Hl as [|i p js l Hp Hl IH]; intros Hb w Hw.
  - apply sublist_nil_r in Hw as ->. done.
  - cbn [omap list_omap fmap list_fmap] in *. assert (forall j, j ∈ js -> 0 <= Z.of_nat j < 2 ^ 63) as Hb' by (intros; apply Hb; set_solver).
    destruct (converted _ p) as [e|] eqn:Ec.
    + assert (index_of e = Some (Z.of_nat i)) as He by (eapply converted_index; [apply Hb; set_solver|done|done]).
      apply sublist_cons_r in Hw as [Hw|(w' & -> & Hw)].
      * destruct (IH Hb' w Hw). split; [by apply sublist_cons|done].
      * destruct (IH Hb' w' Hw). cbn [omap list_omap]. rewrite He. split; [by apply sublist_skip|].
        constructor; [by rewrite He|done].
    + destruct (IH Hb' w Hw). split; [by apply sublist_cons|done].
Qed.

Lemma proxy_sent x ev x' : Rlp.server_step x ev = Returns x' -> Rlp.sent x `prefix_of` Rlp.sent x'.
Proof.
  unfold Rlp.server_step, consumeReceiver_turn, send_turn, stop_receiving, finish.
  repeat case_match; intros ?; simplify_eq; cbn in *; simplify_eq/=; try done; by apply prefix_app_r.
Qed.

Lemma on_proxy_ok h shard appID n p k ev :
  is_Some (Health.gauges h !! Rlp.subscriptionCount) -> probe_ok h shard appID n p ->
  (match ev with RxData d => k = S (forwarded p) /\ wrote p !! forwarded p = Some d | _ => k = forwarded p end) ->
  exists p', on_proxy p k ev = inr p' /\ probe_ok h shard appID n p'.
Proof.
  intros Hg [Hph Hw Hs Hr Hrec Hgot Hseen Hlast] Hk. unfold on_proxy.
  destruct (server_step_ok h (sub p) ev Hg Hs) as (x & E & Hx). rewrite E. eexists. split; [done|].
  destruct (sub_received _ _ _ E) as [Hr' Hrec']. pose proof (proxy_sent _ _ _ E) as Hsent.
  split; cbn [sub wrote forwarded got seen reporter at_ writer]; try done; [by rewrite Hr'| |by etrans].
  rewrite Hrec', Hr. destruct ev as [|d|ok]; [subst; by rewrite app_nil_r| |subst; by rewrite app_nil_r].
  destruct Hk as [-> Hd]. rewrite (take_S_r _ _ _ Hd), omap_app. destruct (receiving (sub p)).
  - apply sublist_app; [done|]. cbn. by destruct (converted _ d).
  - apply sublist_app; [done|]. apply sublist_nil_l.
Qed.

Lemma writer_send_ok h shard appID n p err :
  Z.of_nat n < 2 ^ 63 -> probe_ok h shard appID n p ->
  exists p' n', probe_step p (WriterSend err) = inr p' /\ probe_ok h shard appID n' p' /\ (n' <= S n)%nat.
Proof.
  intros Hn HI. pose proof HI as [Hph Hw Hs Hr Hrec Hgot Hseen Hlast]. cbn [probe_step]. unfold phase_ok in Hph.
  destruct (at_ p) as [i|i|] eqn:Ea; [|exists p, n; auto..]. destruct Hph as [-> Hrep].
  unfold RlpWriter.Subscribe_send. rewrite Hr. cbn [convertRequest convertV2Filter Filter RlpReader.egress_request Filter_ SourceId].
  destruct (encodes appID (Z.of_nat n)) as [data Hd]; [lia|]. rewrite Hd. destruct err as [err|].
  - eexists _, n. split; [done|]. split; [|lia]. cbn [option_list]. rewrite app_nil_r. by split.
  - eexists _, (S n). split; [done|]. split; [|done]. split; cbn [sub wrote forwarded got seen reporter at_ writer]; try done.
    + by exists n.
    + unfold written. rewrite seq_S. apply Forall2_app; [done|]. by constructor.
    + etrans; [exact Hrec|]. apply sublist_omap. rewrite take_app. by apply sublist_inserts_r.
Qed.

Lemma writer_set_ok h shard appID n p :
  Z.of_nat n < 2 ^ 63 -> probe_ok h shard appID n p ->
  exists p', probe_step p WriterSet = inr p' /\ probe_ok h shard appID n p'.
Proof.
  intros Hn HI. pose proof HI as [Hph Hw Hs Hr Hrec Hgot Hseen Hlast]. cbn [probe_step]. unfold phase_ok in Hph.
  destruct (at_ p) as [i|i|] eqn:Ea; [eauto| |eauto]. destruct Hph as (k & -> & -> & Hrep).
  unfold RlpWriter.Subscribe_set. rewrite Hr. cbn [convertRequest convertV2Filter Filter RlpReader.egress_request Filter_ SourceId].
  eexists. split; [done|]. split; cbn [sub wrote forwarded got seen reporter at_ writer]; try done.
  split; [change (Words.swrap 64 (Z.of_nat k + 1) = Z.of_nat (S k)); rewrite Words.swrap_small; lia|]. unfold reported. cbn. apply lookup_insert_eq.
Qed.

Lemma reader_ok h shard appID n p :
  Z.of_nat n <= 2 ^ 63 -> probe_ok h shard appID n p ->
  exists p', probe_step p ReaderReceives = inr p' /\ probe_ok h shard appID n p'.
Proof.
  intros Hn HI. pose proof HI as [Hph Hw Hs Hr Hrec [t Hgot] Hseen Hlast]. cbn [probe_step].
  destruct (Rlp.sent (sub p) !! length (got p)) as [env|] eqn:Ee; [|eauto].
  assert (Rlp.sent (sub p) `sublist_of` omap (converted (RlpReader.egress_request shard appID)) (wrote p)) as Hsub.
  { etrans; [|etrans; [exact Hrec|apply sublist_omap, sublist_take]]. etrans; [|apply (ok_order _ _ Hs)].
    by apply sublist_inserts_r. }
  destruct (indices_written _ _ _ _ _ Hn Hw Hsub) as [_ Hall].
  destruct (Forall_lookup_1 _ _ _ _ Hall Ee) as [i Hi]. unfold RlpReader.read_turn. fold (index_of env). rewrite Hi.
  eexists. split; [done|]. split; cbn [sub wrote forwarded got seen reporter at_ writer]; try done.
  - rewrite Hgot, lookup_app_r, Nat.sub_diag in Ee by done. destruct t as [|y t]; [done|]. injection Ee as ->.
    exists t. by rewrite <- app_assoc.
  - apply Forall2_app; [done|]. by constructor.
  - by rewrite last_snoc.
Qed.

Lemma probe_step_ok h shard appID n p e :
  is_Some (Health.gauges h !! Rlp.subscriptionCount) -> Z.of_nat n < 2 ^ 63 -> probe_ok h shard appID n p ->
  exists p' n', probe_step p e = inr p' /\ probe_ok h shard appID n' p' /\ (n' <= S n)%nat.
Proof.
  intros Hg Hn HI. destruct e as [err| | | |ok|]; [by apply writer_send_ok|..].
  - destruct (writer_set_ok h shard appID n p Hn HI) as (p' & E & HI'). exists p', n. auto.
  - cbn [probe_step]. destruct (wrote p !! forwarded p) as [d|] eqn:Ed; [|exists p, n; auto].
    destruct (on_proxy_ok h shard appID n p (S (forwarded p)) (RxData d) Hg HI) as (p' & E & HI'); [done|].
    exists p', n. auto.
  - destruct (on_proxy_ok h shard appID n p (forwarded p) RxError Hg HI eq_refl) as (p' & E & HI'). exists p', n. auto.
  - destruct (on_proxy_ok h shard appID n p (forwarded p) (SendNext ok) Hg HI eq_refl) as (p' & E & HI'). exists p', n. auto.
  - destruct (reader_ok h shard appID n p) as (p' & E & HI'); [lia|done|]. exists p', n. auto.
Qed.

Lemma probe_run_ok h shard appID l : is_Some (Health.gauges h !! Rlp.subscriptionCount) -> forall n p,
  Z.of_nat (n + length l) < 2 ^ 63 -> probe_ok h shard appID n p ->
  exists p' n', probe_run l p = inr p' /\ probe_ok h shard appID n' p' /\ (n' <= n + length l)%nat.
Proof.
  intros Hg. induction l as [|e l IH]; intros n p Hn HI; cbn [probe_run length] in *; [exists p, n; split_and!; [done..|lia]|].
  destruct (probe_step_ok h shard appID n p e Hg) as (p1 & n1 & E & H1 & Hle); [lia|done|]. rewrite E.
  destruct (IH n1 p1) as (p' & n' & E' & H' & Hle'); [lia|done|]. exists p', n'. split_and!; [done..|lia].
Qed.

Lemma reported_bound appID n p : phase_ok appID n p ->
  Z.of_nat n <= default 0 (RlpWriter.report (writer p) !! appID) + 2 /\ 0 <= default 0 (RlpWriter.report (writer p) !! appID).
Proof.
  unfold phase_ok, reported. destruct (at_ p) as [j|j|]; [intros [_ Hph]|intros (k & -> & _ & Hph); destruct k|intros Hph];
    try destruct n; rewrite Hph; cbv [from_option id]; lia.
Qed.

(** Without an application, which is the default of its flag, the reader's request is refused. *)
Lemma reader_needs_app h shard (x : subscription (E := owned_envelope)) :
  is_Some (Health.gauges h !! Rlp.subscriptionCount) ->
  Receiver_start h (RlpReader.egress_request shard EmptyString) true = Returns x ->
  subscribed x = None /\ returned x <> None.
Proof.
  intros Hg Ex. destruct (Receiver_start_ok (E := owned_envelope) h (RlpReader.egress_request shard EmptyString) true Hg)
    as (y & Ey & _ & Hs & Hr). assert (y = x) as -> by congruence. split; [exact Hs|].
  intros Hn. apply Hr in Hn as [Hn _]. discriminate.
Qed.

(** What the probe shows.  In every interleaving of the writer, the proxy and the reader none of
    them stops with an error, the numbers the reader sees are the numbers of envelopes the
    writer sent, in order and each at most once, and it serves the last of them; so it is ahead
    of the number the writer serves by at most one. *)
Theorem probe_reports h shard appID l :
  is_Some (Health.gauges h !! Rlp.subscriptionCount) -> Z.of_nat (length l) < 2 ^ 63 ->
  exists p0 p, probe_start h shard appID = Returns p0 /\ probe_run l p0 = inr p /\
    seen p `sublist_of` Z.of_nat <$> seq 0 (length (wrote p)) /\
    RlpReader.lastIdx (reporter p) = default 0 (last (seen p)) /\
    RlpReader.lastIdx (reporter p) <= default 0 (RlpWriter.report (writer p) !! appID) + 1.
Proof.
  intros Hg Hl. unfold probe_start.
  destruct (Receiver_start_ok (E := owned_envelope) h (RlpReader.egress_request shard appID) true Hg) as (x & Ex & Hx & _). rewrite Ex.
  destruct (receiver_started _ _ _ Ex) as (Hr & Hrec & Hsent).
  destruct (probe_run_ok h shard appID l Hg 0 (mkProbe RlpWriter.newServer (RlpWriter.Sending 0) [] 0 x (RlpReader.mkReporter 0) [] []))
    as (p & n & E & [Hph Hw Hs Hreq Hrc [t Hgot] Hseen Hlast] & Hn); [lia| |].
  { split; cbn; rewrite ?Hrec, ?Hsent; try done; apply Forall2_nil_2. }
  eexists _, p. split; [done|]. split; [done|].
  assert (length (wrote p) = n) as -> by (apply Forall2_length in Hw; by rewrite length_seq in Hw).
  assert (seen p `sublist_of` Z.of_nat <$> seq 0 n) as Hsub.
  { destruct (indices_written shard appID n (wrote p) (got p)) as [Hi _]; [lia|done| |].
    - etrans; [|etrans; [exact Hrc|apply sublist_omap, sublist_take]]. etrans; [|apply (ok_order _ _ Hs)].
      rewrite Hgot, <- app_assoc. by apply sublist_inserts_r.
    - replace (seen p) with (omap index_of (got p)); [done|]. clear -Hseen.
      induction Hseen as [|w i ws js Hi _ IH]; [done|]. cbn. by rewrite Hi, IH. }
  split_and!; [done|done|]. rewrite Hlast. pose proof (reported_bound _ _ _ Hph) as [Hb H0].
  destruct (last (seen p)) as [i|] eqn:El; cbn [default]; [|lia].
  assert (i ∈ Z.of_nat <$> seq 0 n) as (k & -> & Hk%elem_of_seq)%list_elem_of_fmap; [|cbv [from_option id] in *; lia].
  eapply elem_of_submseteq; [|by apply sublist_submseteq]. by apply last_Some_elem_of.
Qed.

End Probe.

(** ** Example: a wire format for the writer's envelopes *)

Module ProbeExample.

Definition id_of (v : V1.Envelope) : string * Z :=
  (str (V1.LogMessageF v ≫= V1.lm_AppId), atoi (str (V1.Tags v !! "idx"%string))).

Definition marshal (v : V1.Envelope) : option string :=
  if decide (v = RlpWriter.envelope (id_of v).1 (id_of v).2) then Some (RlpWriter.Repeat "x" (encode_nat (id_of v))) else None.

Definition Unmarshal (p : string) : result V1.Envelope :=
  match decode_nat (String.length p) : option (string * Z) with
  | Some (appID, i) => Ok (RlpWriter.envelope appID i)
  | None => Err "proto: illegal wireType"
  end.

Lemma id_of_envelope appID i : 0 <= i < 2 ^ 63 -> id_of (RlpWriter.envelope appID i) = (appID, i).
Proof. intros Hi. unfold id_of. cbn. rewrite lookup_singleton_eq. cbn [str default]. f_equal. apply atoi_Itoa. lia. Qed.

Lemma log_encodes appID i : 0 <= i < 2 ^ 63 -> is_Some (marshal (RlpWriter.envelope appID i)).
Proof. intros Hi. unfold marshal. by rewrite (id_of_envelope _ _ Hi), decide_True. Qed.

Lemma Repeat_length a n : String.length (RlpWriter.Repeat a n) = n.
Proof. induction n as [|n IH]; [done|]. cbn. by rewrite IH. Qed.

Lemma log_decodes v p : marshal v = Some p -> Unmarshal p = Ok v.
Proof.
  unfold marshal. case_decide as Hv; [|done]. intros [= <-]. unfold Unmarshal. rewrite Repeat_length, decode_encode_nat.
  destruct (id_of v) as [appID i]. by rewrite Hv.
Qed.

Definition events : list probe_event :=
  [WriterSend None; WriterSet; WriterSend None; ProxyReceives; ProxyReceives; ProxySends true; ReaderReceives].

End ProbeExample.

(** The laws of the wire format can be met. *)
Lemma probe_reports_witness :
  exists p0 p, probe_start RlpExample.registrar "s" "a" = Returns p0 /\
    probe_run ProbeExample.marshal ProbeExample.Unmarshal (fun _ => EmptyString) (fun _ => EmptyString) default_order
      ProbeExample.events p0 = inr p /\
    seen p `sublist_of` Z.of_nat <$> seq 0 (length (wrote p)).
Proof.
  destruct (probe_reports ProbeExample.marshal ProbeExample.Unmarshal (fun _ => EmptyString) (fun _ => EmptyString) default_order
    ProbeExample.log_encodes ProbeExample.log_decodes RlpExample.registrar "s" "a" ProbeExample.events)
    as (p0 & p & H1 & H2 & H3 & _); [by exists 4|by vm_compute|].
  exists p0, p. split; [exact H1|]. split; [exact H2|exact H3].
Defined.
