(* ===== verification/Lifecycle.v ===== *)
(** * Goroutines with a beginning and an end

    listeners/udp_listener.go: the loop that reads datagrams, from binding the socket to the
    error that ends it, with its consumer and the calls of [Stop] and [Address] in any order.
    monitor/openfd.go and monitor/uptime_monitor.go: a loop on a ticker that a call of [Stop]
    ends by a handshake.  Also the parts of the proxy that time a request. *)

From Stdlib Require Import SpecFloat.
From S2P Require Import Prelude Go Events Http Averager MetricEmitter Proxy.

Local Open Scope Z_scope.

(** ** listeners/udp_listener.go *)

Module Udp.

(** Where [Start] is; [Sending] blocks while the channel is full, [Died] is [log.Fatalf]. *)
Inductive phase : Type := NotStarted | Reading | Sending (readData : string) | Ended | Died.

(** The socket, and whether it is open. *)
Record UDPListener : Type := mkListener {
  host : string; metricProto : string; dataChannel : Chan.t string; connection : option bool;
  at_ : phase; batched : list (string * Z); taken : list string; panicked : option string }.

Definition NewUDPListener (host metricProto : string) : UDPListener :=
  mkListener host metricProto (Chan.make string 1024) None NotStarted [] [] None.

Definition with_phase (p : phase) (l : UDPListener) : UDPListener :=
  mkListener (host l) (metricProto l) (dataChannel l) (connection l) p (batched l) (taken l) (panicked l).
Definition with_connection (c : option bool) (l : UDPListener) : UDPListener :=
  mkListener (host l) (metricProto l) (dataChannel l) c (at_ l) (batched l) (taken l) (panicked l).
Definition with_channel (c : Chan.t string) (l : UDPListener) : UDPListener :=
  mkListener (host l) (metricProto l) c (connection l) (at_ l) (batched l) (taken l) (panicked l).
Definition with_batched (b : list (string * Z)) (l : UDPListener) : UDPListener :=
  mkListener (host l) (metricProto l) (dataChannel l) (connection l) (at_ l) b (taken l) (panicked l).
Definition with_taken (t : list string) (l : UDPListener) : UDPListener :=
  mkListener (host l) (metricProto l) (dataChannel l) (connection l) (at_ l) (batched l) t (panicked l).
Definition with_panic (why : string) (l : UDPListener) : UDPListener :=
  mkListener (host l) (metricProto l) (dataChannel l) (connection l) (at_ l) (batched l) (taken l) (Some why).

(** The counters of one datagram. *)
Definition datagram_counters (metricProto readData : string) : list (string * Z) :=
  let readCount := Z.of_nat (String.length readData) in
  [("dropsondeListener.receivedMessageCount", 1); ("dropsondeListener.receivedByteCount", readCount);
   (metricProto +:+ ".receivedMessageCount", 1); ("listeners.totalReceivedMessageCount", 1);
   (metricProto +:+ ".receivedByteCount", readCount); ("listeners.totalReceivedByteCount", readCount)]%string.

Inductive event : Type :=
| Bind (err : option string)
| ReadFrom (read : result string)
| Deliver
| Take
| CallStop
| CallAddress.

(** [Start] up to its loop. *)
Definition Start_bind (err : option string) (l : UDPListener) : UDPListener :=
  match err with
  | Some _ => with_phase Died l
  | None => with_phase Reading (with_connection (Some true) l)
  end.

(** One read; the deferred [close] when it fails.  A datagram comes only from an open socket. *)
Definition Start_read (read : result string) (l : UDPListener) : option UDPListener :=
  match read with
  | Err _ =>
      match Chan.close (dataChannel l) with
      | Some c => Some (with_phase Ended (with_channel c l))
      | None => Some (with_panic "close of closed channel" l)
      end
  | Ok readData =>
      match connection l with
      | Some true =>
          Some (with_phase (Sending readData) (with_batched (batched l ++ datagram_counters (metricProto l) readData) l))
      | _ => None
      end
  end.

(** [l.dataChannel <- readData] *)
Definition Start_send (readData : string) (l : UDPListener) : option UDPListener :=
  match Chan.try_send (dataChannel l) readData with
  | Chan.Sent c => Some (with_phase Reading (with_channel c l))
  | Chan.Full => None
  | Chan.SendOnClosed => Some (with_panic "send on closed channel" l)
  end.

Definition Stop (l : UDPListener) : UDPListener :=
  match connection l with
  | None => with_panic "nil pointer dereference" l
  | Some _ => with_connection (Some false) l
  end.

Definition Address (l : UDPListener) : UDPListener :=
  match connection l with
  | None => with_panic "nil pointer dereference" l
  | Some _ => l
  end.

(** A step, if it can be taken; a panic ends the process. *)
Definition step (l : UDPListener) (ev : event) : option UDPListener :=
  match panicked l with
  | Some _ => None
  | None =>
      match ev, at_ l with
      | Bind err, NotStarted => Some (Start_bind err l)
      | ReadFrom read, Reading => Start_read read l
      | Deliver, Sending readData => Start_send readData l
      | Take, _ =>
          match Chan.try_recv (dataChannel l) with
          | Chan.Received x c => Some (with_taken (taken l ++ [x]) (with_channel c l))
          | _ => None
          end
      | CallStop, _ => Some (Stop l)
      | CallAddress, _ => Some (Address l)
      | _, _ => None
      end
  end.

Fixpoint run (l : UDPListener) (evs : list event) : option UDPListener :=
  match evs with
  | [] => Some l
  | ev :: evs => match step l ev with Some l => run l evs | None => None end
  end.

(** The datagrams that were read. *)
Definition datagrams (evs : list event) : list string :=
  omap (fun ev => match ev with ReadFrom (Ok data) => Some data | _ => None end) evs.

Definition in_hand (p : phase) : list string := match p with Sending data => [data] | _ => [] end.

Definition bound (p : phase) : bool := match p with NotStarted | Died => false | _ => true end.

Record inv (proto : string) (evs : list event) (l : UDPListener) : Prop := {
  i_proto : metricProto l = proto;
  i_data : taken l ++ Chan.buf (dataChannel l) ++ in_hand (at_ l) = datagrams evs;
  i_counted : batched l = datagrams evs ≫= datagram_counters proto;
  i_cap : Chan.cap (dataChannel l) = 1024%nat;
  i_wf : Chan.wf (dataChannel l);
  i_closed : Chan.closed (dataChannel l) = true <-> at_ l = Ended;
  i_bound : is_Some (connection l) <-> bound (at_ l) = true;
  i_panic why : panicked l = Some why -> connection l = None /\ why = "nil pointer dereference"%string
}.

Lemma datagrams_snoc evs ev : datagrams (evs ++ [ev]) = datagrams evs ++ datagrams [ev].
Proof. apply omap_app. Qed.

Lemma new_inv h proto : inv proto [] (NewUDPListener h proto).
Proof. split; cbn; try done. apply Chan.make_wf. Qed.

(** A channel can be closed and sent to while the loop runs. *)
Lemma open_while_reading proto evs l : inv proto evs l -> at_ l <> Ended -> Chan.closed (dataChannel l) = false.
Proof. intros HI Hne. apply not_true_is_false. by rewrite (i_closed _ _ _ HI). Qed.

Lemma read_inv proto evs l read l' : inv proto evs l -> at_ l = Reading -> Start_read read l = Some l' ->
  panicked l = None -> inv proto (evs ++ [ReadFrom read]) l'.
Proof.
  intros HI Hat Hr Hp. pose proof (open_while_reading _ _ _ HI ltac:(by rewrite Hat)) as Hopen.
  destruct HI as [Hproto Hdata Hcount Hcap Hwf Hclosed Hbound _]. rewrite Hat in *. cbn [in_hand] in Hdata.
  unfold Start_read in Hr. destruct read as [data|err].
  - destruct (connection l) as [[]|] eqn:Hc; try done. injection Hr as <-.
    split; cbn; rewrite ?datagrams_snoc, ?Hp, ?Hc; try done.
    + rewrite app_nil_r in Hdata. by rewrite <- Hdata, app_assoc.
    + by rewrite bind_app, <- Hcount, Hproto.
    + by rewrite Hopen.
  - unfold Chan.close in Hr. rewrite Hopen in Hr. injection Hr as <-.
    split; cbn; rewrite ?datagrams_snoc, ?app_nil_r, ?Hp; try done. by rewrite app_nil_r in Hdata.
Qed.

Lemma send_inv proto evs l data l' : inv proto evs l -> at_ l = Sending data -> Start_send data l = Some l' ->
  panicked l = None -> inv proto (evs ++ [Deliver]) l'.
Proof.
  intros HI Hat Hs Hp. pose proof (open_while_reading _ _ _ HI ltac:(by rewrite Hat)) as Hopen.
  destruct HI as [Hproto Hdata Hcount Hcap Hwf Hclosed Hbound _]. rewrite Hat in *. cbn [in_hand] in Hdata.
  unfold Start_send, Chan.try_send in Hs. rewrite Hopen in Hs. destruct (decide _); [|done]. injection Hs as <-.
  split; cbn; rewrite ?datagrams_snoc, ?app_nil_r, ?Hp; try done. unfold Chan.wf. cbn. rewrite length_app. cbn. lia.
Qed.

Lemma step_inv proto evs l ev l' : inv proto evs l -> step l ev = Some l' -> inv proto (evs ++ [ev]) l'.
Proof.
  intros HI. unfold step. destruct (panicked l) eqn:Hp; [done|].
  destruct ev as [err|read| | | |].
  - destruct (at_ l) eqn:Hat; try done. intros [= <-]. destruct HI as [Hproto Hdata Hcount Hcap Hwf Hclosed Hbound _].
    rewrite Hat in *. cbn [in_hand] in Hdata. rewrite app_nil_r in Hdata.
    destruct err; split; cbn; rewrite ?datagrams_snoc, ?app_nil_r, ?Hp, ?Hclosed, ?Hbound; done.
  - destruct (at_ l) eqn:Hat; try done. intros. by eapply read_inv.
  - destruct (at_ l) eqn:Hat; try done. intros. by eapply send_inv.
  - intros H. assert (exists x c, Chan.try_recv (dataChannel l) = Chan.Received x c /\
      l' = with_taken (taken l ++ [x]) (with_channel c l)) as (x & c & Hr & ->).
    { destruct (Chan.try_recv (dataChannel l)) as [x c| |], (at_ l); naive_solver. }
    unfold Chan.try_recv in Hr. destruct (Chan.buf (dataChannel l)) as [|y buf] eqn:Eb.
    { by destruct (Chan.closed (dataChannel l)). }
    injection Hr as -> <-. destruct HI as [Hproto Hdata Hcount Hcap Hwf Hclosed Hbound _].
    split; cbn; rewrite ?datagrams_snoc, ?app_nil_r, ?Hp; try done.
    + rewrite <- Hdata, Eb. by rewrite <- app_assoc.
    + unfold Chan.wf in *. cbn. rewrite Eb in Hwf. cbn in Hwf. lia.
  - intros H. assert (l' = Stop l) as -> by (destruct (at_ l); congruence).
    destruct HI as [Hproto Hdata Hcount Hcap Hwf Hclosed Hbound _]. unfold Stop.
    destruct (connection l) eqn:Hc; split; cbn; rewrite ?datagrams_snoc, ?app_nil_r, ?Hp, ?Hc; try done;
      first [by intros ? [= <-] | rewrite <- Hbound; split; by eexists].
  - intros H. assert (l' = Address l) as -> by (destruct (at_ l); congruence).
    destruct HI as [Hproto Hdata Hcount Hcap Hwf Hclosed Hbound _]. unfold Address.
    destruct (connection l) eqn:Hc; split; cbn; rewrite ?datagrams_snoc, ?app_nil_r, ?Hp, ?Hc; try done;
      first [by intros ? [= <-] | rewrite <- Hbound; split; by eexists].
Qed.

Lemma run_inv proto evs : forall evs0 l l', inv proto evs0 l -> run l evs = Some l' -> inv proto (evs0 ++ evs) l'.
Proof.
  induction evs as [|ev evs IH]; intros evs0 l l' HI; cbn [run].
  - intros [= <-]. by rewrite app_nil_r.
  - destruct (step l ev) as [l1|] eqn:E; [|done]. intros Hr.
    rewrite (app_assoc evs0 [ev] evs : evs0 ++ ev :: evs = _). eapply IH; [|done]. by eapply step_inv.
Qed.

Lemma run_app evs evs' l : run l (evs ++ evs') = run l evs ≫= fun l => run l evs'.
Proof. revert l. induction evs as [|ev evs IH]; intros l; cbn; [done|]. by destruct (step l ev). Qed.

(** After [Stop] nothing more is read. *)
Lemma stopped_reads_nothing evs : forall l l', connection l = Some false -> bound (at_ l) = true ->
  run l evs = Some l' -> connection l' = Some false /\ datagrams evs = [].
Proof.
  induction evs as [|ev evs IH]; intros l l' Hc Hb; cbn [run]; [by intros [= <-]|].
  destruct (step l ev) as [l1|] eqn:E; [|done]. intros Hr.
  assert (connection l1 = Some false /\ bound (at_ l1) = true /\ datagrams [ev] = []) as (H1 & H2 & H3).
  { unfold step in E. destruct (panicked l); [done|]. unfold Start_bind, Start_read, Start_send, Stop, Address in E.
    destruct ev as [err|[data|err]| | | |]; rewrite ?Hc in E; break; cbn in *; try done;
      split_and!; try done; by match goal with H : at_ l = _ |- _ => rewrite H end. }
  destruct (IH l1 l' H1 H2 Hr) as [H4 H5]. split; [done|].
  change (ev :: evs) with ([ev] ++ evs). unfold datagrams in *. by rewrite omap_app, H3, H5.
Qed.

(** A datagram in hand goes out, when the consumer makes room if it must. *)
Lemma hand_over proto evs l data : inv proto evs l -> panicked l = None -> at_ l = Sending data ->
  exists more l', (more = [Deliver] \/ more = [Take; Deliver]) /\ run l more = Some l' /\
    at_ l' = Reading /\ panicked l' = None /\ Chan.closed (dataChannel l') = false.
Proof.
  intros HI Hp Hat. pose proof (open_while_reading _ _ _ HI ltac:(by rewrite Hat)) as Ho.
  pose proof (i_cap _ _ _ HI) as Hcap. pose proof (i_wf _ _ _ HI) as Hwf. unfold Chan.wf in Hwf.
  destruct (dataChannel l) as [cap buf closed] eqn:Ed. cbn in Ho, Hcap, Hwf. subst cap closed.
  destruct (decide (length buf < 1024)%nat) as [Hlt|Hge].
  - exists [Deliver]. eexists. split; [by left|]. cbn [run]. unfold step. rewrite Hp, Hat.
    unfold Start_send. rewrite Ed, Chan.try_send_open by done. done.
  - destruct buf as [|x buf]; [cbn in Hge; lia|]. exists [Take; Deliver]. cbn [run]. unfold step at 1.
    rewrite Hp, Ed. unfold Chan.try_recv. cbn [Chan.buf Chan.cap Chan.closed]. unfold step. cbn [with_taken with_channel panicked at_].
    rewrite Hp, Hat. unfold Start_send. cbn [with_taken with_channel dataChannel].
    rewrite Chan.try_send_open by (cbn in *; first [done|lia]). eexists. split; [by right|]. done.
Qed.

(** C26: The UDP listener from start to end.  In every interleaving of its loop, its consumer and
    calls of [Stop] and [Address], the consumer gets the datagrams that were read, in order;
    the counters are those of exactly these datagrams; the channel is closed once, when the
    loop ends, and never written afterwards.  Once [Stop] has closed the socket nothing more
    is read, and the loop ends after handing over what it holds.  The only panic is that of
    [Stop] or [Address] before the socket is bound. *)
Theorem udp_listener_lifecycle h proto evs l : run (NewUDPListener h proto) evs = Some l ->
  taken l ++ Chan.buf (dataChannel l) ++ in_hand (at_ l) = datagrams evs /\
  batched l = datagrams evs ≫= datagram_counters proto /\
  (Chan.closed (dataChannel l) = true <-> at_ l = Ended) /\
  (forall why, panicked l = Some why -> connection l = None /\ why = "nil pointer dereference"%string) /\
  (connection l = Some false -> panicked l = None ->
     (forall more l', run l more = Some l' -> datagrams more = []) /\
     exists more l', (length more <= 3)%nat /\ run l more = Some l' /\ at_ l' = Ended).
Proof.
  intros Hrun. apply (run_inv proto evs []) in Hrun; [|apply new_inv]. cbn [app] in Hrun. rename Hrun into HI.
  pose proof HI as [Hproto Hdata Hcount Hcap Hwf Hclosed Hbound Hpanic].
  split_and!; try done. intros Hc Hp.
  assert (bound (at_ l) = true) as Hb by (apply Hbound; by rewrite Hc). split.
  { intros more l' Hm. by destruct (stopped_reads_nothing more l l' Hc Hb Hm). }
  assert (forall l1, at_ l1 = Reading -> panicked l1 = None -> Chan.closed (dataChannel l1) = false ->
    exists l', run l1 [ReadFrom (Err "use of closed network connection"%string)] = Some l' /\ at_ l' = Ended) as Hread.
  { intros l1 Hat Hp1 Ho. cbn [run]. unfold step. rewrite Hp1, Hat. unfold Start_read, Chan.close. rewrite Ho. by eexists. }
  destruct (at_ l) as [| |data| |] eqn:Hat; try done.
  - destruct (Hread l Hat Hp) as (l' & Hr & He); [by eapply open_while_reading; [done|rewrite Hat]|].
    eexists _, l'. split_and!; [|done|done]. cbn. lia.
  - destruct (hand_over _ _ _ _ HI Hp Hat) as (more & l1 & Hmore & Hr1 & Hat1 & Hp1 & Ho1).
    destruct (Hread l1 Hat1 Hp1 Ho1) as (l' & Hr & He). eexists (more ++ _), l'. split_and!; [|by rewrite run_app, Hr1|done].
    rewrite length_app. by destruct Hmore as [-> | ->]; cbn; lia.
  - exists [], l. split_and!; [cbn; lia|done|done].
Qed.

Lemma udp_listener_lifecycle_witness : exists l,
  run (NewUDPListener "0.0.0.0:3457" "udpListener")
    [CallStop] = Some l /\ panicked l = Some "nil pointer dereference"%string /\
  exists l', run (NewUDPListener "0.0.0.0:3457" "udpListener")
    [Bind None; ReadFrom (Ok "a"%string); Deliver; ReadFrom (Ok "b"%string); CallStop; Take; Deliver;
     ReadFrom (Err "closed"%string); Take] = Some l' /\ at_ l' = Ended /\ taken l' = ["a"; "b"]%string /\
  batched l' = datagrams [Bind None; ReadFrom (Ok "a"%string); Deliver; ReadFrom (Ok "b"%string); CallStop; Take; Deliver;
     ReadFrom (Err "closed"%string); Take] ≫= datagram_counters "udpListener".
Proof.
  eexists. split; [reflexivity|]. split; [reflexivity|]. eexists. split; [vm_compute; reflexivity|].
  split; [reflexivity|]. split; [reflexivity|].
  refine (proj1 (proj2 (udp_listener_lifecycle "0.0.0.0:3457" "udpListener" _ _ _))). vm_compute. reflexivity.
Defined.

End Udp.

(** ** monitor/openfd.go and monitor/uptime_monitor.go *)

Module Monitor.

(** [metrics.SendValue]; the value before its conversion to a float. *)
Record value : Type := mkValue { v_name : string; v_value : Z; v_unit : string }.

(** [os.ModeSymlink] *)
Definition ModeSymlink : Z := Z.shiftl 1 27.

(** [symlinks] of the modes of the files. *)
Definition symlinks (finfos : list Z) : Z :=
  foldl (fun count mode => if negb (bool_decide (Z.land mode ModeSymlink = ModeSymlink)) then count else count + 1) 0 finfos.

(** A tick of the monitor of open files; a directory that cannot be read is only logged. *)
Definition fd_tick (ReadDir : result (list Z)) : list value :=
  match ReadDir with
  | Err _ => []
  | Ok finfos => [mkValue "LinuxFileDescriptor" (symlinks finfos) "File"]
  end.

(** A tick of the uptime monitor; times in seconds. *)
Definition uptime_tick (started now : Z) : list value := [mkValue "Uptime" (now - started) "seconds"].

Section Loop.

(** What a tick of the loop finds and sends: the select of [Start] is the same in both. *)
Context {T : Type} (on_tick : T -> list value).

Inductive loop_phase : Type := Idle | Looping | Over.

(** A call of [Stop]: its send waits for the loop, then it waits for the close. *)
Inductive stop_call : Type := Offering | Answered_ | Back.

#[local] Instance stop_call_eq_dec : EqDecision stop_call.
Proof. solve_decision. Defined.

Record monitor : Type := mkMonitor { loop : loop_phase; calls : list stop_call; values : list value }.

Definition NewMonitor : monitor := mkMonitor Idle [] [].

Inductive event : Type := Start | Tick (t : T) | CallStop | Accept (i : nat) | Return (i : nat).

Definition step (s : monitor) (ev : event) : option monitor :=
  match ev, loop s with
  | Start, Idle => Some (mkMonitor Looping (calls s) (values s))
  | Tick t, Looping => Some (mkMonitor Looping (calls s) (values s ++ on_tick t))
  | CallStop, _ => Some (mkMonitor (loop s) (calls s ++ [Offering]) (values s))
  | Accept i, Looping =>
      match calls s !! i with
      | Some Offering => Some (mkMonitor Over (<[i := Answered_]> (calls s)) (values s))
      | _ => None
      end
  | Return i, _ =>
      match calls s !! i with
      | Some Answered_ => Some (mkMonitor (loop s) (<[i := Back]> (calls s)) (values s))
      | _ => None
      end
  | _, _ => None
  end.

Fixpoint run (s : monitor) (evs : list event) : option monitor :=
  match evs with
  | [] => Some s
  | ev :: evs => match step s ev with Some s => run s evs | None => None end
  end.

Definition ticks (evs : list event) : list T := omap (fun ev => match ev with Tick t => Some t | _ => None end) evs.

(** How many calls of [Stop] the loop has answered. *)
Definition answered (s : monitor) : nat := length (filter (fun c => c <> Offering) (calls s)).

Lemma answered_insert l i c c' : l !! i = Some c ->
  (length (filter (fun c => c <> Offering) (<[i := c']> l)) + (if decide (c <> Offering) then 1 else 0) =
   length (filter (fun c => c <> Offering) l) + (if decide (c' <> Offering) then 1 else 0))%nat.
Proof.
  intros Hi. rewrite <- (take_drop_middle l i c Hi) at 2. rewrite insert_take_drop by by eapply lookup_lt_Some.
  rewrite !filter_app, !filter_cons, !length_app. destruct (decide (c <> Offering)), (decide (c' <> Offering)); cbn; lia.
Qed.

Record inv (evs : list event) (s : monitor) : Prop := {
  i_values : values s = ticks evs ≫= on_tick;
  i_answered : answered s = match loop s with Over => 1%nat | _ => 0%nat end
}.

Lemma step_keeps evs s ev s' : inv evs s -> step s ev = Some s' -> inv (evs ++ [ev]) s'.
Proof.
  intros [Hv Ha] E. unfold answered in Ha.
  assert (ticks (evs ++ [ev]) = ticks evs ++ ticks [ev]) as Ht by apply omap_app.
  destruct ev as [|t| |i|i]; unfold step in E.
  - destruct (loop s) eqn:El; try done. injection E as <-. split; rewrite ?Ht; cbn; by rewrite ?app_nil_r.
  - destruct (loop s) eqn:El; try done. injection E as <-. split; rewrite ?Ht; cbn; [|done].
    rewrite bind_app, <- Hv. cbn. by rewrite app_nil_r.
  - assert (s' = mkMonitor (loop s) (calls s ++ [Offering]) (values s)) as -> by (destruct (loop s); congruence).
    split; rewrite ?Ht; cbn; rewrite ?app_nil_r; [done|]. unfold answered. cbn [calls]. rewrite filter_app, length_app, Ha. cbn. by rewrite Nat.add_0_r.
  - destruct (loop s) eqn:El; try done. destruct (calls s !! i) as [[]|] eqn:Ei; try done. injection E as <-.
    split; rewrite ?Ht; cbn; rewrite ?app_nil_r; [done|]. unfold answered. cbn.
    pose proof (answered_insert (calls s) i Offering Answered_ Ei) as Hins. cbn in Hins.
    rewrite decide_False, decide_True in Hins by (try intros H; done). lia.
  - destruct (calls s !! i) as [[]|] eqn:Ei; try (by destruct (loop s)).
    assert (s' = mkMonitor (loop s) (<[i := Back]> (calls s)) (values s)) as -> by (destruct (loop s); congruence).
    split; rewrite ?Ht; cbn; rewrite ?app_nil_r; [done|]. unfold answered. cbn.
    pose proof (answered_insert (calls s) i Answered_ Back Ei) as Hins.
    rewrite !decide_True in Hins by done. lia.
Qed.

Lemma run_keeps evs : forall evs0 s s', inv evs0 s -> run s evs = Some s' -> inv (evs0 ++ evs) s'.
Proof.
  induction evs as [|ev evs IH]; intros evs0 s s' HI; cbn [run].
  - intros [= <-]. by rewrite app_nil_r.
  - destruct (step s ev) as [s1|] eqn:E; [|done]. intros Hr.
    rewrite (app_assoc evs0 [ev] evs : evs0 ++ ev :: evs = _). eapply IH; [|done]. by eapply step_keeps.
Qed.

Lemma over_stays evs : forall s s', loop s = Over -> run s evs = Some s' -> values s' = values s /\ loop s' = Over.
Proof.
  induction evs as [|ev evs IH]; intros s s' Ho; cbn [run]; [by intros [= <-]|].
  destruct (step s ev) as [s1|] eqn:E; [|done]. intros Hr.
  assert (values s1 = values s /\ loop s1 = Over) as [Hv Ho1].
  { unfold step in E. rewrite Ho in E. destruct ev; break; done. }
  destruct (IH s1 s' Ho1 Hr) as [-> ->]. done.
Qed.

Lemma back_answered s i : calls s !! i = Some Back -> answered s <> 0%nat.
Proof.
  intros Hi%list_elem_of_lookup_2 H0. unfold answered in H0. apply nil_length_inv in H0.
  assert (Back ∈ filter (fun c => c <> Offering) (calls s)) as Hin by by apply list_elem_of_filter.
  rewrite H0 in Hin. by apply not_elem_of_nil in Hin.
Qed.

(** A monitor sends the values of its ticks, in order, and at most one call of [Stop] is
    answered: once one has come back no value is sent any more, and any other call waits for
    ever. *)
Lemma monitor_stops evs s : run NewMonitor evs = Some s ->
  values s = ticks evs ≫= on_tick /\
  (answered s <= 1)%nat /\
  (forall i, calls s !! i = Some Back -> forall more s', run s more = Some s' -> values s' = values s /\ answered s' = 1%nat).
Proof.
  intros Hr. assert (inv [] NewMonitor) as H0 by done.
  pose proof (run_keeps evs [] _ _ H0 Hr) as HI. cbn [app] in HI. pose proof HI as [Hv Ha]. split_and!; [done| |].
  - rewrite Ha. destruct (loop s); lia.
  - intros i Hi more s' Hm. assert (loop s = Over) as Ho.
    { assert (answered s <> 0%nat) as Hne by (by eapply back_answered). destruct (loop s); congruence. }
    pose proof (run_keeps more evs _ _ HI Hm) as [_ Ha']. destruct (over_stays more s s' Ho Hm) as [H1 H2].
    rewrite H2 in Ha'. done.
Qed.

End Loop.

(** The bit of the mode decides. *)
Lemma symlinks_counts finfos :
  symlinks finfos = Z.of_nat (length (filter (fun mode => Z.testbit mode 27 = true) finfos)).
Proof.
  assert (forall mode, bool_decide (Z.land mode ModeSymlink = ModeSymlink) = Z.testbit mode 27) as Hbit.
  { intros mode. unfold ModeSymlink. rewrite Z.shiftl_1_l. apply eq_true_iff_eq. rewrite bool_decide_eq_true. split.
    - intros H. apply (f_equal (fun z => Z.testbit z 27)) in H. rewrite Z.land_spec, Z.pow2_bits_true in H by lia.
      by rewrite andb_true_r in H.
    - intros H. apply Z.bits_inj'. intros n Hn. rewrite Z.land_spec, Z.pow2_bits_eqb by lia.
      destruct (27 =? n) eqn:E; [|by rewrite andb_false_r]. apply Z.eqb_eq in E. subst n. by rewrite H. }
  unfold symlinks. assert (forall count, foldl (fun count mode => if negb (bool_decide (Z.land mode ModeSymlink = ModeSymlink))
    then count else count + 1) count finfos =
    count + Z.of_nat (length (filter (fun mode => Z.testbit mode 27 = true) finfos))) as H.
  { induction finfos as [|mode l IH]; intros count; cbn [foldl]; [cbn; lia|]. rewrite IH, Hbit, filter_cons.
    destruct (Z.testbit mode 27); [rewrite decide_True by done|rewrite decide_False by done]; cbn [negb length]; lia. }
  by rewrite H.
Qed.

Example uptime_example :
  values <$> run (uptime_tick 100) NewMonitor [Start; Tick 160; Tick 220; CallStop; Accept 0; Return 0] =
  Some [mkValue "Uptime" 60 "seconds"; mkValue "Uptime" 120 "seconds"]%string.
Proof. reflexivity. Qed.

End Monitor.

(** ** trafficcontroller/internal/proxy: timed handlers and the channel handler *)

(** [float64(time.Since(startTime)) / float64(time.Millisecond)] *)
Definition elapsedMillisecond (startTime now : Z) : float64 :=
  SFdiv 53 1024 (float_of (now - startTime)) (float_of 1000000).

(** The deferred [latencyMetric.Set] of the container metrics and recent logs handlers: the
    gauge is set however the handler ends. *)
Definition timed (serve : outcome served) (startTime now : Z) (latencyMetric : Gauge) : outcome served * Gauge :=
  (serve, Set_ latencyMetric (elapsedMillisecond startTime now)).

(** The loop of http_handler.go over its channel, which the sender closes, and what it leaves
    in the channel. *)
Fixpoint range_parts (w : ResponseWriter) (boundary : string) (alive : nat -> bool) (i : nat) (Messages : list string)
  : ResponseWriter * list string :=
  match Messages with
  | [] => (w, [])
  | message :: rest =>
      if negb (alive i) then (w, rest)
      else range_parts (Write (Write w (CreatePart boundary (bool_decide (i = 0%nat)))) message) boundary alive (S i) rest
  end.

Definition HttpHandler_ServeHTTP (w : ResponseWriter) (boundary : string) (alive : nat -> bool) (Messages : list string)
  : ResponseWriter * list string :=
  let w := SetHeader w "Content-Type" ("multipart/x-protobuf; boundary=" +:+ boundary) in
  let '(w, rest) := range_parts w boundary alive 0 Messages in
  (Write w (mp_Close boundary), rest).

(** The handler over a channel answers as the one over a list does. *)
Lemma http_handler_serves w boundary alive Messages :
  (HttpHandler_ServeHTTP w boundary alive Messages).1 = serveMultiPartResponse w boundary alive Messages.
Proof.
  unfold HttpHandler_ServeHTTP, serveMultiPartResponse. generalize (SetHeader w "Content-Type" ("multipart/x-protobuf; boundary=" +:+ boundary)).
  intros w0. assert (forall i w0, (range_parts w0 boundary alive i Messages).1 = serve_parts w0 boundary alive i Messages) as H.
  { induction Messages as [|message rest IH]; intros i w1; [done|]. cbn [range_parts serve_parts].
    destruct (alive i); cbn [negb]; [apply IH|done]. }
  rewrite <- H. by destruct (range_parts w0 boundary alive 0 Messages).
Qed.
