(* ===== verification/Linter.v ===== *)
(** * tools/linter: blocking channel operations in Go source

    nodes.go walks the syntax tree of every function and reports selects without a default
    case and channel operations outside a select, marked when a [Lock] call came before;
    print.go shows a problem with its surrounding lines; cmd/linter/main.go counts them.  The
    syntax tree is go/ast's, reduced to the nodes the linter tells apart, and [walk] is
    [ast.Walk].  File names here are relative to src/tools. *)

From Stdlib Require Import Ascii.
From S2P Require Import Prelude Go.

Set Warnings "-register-all".

(** ** The syntax tree *)

(** The children of a node are in the order in which [ast.Walk] visits them: of a call the
    function and the arguments, of a select its body, of a clause its communication, which a
    default clause does not have, and its statements. *)
Inductive node_kind : Type :=
| KFuncDecl
| KCallExpr
| KSelectorExpr (sel : string)
| KSelectStmt
| KBlockStmt
| KCommClause (hasComm : bool)
| KSendStmt
| KUnaryExpr (arrow : bool)
| KOther.

Section Linter.

(** [token.Position] *)
Context {Position : Type}.

Inductive node : Type := Node (kind : node_kind) (pos : Position) (children : list node).

Definition kind_of (n : node) : node_kind := match n with Node k _ _ => k end.
Definition pos_of (n : node) : Position := match n with Node _ p _ => p end.
Definition children_of (n : node) : list node := match n with Node _ _ l => l end.

(** ** nodes.go *)

Record Problem : Type := mkProblem { Kind : string; Position_ : Position }.

(** [lockAquired] and [problems] are shared by all contexts of a walk; [inSelect] is a copy. *)
Record shared : Type := mkShared { lockAquired : bool; problems : list Problem }.

Definition isLock (n : node) : bool :=
  match kind_of n, children_of n with
  | KCallExpr, Node (KSelectorExpr sel) _ _ :: _ => bool_decide (sel = "Lock"%string)
  | _, _ => false
  end.

Definition hasDefault (n : node) : bool :=
  match children_of n with
  | body :: _ =>
      existsb (fun c => match kind_of c with KCommClause hasComm => negb hasComm | _ => false end) (children_of body)
  | [] => false
  end.

Definition report (kind : string) (pos : Position) (s : shared) : shared :=
  let kind := if lockAquired s then kind +:+ "-lock" else kind in
  mkShared (lockAquired s) (problems s ++ [mkProblem kind pos]).

(** [Visit]: the context for the children and what it did to the shared state. *)
Definition Visit (inSelect : bool) (n : node) (s : shared) : bool * shared :=
  match kind_of n with
  | KCallExpr => (inSelect, if isLock n then mkShared true (problems s) else s)
  | KSelectStmt =>
      (true, if negb (hasDefault n) then report "selectWithoutDefault" (pos_of n) s else s)
  | KSendStmt =>
      (inSelect, if negb inSelect then report "sendChannel-withoutSelect" (pos_of n) s else s)
  | KUnaryExpr arrow =>
      (inSelect, if arrow then (if negb inSelect then report "receiveChannel-withoutSelect" (pos_of n) s else s) else s)
  | _ => (inSelect, s)
  end.

(** [ast.Walk]: the node, then its children with the visitor it returned. *)
Fixpoint walk (inSelect : bool) (n : node) (s : shared) : shared :=
  match n with
  | Node k p l =>
      let '(inSelect', s) := Visit inSelect (Node k p l) s in
      (fix walk_all (l : list node) (s : shared) : shared :=
         match l with
         | [] => s
         | c :: l => walk_all l (walk inSelect' c s)
         end) l s
  end.

Definition HasSuffix (s suffix : string) : bool :=
  bool_decide (String.length suffix <= String.length s) &&
  bool_decide (Str.drop_n (String.length s - String.length suffix) s = suffix).

(** [CheckFuncs]: every function starts without a lock. *)
Definition CheckFuncs (funcs : list node) (locksOnly : bool) : list Problem :=
  let p := foldl (fun p fd => problems (walk false fd (mkShared false p))) [] funcs in
  if locksOnly then filter (fun problem => HasSuffix (Kind problem) "-lock" = true) p else p.

(** [FuncDecls] of the declarations of a file. *)
Definition FuncDecls (decls : list node) : list node :=
  foldl (fun result d => match kind_of d with KFuncDecl => result ++ [d] | _ => result end) [] decls.

(** ** What the linter reports *)

(** The nodes in the order of the walk, each with whether it is below a select or one. *)
Fixpoint preorder (inSelect : bool) (n : node) : list (node * bool) :=
  match n with
  | Node k p l =>
      let inSelect := match k with KSelectStmt => true | _ => inSelect end in
      (Node k p l, inSelect) :: (fix go (l : list node) := match l with [] => [] | c :: l => preorder inSelect c ++ go l end) l
  end.

(** The problem at a node, if it is one. *)
Definition offence (x : node * bool) : option string :=
  match kind_of x.1 with
  | KSelectStmt => if hasDefault x.1 then None else Some "selectWithoutDefault"%string
  | KSendStmt => if x.2 then None else Some "sendChannel-withoutSelect"%string
  | KUnaryExpr true => if x.2 then None else Some "receiveChannel-withoutSelect"%string
  | _ => None
  end.

(** The reference: the offences in order, each marked when a lock call comes before it. *)
Definition reference (fd : node) : list Problem :=
  let l := preorder false fd in
  omap (fun '(i, x) =>
    (fun kind => mkProblem (if existsb (fun y => isLock y.1) (take i l) then kind +:+ "-lock" else kind) (pos_of x.1))
    <$> offence x) (imap (fun i x => (i, x)) l).

(** Induction over a tree with all children of a node at once. *)
Lemma node_children_ind (P : node -> Prop) :
  (forall k p l, Forall P l -> P (Node k p l)) -> forall n, P n.
Proof.
  intros H. fix IH 1. intros [k p l]. apply H. induction l as [|c l IHl]; constructor; [apply IH|exact IHl].
Qed.

Definition visit_flat (s : shared) (x : node * bool) : shared := (Visit x.2 x.1 s).2.

Definition select_of (k : node_kind) (inSelect : bool) : bool := match k with KSelectStmt => true | _ => inSelect end.

Fixpoint preorder_all (inSelect : bool) (l : list node) : list (node * bool) :=
  match l with [] => [] | c :: l => preorder inSelect c ++ preorder_all inSelect l end.

Lemma preorder_Node b k p l :
  preorder b (Node k p l) = (Node k p l, select_of k b) :: preorder_all (select_of k b) l.
Proof.
  cbn [preorder]. fold (select_of k b). f_equal. generalize (select_of k b) as b'. intros b'.
  induction l as [|c l IH]; [done|]. cbn [preorder_all]. by rewrite <- IH.
Qed.

(** The walk visits the nodes in order. *)
Lemma walk_preorder n : forall b s, walk b n s = foldl visit_flat s (preorder b n).
Proof.
  induction n as [k p l IH] using node_children_ind. intros b s. rewrite preorder_Node. cbn [walk foldl].
  assert (Visit b (Node k p l) s = (select_of k b, visit_flat s (Node k p l, select_of k b))) as ->.
  { unfold visit_flat, Visit. by destruct k. }
  generalize (visit_flat s (Node k p l, select_of k b)) as s1. generalize (select_of k b) as b'. clear b s.
  intros b'. induction IH as [|c l Hc _ IHl]; intros s1; [done|]. cbn [preorder_all].
  rewrite foldl_app, <- Hc. apply IHl.
Qed.

(** The offences of a list of nodes, when a lock was or was not taken before. *)
Fixpoint marks (lock : bool) (l : list (node * bool)) : list Problem :=
  match l with
  | [] => []
  | x :: l =>
      option_list ((fun kind => mkProblem (if lock then kind +:+ "-lock" else kind) (pos_of x.1)) <$> offence x)
      ++ marks (lock || isLock x.1) l
  end.

Lemma visit_flat_marks s x :
  visit_flat s x = mkShared (lockAquired s || isLock x.1)
    (problems s ++ option_list ((fun kind =>
       mkProblem (if lockAquired s then kind +:+ "-lock" else kind) (pos_of x.1)) <$> offence x)).
Proof.
  destruct s as [lock ps], x as [[k p l] b].
  destruct k as [| |sel| | |c| |arrow|]; unfold visit_flat, Visit, offence, report; cbn [fst snd kind_of lockAquired problems];
    try (cbn; by rewrite orb_false_r, app_nil_r).
  - destruct (isLock _); cbn; by rewrite ?orb_true_r, ?orb_false_r, app_nil_r.
  - replace (isLock _) with false by done. rewrite orb_false_r. destruct (hasDefault _); cbn; by rewrite ?app_nil_r.
  - replace (isLock _) with false by done. rewrite orb_false_r. destruct b; cbn; by rewrite ?app_nil_r.
  - replace (isLock _) with false by done. rewrite orb_false_r. destruct arrow, b; cbn; by rewrite ?app_nil_r.
Qed.

Lemma visits_marks l s : problems (foldl visit_flat s l) = problems s ++ marks (lockAquired s) l.
Proof.
  revert s. induction l as [|x l IH]; intros s; cbn [foldl marks]; [by rewrite app_nil_r|].
  rewrite IH, visit_flat_marks. cbn [problems lockAquired]. by rewrite app_assoc.
Qed.

Definition mark (pre l : list (node * bool)) : list Problem :=
  omap (fun '(i, x) =>
    (fun kind => mkProblem (if existsb (fun y => isLock y.1) (take i (pre ++ l)) then kind +:+ "-lock" else kind) (pos_of x.1))
    <$> offence x) (imap (fun i x => (length pre + i, x)) l).

Lemma marks_mark l : forall pre, marks (existsb (fun y => isLock y.1) pre) l = mark pre l.
Proof.
  induction l as [|x l IH]; intros pre; [done|]. cbn [marks]. unfold mark. rewrite imap_cons. cbn [omap list_omap].
  rewrite Nat.add_0_r, take_app_length.
  assert (marks (existsb (fun y => isLock y.1) pre || isLock x.1) l =
    omap (fun '(i, x0) => (fun kind => mkProblem (if existsb (fun y => isLock y.1) (take i (pre ++ x :: l))
      then kind +:+ "-lock" else kind) (pos_of x0.1)) <$> offence x0)
      (imap ((fun i x0 => (length pre + i, x0)) ∘ S) l)) as E.
  { assert (existsb (fun y => isLock y.1) pre || isLock x.1 = existsb (fun y => isLock y.1) (pre ++ [x])) as ->
      by (rewrite existsb_app; simpl; by rewrite orb_false_r).
    rewrite IH. unfold mark. rewrite <- app_assoc. cbn [app]. f_equal. apply imap_ext. intros i y _. simpl.
    rewrite length_app. simpl. f_equal. lia. }
  destruct (offence x); simpl; by rewrite E.
Qed.

Lemma walk_reference fd p : problems (walk false fd (mkShared false p)) = p ++ reference fd.
Proof.
  rewrite walk_preorder, visits_marks. cbn [problems lockAquired]. f_equal.
  rewrite (marks_mark _ []). reflexivity.
Qed.

Lemma checked_concat funcs p :
  foldl (fun p fd => problems (walk false fd (mkShared false p))) p funcs = p ++ concat (reference <$> funcs).
Proof.
  revert p. induction funcs as [|fd funcs IH]; intros p; cbn [foldl fmap list_fmap concat]; [by rewrite app_nil_r|].
  by rewrite walk_reference, IH, <- app_assoc.
Qed.

Lemma reference_elem fd q :
  q ∈ reference fd <-> exists i x kind, preorder false fd !! i = Some x /\ offence x = Some kind /\
    q = mkProblem (if existsb (fun y => isLock y.1) (take i (preorder false fd)) then kind +:+ "-lock" else kind) (pos_of x.1).
Proof.
  unfold reference. rewrite list_elem_of_omap. split.
  - intros ([i x] & Hin & (kind & Ho & ->)%fmap_Some). apply elem_of_lookup_imap in Hin as (j & y & [= -> ->] & Hy).
    eauto 10.
  - intros (i & x & kind & Hx & Ho & ->). exists (i, x). split; [|by rewrite Ho].
    apply elem_of_lookup_imap. eauto.
Qed.

Lemma offence_suffix x kind : offence x = Some kind -> forall b : bool,
  HasSuffix (if b then kind +:+ "-lock" else kind) "-lock" = b.
Proof.
  destruct x as [[k p l] c]. unfold offence. cbn [fst snd kind_of].
  destruct k as [| | | | | | |[]|]; try done.
  - destruct (hasDefault _); [done|]. intros [= <-] []; reflexivity.
  - destruct c; [done|]. intros [= <-] []; reflexivity.
  - destruct c; [done|]. intros [= <-] []; reflexivity.
Qed.

Lemma elem_of_concat {B} (x : B) ls : x ∈ concat ls <-> exists l, x ∈ l /\ l ∈ ls.
Proof.
  rewrite list_elem_of_In, in_concat. split; intros (l & H1 & H2); exists l; by rewrite ?list_elem_of_In in *.
Qed.

(** The linter reports what it is meant to.  Over all functions, in order, its problems
    are the reference's: one for each select without a default case and for each send and
    receive that is not below a select, at the position of that node, marked as locked when a
    call of a method [Lock] comes before it in the same function.  With [locksOnly] it reports
    exactly the marked ones. *)
Theorem linter_reports funcs :
  CheckFuncs funcs false = concat (reference <$> funcs) /\
  (forall q, q ∈ CheckFuncs funcs true <-> exists fd i x kind, fd ∈ funcs /\ preorder false fd !! i = Some x /\
     offence x = Some kind /\ (exists j y, j < i /\ preorder false fd !! j = Some y /\ isLock y.1 = true) /\
     q = mkProblem (kind +:+ "-lock") (pos_of x.1)).
Proof.
  unfold CheckFuncs. rewrite checked_concat. split; [done|]. intros q. cbn [app].
  rewrite list_elem_of_filter, elem_of_concat. setoid_rewrite list_elem_of_fmap.
  assert (forall i (l : list (node * bool)), existsb (fun y => isLock y.1) (take i l) = true <->
    exists j y, j < i /\ l !! j = Some y /\ isLock y.1 = true) as Hlock.
  { intros i l. rewrite existsb_exists. split.
    - intros (y & Hy%list_elem_of_In & Hl). apply list_elem_of_lookup in Hy as [j Hj].
      apply lookup_take_Some in Hj as [Hj Hlt]. eauto.
    - intros (j & y & Hj & Hy & Hl). exists y. split; [|done]. apply list_elem_of_In, list_elem_of_lookup.
      exists j. by apply lookup_take_Some. }
  split.
  - intros (Hs & ps & Hq & fd & -> & Hfd). apply reference_elem in Hq as (i & x & kind & Hx & Ho & ->).
    cbn [Kind] in Hs. rewrite (offence_suffix x kind Ho) in Hs. exists fd, i, x, kind. split_and!; try done.
    + by apply Hlock.
    + by rewrite Hs.
  - intros (fd & i & x & kind & Hfd & Hx & Ho & Hl%Hlock & ->). cbn [Kind]. split.
    + apply (offence_suffix x kind Ho true).
    + exists (reference fd). split; [|by exists fd]. apply reference_elem. exists i, x, kind. by rewrite Hl.
Qed.

End Linter.

Arguments node : clear implicits.
Arguments Problem : clear implicits.
Arguments shared : clear implicits.

(** ** file_filter.go *)

Definition FileFilter (name : string) : bool := negb (HasSuffix name "_test.go").

(** ** print.go *)

Definition esc (code : string) : string := String "027"%char ("[" +:+ code +:+ "m").
Definition blue : string := esc "34".
Definition red : string := esc "31".
Definition reset_color : string := esc "0".
Definition newline : string := String "010"%char EmptyString.
Definition tab : string := String "009"%char EmptyString.

Fixpoint spaces (n : nat) : string := match n with O => EmptyString | S n => String " "%char (spaces n) end.

(** The verb [%4d]. *)
Definition pad4 (z : Z) : string := spaces (4 - String.length (Strconv.Itoa z)) +:+ Strconv.Itoa z.

Definition println (prefix str color : string) (colorLine : bool) : string :=
  let prefix := color +:+ prefix +:+ reset_color in
  if colorLine then prefix +:+ color +:+ str +:+ reset_color +:+ newline else prefix +:+ str +:+ newline.

(** The line [i] of a problem at line [l]. *)
Definition print_line (l i : Z) (text : string) : string :=
  let prefix := (if bool_decide (i = l) then "=>" else "  ")%string +:+ pad4 i +:+ ":" +:+ tab in
  println prefix text (if bool_decide (i = l) then red else blue) (bool_decide (i = l)).

(** The loop that skips lines; [None] returns early. *)
Fixpoint skip_lines (n : nat) (lines : list string) : option (list string) :=
  match n, lines with
  | O, _ => Some lines
  | S _, [] => None
  | S n, _ :: lines => skip_lines n lines
  end.

(** The loop that prints [n] lines from line [i] on, and whether it got to its end. *)
Fixpoint print_loop (l : Z) (n : nat) (i : Z) (lines : list string) : list string * bool :=
  match n, lines with
  | O, _ => ([], true)
  | S _, [] => ([], false)
  | S n, text :: lines =>
      let '(out, done_) := print_loop l n (i + 1) lines in (print_line l i text :: out, done_)
  end.

(** [PrintProblem]: what is written to the standard output; [file] are the lines of the file. *)
Definition PrintProblem (file : result (list string)) (filename kind : string) (line column : Z)
  : list string * option string :=
  match file with
  | Err err => ([], Some err)
  | Ok lines =>
      let head := [red +:+ kind +:+ reset_color +:+ newline;
                   filename +:+ ":" +:+ Strconv.Itoa line +:+ ":" +:+ Strconv.Itoa column +:+ newline] in
      match skip_lines (Z.to_nat (line - 6)) lines with
      | None => (head, None)
      | Some lines =>
          let s := Z.max 1 (line - 5) in
          let '(out, done_) := print_loop line (Z.to_nat (line + 5 - s + 1)) s lines in
          (head ++ out ++ (if done_ then [newline] else []), None)
      end
  end.

(** The lines of a file with their numbers, from [i] on. *)
Fixpoint numbered (i : Z) (lines : list string) : list (Z * string) :=
  match lines with [] => [] | t :: lines => (i, t) :: numbered (i + 1) lines end.

(** The lines around line [l]. *)
Definition window (l : Z) (lines : list string) : list (Z * string) :=
  filter (fun p => (l - 5 <= p.1 <= l + 5)%Z) (numbered 1 lines).

Lemma window_after l i lines : (l + 5 < i)%Z -> filter (fun p => (l - 5 <= p.1 <= l + 5)%Z) (numbered i lines) = [].
Proof.
  revert i. induction lines as [|t lines IH]; intros i Hi; [done|]. cbn [numbered]. rewrite filter_cons.
  rewrite decide_False by (cbn [fst]; lia). apply IH. lia.
Qed.

Lemma print_loop_window l i lines : (l - 5 <= i)%Z ->
  (print_loop l (Z.to_nat (l + 5 - i + 1)) i lines).1 =
    (fun p => print_line l p.1 p.2) <$> filter (fun p => (l - 5 <= p.1 <= l + 5)%Z) (numbered i lines).
Proof.
  revert i. induction lines as [|t lines IH]; intros i Hi; [by destruct (Z.to_nat _)|].
  destruct (decide (l + 5 < i)%Z) as [Hgt|Hle].
  - rewrite (window_after l i (t :: lines)) by done. by rewrite Z2Nat.nonpos by lia.
  - replace (Z.to_nat (l + 5 - i + 1)) with (S (Z.to_nat (l + 5 - (i + 1) + 1))) by lia. cbn [print_loop numbered].
    specialize (IH (i + 1)%Z ltac:(lia)). destruct (print_loop l _ (i + 1) lines) as [out done_].
    rewrite filter_cons, decide_True by (cbn [fst]; lia). cbn [fst] in *. rewrite IH. done.
Qed.

(** Skipping stops five lines before the problem. *)
Lemma skip_lines_window l i lines : (1 <= i)%Z ->
  match skip_lines (Z.to_nat (l - 5 - i)) lines with
  | None => filter (fun p => (l - 5 <= p.1 <= l + 5)%Z) (numbered i lines) = []
  | Some rest => filter (fun p => (l - 5 <= p.1 <= l + 5)%Z) (numbered i lines) =
      filter (fun p => (l - 5 <= p.1 <= l + 5)%Z) (numbered (Z.max i (l - 5)) rest)
  end.
Proof.
  revert i. induction lines as [|t lines IH]; intros i Hi.
  - by destruct (Z.to_nat _).
  - destruct (decide (i < l - 5)%Z) as [Hlt|Hge].
    + replace (Z.to_nat (l - 5 - i)) with (S (Z.to_nat (l - 5 - (i + 1)))) by lia. cbn [skip_lines numbered].
      rewrite filter_cons, decide_False by (cbn [fst]; lia). specialize (IH (i + 1)%Z ltac:(lia)).
      destruct (skip_lines _ lines); [|done]. rewrite IH. by replace (Z.max i (l - 5)) with (Z.max (i + 1) (l - 5)) by lia.
    + rewrite Z2Nat.nonpos by lia. cbn [skip_lines]. by replace (Z.max i (l - 5)) with i by lia.
Qed.

(** A problem is shown with the lines around it, each under its own number, its own marked. *)
Lemma PrintProblem_window lines filename kind l column : (1 <= l)%Z ->
  exists tail, PrintProblem (Ok lines) filename kind l column =
    ([red +:+ kind +:+ reset_color +:+ newline;
      filename +:+ ":" +:+ Strconv.Itoa l +:+ ":" +:+ Strconv.Itoa column +:+ newline]
     ++ ((fun p => print_line l p.1 p.2) <$> window l lines) ++ tail, None) /\ (tail = [] \/ tail = [newline]).
Proof.
  intros Hl. unfold PrintProblem, window. pose proof (skip_lines_window l 1 lines ltac:(lia)) as Hs.
  replace (l - 5 - 1)%Z with (l - 6)%Z in Hs by lia. destruct (skip_lines _ lines) as [rest|]; rewrite Hs.
  - pose proof (print_loop_window l (Z.max 1 (l - 5)) rest ltac:(lia)) as Hp.
    destruct (print_loop l _ _ rest) as [out done_]. cbn [fst] in Hp. rewrite Hp.
    exists (if done_ then [newline] else []). split; [done|]. destruct done_; auto.
  - exists []. rewrite app_nil_r. auto.
Qed.

(** ** cmd/linter/main.go *)

Section Main.

Context {Position : Type} (Line Column : Position -> Z).
(** [build.Import]: directory and name of a package; [parser.ParseDir]: packages by name, each
    with the declarations of its files; [os.Open] and the scanner: the lines of a file. *)
Context (Import_ : string -> string -> result (string * string)).
Context (ParseDir : string -> (string -> bool) -> result (gmap string (gmap string (list (node Position))))).
Context (Open : string -> result (list string)).
(** [path.Join(dir, path.Base(name))] *)
Context (source_path : string -> string -> string).
Context (ord : RangeOrder string).

(** The count and the standard output. *)
Definition lint_state : Type := nat * list string.

(** The problems of one file are counted and printed; a source that cannot be opened is only
    logged. *)
Definition lint_file (locksOnly : bool) (dir : string) (st : lint_state) (f : string * list (node Position)) : lint_state :=
  let problems := CheckFuncs (FuncDecls (snd f)) locksOnly in
  let srcPath := source_path dir (fst f) in
  let print p := fst (PrintProblem (Open srcPath) srcPath (Kind p) (Line (Position_ p)) (Column (Position_ p))) in
  (fst st + length problems, snd st ++ concat (print <$> problems)).

Definition lint_package (d : string) (locksOnly : bool) (st : lint_state) (fpath : string) : outcome lint_state :=
  match Import_ fpath d with
  | Err err => Panics err
  | Ok (dir, name) =>
      match ParseDir dir FileFilter with
      | Err err => Panics err
      | Ok packages =>
          match packages !! name with
          | None => Returns (fst st, snd st ++ ["Skipping package: " +:+ name +:+ " in path " +:+ fpath +:+ newline +:+ newline])
          | Some files => Returns (foldl (lint_file locksOnly dir) st (range_map ord files))
          end
      end
  end.

(** [main]: without a path the usage message and status 1; the status of a process that exits
    has eight bits. *)
Definition lint_main (paths : list string) (ImportPaths : list string -> list string) (Getwd : result string)
    (locksOnly : bool) : outcome (Z * list string) :=
  match paths with
  | [] => Returns (1%Z, [])
  | _ => match Getwd with
         | Err err => Panics err
         | Ok d => match ofold (lint_package d locksOnly) (ImportPaths paths) (0, []) with
                   | Panics why => Panics why
                   | Returns (count, out) => Returns ((Z.of_nat count mod 256)%Z, out)
                   end
         end
  end.

End Main.

(** ** Examples *)

Module LintExample.

Definition leaf (k : node_kind) (p : nat) : node nat := Node k p [].

(** [mu.Lock(); select { case ch <- 1: <-done }; out <- 2] *)
Definition locked : node nat :=
  Node KFuncDecl 0 [Node KBlockStmt 1
    [Node KCallExpr 2 [Node (KSelectorExpr "Lock") 2 [leaf KOther 2; leaf KOther 3]];
     Node KSelectStmt 4 [Node KBlockStmt 5
       [Node (KCommClause true) 6 [leaf KSendStmt 7; leaf (KUnaryExpr true) 8]]];
     leaf KSendStmt 9]].

(** [in := <-ch; mu.Lock()] *)
Definition unlocked : node nat :=
  Node KFuncDecl 10 [leaf (KUnaryExpr true) 11;
    Node KCallExpr 12 [Node (KSelectorExpr "Lock") 12 [leaf KOther 12; leaf KOther 13]]].

End LintExample.

Example lint_example :
  CheckFuncs [LintExample.locked; LintExample.unlocked] false =
    [mkProblem "selectWithoutDefault-lock" 4; mkProblem "sendChannel-withoutSelect-lock" 9;
     mkProblem "receiveChannel-withoutSelect" 11]%string.
Proof. reflexivity. Qed.

(** A receive in the body of a select's clause is not reported: the children of a select
    inherit [inSelect], also the statements that run after the select has chosen. *)
Lemma select_bodies_unchecked :
  Forall (fun q => Position_ q <> 8) (CheckFuncs [LintExample.locked] false) /\
  offence (LintExample.leaf (KUnaryExpr true) 8, false) <> None.
Proof. split; [|done]. apply (bool_decide_unpack _). vm_compute. exact I. Qed.

(** A lint run with 256 problems exits with status 0. *)
Lemma exit_status_wraps : exists out,
  lint_main (fun _ : nat => 1%Z) (fun _ => 1%Z) (fun p _ => Ok (p, "p"%string))
    (fun _ _ => Ok {["p"%string := {["f.go"%string := [Node KFuncDecl 0 (replicate (N.to_nat 256) (LintExample.leaf KSendStmt 1))]]}]})
    (fun _ => Ok ["ch <- 1"%string]) (fun dir name => dir +:+ "/" +:+ name)
    default_order ["./..."%string] (fun _ => ["p"%string]) (Ok "/"%string) false = Returns (0%Z, out).
Proof. eexists. vm_compute. reflexivity. Qed.
