(* ===== verification/Reliability.v ===== *)
(** * tools/reliability: the black box test of the firehose

    A request to the nozzle starts a test: the nozzle logs lines, reads them back from the
    firehose and reports how many came.  authenticator.go, handler.go, reporter.go, runner.go
    and cmd/nozzle/main.go; the UAA, the firehose consumer, the reporting service and
    [time.ParseDuration] are arguments.  What the select of a loop yields, next to next, is a
    list of events. *)

From Stdlib Require Import Ascii DecimalString.
From S2P Require Import Prelude Go Events Http Finder.

Local Open Scope Z_scope.

(** ** Bytes and strings *)

(** [bytes.Contains] *)
Fixpoint Contains (s sub : string) : bool :=
  Str.HasPrefix s sub || match s with EmptyString => false | String _ s => Contains s sub end.

Fixpoint trim_left (c : ascii) (s : string) : string :=
  match s with
  | String a s' => if ascii_dec a c then trim_left c s' else s
  | EmptyString => s
  end.

Fixpoint trim_right (c : ascii) (s : string) : string :=
  match s with
  | EmptyString => EmptyString
  | String a s =>
      match trim_right c s with
      | EmptyString => if ascii_dec a c then EmptyString else String a EmptyString
      | s => String a s
      end
  end.

Definition dquote : ascii := "034"%char.

(** [bytes.Trim] of quotes *)
Definition TrimQuotes (s : string) : string := trim_left dquote (trim_right dquote s).

Definition quoted (s : string) : string := String dquote (s +:+ String dquote EmptyString).

Lemma HasPrefix_mem c s p : Str.HasPrefix s p = true -> Chr.mem c p = true -> Chr.mem c s = true.
Proof.
  revert s. induction p as [|a p IH]; intros [|b s]; cbn; try done.
  destruct (ascii_dec a b) as [->|]; [|done]. destruct (ascii_dec b c); eauto.
Qed.

(** A text contains every character of a part of it. *)
Lemma Contains_mem c s sub : Contains s sub = true -> Chr.mem c sub = true -> Chr.mem c s = true.
Proof.
  induction s as [|b s IH]; cbn [Contains]; intros [H|H]%orb_true_iff Hm; try done.
  - by eapply HasPrefix_mem.
  - by eapply HasPrefix_mem.
  - cbn. destruct (ascii_dec b c); [done|]. by apply IH.
Qed.

Lemma mem_app c s t : Chr.mem c (s +:+ t) = Chr.mem c s || Chr.mem c t.
Proof. induction s as [|a s IH]; [done|]. change (String a s +:+ t) with (String a (s +:+ t)). cbn [Chr.mem]. destruct (ascii_dec a c); [done|]. apply IH. Qed.

(** ** authenticator.go *)

Record UAAClient : Type := mkUAAClient { clientID : string; clientSecret : string; uaaAddr : string }.

Section Token.

Context (PostForm : string -> list (string * string) -> answer).
Context (Unmarshal : string -> result (gmap string json)).

Definition Token (a : UAAClient) : result string :=
  match PostForm (uaaAddr a +:+ "/oauth/token")
          [("response_type", "token"); ("grant_type", "client_credentials");
           ("client_id", clientID a); ("client_secret", clientSecret a)]%string with
  | Refused err => Err err
  | Answered status body =>
      if negb (bool_decide (status = StatusOK))
      then Err ("Expected 200 status code from /oauth/token, got " +:+ Strconv.Itoa status)
      else match body with
           | Err err => Err err
           | Ok body =>
               match Unmarshal body with
               | Err err => Err err
               | Ok oauthResponse =>
                   match oauthResponse !! "access_token"%string with
                   | None => Err "No access_token on UAA oauth response"%string
                   | Some (JString accessToken) => Ok ("bearer " +:+ accessToken)
                   | Some _ => Err "access_token on UAA oauth response not a string"%string
                   end
               end
           end
  end.

End Token.

(** ** handler.go *)

(** A duration is a number of nanoseconds. *)
Record Test : Type := mkTest { Cycles : Z; Delay : Z; Timeout : Z }.

Definition StatusCreated : Z := 201.
Definition StatusMethodNotAllowed : Z := 405.

Section Handler.

Context (ParseDuration : string -> result Z).
(** The decoder calls back [UnmarshalJSON] for the durations. *)
Context (Decode : (string -> result Z) -> string -> result Test).
Context (Marshal : Test -> result string).

(** [Duration.UnmarshalJSON] *)
Definition UnmarshalJSON (b : string) : result Z := ParseDuration (TrimQuotes b).

(** [ServeHTTP]: the response, and the test that was started. *)
Definition ServeHTTP (method : string) (body : string) (w : ResponseWriter) : ResponseWriter * option Test :=
  if negb (bool_decide (method = "POST"%string)) then (WriteHeader w StatusMethodNotAllowed, None)
  else match Decode UnmarshalJSON body with
       | Err _ => (WriteHeader w StatusBadRequest, None)
       | Ok t =>
           match Marshal t with
           | Err _ => (WriteHeader w StatusInternalServerError, Some t)
           | Ok resp => (Write (WriteHeader w StatusCreated) resp, Some t)
           end
       end.

(** A test is started exactly for a readable POST, and only then the answer can be 201. *)
Lemma handler_starts method body :
  let '(w, run) := ServeHTTP method body NewResponse in
  (run = None <-> status_of w = StatusMethodNotAllowed \/ status_of w = StatusBadRequest) /\
  (forall t, run = Some t -> method = "POST"%string /\ Decode UnmarshalJSON body = Ok t) /\
  (status_of w = StatusCreated -> is_Some run).
Proof.
  unfold ServeHTTP. destruct (bool_decide _) eqn:Em; cbn [negb].
  - apply bool_decide_eq_true in Em. destruct (Decode _ body) as [t|err]; [destruct (Marshal t)|]; cbn; naive_solver.
  - cbn. naive_solver.
Qed.

End Handler.

(** ** reporter.go *)

Record TestResult : Type := mkTestResult {
  ReceivedLogCount : Z; TimeCompleted : Z; tr_Delay : Z; tr_Cycles : Z }.

Definition NewTestResult (test : Test) (count t : Z) : TestResult := mkTestResult count t (Delay test) (Cycles test).

Definition line (tabs : nat) (s : string) : string :=
  Nat.iter tabs (String "009"%char) s +:+ String "010"%char EmptyString.

Definition series (metric host : string) (t value delay : Z) (comma : string) : string :=
  line 3 "{" +:+
  line 4 (quoted "metric" +:+ ": " +:+ quoted metric +:+ ",") +:+
  line 4 (quoted "points" +:+ ": [[" +:+ Strconv.Itoa t +:+ ", " +:+ Strconv.Itoa value +:+ "]],") +:+
  line 4 (quoted "type" +:+ ": " +:+ quoted "gauge" +:+ ",") +:+
  line 4 (quoted "host" +:+ ": " +:+ quoted host +:+ ",") +:+
  line 4 (quoted "tags" +:+ ": [" +:+ quoted "firehose-nozzle" +:+ ", " +:+ quoted ("delay:" +:+ Strconv.Itoa delay) +:+ "]") +:+
  line 3 ("}" +:+ comma).

Definition buildPayload (host : string) (t msgCount cycles delay : Z) : string :=
  line 0 "{" +:+
  line 2 (quoted "series" +:+ ": [") +:+
  series "smoke_test.loggregator.msg_count" host t msgCount delay "," +:+
  series "smoke_test.loggregator.cycles" host t cycles delay EmptyString +:+
  line 2 "]" +:+
  String "009"%char "}".

Record DataDogReporter : Type := mkReporter { apiKey : string; host : string }.

Section Report.

(** [Post] of the client: URL, content type and body. *)
Context (Post : string -> string -> string -> answer).

Definition Report (r : DataDogReporter) (t : TestResult) : option string :=
  match Post ("https://app.datadoghq.com/api/v1/series?api_key=" +:+ apiKey r) "application/json;charset=utf-8"%string
          (buildPayload (host r) (TimeCompleted t) (ReceivedLogCount t) (tr_Cycles t) (tr_Delay t)) with
  | Refused err => Some err
  | Answered status _ =>
      if negb (bool_decide (status = StatusCreated)) then Some ("status code was " +:+ Strconv.Itoa status) else None
  end.

End Report.

(** ** runner.go *)

(** What a select of the runner takes: the deadline, an error, which is nil when the channel
    is closed, or an envelope, nil when that channel is. *)
Inductive hose_event : Type :=
| Expired
| Failed (err : option string)
| Arrived (msg : option V1.Envelope).

(** The type and the text of a log message; the getters of a nil envelope return the zero
    values. *)
Definition carries (text : string) (msg : option V1.Envelope) : bool :=
  match msg with
  | None => false
  | Some e => bool_decide (V1.GetEventType e = V1.Envelope_LogMessage) &&
              Contains (default EmptyString (V1.lm_Message <$> V1.GetLogMessage e)) text
  end.

(** [prime] and the events it leaves; [None] while it waits. *)
Fixpoint prime (primerMsg : string) (evs : list hose_event) : option (bool * list hose_event) :=
  match evs with
  | [] => None
  | Expired :: evs => Some (false, evs)
  | Failed _ :: evs => Some (false, evs)
  | Arrived msg :: evs => if carries primerMsg msg then Some (true, evs) else prime primerMsg evs
  end.

(** [receiveLogs]: the count and the error; the count is a uint64. *)
Fixpoint receiveLogs (logMsg : string) (logCycles receivedLogCount : Z) (evs : list hose_event)
  : option (Z * option string) :=
  match evs with
  | [] => None
  | Expired :: _ => Some (receivedLogCount, None)
  | Failed err :: _ => Some (0, err)
  | Arrived msg :: evs =>
      let receivedLogCount :=
        if carries logMsg msg then (receivedLogCount + 1) mod 2 ^ 64 else receivedLogCount in
      if bool_decide (receivedLogCount = logCycles) then Some (receivedLogCount, None)
      else receiveLogs logMsg logCycles receivedLogCount evs
  end.

(** [writeLogs]: the lines that are logged. *)
Definition writeLogs (logMsg : string) (cycles : Z) : list string := replicate (Z.to_nat cycles) logMsg.

Definition primer_text (subscriptionID : string) : string := subscriptionID +:+ " - PRIMER".
Definition test_text (subscriptionID : string) : string := subscriptionID +:+ " - TEST".

(** What a run does to the outside; the consumer is closed last. *)
Inductive run_action : Type :=
| OpenFirehose (subscriptionID authToken : string)
| GoWriteLogs (lines : list string) (delay : Z)
| DoReport (r : TestResult)
| CloseFirehose.

(** [Run]: its actions so far, and whether it has returned; [now] is when it reports. *)
Definition Run (subscriptionID : string) (authToken : result string) (now : Z) (t : Test) (evs : list hose_event)
  : list run_action * bool :=
  match authToken with
  | Err _ => ([], true)
  | Ok authToken =>
      let opened := OpenFirehose subscriptionID authToken in
      match prime (primer_text subscriptionID) evs with
      | None => ([opened], false)
      | Some (false, _) => ([opened; CloseFirehose], true)
      | Some (true, evs) =>
          let testLog := test_text subscriptionID in
          let writing := GoWriteLogs (writeLogs testLog (Cycles t)) (Delay t) in
          match receiveLogs testLog (Cycles t) 0 evs with
          | None => ([opened; writing], false)
          | Some (_, Some _) => ([opened; writing; CloseFirehose], true)
          | Some (receivedLogCount, None) =>
              ([opened; writing; DoReport (NewTestResult t receivedLogCount now); CloseFirehose], true)
          end
      end
  end.

(** ** What a run reports *)

(** The envelopes before the deadline or an error, and which of the two comes. *)
Fixpoint arrivals (evs : list hose_event) : list (option V1.Envelope) :=
  match evs with Arrived msg :: evs => msg :: arrivals evs | _ => [] end.

Fixpoint ending (evs : list hose_event) : option hose_event :=
  match evs with [] => None | Arrived _ :: evs => ending evs | ev :: _ => Some ev end.

Definition hits (text : string) (l : list (option V1.Envelope)) : Z :=
  Z.of_nat (length (filter (fun msg => carries text msg = true) l)).

Lemma hits_cons text msg l : hits text (msg :: l) = (if carries text msg then 1 else 0) + hits text l.
Proof.
  unfold hits. rewrite filter_cons. destruct (carries text msg).
  - rewrite decide_True by done. cbn [length]. lia.
  - by rewrite decide_False.
Qed.

(** The loop counts the hits up to the number of cycles; the count does not wrap around. *)
Lemma receiveLogs_counts text cycles evs : forall count, 0 <= count < cycles -> cycles < 2 ^ 64 ->
  receiveLogs text cycles count evs =
    if bool_decide (cycles <= count + hits text (arrivals evs)) then Some (cycles, None)
    else match ending evs with
         | None => None
         | Some (Failed err) => Some (0, err)
         | Some _ => Some (count + hits text (arrivals evs), None)
         end.
Proof.
  induction evs as [|ev evs IH]; intros count Hc Hmax; [|destruct ev as [|err|msg]];
    cbn [receiveLogs arrivals ending];
    try (change (hits text []) with 0; rewrite bool_decide_eq_false_2 by lia).
  - done.
  - by rewrite Z.add_0_r.
  - done.
  - rewrite hits_cons. assert (0 <= hits text (arrivals evs)) by (unfold hits; lia).
    destruct (carries text msg).
    + rewrite Z.mod_small by lia. destruct (bool_decide (count + 1 = cycles)) eqn:E.
      * apply bool_decide_eq_true in E. rewrite bool_decide_eq_true_2 by lia. by rewrite E.
      * apply bool_decide_eq_false in E. rewrite IH by lia. by rewrite (Z.add_assoc count 1).
    + rewrite bool_decide_eq_false_2 by lia. rewrite IH by lia. by rewrite Z.add_0_l.
Qed.

(** Priming ends at the first primer, and fails when the deadline or an error comes before. *)
Lemma prime_first text evs :
  match prime text evs with
  | Some (true, rest) => exists pre msg, evs = (Arrived <$> pre) ++ Arrived msg :: rest /\
      hits text pre = 0 /\ carries text msg = true
  | Some (false, _) => hits text (arrivals evs) = 0 /\ is_Some (ending evs)
  | None => hits text (arrivals evs) = 0 /\ ending evs = None
  end.
Proof.
  induction evs as [|ev evs IH]; [done|]. destruct ev as [|err|msg]; cbn [prime arrivals ending]; [eauto..|].
  rewrite hits_cons. destruct (carries text msg) eqn:E; [by exists [], msg|].
  destruct (prime text evs) as [[[] rest]|]; [|done..]. destruct IH as (pre & m & -> & Hp & Hm).
  exists (msg :: pre), m. by rewrite hits_cons, E.
Qed.

(** A run of the reliability test tells the truth about the firehose, with one exception.
    Once primed it reports the full number of cycles as soon as that many of its lines have
    come, and else, at the deadline, exactly how many came; an error of the firehose ends it
    without a report.  But when the error channel is closed, what the select takes is a nil
    error, and the run reports that nothing came, whatever has. *)
Lemma reliability_reports id token now t evs rest :
  0 < Cycles t < 2 ^ 64 -> prime (primer_text id) evs = Some (true, rest) ->
  let received := hits (test_text id) (arrivals rest) in
  let run actions := [OpenFirehose id token; GoWriteLogs (writeLogs (test_text id) (Cycles t)) (Delay t)] ++ actions in
  let report n := run [DoReport (mkTestResult n now (Delay t) (Cycles t)); CloseFirehose] in
  Run id (Ok token) now t evs =
    if bool_decide (Cycles t <= received) then (report (Cycles t), true)
    else match ending rest with
         | Some Expired => (report received, true)
         | Some (Failed (Some _)) => (run [CloseFirehose], true)
         | Some (Failed None) => (report 0, true)
         | _ => (run [], false)
         end.
Proof.
  intros Hc Hp received run report. unfold Run. rewrite Hp, receiveLogs_counts by lia. rewrite Z.add_0_l.
  fold received. destruct (bool_decide _); [done|].
  destruct (ending rest) as [[|[err|]|msg]|] eqn:E; try done.
  exfalso. clear -E. induction rest as [|[]]; naive_solver.
Qed.

(** A firehose that was opened is closed when the run returns, and a run reports at most
    once, after it started to write. *)
Lemma reliability_closes id token now t evs :
  match Run id token now t evs with
  | (actions, returned) =>
      (returned = true -> actions = [] \/ last actions = Some CloseFirehose) /\
      (forall i r, actions !! i = Some (DoReport r) -> i = 2%nat /\ tr_Cycles r = Cycles t)
  end.
Proof.
  unfold Run. destruct token as [token|]; [|naive_solver].
  destruct (prime _ evs) as [[[] rest]|]; [destruct (receiveLogs _ _ _ rest) as [[n []]|]| |]; split; try naive_solver;
    intros [|[|[|[|]]]] r; naive_solver.
Qed.

(** The primers that are still under way when the test starts are not counted: the nozzle's
    subscription is named in lower case. *)
Lemma primer_not_counted stamp id :
  Chr.mem "T"%char stamp = false -> Chr.mem "T"%char id = false ->
  Contains (stamp +:+ primer_text id) (test_text id) = false.
Proof.
  intros Hs Hi. destruct (Contains _ _) eqn:E; [|done]. apply (Contains_mem "T"%char) in E.
  - unfold primer_text in E. rewrite !mem_app, Hs, Hi in E. done.
  - unfold test_text. rewrite mem_app. by rewrite orb_true_r.
Qed.

(** ** Durations in JSON *)

Lemma trim_right_plain c s : Chr.mem c s = false -> trim_right c s = s.
Proof.
  induction s as [|a s IH]; [done|]. cbn [Chr.mem trim_right]. destruct (ascii_dec a c); [done|]. intros H.
  rewrite IH by done. by destruct s.
Qed.

Lemma trim_left_plain c s : Chr.mem c s = false -> trim_left c s = s.
Proof. destruct s as [|a s]; [done|]. cbn [Chr.mem trim_left]. by destruct (ascii_dec a c). Qed.

Lemma trim_right_quote s : Chr.mem dquote s = false -> trim_right dquote (s +:+ String dquote EmptyString) = s.
Proof.
  induction s as [|a s IH]; [done|]. change (String a s +:+ ?t) with (String a (s +:+ t)). cbn [Chr.mem trim_right].
  destruct (ascii_dec a dquote); [done|]. intros H. rewrite IH by done. by destruct s.
Qed.

(** A quoted duration is read as [time.ParseDuration] reads the text. *)
Lemma UnmarshalJSON_quoted ParseDuration s : Chr.mem dquote s = false ->
  UnmarshalJSON ParseDuration (quoted s) = ParseDuration s.
Proof.
  intros H. unfold UnmarshalJSON, TrimQuotes, quoted. cbn [trim_right].
  rewrite trim_right_quote by done. destruct s as [|a s]; [done|].
  cbn [trim_left]. destruct (ascii_dec dquote dquote); [|done]. f_equal. exact (trim_left_plain dquote (String a s) H).
Qed.

(** [time.ParseDuration] wants a unit behind every number but zero. *)
Definition wants_unit (ParseDuration : string -> result Z) : Prop := forall s,
  Strconv.digits_only s = true -> s <> "0"%string -> exists err, ParseDuration s = Err err.

Lemma digits_no_quote s : Strconv.digits_only s = true -> Chr.mem dquote s = false.
Proof.
  induction s as [|a s IH]; [done|]. cbn [Strconv.digits_only Chr.mem]. rewrite andb_true_iff. intros [Ha Hs].
  destruct (ascii_dec a dquote) as [->|]; [done|]. by apply IH.
Qed.

(** The response shows a duration as a number, which the nozzle does not accept in a request. *)
Lemma durations_not_reread ParseDuration d : wants_unit ParseDuration -> 0 < d ->
  exists err, UnmarshalJSON ParseDuration (Strconv.Itoa d) = Err err.
Proof.
  intros Hw Hd. destruct (Strconv.Itoa_nonneg d) as (u & Hu & Hz & _); [lia|].
  assert (Strconv.digits_only (Strconv.Itoa d) = true) as Hdig by (rewrite Hu; apply Strconv.string_of_uint_digits).
  unfold UnmarshalJSON, TrimQuotes.
  rewrite trim_right_plain, trim_left_plain by by apply digits_no_quote.
  apply Hw; [done|]. intros H0. pose proof (Strconv.Itoa_all_digits d) as Had. rewrite H0 in Had.
  specialize (Had ltac:(lia)). cbn in Had. naive_solver lia.
Qed.

(** ** cmd/nozzle/main.go *)

(** [host]: the first route of the application. *)
Definition nozzle_host (appData : result (gmap string json)) : outcome (result string) :=
  match appData with
  | Err err => Returns (Err err)
  | Ok appData =>
      match appData !! "uris"%string with
      | Some (JArray []) => Returns (Err "no application uri available, required for reporting to datadog"%string)
      | Some (JArray (JString uri :: _)) => Returns (Ok uri)
      | Some (JArray (_ :: _)) => Panics "interface conversion: interface {} is not string"
      | _ => Returns (Err "can not type assert uris to []interface{}"%string)
      end
  end.

Record Nozzle : Type := mkNozzle {
  nz_uaa : UAAClient; nz_reporter : DataDogReporter; nz_logEndpoint : string; nz_subscriptionID : string; nz_addr : string }.

Section Main.

Context (Getenv : string -> string) (Unmarshal : string -> result (gmap string json)).

(** [main] up to the server: [None] is the fatal end; [now] is in seconds. *)
Definition nozzle_main (now : Z) : outcome (option Nozzle) :=
  obind (nozzle_host (Unmarshal (Getenv "VCAP_APPLICATION"%string))) (fun host =>
  match host with
  | Err _ => Returns None
  | Ok host =>
      Returns (Some (mkNozzle
        (mkUAAClient (Getenv "CLIENT_ID") (Getenv "CLIENT_SECRET") (Getenv "UAA_ADDR"))
        (mkReporter (Getenv "DATADOG_API_KEY") host)
        (Getenv "LOG_ENDPOINT") ("blackbox-test-" +:+ Strconv.Itoa now) (":" +:+ Getenv "PORT")))
  end).

(** The nozzle's own subscription never makes a primer count as a test line. *)
Lemma nozzle_primers_not_counted now n stamp : 0 <= now -> Chr.mem "T"%char stamp = false ->
  nozzle_main now = Returns (Some n) ->
  Contains (stamp +:+ primer_text (nz_subscriptionID n)) (test_text (nz_subscriptionID n)) = false.
Proof.
  intros Hnow Hs. unfold nozzle_main. destruct (nozzle_host _) as [[host|]|]; cbn [obind]; try done. intros [= <-].
  apply primer_not_counted; [done|]. cbn [nz_subscriptionID]. rewrite mem_app.
  destruct (Strconv.Itoa_nonneg now Hnow) as (u & -> & _). pose proof (Strconv.string_of_uint_digits u) as Hd.
  revert Hd. generalize (NilEmpty.string_of_uint u) as s. intros s Hd. cbn [orb Chr.mem].
  replace (Chr.mem "T"%char "blackbox-test-"%string) with false by reflexivity. cbn [orb].
  induction s as [|a s IH]; [done|]. cbn [Strconv.digits_only] in Hd. apply andb_true_iff in Hd as [Ha Hd].
  cbn [Chr.mem]. destruct (ascii_dec a "T"%char) as [->|]; [done|]. by apply IH.
Qed.

End Main.

(** ** Examples *)

Module HoseExample.

Definition log_line (text : string) : hose_event :=
  Arrived (Some (V1.mkEnvelope (Some "dea"%string) (Some V1.Envelope_LogMessage) (Some 1) None None None None ∅ None
    (Some (V1.mkLogMessage text (Some V1.LogMessage_OUT) (Some 1) (Some "app"%string) None None)) None None None None)).

Definition test : Test := mkTest 2 5 10.

Definition primed : list hose_event :=
  [Arrived None; log_line "12:00 s - PRIMER"; log_line "12:01 s - PRIMER"; log_line "12:02 s - TEST"].

End HoseExample.

Example reliability_example :
  (Run "s" (Ok "bearer t"%string) 7 HoseExample.test (HoseExample.primed ++ [Expired]),
   Run "s" (Ok "bearer t"%string) 7 HoseExample.test (HoseExample.primed ++ [Failed None])) =
  (([OpenFirehose "s" "bearer t"; GoWriteLogs ["s - TEST"; "s - TEST"] 5; DoReport (mkTestResult 1 7 5 2); CloseFirehose], true),
   ([OpenFirehose "s" "bearer t"; GoWriteLogs ["s - TEST"; "s - TEST"] 5; DoReport (mkTestResult 0 7 5 2); CloseFirehose], true))%string.
Proof. vm_compute. reflexivity. Qed.
