(* ===== verification/Latency.v ===== *)
(** * tools/latency: how long a log line takes

    A request prints lines with random names, reads them back from the application's stream
    and answers with the average delay.  The goroutine that prints and the loop that reads
    share the map of send times; an execution is any sequence of their steps, of the clock
    and of the timer.  The consumer, [url.Parse], JSON decoding and the UUIDs are arguments. *)

From S2P Require Import Prelude Go Events Http Finder Reliability.

Local Open Scope Z_scope.

(** ** Set-up *)

Record URL : Type := mkURL { Scheme : string; url_rest : string }.

(** [input]: address, token, location and origin. *)
Definition input (Getenv : string -> string) (Parse : string -> result URL) : result (string * string * URL * URL) :=
  let targetURL := Getenv "TARGET_URL"%string in
  let token := Getenv "TOKEN"%string in
  let port := Getenv "PORT"%string in
  if Str.empty targetURL then Err "empty target url"%string
  else if Str.empty token then Err "empty token"%string
  else if Str.empty port then Err "empty port"%string
  else match Parse targetURL with
       | Err err => Err ("invalid target url: " +:+ err)
       | Ok location =>
           if bool_decide (Scheme location = "ws"%string)
           then Ok (":" +:+ port, token, location, mkURL "http" (url_rest location))
           else if bool_decide (Scheme location = "wss"%string)
           then Ok (":" +:+ port, token, location, mkURL "https" (url_rest location))
           else Err "target url requires a scheme of ws or wss"%string
       end.

(** [appID] of the decoded VCAP_APPLICATION. *)
Definition appID (appData : result (gmap string json)) : result string :=
  match appData with
  | Err err => Err err
  | Ok appData => match appData !! "application_id"%string with
                  | Some (JString appID) => Ok appID
                  | _ => Err "can not type assert app id"%string
                  end
  end.

Definition defaultSampleSize : Z := 10.

(** [sampleSize] of a request's query. *)
Definition sampleSize (rawQuery : string) : Z :=
  let samplesQuery := Url.Get (Url.Query rawQuery) "samples" in
  if Str.empty samplesQuery then defaultSampleSize
  else match Strconv.ParseInt samplesQuery 64 with
       | None => defaultSampleSize
       | Some sampleSize => if bool_decide (sampleSize < 1) || bool_decide (sampleSize > 1000)
                            then defaultSampleSize else sampleSize
       end.

Lemma sampleSize_bounds q : 1 <= sampleSize q <= 1000.
Proof.
  unfold sampleSize, defaultSampleSize. destruct (Str.empty _); [lia|].
  destruct (Strconv.ParseInt _ _) as [n|]; [|lia].
  do 2 case_bool_decide; cbn [orb]; lia.
Qed.

(** ** The average *)

(** [Time.Sub] saturates. *)
Definition Sub (e s : Z) : Z := Z.max (- 2 ^ 63) (Z.min (2 ^ 63 - 1) (e - s)).

Section Average.

Context (ord : RangeOrder string).

(** [computeAverages]: the sum wraps around, the quotient is rounded towards zero. *)
Definition computeAverages (results : gmap string Z) : result Z :=
  if bool_decide (size results = 0%nat) then Err "No results."%string
  else let totalDuration := foldl (fun total kd => Words.int64 (total + snd kd)) 0 (range_map ord results) in
       Ok (Z.quot totalDuration (Z.of_nat (size results))).

Lemma total_bounds lo hi (l : list (string * Z)) : forall total,
  0 <= lo -> 0 <= total -> (forall kd, kd ∈ l -> lo <= kd.2 <= hi) ->
  total + Z.of_nat (length l) * hi < 2 ^ 63 ->
  total + Z.of_nat (length l) * lo <= foldl (fun total kd => Words.int64 (total + snd kd)) total l <=
  total + Z.of_nat (length l) * hi.
Proof.
  induction l as [|kd l IH]; intros total Hlo Ht Hall Hmax; cbn [foldl length] in *; [lia|].
  pose proof (Hall kd ltac:(left)) as Hkd. rewrite Nat2Z.inj_succ in *.
  assert (0 <= Z.of_nat (length l) * hi) by nia.
  rewrite (Words.swrap_small 64) by lia.
  specialize (IH (total + kd.2) Hlo ltac:(lia) ltac:(intros; apply Hall; by right) ltac:(nia)). nia.
Qed.

(** The average is between the shortest and the longest delay, in whatever order they are
    added, while the sum fits a duration. *)
Lemma average_between results lo hi :
  results <> ∅ -> 0 <= lo -> (forall m d, results !! m = Some d -> lo <= d <= hi) ->
  Z.of_nat (size results) * hi < 2 ^ 63 ->
  exists avg, computeAverages results = Ok avg /\ lo <= avg <= hi.
Proof.
  intros Hne Hlo Hall Hmax. unfold computeAverages.
  assert (size results <> 0%nat) as Hs by (by rewrite map_size_empty_iff).
  rewrite bool_decide_eq_false_2 by done. eexists. split; [done|].
  pose proof (total_bounds lo hi (range_map ord results) 0) as Ht. rewrite range_length in Ht.
  specialize (Ht Hlo ltac:(lia)). rewrite Z.add_0_l in Ht.
  specialize (Ht ltac:(intros [m d] Hm%range_elem; by apply (Hall m)) Hmax).
  set (total := foldl _ _ _) in *. rewrite Z.quot_div_nonneg by nia.
  split; [apply Z.div_le_lower_bound|apply Z.div_le_upper_bound]; lia.
Qed.

End Average.

(** ** executeLatencyTest *)

Definition messagePrefix : string := "loggregator-latency-test-".

(** [generateRandomMessage] with its UUID. *)
Definition generateRandomMessage (id : string) : string := messagePrefix +:+ id.

(** The text of a log message; nil, from a closed channel, is none. *)
Definition log_text (msg : option V1.Envelope) : option string :=
  match msg with
  | None => None
  | Some e => if bool_decide (V1.GetEventType e = V1.Envelope_LogMessage)
              then Some (default EmptyString (V1.lm_Message <$> V1.GetLogMessage e)) else None
  end.

(** The first loop, until a line came back: [None] in the list is the default case.  The
    lines it printed, and whether it left. *)
Fixpoint ensure_connection (sel : list (option (option V1.Envelope))) : list string * bool :=
  match sel with
  | [] => ([], false)
  | None :: sel => let '(out, left_) := ensure_connection sel in ("ENSURE CONNECTION"%string :: out, left_)
  | Some msg :: sel =>
      if bool_decide (log_text msg = Some "ENSURE CONNECTION"%string) then ([], true) else ensure_connection sel
  end.

(** Once the stream is closed the loop does not end any more. *)
Lemma closed_stream_spins sel n : (ensure_connection sel).2 = false ->
  (ensure_connection (sel ++ replicate n (Some None))).2 = false.
Proof.
  induction sel as [|[msg|] sel IH]; cbn [ensure_connection app].
  - intros _. induction n as [|n IHn]; [done|]. exact IHn.
  - by destruct (bool_decide _).
  - destruct (ensure_connection sel), (ensure_connection (sel ++ _)). exact IH.
Qed.

Inductive lt_status : Type := Running | Returned (r : result Z) | Blocked.

Record latency_test : Type := mkLatencyTest {
  sendTimes : gmap string Z; results : gmap string Z; samples : Z; printed : list string;
  timer : Timer.t; status : lt_status }.

Definition NewLatencyTest : latency_test := mkLatencyTest ∅ ∅ 0 [] Timer.NewTimer Running.

(** The sending goroutine prints a sample; the loop takes an envelope or the timer's value;
    the runtime fires the timer. *)
Inductive lt_event : Type :=
| SendSample (id : string) (now : Z)
| TakeEnvelope (msg : option V1.Envelope) (now : Z)
| TimerExpires
| TakeTimer.

Section Test.

Context (ord : RangeOrder string) (sampleQuantity : Z).

Definition with_status (s : lt_status) (st : latency_test) : latency_test :=
  mkLatencyTest (sendTimes st) (results st) (samples st) (printed st) (timer st) s.

Definition with_timer (t : Timer.t) (st : latency_test) : latency_test :=
  mkLatencyTest (sendTimes st) (results st) (samples st) (printed st) t (status st).

Definition with_results (r : gmap string Z) (st : latency_test) : latency_test :=
  mkLatencyTest (sendTimes st) r (samples st) (printed st) (timer st) (status st).

Definition send_sample (id : string) (now : Z) (st : latency_test) : option latency_test :=
  if bool_decide (samples st < sampleQuantity)
  then let sampleMessage := generateRandomMessage id in
       Some (mkLatencyTest (<[sampleMessage := now]> (sendTimes st)) (results st) (samples st + 1)
               (printed st ++ [sampleMessage]) (timer st) (status st))
  else None.

(** The results after an envelope. *)
Definition measure (msg : option V1.Envelope) (now : Z) (st : latency_test) : gmap string Z :=
  match log_text msg with
  | Some message =>
      if Contains message messagePrefix
      then match sendTimes st !! message with
           | Some start => <[message := Sub now start]> (results st)
           | None => results st
           end
      else results st
  | None => results st
  end.

(** [if !timer.Stop() { <-timer.C }; timer.Reset(...)]; [None] blocks. *)
Definition restart (t : Timer.t) : option Timer.t :=
  let '(t, wasActive) := Timer.Stop t in
  match (if negb wasActive then Timer.recv t else Some t) with
  | None => None
  | Some t => Some (Timer.Reset t)
  end.

Definition take_envelope (msg : option V1.Envelope) (now : Z) (st : latency_test) : latency_test :=
  let st := with_results (measure msg now st) st in
  if bool_decide (Z.of_nat (size (results st)) = sampleQuantity)
  then with_status (Returned (computeAverages ord (results st))) st
  else match restart (timer st) with
       | None => with_status Blocked st
       | Some t => with_timer t st
       end.

(** A step, if it can be taken: the loop's only while it runs, the others also later. *)
Definition lt_step (st : latency_test) (ev : lt_event) : option latency_test :=
  match ev with
  | SendSample id now => send_sample id now st
  | TimerExpires => Some (with_timer (Timer.expire (timer st)) st)
  | TakeEnvelope msg now =>
      match status st with Running => Some (take_envelope msg now st) | _ => None end
  | TakeTimer =>
      match status st, Timer.recv (timer st) with
      | Running, Some t => Some (with_status (Returned (computeAverages ord (results st))) (with_timer t st))
      | _, _ => None
      end
  end.

Fixpoint lt_run (st : latency_test) (evs : list lt_event) : option latency_test :=
  match evs with
  | [] => Some st
  | ev :: evs => match lt_step st ev with Some st => lt_run st evs | None => None end
  end.

(** A delay that was measured: the sample was printed at [s] and came back at [e]. *)
Definition measured (evs : list lt_event) (m : string) (d : Z) : Prop :=
  exists i j id s msg e, (i < j)%nat /\ evs !! i = Some (SendSample id s) /\ m = generateRandomMessage id /\
    evs !! j = Some (TakeEnvelope msg e) /\ log_text msg = Some m /\ d = Sub e s.

Record lt_inv (evs : list lt_event) (st : latency_test) : Prop := {
  inv_sent m s : sendTimes st !! m = Some s -> exists i id, evs !! i = Some (SendSample id s) /\ m = generateRandomMessage id;
  inv_results m d : results st !! m = Some d -> measured evs m d;
  inv_dom : dom (results st) ⊆ dom (sendTimes st);
  inv_size : Z.of_nat (size (sendTimes st)) <= samples st;
  inv_samples : samples st <= Z.max 0 sampleQuantity;
  inv_timer : status st = Running -> Timer.live (timer st);
  inv_blocked : status st <> Blocked;
  inv_returned r : status st = Returned r -> r = computeAverages ord (results st)
}.

Lemma measured_app evs ev m d : measured evs m d -> measured (evs ++ [ev]) m d.
Proof.
  intros (i & j & id & s & msg & e & Hij & Hi & Hm & Hj & Hrest). exists i, j, id, s, msg, e.
  split_and!; try done; try apply Hrest; by apply lookup_app_l_Some.
Qed.

Lemma lt_inv_weaken evs ev st : lt_inv evs st -> lt_inv (evs ++ [ev]) st.
Proof.
  intros [Hs Hr Hd Hz Hq Ht Hb Hret]. split; try done.
  - intros m s (i & id & Hi & Hm)%Hs. exists i, id. split; [|done]. by apply lookup_app_l_Some.
  - intros m d H%Hr. by apply measured_app.
Qed.

Lemma restart_live t : Timer.live t -> exists t', restart t = Some t' /\ Timer.live t'.
Proof. destruct t as [[] []]; cbn; try done; intros _; by eexists. Qed.

Lemma measure_dom msg now st : dom (results st) ⊆ dom (sendTimes st) ->
  dom (measure msg now st) ⊆ dom (sendTimes st).
Proof.
  intros Hd. unfold measure. destruct (log_text msg) as [m|]; [|done]. destruct (Contains _ _); [|done].
  destruct (sendTimes st !! m) as [s|] eqn:E; [|done]. rewrite dom_insert_L.
  apply elem_of_dom_2 in E. set_solver.
Qed.

Lemma measure_measured evs msg now st m d : lt_inv evs st -> measure msg now st !! m = Some d ->
  measured (evs ++ [TakeEnvelope msg now]) m d.
Proof.
  intros HI Hm. assert (results st !! m = Some d -> measured (evs ++ [TakeEnvelope msg now]) m d) as Hold.
  { intros H. by apply measured_app, (inv_results _ _ HI). }
  unfold measure in Hm. destruct (log_text msg) as [m'|] eqn:El; [|auto]. destruct (Contains _ _); [|auto].
  destruct (sendTimes st !! m') as [s|] eqn:Es; [|auto].
  destruct (decide (m' = m)) as [->|Hne]; [|rewrite lookup_insert_ne in Hm by done; auto].
  rewrite lookup_insert_eq in Hm. injection Hm as <-. apply (inv_sent _ _ HI) in Es as (i & id & Hi & Hm).
  exists i, (length evs), id, s, msg, now. split_and!; try done.
  - by eapply lookup_lt_Some.
  - by apply lookup_app_l_Some.
  - by rewrite lookup_app_r, Nat.sub_diag.
Qed.

(** What the loop does with an envelope keeps the invariant. *)
Lemma take_envelope_inv evs msg now st : lt_inv evs st -> status st = Running ->
  lt_inv (evs ++ [TakeEnvelope msg now]) (take_envelope msg now st).
Proof.
  intros HI Hrun. pose proof (inv_timer _ _ HI Hrun) as Ht.
  assert (forall s t, s <> Blocked -> (s = Running -> Timer.live t) ->
    (forall r, s = Returned r -> r = computeAverages ord (measure msg now st)) ->
    lt_inv (evs ++ [TakeEnvelope msg now])
      (mkLatencyTest (sendTimes st) (measure msg now st) (samples st) (printed st) t s)) as Hnew.
  { intros s t Hb Hl Hr. destruct (lt_inv_weaken evs (TakeEnvelope msg now) st HI). split; cbn; try done.
    - intros m d. by apply measure_measured.
    - by apply measure_dom. }
  unfold take_envelope. cbn [with_results results timer]. destruct (bool_decide _).
  - apply Hnew; naive_solver.
  - destruct (restart_live _ Ht) as (t & -> & Hl). apply Hnew; cbn; rewrite ?Hrun; naive_solver.
Qed.

Lemma lt_step_inv evs st ev st' : lt_inv evs st -> lt_step st ev = Some st' -> lt_inv (evs ++ [ev]) st'.
Proof.
  intros HI. destruct ev as [id now|msg now| |]; cbn [lt_step].
  - unfold send_sample. case_bool_decide as Hlt; [|done]. intros [= <-].
    pose proof (lt_inv_weaken evs (SendSample id now) st HI) as [Hs Hr Hd Hz Hq Ht Hb Hret]. split; cbn; try done.
    + intros m s. destruct (decide (m = generateRandomMessage id)) as [->|Hne].
      * rewrite lookup_insert_eq. intros [= <-]. exists (length evs), id. by rewrite lookup_app_r, Nat.sub_diag.
      * rewrite lookup_insert_ne by done. apply Hs.
    + rewrite dom_insert_L. set_solver.
    + rewrite map_size_insert. destruct (sendTimes st !! _); cbn; lia.
    + lia.
  - destruct (status st) eqn:E; try done. intros [= <-]. by apply take_envelope_inv.
  - intros [= <-]. destruct (lt_inv_weaken evs TimerExpires st HI) as [Hs Hr Hd Hz Hq Ht Hb Hret].
    split; cbn; try done. intros Hrun%Ht. by destruct (timer st) as [[] []].
  - destruct (status st) eqn:E, (Timer.recv (timer st)) as [t|]; try done. intros [= <-].
    destruct (lt_inv_weaken evs TakeTimer st HI). split; cbn; try done. naive_solver.
Qed.

Lemma lt_run_inv evs : forall evs0 st st', lt_inv evs0 st -> lt_run st evs = Some st' -> lt_inv (evs0 ++ evs) st'.
Proof.
  induction evs as [|ev evs IH]; intros evs0 st st' HI; cbn [lt_run].
  - intros [= <-]. by rewrite app_nil_r.
  - destruct (lt_step st ev) as [st1|] eqn:E; [|done]. intros Hr.
    rewrite (app_assoc evs0 [ev] evs : evs0 ++ ev :: evs = _). eapply IH; [|done]. by eapply lt_step_inv.
Qed.

Lemma NewLatencyTest_inv : lt_inv [] NewLatencyTest.
Proof. split; cbn; try done; try lia. Qed.

End Test.

(** The latency test measures what it prints.  In every interleaving the loop never blocks on
    its timer; there are at most as many results as samples were asked for, each is the time
    from printing that line to reading it back, and a test that returns an average has one
    between the smallest and the largest of them, while the sum fits a duration.  Without a
    result it returns an error. *)
Theorem latency_measures ord q evs st : 1 <= q -> lt_run ord q NewLatencyTest evs = Some st ->
  status st <> Blocked /\
  Z.of_nat (size (results st)) <= q /\
  (forall m d, results st !! m = Some d -> measured evs m d) /\
  (forall avg lo hi, status st = Returned (Ok avg) -> 0 <= lo ->
     (forall m d, results st !! m = Some d -> lo <= d <= hi) -> q * hi < 2 ^ 63 -> lo <= avg <= hi) /\
  (forall err, status st = Returned (Err err) -> results st = ∅).
Proof.
  intros Hq Hrun. apply (lt_run_inv ord q evs []) in Hrun; [|apply NewLatencyTest_inv]. cbn [app] in Hrun.
  assert (Z.of_nat (size (results st)) <= q) as Hsize.
  { pose proof (inv_size _ _ _ _ Hrun). pose proof (inv_samples _ _ _ _ Hrun).
    pose proof (subseteq_size _ _ (inv_dom _ _ _ _ Hrun)) as Hd. rewrite !size_dom in Hd. lia. }
  split_and!; [exact (inv_blocked _ _ _ _ Hrun)|done|exact (inv_results _ _ _ _ Hrun)|..].
  - intros avg lo hi Hret Hlo Hall Hmax. apply (inv_returned _ _ _ _ Hrun) in Hret.
    destruct (decide (results st = ∅)) as [E|Hne].
    { rewrite E in Hret. unfold computeAverages in Hret. by rewrite bool_decide_eq_true_2 in Hret. }
    destruct (average_between ord (results st) lo hi) as (a & Ha & Hb); try done.
    + assert (0 <= hi).
      { apply map_choose in Hne as (m & d & Hm). apply Hall in Hm. lia. }
      nia.
    + rewrite Ha in Hret. naive_solver.
  - intros err Hret. apply (inv_returned _ _ _ _ Hrun) in Hret. unfold computeAverages in Hret.
    case_bool_decide as E; [|done]. by apply map_size_empty_inv.
Qed.

(** ** The handler *)

(** [latencyHandler.ServeHTTP]; [seconds] is the verb [%f] of a duration in seconds. *)
Definition latency_ServeHTTP (executeLatencyTest : Z -> result Z) (seconds : Z -> string) (rawQuery : string)
    (w : ResponseWriter) : ResponseWriter :=
  match executeLatencyTest (sampleSize rawQuery) with
  | Err _ => WriteHeader w StatusInternalServerError
  | Ok avg => Write w (seconds avg +:+ String (Ascii.ascii_of_nat 10) EmptyString)
  end.

Definition health_ServeHTTP (w : ResponseWriter) : ResponseWriter := WriteHeader w StatusOK.

Module LatencyExample.

Definition line_read (text : string) : option V1.Envelope :=
  Some (V1.mkEnvelope (Some "app"%string) (Some V1.Envelope_LogMessage) (Some 1) None None None None ∅ None
    (Some (V1.mkLogMessage text (Some V1.LogMessage_OUT) (Some 1) (Some "app"%string) None None)) None None None None).

(** Two samples of three come back, the second one twice. *)
Definition trace : list lt_event :=
  [SendSample "a" 100; SendSample "b" 110; TakeEnvelope (line_read "loggregator-latency-test-b") 130;
   TakeEnvelope (line_read "hello") 131; TakeEnvelope (line_read "loggregator-latency-test-a") 140;
   SendSample "c" 150; TakeEnvelope None 151; TimerExpires;
   TakeEnvelope (line_read "loggregator-latency-test-b") 160; TimerExpires; TakeTimer].

End LatencyExample.

Lemma latency_measures_witness : exists st, lt_run default_order 3 NewLatencyTest LatencyExample.trace = Some st /\
  status st = Returned (Ok 45) /\ size (results st) = 2%nat /\ status st <> Blocked.
Proof.
  eexists. split; [vm_compute; reflexivity|]. split_and!; [reflexivity|reflexivity|].
  refine (proj1 (latency_measures default_order 3 LatencyExample.trace _ _ _)); [lia|vm_compute; reflexivity].
Defined.
