(* ===== verification/Benchmark.v ===== *)
(** * tools/benchmark: counters, reports and writers

    metricsreporter: the benchmark's goroutines count what they send and receive while the
    reporter reads, prints and resets the counters, each an atomic access of its own; an
    execution is any interleaving of these accesses.  writestrategies: when messages are
    written.  experiment: the reader's loop. *)

From S2P Require Import Prelude Go.

Local Open Scope Z_scope.

(** ** metricsreporter *)

Module Reporter.

(** The lock is held between the two additions of [IncrementValue]. *)
Record Counter : Type := mkCounter { name : string; value : Z; total : Z; lock : bool }.

Definition NewCounter (name : string) : Counter := mkCounter name 0 0 false.

(** The two halves of [IncrementValue]; [None] waits. *)
Definition increment_value (c : Counter) : option Counter :=
  if lock c then None else Some (mkCounter (name c) (Words.add 64 (value c) 1) (total c) true).
Definition increment_total (c : Counter) : option Counter :=
  if lock c then Some (mkCounter (name c) (value c) (Words.add 64 (total c) 1) false) else None.

(** [Reset] does not take the lock. *)
Definition Reset (c : Counter) : Counter := mkCounter (name c) 0 (total c) (lock c).

(** Where the reporter's loop is: it reads the counters one by one, then resets them. *)
Inductive phase : Type := Waiting | Reads (acc : list Z) | Resets (todo : list nat) | Done_.

(** The counters: what was sent, what was received, and the others. *)
Record MetricsReporter : Type := mkReporter {
  counters : list Counter; numTicks : Z; at_ : phase; lines : list (list Z) }.

Definition New (names : list string) : MetricsReporter :=
  mkReporter (NewCounter EmptyString :: NewCounter EmptyString :: (NewCounter <$> names)) 0 Waiting [].

(** [reset]: the other counters, then the two. *)
Definition reset_order (n : nat) : list nat := seq 2 (n - 2) ++ [0%nat; 1%nat].

Inductive event : Type :=
| IncValue (i : nat)
| IncTotal (i : nat)
| Tick
| Read
| PrintLine
| ResetOne
| CountTick
| TakeStop.

#[export] Instance event_eq_dec : EqDecision event.
Proof. solve_decision. Defined.

Definition update (r : MetricsReporter) (i : nat) (f : Counter -> option Counter) : option MetricsReporter :=
  match counters r !! i with
  | Some c => match f c with
              | Some c => Some (mkReporter (<[i := c]> (counters r)) (numTicks r) (at_ r) (lines r))
              | None => None
              end
  | None => None
  end.

Definition with_phase (p : phase) (r : MetricsReporter) : MetricsReporter :=
  mkReporter (counters r) (numTicks r) p (lines r).

Definition step (r : MetricsReporter) (ev : event) : option MetricsReporter :=
  match ev, at_ r with
  | IncValue i, _ => update r i increment_value
  | IncTotal i, _ => update r i increment_total
  | Tick, Waiting => Some (with_phase (Reads []) r)
  | TakeStop, Waiting => Some (with_phase Done_ r)
  | Read, Reads acc =>
      match counters r !! length acc with
      | Some c => Some (with_phase (Reads (acc ++ [value c])) r)
      | None => None
      end
  | PrintLine, Reads acc =>
      if bool_decide (length acc = length (counters r))
      then Some (mkReporter (counters r) (numTicks r) (Resets (reset_order (length (counters r)))) (lines r ++ [acc]))
      else None
  | ResetOne, Resets (i :: todo) =>
      match update r i (fun c => Some (Reset c)) with
      | Some r => Some (with_phase (Resets todo) r)
      | None => None
      end
  | CountTick, Resets [] => Some (mkReporter (counters r) (Words.swrap 32 (numTicks r + 1)) Waiting (lines r))
  | _, _ => None
  end.

Fixpoint run (r : MetricsReporter) (evs : list event) : option MetricsReporter :=
  match evs with
  | [] => Some r
  | ev :: evs => match step r ev with Some r => run r evs | None => None end
  end.

(** How often counter [i] was incremented, and the sum of its column in the report. *)
Definition incs (i : nat) (evs : list event) : Z :=
  Z.of_nat (length (filter (fun ev => ev = IncValue i) evs)).

Definition column (i : nat) (l : list (list Z)) : Z := foldr (fun line n => default 0 (line !! i) + n) 0 l.

Lemma incs_snoc i evs ev : incs i (evs ++ [ev]) = incs i evs + (if decide (ev = IncValue i) then 1 else 0).
Proof.
  unfold incs. rewrite filter_app, length_app, filter_cons. destruct (decide _); cbn; lia.
Qed.

Lemma column_snoc i l line : column i (l ++ [line]) = column i l + default 0 (line !! i).
Proof. induction l as [|x l IH]; cbn; [lia|]. fold (column i (l ++ [line])) (column i l). rewrite IH. lia. Qed.

Lemma column_nonneg i l : Forall (Forall (fun v => 0 <= v)) l -> 0 <= column i l.
Proof.
  induction 1 as [|x l Hx Hl IH]; cbn; [lia|]. fold (column i l).
  destruct (x !! i) as [v|] eqn:E; cbn; [|lia]. pose proof (Forall_lookup_1 _ _ _ _ Hx E). cbn in *. lia.
Qed.

(** What the last line says of a counter that still has to be reset. *)
Definition unreset (r : MetricsReporter) (i : nat) : Z :=
  match at_ r with
  | Resets todo => if decide (i ∈ todo) then default 0 (default [] (last (lines r)) !! i) else 0
  | _ => 0
  end.

Definition b2z (b : bool) : Z := if b then 1 else 0.

Record counter_inv (evs : list event) (r : MetricsReporter) (i : nat) (c : Counter) : Prop := {
  ci_total : 0 <= total c /\ total c + b2z (lock c) = incs i evs;
  ci_value : 0 <= unreset r i <= value c;
  ci_column : column i (lines r) + value c <= incs i evs + unreset r i;
  ci_read acc v : at_ r = Reads acc -> acc !! i = Some v -> 0 <= v <= value c
}.

Record inv (evs : list event) (r : MetricsReporter) : Prop := {
  i_counters i c : counters r !! i = Some c -> counter_inv evs r i c;
  i_lines : Forall (Forall (fun v => 0 <= v)) (lines r);
  i_acc acc : at_ r = Reads acc -> Forall (fun v => 0 <= v) acc;
  i_todo todo : at_ r = Resets todo -> NoDup todo
}.

Lemma unreset_column evs r i : inv evs r -> unreset r i <= column i (lines r).
Proof.
  intros HI. pose proof (i_lines _ _ HI) as Hl. unfold unreset.
  destruct (at_ r) as [| |todo|]; try by apply column_nonneg.
  destruct (decide _); [|by apply column_nonneg]. revert Hl. induction (lines r) as [|x l _] using rev_ind; [done|].
  intros [Hl _]%Forall_app. rewrite last_snoc, column_snoc. cbn [default]. pose proof (column_nonneg i l Hl). unfold id. lia.
Qed.

(** No value exceeds the increments, so none wraps around before 2^64 of them. *)
Lemma value_bound evs r i c : inv evs r -> counters r !! i = Some c -> 0 <= value c <= incs i evs.
Proof.
  intros HI Hc. pose proof (i_counters _ _ HI i c Hc) as [_ Hv Hcol _]. pose proof (unreset_column evs r i HI). lia.
Qed.

(** An access of one counter leaves the others as they were. *)
Lemma update_inv evs ev r i f r' : inv evs r -> update r i f = Some r' ->
  (forall j, i <> j -> incs j (evs ++ [ev]) = incs j evs) ->
  (forall c c', counters r !! i = Some c -> f c = Some c' -> counter_inv evs r i c -> counter_inv (evs ++ [ev]) r i c') ->
  inv (evs ++ [ev]) r'.
Proof.
  intros HI Hu Hincs Hf. unfold update in Hu. destruct (counters r !! i) as [c|] eqn:Ec; [|done].
  destruct (f c) as [c'|] eqn:Ef; [|done]. injection Hu as <-. split; cbn; [|apply HI..].
  intros j cj Hj. destruct (decide (i = j)) as [<-|Hne].
  - rewrite list_lookup_insert_eq in Hj by by eapply lookup_lt_Some. injection Hj as <-.
    destruct (Hf c c' eq_refl Ef (i_counters _ _ HI i c Ec)) as [H1 H2 H3 H4]. by split.
  - rewrite list_lookup_insert_ne in Hj by done. destruct (i_counters _ _ HI j cj Hj) as [H1 H2 H3 H4].
    split; cbn; rewrite ?Hincs by done; done.
Qed.

Lemma increments_inv evs r i r' : inv evs r -> incs i evs + 1 < 2 ^ 64 ->
  (update r i increment_value = Some r' -> inv (evs ++ [IncValue i]) r') /\
  (update r i increment_total = Some r' -> inv (evs ++ [IncTotal i]) r').
Proof.
  intros HI Hmax. split; intros Hu; eapply update_inv; try done.
  - intros j Hj. rewrite incs_snoc, decide_False by congruence. lia.
  - intros c c' Hc Hf [Ht Hv Hcol Hr]. pose proof (value_bound _ _ _ _ HI Hc). unfold increment_value in Hf.
    destruct (lock c) eqn:El; [done|]. injection Hf as <-. cbn [b2z] in Ht.
    split; cbn; rewrite ?incs_snoc, ?decide_True, ?Words.add_small by (done || lia); try lia.
    intros acc v Hat Hacc. pose proof (Hr acc v Hat Hacc). lia.
  - intros j Hj. rewrite incs_snoc, decide_False by done. lia.
  - intros c c' Hc Hf [Ht Hv Hcol Hr]. unfold increment_total in Hf. destruct (lock c) eqn:El; [|done].
    injection Hf as <-. cbn [b2z] in Ht.
    assert (incs i (evs ++ [IncTotal i]) = incs i evs) as Hi by (rewrite incs_snoc, decide_False by done; lia).
    split; cbn; rewrite ?Hi; try done. rewrite Words.add_small by lia. lia.
Qed.

(** A step of the reporter that changes no counter. *)
Lemma reporter_inv evs ev r p l n : inv evs r -> (forall j, ev <> IncValue j) ->
  (forall i c, counters r !! i = Some c -> let r' := mkReporter (counters r) n p l in
     0 <= unreset r' i <= value c /\ column i l + value c <= incs i evs + unreset r' i /\
     forall acc v, p = Reads acc -> acc !! i = Some v -> 0 <= v <= value c) ->
  Forall (Forall (fun v => 0 <= v)) l -> (forall acc, p = Reads acc -> Forall (fun v => 0 <= v) acc) ->
  (forall todo, p = Resets todo -> NoDup todo) ->
  inv (evs ++ [ev]) (mkReporter (counters r) n p l).
Proof.
  intros HI Hev Hc Hl Hacc Htodo. split; cbn; try done. intros i c Hi.
  assert (incs i (evs ++ [ev]) = incs i evs) as Hincs by (rewrite incs_snoc, decide_False by done; lia).
  destruct (Hc i c Hi) as (H1 & H2 & H3). split; cbn; rewrite ?Hincs; try done. by apply (i_counters _ _ HI i c).
Qed.

Lemma reset_order_NoDup n : NoDup (reset_order n).
Proof.
  unfold reset_order. rewrite NoDup_app. split_and!; [apply NoDup_seq| |by apply (bool_decide_unpack _)].
  intros x Hx%elem_of_seq Hin. apply elem_of_cons in Hin as [->|Hin%list_elem_of_singleton]; lia.
Qed.

Lemma reset_order_all n i : (2 <= n)%nat -> (i < n)%nat -> i ∈ reset_order n.
Proof.
  intros Hn Hi. unfold reset_order. destruct i as [|[|i]]; rewrite elem_of_app, elem_of_seq; [right..|left; lia]; set_solver.
Qed.

Lemma reset_one_inv evs r i todo r' : inv evs r -> at_ r = Resets (i :: todo) ->
  match update r i (fun c => Some (Reset c)) with
  | Some r => Some (with_phase (Resets todo) r)
  | None => None
  end = Some r' ->
  inv (evs ++ [ResetOne]) r' /\ length (counters r') = length (counters r).
Proof.
  intros HI Ha E. unfold update in E. destruct (counters r !! i) as [c0|] eqn:Ec; [|done]. injection E as <-.
  pose proof (i_todo _ _ HI _ Ha) as [Hi Hnd]%NoDup_cons.
  split; [|cbn; apply length_insert]. split; cbn; [|apply HI|done|by intros ? [= <-]].
  intros j cj Hj. assert (incs j (evs ++ [ResetOne]) = incs j evs) as Hincs by (rewrite incs_snoc, decide_False by done; lia).
  destruct (decide (i = j)) as [<-|Hne].
  - rewrite list_lookup_insert_eq in Hj by by eapply lookup_lt_Some. injection Hj as <-.
    destruct (i_counters _ _ HI i c0 Ec) as [H1 H2 H3 _]. unfold unreset in *. rewrite Ha in *.
    rewrite decide_True in H2, H3 by left.
    split; unfold unreset; cbn [at_ lines with_phase value total lock Reset];
      rewrite ?Hincs, ?(decide_False (P := i ∈ todo)) by done; try done; lia.
  - rewrite list_lookup_insert_ne in Hj by done. destruct (i_counters _ _ HI j cj Hj) as [H1 H2 H3 _].
    unfold unreset in *. rewrite Ha in *.
    split; unfold unreset; cbn; rewrite ?Hincs; try done; destruct (decide (j ∈ i :: todo)) as [Hin|Hin], (decide (j ∈ todo)) as [Hin'|Hin'];
      try done; exfalso; set_solver.
Qed.

Lemma reporter_step_inv evs r ev r' : inv evs r -> (2 <= length (counters r))%nat ->
  (forall i, incs i evs + 1 < 2 ^ 64) -> step r ev = Some r' ->
  inv (evs ++ [ev]) r' /\ length (counters r') = length (counters r).
Proof.
  intros HI Hn Hmax E.
  assert (forall i f r1, update r i f = Some r1 -> length (counters r1) = length (counters r)) as Hlen.
  { intros i f r1 Hu. unfold update in Hu. destruct (counters r !! i); [|done]. destruct (f _); [|done].
    injection Hu as <-. cbn. apply length_insert. }
  destruct ev as [i|i| | | | | |]; unfold step in E.
  - split; [by apply (proj1 (increments_inv evs r i r' HI (Hmax i)))|by eapply Hlen].
  - split; [by apply (proj2 (increments_inv evs r i r' HI (Hmax i)))|by eapply Hlen].
  - destruct (at_ r) eqn:Ha; try done. injection E as <-. split; [|done]. apply reporter_inv; try done; [|apply HI|..].
    + intros i c Hi. destruct (i_counters _ _ HI i c Hi) as [_ H1 H2 _]. unfold unreset in *. rewrite Ha in *. cbn [at_ lines].
      split_and!; try done; try lia. by intros acc v [= <-].
    + by intros acc [= <-].
  - destruct (at_ r) as [|acc| |] eqn:Ha; try done. destruct (counters r !! length acc) as [c0|] eqn:Ec; [|done].
    injection E as <-. pose proof (value_bound _ _ _ _ HI Ec) as Hb.
    split; [|done]. apply reporter_inv; try done; [|apply HI|..].
    + intros i c Hi. destruct (i_counters _ _ HI i c Hi) as [_ H1 H2 H3]. unfold unreset in *. rewrite Ha in *. cbn [at_ lines]. split_and!; try done; try lia.
      intros acc' v [= <-] Hv. apply lookup_snoc_Some in Hv as [[_ Hv]|[-> <-]]; [by eapply H3|]. rewrite Ec in Hi. injection Hi as <-. lia.
    + intros acc' [= <-]. apply Forall_app. split; [by apply (i_acc _ _ HI)|]. by constructor; [lia|].
  - destruct (at_ r) as [|acc| |] eqn:Ha; try done. case_bool_decide as Hlenacc; [|done]. injection E as <-.
    split; [|done]. pose proof (i_acc _ _ HI acc Ha) as Hacc. apply reporter_inv; try done.
    + intros i c Hi. destruct (i_counters _ _ HI i c Hi) as [_ H1 H2 H3]. unfold unreset in *. rewrite Ha in *. cbn [at_ lines].
      rewrite decide_True by (apply reset_order_all; [done|by eapply lookup_lt_Some]). rewrite last_snoc, column_snoc. cbn [default].
      destruct (lookup_lt_is_Some_2 acc i) as [v Hv]; [rewrite Hlenacc; by eapply lookup_lt_Some|].
      unfold id. rewrite Hv. cbn [default]. unfold id. pose proof (H3 acc v eq_refl Hv). split_and!; try lia. done.
    + apply Forall_app. split; [apply HI|by constructor].
    + intros todo [= <-]. apply reset_order_NoDup.
  - destruct (at_ r) as [| |[|i todo]|] eqn:Ha; try done. by eapply reset_one_inv.
  - destruct (at_ r) as [| |[|i todo]|] eqn:Ha; try done. injection E as <-. split; [|done].
    apply reporter_inv; try done; [|apply HI]. intros i c Hi. destruct (i_counters _ _ HI i c Hi) as [_ H1 H2 _].
    unfold unreset in *. rewrite Ha in *. cbn [at_ lines]. rewrite decide_False in H1, H2 by apply not_elem_of_nil. split_and!; try done; lia.
  - destruct (at_ r) eqn:Ha; try done. injection E as <-. split; [|done]. apply reporter_inv; try done; [|apply HI].
    intros i c Hi. destruct (i_counters _ _ HI i c Hi) as [_ H1 H2 _]. unfold unreset in *. rewrite Ha in *. cbn [at_ lines]. split_and!; try done; lia.
Qed.

Lemma NewReporter_inv names : inv [] (New names).
Proof.
  split; cbn; try done. intros i c Hi. assert (value c = 0 /\ total c = 0 /\ lock c = false) as (Hv & Ht & Hl).
  { destruct i as [|[|i]]; cbn in Hi; [by injection Hi as <-..|].
    change ((NewCounter <$> names) !! i = Some c) in Hi. apply list_lookup_fmap_Some in Hi as (x & -> & _). done. }
  split; unfold unreset; cbn; rewrite ?Hv, ?Ht, ?Hl; cbn; try done; lia.
Qed.

Lemma incs_length i evs : incs i evs <= Z.of_nat (length evs).
Proof. unfold incs. pose proof (length_filter (fun ev => ev = IncValue i) evs). lia. Qed.

Lemma reporter_run_inv evs : forall evs0 r r', inv evs0 r -> (2 <= length (counters r))%nat ->
  Z.of_nat (length (evs0 ++ evs)) < 2 ^ 64 -> run r evs = Some r' -> inv (evs0 ++ evs) r'.
Proof.
  induction evs as [|ev evs IH]; intros evs0 r r' HI Hn Hmax; cbn [run].
  - intros [= <-]. by rewrite app_nil_r.
  - destruct (step r ev) as [r1|] eqn:E; [|done]. intros Hr.
    rewrite length_app in Hmax. cbn [length] in Hmax.
    destruct (reporter_step_inv evs0 r ev r1 HI Hn) as [HI1 Hl]; [|done|].
    { intros i. pose proof (incs_length i evs0). lia. }
    rewrite (app_assoc evs0 [ev] evs : evs0 ++ ev :: evs = _). apply (IH _ r1); try done; [by rewrite Hl|].
    rewrite !length_app. cbn. lia.
Qed.

(** The reports never say more than was counted.  In every interleaving the total of a counter
    is the number of its increments, less one that is under way, and the sum of the values
    printed for it is at most that number.  It can be less: an increment between the reading
    and the reset of a counter is in no line. *)
Lemma reporter_never_overcounts names evs r i c :
  Z.of_nat (length evs) < 2 ^ 64 -> run (New names) evs = Some r -> counters r !! i = Some c ->
  total c + b2z (lock c) = incs i evs /\ 0 <= column i (lines r) <= incs i evs.
Proof.
  intros Hmax Hr Hc. assert (inv evs r) as HI.
  { apply (reporter_run_inv evs [] (New names)); [apply NewReporter_inv|cbn; lia|done|done]. }
  destruct (i_counters _ _ HI i c Hc) as [H1 H2 H3 _]. pose proof (column_nonneg i _ (i_lines _ _ HI)). lia.
Qed.

Example increment_lost :
  (fun r => (lines r, total <$> counters r)) <$>
    run (New []) [IncValue 0; IncTotal 0; Tick; Read; IncValue 0; IncTotal 0; Read; PrintLine; ResetOne; ResetOne; CountTick;
                  Tick; Read; Read; PrintLine] =
  Some ([[1; 0]; [0; 0]], [2; 0]).
Proof. reflexivity. Qed.

End Reporter.

(** ** writestrategies *)

Module Strategies.

Definition Second : Z := 1000000000.

(** The interval of the ticker; [time.NewTicker] panics when it is not positive. *)
Definition write_interval (writeRate : Z) : outcome Z :=
  if bool_decide (writeRate = 0) then Panics "integer divide by zero"
  else let writeInterval := Z.quot Second writeRate in
       if bool_decide (writeInterval <= 0) then Panics "non-positive interval for NewTicker"
       else Returns writeInterval.

(** A writer can start with one to a billion messages a second, and no others. *)
Lemma write_rates r : (exists i, write_interval r = Returns i) <-> 1 <= r <= Second.
Proof.
  unfold write_interval. case_bool_decide as H0; [subst; split; [by intros []|unfold Second; lia]|].
  case_bool_decide as Hi.
  - split; [by intros []|]. intros Hr. rewrite Z.quot_div_nonneg in Hi by (unfold Second in *; lia).
    pose proof (Z.div_le_lower_bound Second r 1). lia.
  - split; [|by eexists]. intros _. destruct (decide (r < 0)) as [Hneg|].
    + exfalso. apply Hi. pose proof (Z.quot_opp_r Second r H0) as Hq.
      pose proof (Z.quot_pos Second (- r) ltac:(unfold Second; lia) ltac:(lia)). lia.
    + split; [lia|]. apply Z.nlt_ge. intros Hgt. apply Hi. by rewrite Z.quot_small by (unfold Second in *; lia).
Qed.

(** [random]; [rand.Intn] panics unless its argument is positive. *)
Definition random (Intn : Z -> Z) (minimum maximum : Z) : outcome Z :=
  if bool_decide (minimum = maximum) then Returns minimum
  else let diff := maximum - minimum in
       if bool_decide (diff <= 0) then Panics "invalid argument to Intn" else Returns (minimum + Intn diff).

(** A burst has at least the minimum and less than the maximum, which only a strategy with
    equal bounds writes. *)
Lemma random_range Intn minimum maximum : (forall n, 0 < n -> 0 <= Intn n < n) -> minimum <= maximum ->
  exists b, random Intn minimum maximum = Returns b /\ minimum <= b /\ (minimum < maximum -> b < maximum).
Proof.
  intros HI Hle. unfold random. case_bool_decide; [exists minimum; split_and!; [done|lia..]|].
  rewrite bool_decide_eq_false_2 by lia. eexists. split; [done|]. pose proof (HI (maximum - minimum)). lia.
Qed.

(** What a select of a writer takes; a tick of the burst writer comes with its draw. *)
Inductive selected : Type := TookStop | TookTick (draw : Z).

Section Writers.

(** The messages that [Generate] makes, in order. *)
Context (Generate : nat -> string).

(** The loop of [ConstantWriteStrategy.StartWriter]: what it wrote after [n] messages, and
    whether it is done. *)
Fixpoint constant_loop (n : nat) (sel : list selected) : list string * bool :=
  match sel with
  | [] => ([], false)
  | TookStop :: _ => ([], true)
  | TookTick _ :: sel => let '(out, d) := constant_loop (S n) sel in (Generate n :: out, d)
  end.

(** The loop of [BurstWriteStrategy.StartWriter]. *)
Fixpoint burst_loop (minimum maximum : Z) (n : nat) (sel : list selected) : outcome (list string * bool) :=
  match sel with
  | [] => Returns ([], false)
  | TookStop :: _ => Returns ([], true)
  | TookTick draw :: sel =>
      obind (random (fun _ => draw) minimum maximum) (fun burst =>
      let k := Z.to_nat burst in
      obind (burst_loop minimum maximum (n + k) sel) (fun '(out, d) => Returns ((Generate <$> seq n k) ++ out, d)))
  end.

Definition ticks_before_stop (sel : list selected) : list Z :=
  (fix go l := match l with TookTick d :: l => d :: go l | _ => [] end) sel.

(** Messages are written in the order in which they are generated, one for each tick until
    the stop. *)
Lemma constant_loop_writes sel n :
  (constant_loop n sel).1 = Generate <$> seq n (length (ticks_before_stop sel)).
Proof.
  revert n. induction sel as [|[|draw] sel IH]; intros n; [done..|]. cbn [constant_loop].
  specialize (IH (S n)). destruct (constant_loop (S n) sel). cbn in *. by rewrite IH.
Qed.

Definition burst_of (minimum maximum draw : Z) : nat :=
  Z.to_nat (if bool_decide (minimum = maximum) then minimum else minimum + draw).

(** The burst writer does the same with a burst for each tick, and does not panic with bounds
    in order. *)
Lemma burst_loop_writes minimum maximum sel n : minimum <= maximum ->
  exists d, burst_loop minimum maximum n sel =
    Returns (Generate <$> seq n (sum_list (burst_of minimum maximum <$> ticks_before_stop sel)), d).
Proof.
  intros Hle. revert n. induction sel as [|[|draw] sel IH]; intros n; [by eexists..|]. cbn [burst_loop].
  assert (exists b, random (fun _ => draw) minimum maximum = Returns b /\ Z.to_nat b = burst_of minimum maximum draw)
    as (b & -> & Hb).
  { unfold random, burst_of. case_bool_decide; [by eexists|]. rewrite bool_decide_eq_false_2 by lia. by eexists. }
  cbn [obind]. rewrite Hb. destruct (IH (n + burst_of minimum maximum draw)%nat) as (d & ->). cbn [obind].
  exists d. cbn. by rewrite seq_app, fmap_app.
Qed.

End Writers.

(** [Stop] of a strategy: the channel may be closed once. *)
Record stopper : Type := mkStopper { wg : Z; stopChan : Chan.t unit }.

Definition Stop (s : stopper) : outcome stopper :=
  match Chan.close (stopChan s) with
  | Some c => Returns (mkStopper (wg s + 1) c)
  | None => Panics "close of closed channel"
  end.

End Strategies.

(** ** experiment *)

Module Experiment.

(** The loop of [startReader] over what the select finds, the stop or the default case: how
    many reads, how often [reading] was closed, and whether the reader was closed. *)
Fixpoint startReader (reading : bool) (sel : list bool) : nat * nat * bool :=
  match sel with
  | [] => (0%nat, 0%nat, false)
  | true :: _ => (0%nat, 0%nat, true)
  | false :: sel =>
      let '(reads, closes, closed) := startReader false sel in
      (S reads, (if reading then S closes else closes), closed)
  end.

(** [reading] is closed with the first read and never again. *)
Lemma reading_closed_once sel :
  let '(reads, closes, _) := startReader true sel in closes = Nat.min 1 reads.
Proof.
  assert (forall sel, (startReader false sel).1.2 = 0%nat) as H0.
  { clear. induction sel as [|[] sel IH]; [done..|]. cbn. by destruct (startReader false sel) as [[reads closes] closed]. }
  destruct sel as [|[] sel]; [done..|]. cbn. specialize (H0 sel). destruct (startReader false sel) as [[reads closes] closed].
  cbn in *. by rewrite H0.
Qed.

(** [Stop]: the writers first, in order, then the reader. *)
Definition Stop (stopStrategy : Strategies.stopper -> outcome Strategies.stopper)
    (writeStrategies : list Strategies.stopper) (stopChan : Chan.t unit) : outcome (list Strategies.stopper * Chan.t unit) :=
  obind (ofold (fun done_ s => obind (stopStrategy s) (fun s => Returns (done_ ++ [s]))) writeStrategies []) (fun l =>
  match Chan.close stopChan with
  | Some c => Returns (l, c)
  | None => Panics "close of closed channel"
  end).

End Experiment.
