(* ===== verification/BenchCommands.v ===== *)
(** * tools/benchmark: messages, readers and the three commands

    messagegenerator and messagereader, and the commands that start metron, doppler or the
    traffic controller, push counters through it and count what comes out.  The process that is
    started, the network and the random numbers are arguments.  [producer_sends] shows how many
    envelopes the fake doppler really sends. *)

From Stdlib Require Import Ascii SpecFloat.
From S2P Require Import Prelude Go Events Conversion ConversionRoundTrip BatchWriter Router Tls DrainBinder Finder Config Process.

Local Open Scope Z_scope.

(** ** messagegenerator/message_generator.go *)

Module MessageGenerator.

Definition BasicValueMetricEnvelope (origin : string) : V1.Envelope :=
  V1.mkEnvelope (Some origin) (Some V1.Envelope_ValueMetric) None None None None None ∅ None None
    (Some (V1.mkValueMetric (Some "fake-metric-name"%string) (Some (float_of 42)) (Some "fake-unit"%string))) None None None.

Definition BasicCounterEvent (origin : string) : V1.Envelope :=
  V1.mkEnvelope (Some origin) (Some V1.Envelope_CounterEvent) None None None None None ∅ None None None
    (Some (V1.mkCounterEvent (Some "fake-counter-event"%string) (Some 1) (Some 2))) None None.

Definition BasicLogMessageEnvelope (origin appID : string) (now : Z) : V1.Envelope :=
  V1.mkEnvelope (Some origin) (Some V1.Envelope_LogMessage) None None None None None ∅ None
    (Some (V1.mkLogMessage "test message" (Some V1.LogMessage_OUT) (Some now) (Some appID) None None)) None None None None.

(** The legacy message: [LogEnvelope] of the generated code. *)
Record LogEnvelope : Type := mkLogEnvelope {
  RoutingKey : string; Signature : string; Message : string; MessageType : V1.MessageType; Timestamp : Z; AppId : string }.

Definition BasicLegacyLogMessageEnvelope (now : Z) : LogEnvelope :=
  mkLogEnvelope "routing-key" EmptyString "test message" V1.LogMessage_OUT now "app-id".

(** The generators drop the error of [Marshal]; its message is then nil. *)
Definition BasicValueMetric (Marshal : V1.Envelope -> result bytes) : bytes :=
  match Marshal (BasicValueMetricEnvelope "test-origin") with Ok b => b | Err _ => [] end.

Definition LogMessageGenerator_Generate (Marshal : V1.Envelope -> result bytes) (appID : string) (now : Z) : bytes :=
  match Marshal (BasicLogMessageEnvelope "test-origin" appID now) with Ok b => b | Err _ => [] end.

Definition BasicLegacyLogMessage (Marshal : LogEnvelope -> result bytes) (now : Z) : bytes :=
  match Marshal (BasicLegacyLogMessageEnvelope now) with Ok b => b | Err _ => [] end.

End MessageGenerator.

(** ** messagereader *)

Module MessageReader.

(** udp.go: a datagram of at most 65535 bytes; [None] is the nil that errors are turned into,
    and a datagram shorter than a signature panics. *)
Definition UDPReader_Read (Unmarshal : bytes -> result V1.Envelope) (r : result bytes) : outcome (option V1.Envelope) :=
  match r with
  | Err _ => Returns None
  | Ok data =>
      let readData := take (N.to_nat 65535) data in
      if bool_decide (length readData < 32)%nat then Panics "slice bounds out of range"
      else Returns (match Unmarshal (drop 32 readData) with Ok message => Some message | Err _ => None end)
  end.

(** tls.go: what [readFromConn] cuts out of the bytes of a connection that then ends. *)
Fixpoint readFromConn (fuel : nat) (b : bytes) : outcome (list bytes) :=
  match b with
  | [] => Returns []
  | b0 :: b1 :: b2 :: b3 :: r =>
      match fuel with
      | O => Panics "fuel"
      | S fuel =>
          let size := Z.to_nat (le_value [b0; b1; b2; b3]) in
          if bool_decide (size <= length r)%nat
          then (let! l := readFromConn fuel (drop size r) in Returns (take size r :: l))%go
          else Panics "unexpected EOF"
      end
  | _ => Panics "unexpected EOF"
  end.

(** [addMessage]: the envelopes put on the channel. *)
Definition addMessage (Unmarshal : bytes -> result V1.Envelope) (b : bytes) : outcome V1.Envelope :=
  match Unmarshal b with Ok env => Returns env | Err err => Panics err end.

Lemma readFromConn_unframe fuel b :
  readFromConn fuel b = match unframe fuel b with Some l => Returns l | None => readFromConn fuel b end.
Proof.
  revert b. induction fuel as [|fuel IH]; intros b.
  - by destruct b as [|? [|? [|? [|? ?]]]].
  - destruct b as [|b0 [|b1 [|b2 [|b3 r]]]]; [done..|]. cbn [readFromConn unframe]. case_bool_decide; [|done].
    destruct (unframe fuel (drop _ r)) as [l|] eqn:E; cbn [fmap option_fmap option_map]; [|done].
    rewrite IH, E. done.
Qed.

(** The reader gets the messages of the batches that metron's writer frames. *)
Lemma reader_decodes l fuel : Forall small l -> (length (frame l) <= fuel)%nat -> readFromConn fuel (frame l) = Returns l.
Proof. intros Hl Hf. by rewrite readFromConn_unframe, unframe_frame. Qed.

Lemma short_datagram_panics Unmarshal data : (length data < 32)%nat -> exists why, UDPReader_Read Unmarshal (Ok data) = Panics why.
Proof.
  intros Hd. unfold UDPReader_Read. rewrite bool_decide_eq_true_2; [by eexists|]. rewrite length_take. lia.
Qed.

End MessageReader.

(** ** The commands *)

(** The required flags in their order: the first that is empty ends the command. *)
Fixpoint required (flags : list (string * string)) : proc unit :=
  match flags with
  | [] => mret tt
  | (name, value) :: flags =>
      if Str.empty value then stop (Fatal ("Missing required flag '" +:+ name +:+ "'")) else required flags
  end.

Lemma required_all flags tr : (required flags tr).2 = inr tt <-> Forall (fun f => f.2 <> EmptyString) flags.
Proof.
  induction flags as [|[name value] flags IH]; [done|]. cbn [required]. rewrite Forall_cons. cbn [snd].
  destruct value; cbn [Str.empty]; [split; [done|intros [[] _]; done]|]. rewrite IH. split; [by split|by intros [_ H]].
Qed.

(** [createEnvelope] of the commands, which differ in the origin; [n] and [delta] are drawn. *)
Definition benchmark_envelope (origin : string) (now : Z) (n delta : Z) : V1.Envelope :=
  V1.mkEnvelope (Some origin) (Some V1.Envelope_CounterEvent) (Some now) None None None None ∅ None None None
    (Some (V1.mkCounterEvent (Some ("some-name-" +:+ Strconv.Itoa n)) (Some delta) None)) None None.

Definition createEnvelope (Marshal : V1.Envelope -> result bytes) (origin : string) (now n delta : Z) : outcome bytes :=
  match Marshal (benchmark_envelope origin now n delta) with
  | Ok data => Returns data
  | Err _ => Panics "Failed to marshal envelope"
  end.

(** The loop of [produceEnvelopes]: the first write that fails ends the command. *)
Fixpoint produce (Marshal : V1.Envelope -> result bytes) (origin onError : string) (iterations : nat) (draws : nat -> Z * Z * Z)
  (writes : nat -> option string) (i : nat) : outcome (list bytes) :=
  match iterations with
  | O => Returns []
  | S iterations =>
      let '(now, n, delta) := draws i in
      (let! data := createEnvelope Marshal origin now n delta in
       match writes i with
       | Some err => Panics (onError +:+ err)
       | None => let! l := produce Marshal origin onError iterations draws writes (S i) in Returns (data :: l)
       end)%go
  end.

Lemma produce_all Marshal origin onError k draws writes :
  (forall e, exists b, Marshal e = Ok b) -> (forall i, writes i = None) ->
  forall i, exists l, produce Marshal origin onError k draws writes i = Returns l /\ length l = k.
Proof.
  intros HM Hw. induction k as [|k IH]; intros i; cbn [produce]; [by exists []|].
  destruct (draws i) as [[now n] delta]. unfold createEnvelope. destruct (HM (benchmark_envelope origin now n delta)) as [b ->].
  cbn [obind]. rewrite Hw. destruct (IH (S i)) as (l & -> & Hl). cbn [obind]. exists (b :: l). split; [done|]. cbn. by rewrite Hl.
Qed.

(** *** metron/metron_benchmark.go *)

Module MetronBenchmark.

Record flags : Type := mkFlags { cmd : string; doppler : string; metron : string; ca : string; cert : string; key : string }.

(** [main] up to its cycles; [started] is the answer of the command's [Start]. *)
Definition main {Cert CAs} `{Environment Cert CAs} (f : flags) (started : option string) : proc unit :=
  required [("cmd", cmd f); ("doppler", doppler f); ("metron", metron f); ("ca", ca f); ("cert", cert f); ("key", key f)]%string;;
  r ← may_panic (NewServerCredentials (cert f) (key f) (ca f) []);
  check r (fun err => Fatal ("Unable to setup TLS: " +:+ err));;
  listen "tcp" (doppler f) (fun err => Panic ("Failed to listen: " +:+ err));;
  succeed started (fun err => Panic ("Failed to start metron: " +:+ err)).

(** [produceEnvelopes] after the address is dialled. *)
Definition produceEnvelopes (Marshal : V1.Envelope -> result bytes) (iterations : nat) (draws : nat -> Z * Z * Z)
  (dialled : option string) (writes : nat -> option string) : outcome (list bytes) :=
  match dialled with
  | Some err => Panics ("Unable to dial: " +:+ err)
  | None => produce Marshal "metron-benchmark" "Failed to write data to metron: " iterations draws writes 0
  end.

End MetronBenchmark.

(** *** doppler/doppler_benchmark.go *)

Module DopplerBenchmark.

Record flags : Type := mkFlags { cmd : string; doppler : string; ca : string; cert : string; key : string; cn : string }.

Definition main {Cert CAs} `{Environment Cert CAs} (f : flags) (started : option string) : proc unit :=
  required [("cmd", cmd f); ("doppler", doppler f); ("ca", ca f); ("cert", cert f); ("key", key f); ("cn", cn f)]%string;;
  check (NewClientCredentials (cert f) (key f) (ca f) (cn f)) (fun _ => Fatal "Unable to setup TLS");;
  succeed started (fun err => Panic ("Failed to start doppler: " +:+ err)).

(** [produceEnvelopes] after the dial and the call of [Pusher]. *)
Definition produceEnvelopes (Marshal : V1.Envelope -> result bytes) (iterations : nat) (draws : nat -> Z * Z * Z)
  (dialled pusher : option string) (sends : nat -> option string) : outcome (list bytes) :=
  match dialled, pusher with
  | Some err, _ => Panics ("Failed to dial gRPC server: " +:+ err)
  | None, Some err => Panics ("Got error in establishing writer into doppler: " +:+ err)
  | None, None => produce Marshal "doppler-benchmark" "Failed to write data to doppler: " iterations draws sends 0
  end.

(** The subscription of the consumer: a shard of the firehose. *)
Definition consumer_request : SubscriptionRequest := Router.mkRequest "doppler-benchmark" None.

(** It is asked for every envelope, so also for those the benchmark produces. *)
Lemma consumer_matches app origin now n delta :
  matches app (benchmark_envelope origin now n delta) (convertFilter consumer_request) = true.
Proof. done. Qed.

End DopplerBenchmark.

(** ** What the commands count *)

Module Consumer.

(** A turn of the loop of [Pusher] or [Start]: an error of [Recv] makes metron's consumer
    return and doppler's try again. *)
Definition receive (origin : string) (count : Z) (e : result V1.Envelope) : outcome Z :=
  match e with
  | Err err => Panics ("Failed to unmarshal received envelope: " +:+ err)
  | Ok e => Returns (if decide (str (V1.Origin e) = origin) then Words.int64 (count + 1) else count)
  end.

(** The main loop next to the consumer: a cycle resets the counter, and reads it later. *)
Inductive event : Type := Received (e : result V1.Envelope) | ResetCount | Report.

Record counting : Type := mkCounting { count : Z; results : list Z }.

Definition step (origin : string) (c : counting) (e : event) : outcome counting :=
  match e with
  | Received e => (let! n := receive origin (count c) e in Returns (mkCounting n (results c)))%go
  | ResetCount => Returns (mkCounting 0 (results c))
  | Report => Returns (mkCounting (count c) (results c ++ [count c]))
  end.

Definition own (origin : string) (l : list V1.Envelope) : list V1.Envelope := filter (fun e => str (V1.Origin e) = origin) l.

Lemma receive_all origin l c : 0 <= count c -> count c + Z.of_nat (length l) < 2 ^ 63 ->
  ofold (step origin) ((fun e => Received (Ok e)) <$> l) c = Returns (mkCounting (count c + Z.of_nat (length (own origin l))) (results c)).
Proof.
  revert c. induction l as [|e l IH]; intros c H0 Hb; cbn [fmap list_fmap ofold length] in *.
  - cbn. rewrite Z.add_0_r. by destruct c.
  - cbn [step receive obind]. unfold own. rewrite filter_cons. fold (own origin l). case_decide.
    + rewrite Words.swrap_small by lia. cbn [obind]. rewrite IH; cbn [count results length]; [|lia..].
      do 2 f_equal. lia.
    + rewrite IH; cbn [count results]; [done|lia..].
Qed.

(** The result of a cycle is the number of its own envelopes that arrived in it. *)
Theorem cycle_result origin l c : Z.of_nat (length l) < 2 ^ 63 ->
  ofold (step origin) (ResetCount :: ((fun e => Received (Ok e)) <$> l) ++ [Report]) c =
    Returns (mkCounting (Z.of_nat (length (own origin l))) (results c ++ [Z.of_nat (length (own origin l))])).
Proof.
  intros Hl. cbn [ofold step obind]. rewrite ofold_app, receive_all by (cbn [count]; lia). done.
Qed.

End Consumer.

(** *** trafficcontroller/trafficcontroller_benchmark.go *)

Module ControllerBenchmark.

Record flags : Type := mkFlags {
  cmd : string; trafficcontroller : string; doppler : string; ca : string; cert : string; key : string; etcd : string }.

Section Main.

Context {Cert CAs : Type} `{Environment Cert CAs}.

Definition connectToEtcd (etcdURLs : list string) : proc ETCDOptions :=
  options ← etcd_adapter 10 (mkETCDOptions etcdURLs false EmptyString EmptyString EmptyString);
  succeed (etcd_Connect options) Panic;;
  emit (Connected options);;
  mret options.

Definition dopplerConfig : AnnounceConfig := mkAnnounceConfig "a-zone" "benchmarker" "1" 10000 8282.

(** The announcement writes to the store before the command is started. *)
Definition main (f : flags) (started : option string) : proc unit :=
  required [("cmd", cmd f); ("trafficontroller", trafficcontroller f); ("doppler", doppler f); ("ca", ca f); ("cert", cert f);
    ("key", key f); ("etcd", etcd f)]%string;;
  connectToEtcd [etcd f];;
  calls ← may_panic (Announce json_Marshal MaintainNode (doppler f) 86400000000000 dopplerConfig);
  announced calls;;
  succeed started (fun err => Panic ("Failed to start trafficcontroller: " +:+ err));;
  r ← may_panic (NewServerCredentials (cert f) (key f) (ca f) []);
  check r (fun err => Panic ("Unable to setup TLS: " +:+ err));;
  listen "tcp" (doppler f) (fun err => Panic ("failed to listen: " +:+ err)).

End Main.

End ControllerBenchmark.

(** The fake doppler. *)

Module Producer.

(** The counter the calls of [Subscribe] share; each call waits for a reset, sends or has
    returned. *)
Inductive phase : Type := Arrives | Waits | Sends | Returned.

#[export] Instance phase_eq_dec : EqDecision phase.
Proof. solve_decision. Defined.

Record producer : Type := mkProducer { iterations : Z; calls : list phase; sent : nat }.

Definition newProducer (iter : Z) : producer := mkProducer iter [] 0.

Inductive event : Type := Subscribe | Turn (i : nat) | Reset (i : nat) | SetIterations (n : Z).

Definition set_call (p : producer) (i : nat) (ph : phase) : producer := mkProducer (iterations p) (<[i := ph]> (calls p)) (sent p).

(** The value from the channel [reset] goes to one waiting call. *)
Definition step (p : producer) (e : event) : producer :=
  match e with
  | Subscribe => mkProducer (iterations p) (calls p ++ [Arrives]) (sent p)
  | Turn i =>
      match calls p !! i with
      | Some Arrives => set_call p i (if decide (iterations p = 0) then Waits else Sends)
      | Some Sends =>
          let n := Words.int64 (iterations p - 1) in
          if bool_decide (n > 0) then mkProducer n (calls p) (S (sent p))
          else set_call (mkProducer n (calls p) (sent p)) i Returned
      | _ => p
      end
  | Reset i => match calls p !! i with Some Waits => set_call p i Sends | _ => p end
  | SetIterations n => mkProducer n (calls p) (sent p)
  end.

Definition quiet (e : event) : Prop := match e with SetIterations _ => False | _ => True end.

(** While the counter is positive, every decrement has sent; the one that reaches zero and all
    after it have not. *)
Definition producer_ok (n k : Z) (p : producer) : Prop :=
  n - k <= iterations p <= n /\
  (0 < iterations p -> Z.of_nat (sent p) = n - iterations p /\ Returned ∉ calls p) /\
  (iterations p <= 0 -> Z.of_nat (sent p) = n - 1).

Lemma not_returned_insert (l : list phase) (i : nat) ph : Returned ∉ l -> ph <> Returned -> Returned ∉ <[i := ph]> l.
Proof.
  intros Hl Hp [j Hj]%list_elem_of_lookup. apply list_lookup_insert_Some in Hj as [(_ & -> & _)|[_ Hj]]; [done|].
  apply Hl. by eapply list_elem_of_lookup_2.
Qed.

Lemma producer_step_ok n k p e : 1 <= n < 2 ^ 62 -> 0 <= k < 2 ^ 62 -> quiet e -> producer_ok n k p -> producer_ok n (k + 1) (step p e).
Proof.
  intros Hn Hk He (Hb & Hpos & Hneg).
  assert (forall l, (0 < iterations p -> Returned ∉ l) -> producer_ok n (k + 1) (mkProducer (iterations p) l (sent p))) as Hcalls.
  { intros l Hl. unfold producer_ok. cbn [iterations sent calls]. split; [lia|]. split; [|done].
    intros H0. split; [by apply Hpos|by apply Hl]. }
  destruct e as [|i|i|m]; cbn [step]; [| | |done].
  - apply Hcalls. intros H0. apply Hpos in H0 as [_ H0]. set_solver.
  - destruct (calls p !! i) as [[| | |]|] eqn:Ei; try (destruct p; by apply Hcalls; intros; apply Hpos).
    + apply Hcalls. intros H0. apply not_returned_insert; [by apply Hpos|]. by case_decide.
    + rewrite Words.swrap_small by lia. case_bool_decide as Hn0; unfold producer_ok; cbn [iterations sent calls set_call].
      * split; [lia|]. split; [|lia]. intros _. destruct Hpos as [Hs Hr]; [lia|]. split; [lia|done].
      * split; [lia|]. split; [lia|]. intros _. destruct (decide (0 < iterations p)) as [H0|H0]; [|apply Hneg; lia].
        apply Hpos in H0 as [Hs _]. lia.
  - destruct (calls p !! i) as [[| | |]|] eqn:Ei; try (destruct p; by apply Hcalls; intros; apply Hpos).
    apply Hcalls. intros H0. by apply not_returned_insert; [apply Hpos|].
Qed.

(** However many calls of [Subscribe] share the counter and however they interleave, at most
    one envelope less than asked for is sent, and exactly that many once a call returns. *)
Theorem producer_sends n l : 1 <= n < 2 ^ 62 -> Z.of_nat (length l) < 2 ^ 62 -> Forall quiet l ->
  let p := foldl step (newProducer n) l in
  Z.of_nat (sent p) <= n - 1 /\ (Returned ∈ calls p -> Z.of_nat (sent p) = n - 1).
Proof.
  intros Hn Hlen Hl. assert (forall k p, 0 <= k -> k + Z.of_nat (length l) < 2 ^ 62 -> producer_ok n k p ->
    producer_ok n (k + Z.of_nat (length l)) (foldl step p l)) as G.
  { clear Hlen. induction Hl as [|e l He Hl IH]; intros k p H0 Hk Hp; cbn [foldl length] in *; [by rewrite Z.add_0_r|].
    replace (k + Z.of_nat (S (length l))) with (k + 1 + Z.of_nat (length l)) by lia. apply IH; [lia..|].
    apply producer_step_ok; [done|lia|done|done]. }
  cbv zeta. destruct (G 0 (newProducer n)) as (Hb & Hpos & Hneg); [lia..| |].
  { split; [cbn; lia|]. split; cbn; [|lia]. intros _. split; [lia|set_solver]. }
  set (p := foldl step (newProducer n) l) in *. destruct (decide (0 < iterations p)) as [H0|H0].
  - destruct (Hpos H0) as [Hs Hr]. split; [lia|done].
  - rewrite Hneg by lia. split; [lia|done].
Qed.

End Producer.
