(* ===== verification/Tools.v ===== *)
(** * The small tools: echo servers, load generators and readers

    tools/echo, tools/dummymetron, tools/metronreader, tools/udpwriter, tools/backpressure,
    tools/logspinner, tools/biglogger and tools/wsdestroyer.  What sockets, clocks, the
    environment and HTTP answer are arguments; a loop is one definition per turn, or a function
    of the list of answers. *)

From Stdlib Require Import Ascii.
From S2P Require Import Prelude Go Events Http Tls Config Process WebsocketServer Latency Probe.

Local Open Scope Z_scope.

(** ** echo/cmd/tcp_server/main.go *)

Module TcpEcho.

Section Server.

Context {Cert CAs : Type} `{Environment Cert CAs} (X509KeyPair : string -> string -> result Cert).

(** The fields of [tls.Config] the server sets. *)
Record tls_config : Type := mkTls { InsecureSkipVerify : bool; Certificates : list Cert; SessionTicketsDisabled : bool }.

(** The listener: its address, and the configuration when it speaks TLS. *)
Record server : Type := mkServer { address : string; config : option tls_config }.

Definition listen_plain (address : string) : proc server :=
  listen "tcp" address Panic;; mret (mkServer address None).

Definition listenTLS (address certPath keyPath : string) : proc server :=
  certContent ← check (ReadFile certPath) Panic;
  keyContent ← check (ReadFile keyPath) Panic;
  cert ← check (X509KeyPair certContent keyContent) Panic;
  listen "tcp" address Panic;;
  mret (mkServer address (Some (mkTls true [cert] true))).

Definition NewServer (ssl : bool) (certPath keyPath address : string) : proc server :=
  if ssl then listenTLS address certPath keyPath else listen_plain address.

(** [Start]: the connections handled before [Accept] fails. *)
Fixpoint Start (accepts : list (result nat)) : list nat :=
  match accepts with
  | Ok conn :: accepts => conn :: Start accepts
  | _ => []
  end.

Definition Stop (closed : option string) : proc unit :=
  succeed closed (fun err => Fatal ("could not stop listener: " +:+ err)).

End Server.

(** An answer of [Read] into a buffer of 1024 bytes. *)
Inductive read_answer : Type := Data (s : string) | EOF | ReadError.

(** What [handleConnection] prints, and whether it has returned. *)
Fixpoint handleConnection (answers : list read_answer) : string * bool :=
  match answers with
  | [] => (EmptyString, false)
  | EOF :: _ => (EmptyString, true)
  | ReadError :: answers => handleConnection answers
  | Data s :: answers => let '(out, r) := handleConnection answers in (s +:+ out, r)
  end.

Definition data_of (a : read_answer) : string := match a with Data s => s | _ => EmptyString end.

(** What was sent before the end of the stream is printed, in order. *)
Lemma handleConnection_echoes l rest : Forall (fun a => a <> EOF) l ->
  handleConnection (l ++ EOF :: rest) = (foldr (fun a s => data_of a +:+ s) EmptyString l, true).
Proof. induction 1 as [|[s| |] l Ha Hl IH]; cbn [app handleConnection foldr data_of]; rewrite ?IH; done. Qed.

(** The read deadline is set once.  After it every read fails, the end of the stream is not
    seen any more, and the goroutine spins without ever returning. *)
Lemma handleConnection_spins l n : Forall (fun a => a <> EOF) l -> (handleConnection (l ++ replicate n ReadError)).2 = false.
Proof.
  induction 1 as [|a l Ha Hl IH]; cbn [app].
  - induction n as [|n IH]; [done|exact IH].
  - destruct a as [s| |]; cbn [handleConnection]; [|done|exact IH].
    by destruct (handleConnection (l ++ replicate n ReadError)).
Qed.

End TcpEcho.

(** ** echo/cmd/http_server/main.go *)

Module HttpEcho.

Record server : Type := mkServer { certPath : string; keyPath : string; addr : string; path : string }.

Definition NewServer (port : Z) (path certPath keyPath : string) : server :=
  mkServer certPath keyPath (":" +:+ Strconv.Itoa port) path.

(** [ListenAndServeTLS] returns only with an error. *)
Definition Start (err : string) : halt := Fatal err.

(** One [Read] of the body into 1024 bytes: the first [byteCount] of them. *)
Definition echoHandler (bytes : string) (byteCount : nat) : string :=
  Str.take_n (Nat.min byteCount (N.to_nat 1024)) bytes +:+ String "010" EmptyString.

End HttpEcho.

(** ** dummymetron/main.go *)

Module DummyMetron.

Record flags : Type := mkFlags { udpPort : Z; grpcPort : Z; certFile : string; keyFile : string; caFile : string }.

Definition main {Cert CAs} `{Environment Cert CAs} (f : flags) : proc (Tls.Config (Cert := Cert) (Pool := CAs)) :=
  listen "udp4" (":" +:+ Strconv.Itoa (udpPort f)) Fatal;;
  r ← may_panic (NewServerCredentials (certFile f) (keyFile f) (caFile f) []);
  transportCreds ← check r Fatal;
  listen "tcp" (":" +:+ Strconv.Itoa (grpcPort f)) Fatal;;
  mret transportCreds.

(** [Sender] and [BatchSender]: the calls of [Recv]; the error is logged and nil returned. *)
Fixpoint Sender (recv : list (option string)) : option (option string) :=
  match recv with
  | [] => None
  | Some _ :: _ => Some None
  | None :: recv => Sender recv
  end.

Definition BatchSender : list (option string) -> option (option string) := Sender.

End DummyMetron.

(** ** udpwriter/main.go *)

Module UdpWriter.

Definition envelope (origin : string) (now1 now2 : Z) : V1.Envelope :=
  V1.mkEnvelope (Some origin) (Some V1.Envelope_LogMessage) (Some now1) None None None None ∅ None
    (Some (V1.mkLogMessage EmptyString (Some V1.LogMessage_OUT) (Some now2) None None None)) None None None None.

(** A turn of [write]: the datagram it writes; an error of the socket is only logged. *)
Definition write_turn (marshal : V1.Envelope -> option string) (msg : string) (now1 now2 : Z) : halt + string :=
  match marshal (envelope msg now1 now2) with
  | None => inl (Fatal "marshal")
  | Some envData => inr envData
  end.

Definition writeSlow (marshal : V1.Envelope -> option string) : Z -> Z -> halt + string := write_turn marshal "slow".
Definition writeFast (marshal : V1.Envelope -> option string) : Z -> Z -> halt + string := write_turn marshal "fast".

End UdpWriter.

(** ** metronreader/main.go *)

Module MetronReader.

Record flags : Type := mkFlags { certFile : string; keyFile : string; caFile : string }.

(** The verb [%d] gets the pointer that [flag.Int] returns, not the number: [portAddress] is
    where the flag lies in memory. *)
Definition main {Cert CAs} `{Environment Cert CAs} (f : flags) (portAddress : Z) : proc unit :=
  r ← may_panic (NewServerCredentials (certFile f) (keyFile f) (caFile f) []);
  check r Fatal;;
  listen "tcp" (":" +:+ Strconv.Itoa portAddress) Fatal.

(** A call of [Pusher] with its goroutine [printRate]: the counter they share, the trip times
    and rates printed, and whether either has returned. *)
Record call : Type := mkCall { fastRate : Z; slow : list Z; rates : list Z; returned : bool; printing : bool }.

Definition start : call := mkCall 0 [] [] false true.

Inductive event : Type :=
| RecvError
| Recv (env : result V1.Envelope) (now : Z)
| PrintRate.

(** A turn of either loop; the payload comes decoded. *)
Definition step (c : call) (e : event) : outcome call :=
  match e with
  | RecvError => Returns (mkCall (fastRate c) (slow c) (rates c) true (printing c))
  | Recv env now =>
      if returned c then Returns c
      else match env with
      | Err _ => Returns c
      | Ok env =>
          match V1.Timestamp env, V1.Origin env with
          | Some ts, Some origin =>
              let tripTime := Sub now ts in
              Returns (mkCall (if decide (origin = "fast"%string) then Words.add 64 (fastRate c) 1 else fastRate c)
                (if decide (origin = "slow"%string) then slow c ++ [tripTime] else slow c) (rates c) false (printing c))
          | _, _ => Panics "invalid memory address or nil pointer dereference"
          end
      end
  | PrintRate =>
      if negb (printing c) then Returns c
      else if returned c then Returns (mkCall (fastRate c) (slow c) (rates c) true false)
      else Returns (mkCall 0 (slow c) (rates c ++ [fastRate c]) false true)
  end.

Definition is_fast (e : event) : bool :=
  match e with Recv (Ok env) _ => bool_decide (V1.Origin env = Some "fast"%string) | _ => false end.

Definition sum (l : list Z) : Z := foldr Z.add 0 l.

Lemma sum_snoc l x : sum (l ++ [x]) = sum l + x.
Proof. unfold sum. induction l as [|y l IH]; cbn [app foldr]; lia. Qed.

(** The envelopes counted before the stream ended. *)
Fixpoint fast_before_end (l : list event) : nat :=
  match l with
  | [] => 0
  | RecvError :: _ => 0
  | e :: l => (if is_fast e then 1 else 0) + fast_before_end l
  end.

Definition timed (e : event) : Prop :=
  match e with Recv (Ok env) _ => is_Some (V1.Timestamp env) /\ is_Some (V1.Origin env) | _ => True end.

Lemma step_returns c e : timed e -> exists c', step c e = Returns c'.
Proof.
  destruct e as [|[env|err] now|]; cbn [step]; [eauto|..].
  - intros [[ts ->] [o ->]]. destruct (returned c); eauto.
  - intros _. destruct (returned c); eauto.
  - intros _. destruct (printing c); cbn [negb]; [|eauto]. destruct (returned c); eauto.
Qed.

Lemma returned_stays l c : returned c = true -> Forall timed l ->
  exists c', ofold step l c = Returns c' /\ sum (rates c') + fastRate c' = sum (rates c) + fastRate c.
Proof.
  intros Hr Hl. revert c Hr. induction Hl as [|e l He Hl IH]; intros c Hr; cbn [ofold]; [eauto|].
  assert (exists c1, step c e = Returns c1 /\ returned c1 = true /\ rates c1 = rates c /\ fastRate c1 = fastRate c)
    as (c1 & -> & H1 & H2 & H3).
  { destruct e as [|[env|err] now|]; cbn [step]; rewrite ?Hr; eauto. destruct (printing c); cbn [negb]; eauto. }
  cbn [obind]. destruct (IH c1 H1) as (c' & E & Hs). exists c'. split; [done|]. by rewrite Hs, H2, H3.
Qed.

(** The rest of an execution, by the induction hypothesis. *)
Ltac next_state :=
  match goal with
  | IH : forall c, returned c = false -> _ |- exists c', ofold step ?l ?c1 = _ /\ _ =>
      let E := fresh in let Hs := fresh in
      destruct (IH c1) as (c' & E & Hs); cbn [returned printing fastRate rates] in *; try done;
      try (exists c'; split; [exact E|rewrite Hs])
  end.

(** No fast envelope is lost between the two goroutines: the rates printed and the counter add
    up to the envelopes received before the stream ended. *)
Theorem rates_conserve l : Forall timed l -> Z.of_nat (length l) < 2 ^ 64 ->
  exists c, ofold step l start = Returns c /\ sum (rates c) + fastRate c = Z.of_nat (fast_before_end l).
Proof.
  intros Hl Hlen. assert (forall c, returned c = false -> printing c = true -> 0 <= fastRate c ->
    fastRate c + Z.of_nat (length l) < 2 ^ 64 ->
    exists c', ofold step l c = Returns c' /\
      sum (rates c') + fastRate c' = sum (rates c) + fastRate c + Z.of_nat (fast_before_end l)) as G.
  { clear Hlen. induction Hl as [|e l He Hl IH]; intros c Hr Hp H0 Hb; cbn [ofold fast_before_end length] in *;
      [exists c; split; [done|lia]|]. destruct e as [|[env|err] now|]; cbn [step]; rewrite ?Hr, ?Hp; cbn [negb obind is_fast].
    - destruct (returned_stays l (mkCall (fastRate c) (slow c) (rates c) true (printing c)) eq_refl Hl) as (c' & E & Hs).
      rewrite Hp in E. exists c'. split; [done|]. cbn [rates fastRate] in Hs. lia.
    - destruct He as [[ts ->] [o Ho]]. rewrite Ho. cbn [obind]. destruct (decide (o = "fast"%string)) as [->|Hne].
      + rewrite Words.add_small by lia. rewrite bool_decide_eq_true_2 by done. next_state; lia.
      + rewrite bool_decide_eq_false_2 by congruence. next_state; lia.
    - next_state; lia.
    - next_state; rewrite ?sum_snoc; lia. }
  destruct (G start eq_refl eq_refl) as (c & E & Hs); [done|cbn; lia|]. exists c. split; [done|]. rewrite Hs. done.
Qed.

End MetronReader.

(** ** backpressure/main.go *)

Module Backpressure.

Definition msg1K : string := RlpWriter.Repeat "J" (N.to_nat 1024) +:+ String "010" EmptyString.

(** The numbers and the host of a report; the text around them is left out. *)
Record report : Type := mkReport { duration : Z; messages : Z; host : string }.

(** [postDatadog]: after an error of [Post] the response is nil, and closing its body panics;
    a bad status is only logged. *)
Definition postDatadog (max count : Z) (host : string) (resp : result Z) : outcome report :=
  match resp with
  | Err _ => Panics "invalid memory address or nil pointer dereference"
  | Ok _ => Returns (mkReport max count host)
  end.

(** [hostFromEnv] of the decoded VCAP_APPLICATION. *)
Definition hostFromEnv (vcap : result (list string)) : halt + string :=
  match vcap with
  | Err err => inl (Fatal ("unable to parse VCAP_APPLICATION: " +:+ err))
  | Ok [] => inl (Fatal "no uris available from VCAP_APPLICATION")
  | Ok (u :: _) => inr u
  end.

Record observer : Type := mkObserver { max : Z; count : Z; posted : list report }.

Inductive event : Type := Tick (resp : result Z) | Delta (d : Z).

(** A turn of [observer]'s loop. *)
Definition observer_turn (h : string) (o : observer) (e : event) : outcome observer :=
  match e with
  | Tick resp =>
      match postDatadog (max o) (count o) h resp with
      | Panics why => Panics why
      | Returns r => Returns (mkObserver 0 (count o) (posted o ++ [r]))
      end
  | Delta delta =>
      Returns (mkObserver (if bool_decide (delta > max o) then delta else max o) (Words.int64 (count o + 1)) (posted o))
  end.

(** A turn of [logger]: a full channel loses the duration. *)
Definition logger_turn (elapsed : Z) (d : Chan.t Z) : Chan.t Z :=
  match Chan.try_send d elapsed with Chan.Sent d => d | _ => d end.

Definition deltas (l : list event) : list Z := omap (fun e => match e with Delta d => Some d | Tick _ => None end) l.

(** One report that cannot be delivered ends the whole process. *)
Lemma post_error_panics h o err l : exists why, ofold (observer_turn h) (Tick (Err err) :: l) o = Panics why.
Proof. by eexists. Qed.

(** Between two ticks: the largest duration, and the messages since the start. *)
Lemma observer_interval h o ds status : 0 <= count o -> count o + Z.of_nat (length ds) < 2 ^ 63 ->
  ofold (observer_turn h) ((Delta <$> ds) ++ [Tick (Ok status)]) o =
    Returns (mkObserver 0 (count o + Z.of_nat (length ds))
      (posted o ++ [mkReport (foldl Z.max (max o) ds) (count o + Z.of_nat (length ds)) h])).
Proof.
  revert o. induction ds as [|d ds IH]; intros o H0 Hb; cbn [fmap list_fmap app ofold foldl length] in *.
  - cbn. by rewrite Z.add_0_r.
  - cbn [observer_turn obind]. rewrite Words.swrap_small by lia. rewrite IH; cbn [count max posted]; [|lia..].
    replace (if bool_decide (d > max o) then d else max o) with (Z.max (max o) d) by (case_bool_decide; lia).
    do 2 f_equal; [lia|]. do 3 f_equal. lia.
Qed.

End Backpressure.

(** ** logspinner/logspinner.go *)

Module LogSpinner.

Section Handler.

Context (FormValue : string -> string) (ParseDuration : string -> result Z) (Duration_String : Z -> string).

(** The parameters of a request, with their defaults. *)
Definition parameters : Z * Z * string :=
  let cycleCount := match Strconv.ParseInt (FormValue "cycles") 64 with
                    | Some n => if bool_decide (n = 0) then 10 else n
                    | None => 10
                    end in
  let delay := match ParseDuration (FormValue "delay") with Ok d => d | Err _ => 1000000000 end in
  let logText := if Str.empty (FormValue "text") then "LogSpinner Log Message"%string else FormValue "text" in
  (cycleCount, delay, logText).

(** [rootResponse]: the answer, and what the goroutine it starts prints before its summary. *)
Definition rootResponse : string :=
  let '(cycleCount, delay, logText) := parameters in
  "cycles " +:+ Strconv.Itoa cycleCount +:+ ", delay " +:+ Duration_String delay +:+ ", text " +:+ logText
  +:+ String "010" EmptyString.

End Handler.

Definition outputLog (cycleCount : Z) (logText : string) : list string :=
  (fun i => "msg " +:+ Strconv.Itoa (Z.of_nat i + 1) +:+ " " +:+ logText +:+ String "010" EmptyString)
    <$> seq 0 (Z.to_nat cycleCount).

(** A request without a number of cycles, with zero or with no number writes ten messages, a
    negative number writes none. *)
Lemma outputLog_length FormValue ParseDuration :
  let '(cycles, _, text) := parameters FormValue ParseDuration in
  length (outputLog cycles text) =
    match Strconv.ParseInt (FormValue "cycles"%string) 64 with
    | Some n => if bool_decide (n = 0) then 10%nat else Z.to_nat n
    | None => 10%nat
    end.
Proof.
  unfold parameters, outputLog. rewrite length_fmap, length_seq.
  destruct (Strconv.ParseInt _ _) as [n|]; [by case_bool_decide|done].
Qed.

End LogSpinner.

(** ** biglogger/main.go *)

Module BigLogger.

(** [make] panics when the size is negative. *)
Definition buildMessage (mb : Z) : outcome string :=
  if bool_decide (mb * 1024 * 1024 < 0) then Panics "makeslice: len out of range"
  else Returns (RlpWriter.Repeat "*" (Z.to_nat (mb * 1024 * 1024))).

Lemma buildMessage_size mb : 0 <= mb ->
  exists m, buildMessage mb = Returns m /\ Z.of_nat (String.length m) = mb * 2 ^ 20.
Proof.
  intros Hm. unfold buildMessage. rewrite bool_decide_eq_false_2 by lia. eexists. split; [done|].
  rewrite ProbeExample.Repeat_length. lia.
Qed.

End BigLogger.

(** ** wsdestroyer/main.go *)

Module WsDestroyer.

Definition maxReads : Z := 10.

(** The paths [firehoseTest] and [appStreamTest] dial. *)
Definition firehoseTest (subID : string) : string := "/firehose/" +:+ subID.
Definition appStreamTest (appID : string) : string := "/apps/" +:+ appID +:+ "/stream".

(** The dials of turn [i] of [firehose] and of [appStream]. *)
Definition firehose (i : Z) : list string :=
  [firehoseTest "wsdestroyer-sub-id"; firehoseTest ("wsdestroyer-sub-id-" +:+ Strconv.Itoa i)].
Definition appStream (appID : string) : list string := [appStreamTest appID].

(** The messages read: at most [r] of them, up to the first error. *)
Fixpoint simulate_reads (r : nat) (answers : list (option string)) : nat :=
  match r, answers with
  | S r, None :: answers => S (simulate_reads r answers)
  | _, _ => 0
  end.

Lemma simulate_reads_bound r answers : (simulate_reads r answers <= r)%nat.
Proof. revert answers. induction r as [|r IH]; intros [|[e|] answers]; cbn; try lia. specialize (IH answers). lia. Qed.

Definition dial (path : string) : Request := mkRequest "GET" path EmptyString ∅ [] EmptyString.

Lemma Split_no_slash s : Str.IndexOf s "/" = None -> Str.Split s "/" = [s].
Proof. apply Str.Split_no_sep. Qed.

Lemma firehose_reaches id :
  Str.IndexOf id "/" = None -> ServeHTTP (Ok tt) NewResponse (dial (firehoseTest id)) = Returns (Upgraded (HStreamFirehose id)).
Proof.
  intros Hid. unfold ServeHTTP, firehoseTest. cbn [rq_Path dial].
  change ("/firehose/" +:+ id) with (EmptyString +:+ String "/" ("firehose" +:+ String "/" id)).
  rewrite !Str.Split_cons, Split_no_slash by done. done.
Qed.

(** Every dial of the firehose reaches its stream, and so does the dial of an application. *)
Theorem dials_reach i app : 0 <= i -> app <> EmptyString -> Str.IndexOf app "/" = None ->
  (forall path, path ∈ firehose i -> exists id, ServeHTTP (Ok tt) NewResponse (dial path) = Returns (Upgraded (HStreamFirehose id))) /\
  (forall path, path ∈ appStream app -> ServeHTTP (Ok tt) NewResponse (dial path) = Returns (Upgraded (HStreamLogs app))).
Proof.
  intros Hi Hne Happ. split.
  - intros path [->|[->|[]%elem_of_nil]%elem_of_cons]%elem_of_cons; eexists; apply firehose_reaches; [done|].
    apply Str.IndexOf_app_None; [done|]. apply Strconv.Itoa_no_char; [done|]. vm_compute. intros [H _]. by apply H.
  - intros path ->%list_elem_of_singleton. unfold ServeHTTP, appStreamTest. cbn [rq_Path dial].
    change ("/apps/" +:+ app +:+ "/stream") with (EmptyString +:+ String "/" ("apps" +:+ String "/" (app +:+ String "/" "stream"))).
    rewrite !Str.Split_cons, Split_no_slash by done. cbn. by destruct app.
Qed.

End WsDestroyer.
